(** * Verification of the parametric CRC engine of [Modules/crcmodule.c]

    The development embeds the C code of the module shallowly:

    - a [crc_u64] is an [N] below [2^64]; left shifts are truncated
      explicitly, right shifts, AND, OR and XOR are the ones of [N];
    - a byte string is a [list byte], a data pointer is the pair of its
      address and of the bytes it points to (the address only matters for
      the alignment prologue of the wordwise kernel);
    - [crcu64_impl] is a record, every C function that mutates it is a
      function returning the new record;
    - the two table caches of the module state are finite maps from the
      bytes of a [crc_config] to a table buffer, a buffer being an object
      identity together with its contents;
    - the endianness of the host and the address of the static zero buffer
      are parameters gathered in the record [host]. *)

From Stdlib Require Import NArith List Bool Lia String Ascii.
From Stdlib Require Strings.Byte.
From stdpp Require Import base option countable gmap.
Import ListNotations.

Local Open Scope N_scope.

(** ** Integer type shortcuts *)

Definition CRC_U8_WIDTH : N := 8.
Definition CRC_U64_LEAST : N := 64.
Definition CRC_MAX_WIDTH : N := CRC_U64_LEAST.
Definition CRC_MAX_SIZE : N := (CRC_MAX_WIDTH + (CRC_U8_WIDTH - 1)) / CRC_U8_WIDTH.
Definition CRC_U8_COUNT : N := N.shiftl 1 CRC_U8_WIDTH.
Definition CRC_U8_MASK : N := CRC_U8_COUNT - 1.
Definition CRC_U64_TOP : N := N.shiftl 1 (CRC_U64_LEAST - 1).
Definition CRC_U64_MAX : N := 0xFFFFFFFFFFFFFFFF.
Definition SIZE_MAX : N := 0xFFFFFFFFFFFFFFFF.

(** Truncation of a result to the 64 bits of a [crc_u64]. *)
Definition u64 (x : N) : N := N.land x CRC_U64_MAX.

(** [x << n] on a [crc_u64]. *)
Definition shl64 (x n : N) : N := u64 (N.shiftl x n).

(** The value of a byte read from a buffer. *)
Definition byte_val (b : Byte.byte) : N := Byte.to_N b.

(** ** Generic helper functions *)

(** The bit mask of a width, for a width from 1 to [CRC_MAX_WIDTH].  The C
    function asserts [width <= CRC_MAX_WIDTH] and shifts a 64-bit word by
    [CRC_MAX_WIDTH - width]: at width 0 this is a shift by 64, which C
    leaves undefined, so the value of this definition at width 0 (and
    above 64) stands for nothing in the code.  [crcu64_impl_configure]
    refuses such a width before it calls the function. *)
Definition crc_u64_bitmask (width : N) : N :=
  N.shiftr 0xFFFFFFFFFFFFFFFF (CRC_MAX_WIDTH - width).

(** One stage of the swap cascades:
    [((word << s) & hi) | ((word >> s) & lo)]. *)
Definition swap_stage (s hi lo word : N) : N :=
  N.lor (N.land (N.shiftl word s) hi) (N.land (N.shiftr word s) lo).

(** The reversal of the low [width] bits of a word, for a width from 1 to
    [CRC_MAX_WIDTH].  The C function ends with a shift by [64 - width],
    undefined in C at width 0: as for [crc_u64_bitmask], the value of this
    definition at width 0 (and above 64) stands for nothing in the code. *)
Definition crc_u64_bitswap (word width : N) : N :=
  let word := swap_stage 32 0xFFFFFFFF00000000 0x00000000FFFFFFFF word in
  let word := swap_stage 16 0xFFFF0000FFFF0000 0x0000FFFF0000FFFF word in
  let word := swap_stage  8 0xFF00FF00FF00FF00 0x00FF00FF00FF00FF word in
  let word := swap_stage  4 0xF0F0F0F0F0F0F0F0 0x0F0F0F0F0F0F0F0F word in
  let word := swap_stage  2 0xCCCCCCCCCCCCCCCC 0x3333333333333333 word in
  let word := swap_stage  1 0xAAAAAAAAAAAAAAAA 0x5555555555555555 word in
  N.shiftr word (64 - width).

Definition crc_u64_byteswap (word : N) : N :=
  let word := swap_stage 32 0xFFFFFFFF00000000 0x00000000FFFFFFFF word in
  let word := swap_stage 16 0xFFFF0000FFFF0000 0x0000FFFF0000FFFF word in
  let word := swap_stage  8 0xFF00FF00FF00FF00 0x00FF00FF00FF00FF word in
  word.

(** ** Configurations *)

Record crc_config := mk_config {
  cfg_poly : N;       (* polynomial *)
  cfg_init : N;       (* initial value *)
  cfg_xorout : N;     (* output XOR mask *)
  cfg_width : N;      (* bit width *)
  cfg_refin : bool;   (* reflected input *)
  cfg_refout : bool   (* reflected output *)
}.

(** ** Implementation of a CRC algorithm *)

(** The three update functions an implementation can point to. *)
Inductive crcu64_func_update :=
| update_bitwise
| update_bytewise
| update_wordwise.

(** A table buffer: the identity of the byte array object that holds it
    and the [crc_u64] values it contains. *)
Record tabbuf := mk_tabbuf {
  buf_id : nat;
  buf_data : list N
}.

Record crcu64_impl := mk_impl {
  impl_init : N;                              (* optimized initial value *)
  impl_poly : N;                              (* optimized polynomial *)
  impl_accum : N;                             (* optimized current accumulator *)
  impl_xorout : N;                            (* optimized output XOR mask *)
  impl_result : N;                            (* cached digest result *)
  impl_update : option crcu64_func_update;    (* optimized update function *)
  impl_bytewise : option tabbuf;              (* optimized bytewise table, or NULL *)
  impl_wordwise : option tabbuf;              (* optimized wordwise table, or NULL *)
  impl_width : N;                             (* bit width *)
  impl_refin : bool;                          (* reflected input *)
  impl_refout : bool;                         (* reflected output *)
  impl_dirty : bool                           (* internal state changed *)
}.

Definition set_accum (impl : crcu64_impl) (a : N) : crcu64_impl :=
  mk_impl (impl_init impl) (impl_poly impl) a (impl_xorout impl)
          (impl_result impl) (impl_update impl) (impl_bytewise impl)
          (impl_wordwise impl) (impl_width impl) (impl_refin impl)
          (impl_refout impl) (impl_dirty impl).

Definition set_dirty (impl : crcu64_impl) (d : bool) : crcu64_impl :=
  mk_impl (impl_init impl) (impl_poly impl) (impl_accum impl) (impl_xorout impl)
          (impl_result impl) (impl_update impl) (impl_bytewise impl)
          (impl_wordwise impl) (impl_width impl) (impl_refin impl)
          (impl_refout impl) d.

Definition set_result (impl : crcu64_impl) (r : N) : crcu64_impl :=
  mk_impl (impl_init impl) (impl_poly impl) (impl_accum impl) (impl_xorout impl)
          r (impl_update impl) (impl_bytewise impl)
          (impl_wordwise impl) (impl_width impl) (impl_refin impl)
          (impl_refout impl) (impl_dirty impl).

Definition set_update (impl : crcu64_impl) (u : option crcu64_func_update) : crcu64_impl :=
  mk_impl (impl_init impl) (impl_poly impl) (impl_accum impl) (impl_xorout impl)
          (impl_result impl) u (impl_bytewise impl)
          (impl_wordwise impl) (impl_width impl) (impl_refin impl)
          (impl_refout impl) (impl_dirty impl).

Definition set_bytewise (impl : crcu64_impl) (t : option tabbuf) : crcu64_impl :=
  mk_impl (impl_init impl) (impl_poly impl) (impl_accum impl) (impl_xorout impl)
          (impl_result impl) (impl_update impl) t
          (impl_wordwise impl) (impl_width impl) (impl_refin impl)
          (impl_refout impl) (impl_dirty impl).

Definition set_wordwise (impl : crcu64_impl) (t : option tabbuf) : crcu64_impl :=
  mk_impl (impl_init impl) (impl_poly impl) (impl_accum impl) (impl_xorout impl)
          (impl_result impl) (impl_update impl) (impl_bytewise impl)
          t (impl_width impl) (impl_refin impl)
          (impl_refout impl) (impl_dirty impl).

(** Implementation constructor (requires further configuration). *)
Definition crcu64_impl_ctor : crcu64_impl :=
  mk_impl 0 0 0 0 0 None None None 0 false false false.

(** Copies an implementation instance status to another instance: every
    field of [dst] is overwritten by the one of [src]. *)
Definition crcu64_impl_copy (dst src : crcu64_impl) : crcu64_impl :=
  mk_impl (impl_init src) (impl_poly src) (impl_accum src) (impl_xorout src)
          (impl_result src) (impl_update src) (impl_bytewise src)
          (impl_wordwise src) (impl_width src) (impl_refin src)
          (impl_refout src) (impl_dirty src).

Definition crcu64_impl_internalize (impl : crcu64_impl) (value : N) : N :=
  if impl_refin impl
  then crc_u64_bitswap value (impl_width impl)
  else shl64 value (CRC_U64_LEAST - impl_width impl).

Definition crcu64_impl_externalize (impl : crcu64_impl) (value : N) : N :=
  if impl_refin impl
  then crc_u64_bitswap value (impl_width impl)
  else N.shiftr value (CRC_U64_LEAST - impl_width impl).

(** Resets the implementation to its configured initial state. *)
Definition crcu64_impl_clear_default (impl : crcu64_impl) : crcu64_impl :=
  let impl := set_dirty impl false in
  let impl := set_accum impl (impl_init impl) in
  set_result impl (crcu64_impl_externalize impl (impl_init impl)).

(** Resets the implementation to the provided initial state.  The C
    function asserts [init <= crc_u64_bitmask(impl->width)]; the assertion
    is compiled out of release builds and is the predicate
    [clear_init_assert] below. *)
Definition crcu64_impl_clear_init (impl : crcu64_impl) (init : N) : crcu64_impl :=
  let impl := set_dirty impl false in
  let impl := set_result impl init in
  set_accum impl (crcu64_impl_internalize impl init).

Definition clear_init_assert (impl : crcu64_impl) (init : N) : Prop :=
  init <= crc_u64_bitmask (impl_width impl).

(** ** The bitwise kernel *)

(** One round of the reflected shift register. *)
Definition round_reflected (poly accum : N) : N :=
  if negb (N.land accum 1 =? 0)
  then N.lxor (N.shiftr accum 1) poly
  else N.shiftr accum 1.

(** One round of the normal (left aligned) shift register. *)
Definition round_normal (poly accum : N) : N :=
  if negb (N.land accum CRC_U64_TOP =? 0)
  then N.lxor (shl64 accum 1) poly
  else shl64 accum 1.

(** [while (width--) { round }]. *)
Fixpoint rounds (round : N -> N) (width : nat) (accum : N) : N :=
  match width with
  | O => accum
  | S width' => rounds round width' (round accum)
  end.

(** Updates the internal state with an input word and its bit width. *)
Definition crcu64_impl_update_word (impl : crcu64_impl) (word width : N) : crcu64_impl :=
  if width =? 0 then impl else
  let poly := impl_poly impl in
  let accum := impl_accum impl in
  let accum :=
    if impl_refin impl
    then rounds (round_reflected poly) (N.to_nat width) (N.lxor accum word)
    else rounds (round_normal poly) (N.to_nat width)
                (N.lxor accum (shl64 word (CRC_U64_LEAST - width))) in
  set_dirty (set_accum impl accum) true.

(** The body of the [while (data != end)] loops of the bitwise kernel. *)
Definition bitwise_byte_reflected (poly accum : N) (b : Byte.byte) : N :=
  rounds (round_reflected poly) (N.to_nat CRC_U8_WIDTH) (N.lxor accum (byte_val b)).

Definition bitwise_byte_normal (poly accum : N) (b : Byte.byte) : N :=
  rounds (round_normal poly) (N.to_nat CRC_U8_WIDTH)
         (N.lxor accum (shl64 (byte_val b) (CRC_U64_LEAST - CRC_U8_WIDTH))).

(** Updates the internal state with an input byte string, bit by bit. *)
Definition crcu64_impl_update_bitwise (impl : crcu64_impl) (data : list Byte.byte) : crcu64_impl :=
  match data with
  | [] => impl
  | _ =>
    let poly := impl_poly impl in
    let accum := impl_accum impl in
    let accum :=
      if impl_refin impl
      then fold_left (bitwise_byte_reflected poly) data accum
      else fold_left (bitwise_byte_normal poly) data accum in
    set_dirty (set_accum impl accum) true
  end.

(** ** The bytewise kernel *)

(** [table[i]]; the kernels assert that the table pointer is not NULL and
    only index inside the table, a read elsewhere is given the value 0. *)
Definition table_get (table : option tabbuf) (i : N) : N :=
  match table with
  | Some t => nth (N.to_nat i) (buf_data t) 0
  | None => 0
  end.

Definition bytewise_byte_reflected (table : option tabbuf) (accum : N) (b : Byte.byte) : N :=
  let byte := byte_val b in
  let upper := N.shiftr accum CRC_U8_WIDTH in
  let lower := accum in
  let lower := table_get table (N.land (N.lxor byte lower) CRC_U8_MASK) in
  N.lxor lower upper.

Definition bytewise_byte_normal (table : option tabbuf) (accum : N) (b : Byte.byte) : N :=
  let byte := byte_val b in
  let lower := shl64 accum CRC_U8_WIDTH in
  let upper := N.shiftr accum (CRC_U64_LEAST - CRC_U8_WIDTH) in
  let upper := table_get table (N.land (N.lxor byte upper) CRC_U8_MASK) in
  N.lxor lower upper.

(** Updates the internal state with an input byte string, via byte table. *)
Definition crcu64_impl_update_bytewise (impl : crcu64_impl) (data : list Byte.byte) : crcu64_impl :=
  match data with
  | [] => impl
  | _ =>
    let table := impl_bytewise impl in
    let accum := impl_accum impl in
    let accum :=
      if impl_refin impl
      then fold_left (bytewise_byte_reflected table) data accum
      else fold_left (bytewise_byte_normal table) data accum in
    set_dirty (set_accum impl accum) true
  end.

(** ** The wordwise kernel *)

(** What the C code learns from its host: the value of
    [is_little_endian()] and the address of the static [zerobuf]. *)
Record host := mk_host {
  little_endian : bool;
  zerobuf_addr : N
}.

(** A wordwise update stage, little-endian data. *)
Definition crcu64_wordwise_little (table : option tabbuf) (accum : N) : N :=
  N.lxor (N.lxor (N.lxor (N.lxor (N.lxor (N.lxor (N.lxor
    (table_get table (7 * CRC_U8_COUNT + N.land (N.shiftr accum  0) CRC_U8_MASK))
    (table_get table (6 * CRC_U8_COUNT + N.land (N.shiftr accum  8) CRC_U8_MASK)))
    (table_get table (5 * CRC_U8_COUNT + N.land (N.shiftr accum 16) CRC_U8_MASK)))
    (table_get table (4 * CRC_U8_COUNT + N.land (N.shiftr accum 24) CRC_U8_MASK)))
    (table_get table (3 * CRC_U8_COUNT + N.land (N.shiftr accum 32) CRC_U8_MASK)))
    (table_get table (2 * CRC_U8_COUNT + N.land (N.shiftr accum 40) CRC_U8_MASK)))
    (table_get table (1 * CRC_U8_COUNT + N.land (N.shiftr accum 48) CRC_U8_MASK)))
    (table_get table (0 * CRC_U8_COUNT + N.land (N.shiftr accum 56) CRC_U8_MASK)).

(** A wordwise update stage, big-endian data. *)
Definition crcu64_wordwise_big (table : option tabbuf) (accum : N) : N :=
  N.lxor (N.lxor (N.lxor (N.lxor (N.lxor (N.lxor (N.lxor
    (table_get table (0 * CRC_U8_COUNT + N.land (N.shiftr accum  0) CRC_U8_MASK))
    (table_get table (1 * CRC_U8_COUNT + N.land (N.shiftr accum  8) CRC_U8_MASK)))
    (table_get table (2 * CRC_U8_COUNT + N.land (N.shiftr accum 16) CRC_U8_MASK)))
    (table_get table (3 * CRC_U8_COUNT + N.land (N.shiftr accum 24) CRC_U8_MASK)))
    (table_get table (4 * CRC_U8_COUNT + N.land (N.shiftr accum 32) CRC_U8_MASK)))
    (table_get table (5 * CRC_U8_COUNT + N.land (N.shiftr accum 40) CRC_U8_MASK)))
    (table_get table (6 * CRC_U8_COUNT + N.land (N.shiftr accum 48) CRC_U8_MASK)))
    (table_get table (7 * CRC_U8_COUNT + N.land (N.shiftr accum 56) CRC_U8_MASK)).

(** The [crc_u64] read by [*(const crc_u64 * )data] from eight bytes of
    memory: the first byte is the least significant one on a little-endian
    host and the most significant one on a big-endian host. *)
Fixpoint word_of_bytes_le (bs : list Byte.byte) : N :=
  match bs with
  | [] => 0
  | b :: bs' => N.lor (byte_val b) (N.shiftl (word_of_bytes_le bs') 8)
  end.

Definition load_u64 (le : bool) (bs : list Byte.byte) : N :=
  if le then word_of_bytes_le bs else word_of_bytes_le (rev bs).

(** The [do { ... } while (size >= CRC_MAX_SIZE)] loop; it is entered with
    at least eight bytes, so that it is the [while] loop written here.  It
    returns the accumulator and the bytes that are left. *)
Fixpoint wordwise_loop (stage : N -> N) (le : bool) (accum : N)
         (data : list Byte.byte) : N * list Byte.byte :=
  match data with
  | b0 :: b1 :: b2 :: b3 :: b4 :: b5 :: b6 :: b7 :: data' =>
      let word := load_u64 le [b0; b1; b2; b3; b4; b5; b6; b7] in
      let accum := N.lxor accum word in
      let accum := stage accum in
      wordwise_loop stage le accum data'
  | _ => (accum, data)
  end.

Definition size_of (data : list Byte.byte) : N := N.of_nat (length data).

(** The alignment prologue: when [data] is not aligned on eight bytes, the
    bytes up to the next aligned address (or all of them when there are
    fewer) go through the bytewise kernel. *)
Definition wordwise_prologue (impl : crcu64_impl) (addr : N) (data : list Byte.byte)
  : crcu64_impl * list Byte.byte :=
  let offset := addr mod CRC_MAX_SIZE in
  if negb (offset =? 0) then
    let offset := CRC_MAX_SIZE - offset in
    let offset := if size_of data <? offset then size_of data else offset in
    (crcu64_impl_update_bytewise impl (firstn (N.to_nat offset) data),
     skipn (N.to_nat offset) data)
  else (impl, data).

(** The [if (size >= CRC_MAX_SIZE) { ... }] block. *)
Definition wordwise_blocks (h : host) (impl : crcu64_impl) (data : list Byte.byte)
  : crcu64_impl * list Byte.byte :=
  if CRC_MAX_SIZE <=? size_of data then
    let accum := impl_accum impl in
    let '(accum, data) :=
      if little_endian h then
        let accum := if negb (impl_refin impl) then crc_u64_byteswap accum else accum in
        let '(accum, data) :=
          wordwise_loop (crcu64_wordwise_little (impl_wordwise impl)) true accum data in
        let accum := if negb (impl_refin impl) then crc_u64_byteswap accum else accum in
        (accum, data)
      else
        let accum := if impl_refin impl then crc_u64_byteswap accum else accum in
        let '(accum, data) :=
          wordwise_loop (crcu64_wordwise_big (impl_wordwise impl)) false accum data in
        let accum := if impl_refin impl then crc_u64_byteswap accum else accum in
        (accum, data) in
    (set_dirty (set_accum impl accum) true, data)
  else (impl, data).

(** Updates the internal state with an input byte string, via the
    multi-byte lookup table; [addr] is the address [data] points to. *)
Definition crcu64_impl_update_wordwise (h : host) (impl : crcu64_impl)
           (addr : N) (data : list Byte.byte) : crcu64_impl :=
  if size_of data =? 0 then impl else
  let '(impl, data) := wordwise_prologue impl addr data in
  let '(impl, data) := wordwise_blocks h impl data in
  if negb (size_of data =? 0) then crcu64_impl_update_bytewise impl data else impl.

(** Updates the instance with the configured optimized update method.
    The C function asserts that the function pointer is not NULL. *)
Definition crcu64_impl_update (h : host) (impl : crcu64_impl)
           (addr : N) (data : list Byte.byte) : crcu64_impl :=
  match impl_update impl with
  | Some update_bitwise => crcu64_impl_update_bitwise impl data
  | Some update_bytewise => crcu64_impl_update_bytewise impl data
  | Some update_wordwise => crcu64_impl_update_wordwise h impl addr data
  | None => impl
  end.

(** ** Zero extension *)

Definition zerobuf : list Byte.byte := repeat Byte.x00 (N.to_nat CRC_U8_COUNT).

(** [while (numbytes >= CRC_U8_COUNT) { ... }]; every turn takes 256 off
    [numbytes], so that [numbytes] turns are always enough. *)
Fixpoint zero_bytes_loop (fuel : nat) (h : host) (impl : crcu64_impl)
         (numbytes : N) : crcu64_impl * N :=
  match fuel with
  | O => (impl, numbytes)
  | S fuel' =>
      if CRC_U8_COUNT <=? numbytes then
        let numbytes := numbytes - CRC_U8_COUNT in
        let impl := crcu64_impl_update h impl (zerobuf_addr h) zerobuf in
        zero_bytes_loop fuel' h impl numbytes
      else (impl, numbytes)
  end.

(** Feeds the input with a number of NULL bytes. *)
Definition crcu64_impl_zero_bytes (h : host) (impl : crcu64_impl)
           (numbytes : N) : crcu64_impl :=
  if numbytes =? 0 then impl else
  let '(impl, numbytes) := zero_bytes_loop (N.to_nat numbytes) h impl numbytes in
  if negb (numbytes =? 0)
  then crcu64_impl_update h impl (zerobuf_addr h) (firstn (N.to_nat numbytes) zerobuf)
  else impl.

(** Feeds the input with a number of NULL bits. *)
Definition crcu64_impl_zero_bits (h : host) (impl : crcu64_impl)
           (numbits : N) : crcu64_impl :=
  let numbytes := numbits / CRC_U8_WIDTH in
  let numbits := numbits - numbytes * CRC_U8_WIDTH in
  let impl := crcu64_impl_zero_bytes h impl numbytes in
  crcu64_impl_update_word impl 0 numbits.

(** ** Digest *)

(** Updates and returns the digest result value. *)
Definition crcu64_impl_digest (impl : crcu64_impl) : crcu64_impl * N :=
  if impl_dirty impl then
    let impl := set_dirty impl false in
    let width := impl_width impl in
    let accum := impl_accum impl in
    let accum :=
      if negb (impl_refin impl)
      then N.shiftr accum (CRC_U64_LEAST - width)
      else accum in
    let accum :=
      if Bool.eqb (impl_refin impl) (impl_refout impl)
      then N.land accum (crc_u64_bitmask width)
      else crc_u64_bitswap accum width in
    let impl := set_result impl (N.lxor accum (impl_xorout impl)) in
    (impl, impl_result impl)
  else (impl, impl_result impl).

(** ** Configuration *)

(** Applies the nominal configuration, optimizing internally.  The C
    function returns an error string and leaves the implementation as it
    is, or returns NULL after it has written the implementation. *)
Definition crcu64_impl_configure (impl : crcu64_impl) (config : crc_config)
  : string + crcu64_impl :=
  let width := cfg_width config in
  if (CRC_MAX_WIDTH <? width) || (width =? 0) then inl "width out of range"%string else
  let mask := crc_u64_bitmask width in
  let poly := cfg_poly config in
  if (mask <? poly) || (poly =? 0) then inl "poly out of range"%string else
  let init := cfg_init config in
  if mask <? init then inl "init out of range"%string else
  let xorout := cfg_xorout config in
  if mask <? xorout then inl "xorout out of range"%string else
  let impl := mk_impl (impl_init impl) (impl_poly impl) (impl_accum impl)
                      (impl_xorout impl) (impl_result impl) (impl_update impl)
                      (impl_bytewise impl) (impl_wordwise impl)
                      (cfg_width config) (cfg_refin config) (cfg_refout config)
                      (impl_dirty impl) in
  let init_ := crcu64_impl_internalize impl init in
  let poly_ := crcu64_impl_internalize impl poly in
  inr (mk_impl init_ poly_ init_ xorout (cfg_init config)
               (Some update_bitwise) None None
               (impl_width impl) (impl_refin impl) (impl_refout impl)
               (impl_dirty impl)).

(** ** Tabulation *)

(** The values [0 .. 255] of the [byte] loops and [1 .. 7] of the [slice]
    loop. *)
Definition byte_range : list N := map N.of_nat (seq 0 (N.to_nat CRC_U8_COUNT)).
Definition slice_range : list N := map N.of_nat (seq 1 (N.to_nat CRC_MAX_SIZE - 1)).

(** Tabulates the optimized bytewise values for a given implementation.
    The C loop overwrites [impl->accum] and [impl->dirty] and restores them
    from its backups at the end; here the loop works on [set_accum impl 0]
    and the implementation only changes by the contents of its buffer. *)
Definition tabulate_bytewise_entry (impl : crcu64_impl) (table : list N) (byte : N) : list N :=
  let impl' := set_accum impl 0 in
  let impl' := crcu64_impl_update_word impl' byte CRC_U8_WIDTH in
  <[N.to_nat byte := impl_accum impl']> table.

Definition crcu64_impl_tabulate_bytewise (impl : crcu64_impl) : crcu64_impl :=
  match impl_bytewise impl with
  | None => impl
  | Some buf =>
      let table := fold_left (tabulate_bytewise_entry impl) byte_range (buf_data buf) in
      set_bytewise impl (Some (mk_tabbuf (buf_id buf) table))
  end.

(** The evolution of an accumulator through one zero byte, as written in
    the [slice] loop of the wordwise tabulation. *)
Definition tabulate_zero_byte (impl : crcu64_impl) (accum : N) : N :=
  if impl_refin impl then
    let upper := N.shiftr accum CRC_U8_WIDTH in
    let lower := accum in
    let lower := table_get (impl_bytewise impl) (N.land lower CRC_U8_MASK) in
    N.lxor lower upper
  else
    let lower := shl64 accum CRC_U8_WIDTH in
    let upper := N.shiftr accum (CRC_U64_LEAST - CRC_U8_WIDTH) in
    let upper := table_get (impl_bytewise impl) (N.land upper CRC_U8_MASK) in
    N.lxor lower upper.

Definition tabulate_wordwise_slice (byteswap : bool) (impl : crcu64_impl) (byte : N)
           (st : N * list N) (slice : N) : N * list N :=
  let '(accum, table) := st in
  let accum := tabulate_zero_byte impl accum in
  let index := CRC_U8_COUNT * slice + byte in
  let value := accum in
  let value := if byteswap then crc_u64_byteswap value else value in
  (accum, <[N.to_nat index := value]> table).

Definition tabulate_wordwise_entry (h : host) (impl : crcu64_impl)
           (table : list N) (byte : N) : list N :=
  let byteswap := xorb (little_endian h) (impl_refin impl) in
  let accum := table_get (impl_bytewise impl) byte in
  let value := accum in
  let value := if byteswap then crc_u64_byteswap value else value in
  let table := <[N.to_nat byte := value]> table in
  snd (fold_left (tabulate_wordwise_slice byteswap impl byte) slice_range (accum, table)).

(** Tabulates the optimized wordwise values for a given implementation. *)
Definition crcu64_impl_tabulate_wordwise (h : host) (impl : crcu64_impl) : crcu64_impl :=
  match impl_wordwise impl with
  | None => impl
  | Some buf =>
      let table := fold_left (tabulate_wordwise_entry h impl) byte_range (buf_data buf) in
      set_wordwise impl (Some (mk_tabbuf (buf_id buf) table))
  end.

(** ** Combine *)

Definition crcu64_combine (h : host) (impl : crcu64_impl) (crc1 crc2 len2 : N)
  : crcu64_impl * N :=
  if len2 =? 0 then (impl, crc1) else
  let dirty_ := impl_dirty impl in
  let accum_ := impl_accum impl in
  let crc1 := N.lxor crc1 (impl_xorout impl) in
  let crc2 := N.lxor crc2 (impl_xorout impl) in
  let '(crc1, crc2) :=
    if impl_refout impl then
      let width := impl_width impl in
      (crc_u64_bitswap crc1 width, crc_u64_bitswap crc2 width)
    else (crc1, crc2) in
  let impl := crcu64_impl_clear_init impl crc1 in
  let impl := set_accum impl (N.lxor (impl_accum impl) (impl_init impl)) in
  let impl := crcu64_impl_zero_bytes h impl len2 in
  let accum1 := impl_accum impl in
  let impl := crcu64_impl_clear_init impl crc2 in
  let accum2 := impl_accum impl in
  let impl := set_accum impl (N.lxor accum1 accum2) in
  let impl := set_dirty impl true in
  let '(impl, crc) := crcu64_impl_digest impl in
  let impl := set_accum impl accum_ in
  let impl := set_dirty impl dirty_ in
  (impl, crc).

(** ** Module types *)

(** CRC object status variables.  The two [tabbuf] fields own the byte
    array objects the table pointers of [impl] point into. *)
Record crcu64object := mk_object {
  tabbuf_bytes : option tabbuf;
  tabbuf_words : option tabbuf;
  impl : crcu64_impl
}.

Definition set_impl (self : crcu64object) (i : crcu64_impl) : crcu64object :=
  mk_object (tabbuf_bytes self) (tabbuf_words self) i.

(** The table caches are dictionaries from the bytes of a [crc_config] to
    a byte array object; the bytes of a configuration are given by its six
    fields. *)
Definition tabkey : Type := N * N * N * N * bool * bool.

Definition tabkey_of (config : crc_config) : tabkey :=
  (cfg_poly config, cfg_init config, cfg_xorout config,
   cfg_width config, cfg_refin config, cfg_refout config).

(** Module state variables; [next_object] is the identity the next
    allocated byte array object receives. *)
Record crcmodule_state := mk_state {
  next_object : nat;
  crcu64_bytewise_cache : gmap tabkey tabbuf;
  crcu64_wordwise_cache : gmap tabkey tabbuf
}.

(** The state [crcmodule_exec] leaves: two empty dictionaries. *)
Definition crcmodule_exec : crcmodule_state := mk_state 0 ∅ ∅.

(** Allocates and initializes a new CRC object. *)
Definition _crc_crcu64_type_new : crcu64object :=
  mk_object None None crcu64_impl_ctor.

(** What a method of the CRC object gives back to Python: a value or a
    raised exception with its message. *)
Inductive py_result (A : Type) :=
| Return (a : A)
| Raise (exc msg : string).
Arguments Return {A} a.
Arguments Raise {A} exc msg.

(** Returns the internal result as an integer object. *)
Definition _crc_crcu64_type_index (self : crcu64object) : crcu64object * N :=
  let '(impl', result) := crcu64_impl_digest (impl self) in
  (set_impl self impl', result).

(** [combine]: works on a local copy of the implementation. *)
Definition _crc_crcu64_combine_impl (h : host) (self : crcu64object)
           (crc1 crc2 len2 : N) : crcu64object * py_result N :=
  let local := crcu64_impl_copy crcu64_impl_ctor (impl self) in
  let mask := crc_u64_bitmask (impl_width local) in
  if mask <? crc1 then (self, Raise "OverflowError" "crc1 out of range") else
  if mask <? crc2 then (self, Raise "OverflowError" "crc2 out of range") else
  let '(local, crc) := crcu64_combine h local crc1 crc2 len2 in
  (self, Return crc).

(** [copy]: a new object with the same buffers and the same status. *)
Definition _crc_crcu64_copy_impl (self : crcu64object) : crcu64object * crcu64object :=
  let copied := _crc_crcu64_type_new in
  let copied := mk_object (tabbuf_bytes self) (tabbuf_words self)
                          (crcu64_impl_copy (impl copied) (impl self)) in
  (self, copied).

(** [clear]: [init] is [None] when the argument is absent or [None]. *)
Definition _crc_crcu64_clear_impl (self : crcu64object) (init : option N) : crcu64object :=
  match init with
  | Some init_ => set_impl self (crcu64_impl_clear_init (impl self) init_)
  | None => set_impl self (crcu64_impl_clear_default (impl self))
  end.

(** [update]: the buffer is given by its address and its bytes. *)
Definition _crc_crcu64_update_impl (h : host) (self : crcu64object)
           (addr : N) (data : list Byte.byte) : crcu64object :=
  set_impl self (crcu64_impl_update h (impl self) addr data).

(** [update_word]: [width] is a C [int]. *)
Definition _crc_crcu64_update_word_impl (self : crcu64object) (word : N) (width : Z)
  : crcu64object * py_result unit :=
  if ((width <? 0) || (Z.of_N CRC_MAX_WIDTH <? width))%Z
  then (self, Raise "OverflowError" "width out of range")
  else (set_impl self (crcu64_impl_update_word (impl self) word (Z.to_N width)), Return tt).

Definition _crc_crcu64_zero_bits_impl (h : host) (self : crcu64object) (numbits : N)
  : crcu64object :=
  set_impl self (crcu64_impl_zero_bits h (impl self) numbits).

Definition _crc_crcu64_zero_bytes_impl (h : host) (self : crcu64object) (numbytes : N)
  : crcu64object :=
  set_impl self (crcu64_impl_zero_bytes h (impl self) numbytes).

(** ** Module helper functions *)

Definition CRC_METHOD_BITWISE : N := 0.
Definition CRC_METHOD_BYTEWISE : N := 1.
Definition CRC_METHOD_WORDWISE : N := 2.

(** Parses the method argument; [None] stands for an absent argument. *)
Definition crc_parse_method (method : option string) : py_result N :=
  match method with
  | Some m =>
      if String.eqb m "bitwise" then Return CRC_METHOD_BITWISE
      else if String.eqb m "bytewise" then Return CRC_METHOD_BYTEWISE
      else if String.eqb m "wordwise"
           then Return (N.lor CRC_METHOD_BYTEWISE CRC_METHOD_WORDWISE)
      else Raise "KeyError" "unknown method"
  | None => Return (N.lor CRC_METHOD_BYTEWISE CRC_METHOD_WORDWISE)
  end.

(** Applies the provided method to a CRC object: the table is taken from
    the cache under the key made of the bytes of [config], or allocated,
    tabulated and inserted under that key. *)
Definition crcu64_apply_method (h : host) (self : crcu64object) (method : N)
           (config : crc_config) (state : crcmodule_state)
  : crcu64object * crcmodule_state :=
  let tabkey := tabkey_of config in
  let impl0 := impl self in
  let '(impl0, cache, slices) :=
    if method =? CRC_METHOD_WORDWISE
    then (set_update impl0 (Some update_wordwise), crcu64_wordwise_cache state, 8)
    else (set_update impl0 (Some update_bytewise), crcu64_bytewise_cache state, 1) in
  match cache !! tabkey with
  | Some tabbuf =>
      if method =? CRC_METHOD_WORDWISE then
        (mk_object (tabbuf_bytes self) (Some tabbuf) (set_wordwise impl0 (Some tabbuf)),
         state)
      else
        (mk_object (Some tabbuf) (tabbuf_words self) (set_bytewise impl0 (Some tabbuf)),
         state)
  | None =>
      let tabsize := slices * CRC_U8_COUNT in
      let tabbuf := mk_tabbuf (next_object state) (repeat 0 (N.to_nat tabsize)) in
      if method =? CRC_METHOD_WORDWISE then
        let impl0 := set_wordwise impl0 (Some tabbuf) in
        let impl0 := crcu64_impl_tabulate_wordwise h impl0 in
        (mk_object (tabbuf_bytes self) (impl_wordwise impl0) impl0,
         mk_state (S (next_object state)) (crcu64_bytewise_cache state)
                  (match impl_wordwise impl0 with
                   | Some t => <[tabkey := t]> cache
                   | None => cache
                   end))
      else
        let impl0 := set_bytewise impl0 (Some tabbuf) in
        let impl0 := crcu64_impl_tabulate_bytewise impl0 in
        (mk_object (impl_bytewise impl0) (tabbuf_words self) impl0,
         mk_state (S (next_object state))
                  (match impl_bytewise impl0 with
                   | Some t => <[tabkey := t]> cache
                   | None => cache
                   end)
                  (crcu64_wordwise_cache state))
  end.

(** The part of [_crc_crc_impl] that follows the assembly of [config] from
    the arguments: a new object is configured, the tables of the parsed
    method are applied, and the optional initial data is consumed. *)
Definition crc_new (h : host) (state : crcmodule_state) (config : crc_config)
           (method : option string) (data : option (N * list Byte.byte))
  : py_result (crcmodule_state * crcu64object) :=
  let newu64 := _crc_crcu64_type_new in
  match crcu64_impl_configure (impl newu64) config with
  | inl errstr => Raise "OverflowError" errstr
  | inr impl' =>
      let newu64 := set_impl newu64 impl' in
      match crc_parse_method method with
      | Raise exc msg => Raise exc msg
      | Return method_ =>
          let bytewise := CRC_METHOD_BYTEWISE in
          let '(newu64, state) :=
            if negb (N.land method_ bytewise =? 0)
            then crcu64_apply_method h newu64 bytewise config state
            else (newu64, state) in
          let wordwise := CRC_METHOD_WORDWISE in
          let '(newu64, state) :=
            if negb (N.land method_ wordwise =? 0)
            then crcu64_apply_method h newu64 wordwise config state
            else (newu64, state) in
          let newu64 :=
            match data with
            | Some (addr, bytes) =>
                set_impl newu64 (crcu64_impl_update h (impl newu64) addr bytes)
            | None => newu64
            end in
          Return (state, newu64)
      end
  end.

(** ** The template catalogue *)

Definition crc_id : Type := N.

Definition crc_id_3_gsm : crc_id := 0.
Definition crc_id_3_rohc : crc_id := 1.
Definition crc_id_4_g_704 : crc_id := 2.
Definition crc_id_4_interlaken : crc_id := 3.
Definition crc_id_5_epc_c1g2 : crc_id := 4.
Definition crc_id_5_g_704 : crc_id := 5.
Definition crc_id_5_usb : crc_id := 6.
Definition crc_id_6_cdma2000_a : crc_id := 7.
Definition crc_id_6_cdma2000_b : crc_id := 8.
Definition crc_id_6_darc : crc_id := 9.
Definition crc_id_6_g_704 : crc_id := 10.
Definition crc_id_6_gsm : crc_id := 11.
Definition crc_id_7_mmc : crc_id := 12.
Definition crc_id_7_rohc : crc_id := 13.
Definition crc_id_7_umts : crc_id := 14.
Definition crc_id_8_autosar : crc_id := 15.
Definition crc_id_8_bluetooth : crc_id := 16.
Definition crc_id_8_cdma2000 : crc_id := 17.
Definition crc_id_8_darc : crc_id := 18.
Definition crc_id_8_dvb_s2 : crc_id := 19.
Definition crc_id_8_gsm_a : crc_id := 20.
Definition crc_id_8_gsm_b : crc_id := 21.
Definition crc_id_8_hitag : crc_id := 22.
Definition crc_id_8_i_432_1 : crc_id := 23.
Definition crc_id_8_i_code : crc_id := 24.
Definition crc_id_8_lte : crc_id := 25.
Definition crc_id_8_maxim_dow : crc_id := 26.
Definition crc_id_8_mifare_mad : crc_id := 27.
Definition crc_id_8_nrsc_5 : crc_id := 28.
Definition crc_id_8_opensafety : crc_id := 29.
Definition crc_id_8_rohc : crc_id := 30.
Definition crc_id_8_sae_j1850 : crc_id := 31.
Definition crc_id_8_smbus : crc_id := 32.
Definition crc_id_8_tech_3250 : crc_id := 33.
Definition crc_id_8_wcdma : crc_id := 34.
Definition crc_id_10_atm : crc_id := 35.
Definition crc_id_10_cdma2000 : crc_id := 36.
Definition crc_id_10_gsm : crc_id := 37.
Definition crc_id_11_flexray : crc_id := 38.
Definition crc_id_11_umts : crc_id := 39.
Definition crc_id_12_cdma2000 : crc_id := 40.
Definition crc_id_12_dect : crc_id := 41.
Definition crc_id_12_gsm : crc_id := 42.
Definition crc_id_12_umts : crc_id := 43.
Definition crc_id_13_bbc : crc_id := 44.
Definition crc_id_14_darc : crc_id := 45.
Definition crc_id_14_gsm : crc_id := 46.
Definition crc_id_15_can : crc_id := 47.
Definition crc_id_15_mpt1327 : crc_id := 48.
Definition crc_id_16_arc : crc_id := 49.
Definition crc_id_16_cdma2000 : crc_id := 50.
Definition crc_id_16_cms : crc_id := 51.
Definition crc_id_16_dds_110 : crc_id := 52.
Definition crc_id_16_dect_r : crc_id := 53.
Definition crc_id_16_dect_x : crc_id := 54.
Definition crc_id_16_dnp : crc_id := 55.
Definition crc_id_16_en_13757 : crc_id := 56.
Definition crc_id_16_genibus : crc_id := 57.
Definition crc_id_16_gsm : crc_id := 58.
Definition crc_id_16_ibm_3740 : crc_id := 59.
Definition crc_id_16_ibm_sdlc : crc_id := 60.
Definition crc_id_16_iso_iec_14443_3_a : crc_id := 61.
Definition crc_id_16_kermit : crc_id := 62.
Definition crc_id_16_lj1200 : crc_id := 63.
Definition crc_id_16_m17 : crc_id := 64.
Definition crc_id_16_maxim_dow : crc_id := 65.
Definition crc_id_16_mcrf4xx : crc_id := 66.
Definition crc_id_16_modbus : crc_id := 67.
Definition crc_id_16_nrsc_5 : crc_id := 68.
Definition crc_id_16_opensafety_a : crc_id := 69.
Definition crc_id_16_opensafety_b : crc_id := 70.
Definition crc_id_16_profibus : crc_id := 71.
Definition crc_id_16_riello : crc_id := 72.
Definition crc_id_16_spi_fujitsu : crc_id := 73.
Definition crc_id_16_t10_dif : crc_id := 74.
Definition crc_id_16_teledisk : crc_id := 75.
Definition crc_id_16_tms37157 : crc_id := 76.
Definition crc_id_16_umts : crc_id := 77.
Definition crc_id_16_usb : crc_id := 78.
Definition crc_id_16_xmodem : crc_id := 79.
Definition crc_id_17_can_fd : crc_id := 80.
Definition crc_id_21_can_fd : crc_id := 81.
Definition crc_id_24_ble : crc_id := 82.
Definition crc_id_24_flexray_a : crc_id := 83.
Definition crc_id_24_flexray_b : crc_id := 84.
Definition crc_id_24_interlaken : crc_id := 85.
Definition crc_id_24_lte_a : crc_id := 86.
Definition crc_id_24_lte_b : crc_id := 87.
Definition crc_id_24_openpgp : crc_id := 88.
Definition crc_id_24_os_9 : crc_id := 89.
Definition crc_id_30_cdma : crc_id := 90.
Definition crc_id_31_philips : crc_id := 91.
Definition crc_id_32_aixm : crc_id := 92.
Definition crc_id_32_autosar : crc_id := 93.
Definition crc_id_32_base91_d : crc_id := 94.
Definition crc_id_32_bzip2 : crc_id := 95.
Definition crc_id_32_cd_rom_edc : crc_id := 96.
Definition crc_id_32_cksum : crc_id := 97.
Definition crc_id_32_iscsi : crc_id := 98.
Definition crc_id_32_iso_hdlc : crc_id := 99.
Definition crc_id_32_jamcrc : crc_id := 100.
Definition crc_id_32_mef : crc_id := 101.
Definition crc_id_32_mpeg_2 : crc_id := 102.
Definition crc_id_32_xfer : crc_id := 103.
Definition crc_id_40_gsm : crc_id := 104.
Definition crc_id_64_ecma_182 : crc_id := 105.
Definition crc_id_64_go_iso : crc_id := 106.
Definition crc_id_64_ms : crc_id := 107.
Definition crc_id_64_nvme : crc_id := 108.
Definition crc_id_64_redis : crc_id := 109.
Definition crc_id_64_we : crc_id := 110.
Definition crc_id_64_xz : crc_id := 111.
Definition crc_id_count : crc_id := 112.

(** name:id mapping; the name of the sentinel is NULL. *)
Definition crc_name_id : Type := option string * crc_id.

Local Open Scope string_scope.

Definition crc_name_ids : list crc_name_id :=
  [ (Some "arc", crc_id_16_arc)
  ; (Some "b-crc-32", crc_id_32_bzip2)
  ; (Some "cksum", crc_id_32_cksum)
  ; (Some "crc-10", crc_id_10_atm)
  ; (Some "crc-10-atm", crc_id_10_atm)
  ; (Some "crc-10-cdma2000", crc_id_10_cdma2000)
  ; (Some "crc-10-gsm", crc_id_10_gsm)
  ; (Some "crc-10-i-610", crc_id_10_atm)
  ; (Some "crc-11", crc_id_11_flexray)
  ; (Some "crc-11-flexray", crc_id_11_flexray)
  ; (Some "crc-11-umts", crc_id_11_umts)
  ; (Some "crc-12-3gpp", crc_id_12_umts)
  ; (Some "crc-12-cdma2000", crc_id_12_cdma2000)
  ; (Some "crc-12-dect", crc_id_12_dect)
  ; (Some "crc-12-gsm", crc_id_12_gsm)
  ; (Some "crc-12-umts", crc_id_12_umts)
  ; (Some "crc-13-bbc", crc_id_13_bbc)
  ; (Some "crc-14-darc", crc_id_14_darc)
  ; (Some "crc-14-gsm", crc_id_14_gsm)
  ; (Some "crc-15", crc_id_15_can)
  ; (Some "crc-15-can", crc_id_15_can)
  ; (Some "crc-15-mpt1327", crc_id_15_mpt1327)
  ; (Some "crc-16", crc_id_16_arc)
  ; (Some "crc-16-acorn", crc_id_16_xmodem)
  ; (Some "crc-16-arc", crc_id_16_arc)
  ; (Some "crc-16-aug-ccitt", crc_id_16_spi_fujitsu)
  ; (Some "crc-16-autosar", crc_id_16_ibm_3740)
  ; (Some "crc-16-bluetooth", crc_id_16_kermit)
  ; (Some "crc-16-buypass", crc_id_16_umts)
  ; (Some "crc-16-ccitt", crc_id_16_kermit)
  ; (Some "crc-16-ccitt-false", crc_id_16_ibm_3740)
  ; (Some "crc-16-ccitt-true", crc_id_16_kermit)
  ; (Some "crc-16-cdma2000", crc_id_16_cdma2000)
  ; (Some "crc-16-cms", crc_id_16_cms)
  ; (Some "crc-16-darc", crc_id_16_genibus)
  ; (Some "crc-16-dds-110", crc_id_16_dds_110)
  ; (Some "crc-16-dect-r", crc_id_16_dect_r)
  ; (Some "crc-16-dect-x", crc_id_16_dect_x)
  ; (Some "crc-16-dnp", crc_id_16_dnp)
  ; (Some "crc-16-en-13757", crc_id_16_en_13757)
  ; (Some "crc-16-epc", crc_id_16_genibus)
  ; (Some "crc-16-epc-c1g2", crc_id_16_genibus)
  ; (Some "crc-16-genibus", crc_id_16_genibus)
  ; (Some "crc-16-gsm", crc_id_16_gsm)
  ; (Some "crc-16-i-code", crc_id_16_genibus)
  ; (Some "crc-16-ibm-3740", crc_id_16_ibm_3740)
  ; (Some "crc-16-ibm-sdlc", crc_id_16_ibm_sdlc)
  ; (Some "crc-16-iec-61158-2", crc_id_16_profibus)
  ; (Some "crc-16-iso-hdlc", crc_id_16_ibm_sdlc)
  ; (Some "crc-16-iso-iec-14443-3-a", crc_id_16_iso_iec_14443_3_a)
  ; (Some "crc-16-iso-iec-14443-3-b", crc_id_16_ibm_sdlc)
  ; (Some "crc-16-kermit", crc_id_16_kermit)
  ; (Some "crc-16-lha", crc_id_16_arc)
  ; (Some "crc-16-lj1200", crc_id_16_lj1200)
  ; (Some "crc-16-lte", crc_id_16_xmodem)
  ; (Some "crc-16-m17", crc_id_16_m17)
  ; (Some "crc-16-maxim", crc_id_16_maxim_dow)
  ; (Some "crc-16-maxim-dow", crc_id_16_maxim_dow)
  ; (Some "crc-16-mcrf4xx", crc_id_16_mcrf4xx)
  ; (Some "crc-16-modbus", crc_id_16_modbus)
  ; (Some "crc-16-nrsc-5", crc_id_16_nrsc_5)
  ; (Some "crc-16-opensafety-a", crc_id_16_opensafety_a)
  ; (Some "crc-16-opensafety-b", crc_id_16_opensafety_b)
  ; (Some "crc-16-profibus", crc_id_16_profibus)
  ; (Some "crc-16-riello", crc_id_16_riello)
  ; (Some "crc-16-spi-fujitsu", crc_id_16_spi_fujitsu)
  ; (Some "crc-16-t10-dif", crc_id_16_t10_dif)
  ; (Some "crc-16-teledisk", crc_id_16_teledisk)
  ; (Some "crc-16-tms37157", crc_id_16_tms37157)
  ; (Some "crc-16-umts", crc_id_16_umts)
  ; (Some "crc-16-usb", crc_id_16_usb)
  ; (Some "crc-16-v-41-lsb", crc_id_16_kermit)
  ; (Some "crc-16-v-41-msb", crc_id_16_xmodem)
  ; (Some "crc-16-verifone", crc_id_16_umts)
  ; (Some "crc-16-x-25", crc_id_16_ibm_sdlc)
  ; (Some "crc-16-xmodem", crc_id_16_xmodem)
  ; (Some "crc-17-can-fd", crc_id_17_can_fd)
  ; (Some "crc-21-can-fd", crc_id_21_can_fd)
  ; (Some "crc-24", crc_id_24_openpgp)
  ; (Some "crc-24-ble", crc_id_24_ble)
  ; (Some "crc-24-flexray-a", crc_id_24_flexray_a)
  ; (Some "crc-24-flexray-b", crc_id_24_flexray_b)
  ; (Some "crc-24-interlaken", crc_id_24_interlaken)
  ; (Some "crc-24-lte-a", crc_id_24_lte_a)
  ; (Some "crc-24-lte-b", crc_id_24_lte_b)
  ; (Some "crc-24-openpgp", crc_id_24_openpgp)
  ; (Some "crc-24-os-9", crc_id_24_os_9)
  ; (Some "crc-3-gsm", crc_id_3_gsm)
  ; (Some "crc-3-rohc", crc_id_3_rohc)
  ; (Some "crc-30-cdma", crc_id_30_cdma)
  ; (Some "crc-31-philips", crc_id_31_philips)
  ; (Some "crc-32", crc_id_32_iso_hdlc)
  ; (Some "crc-32-aal5", crc_id_32_bzip2)
  ; (Some "crc-32-adccp", crc_id_32_iso_hdlc)
  ; (Some "crc-32-aixm", crc_id_32_aixm)
  ; (Some "crc-32-autosar", crc_id_32_autosar)
  ; (Some "crc-32-base91-c", crc_id_32_iscsi)
  ; (Some "crc-32-base91-d", crc_id_32_base91_d)
  ; (Some "crc-32-bzip2", crc_id_32_bzip2)
  ; (Some "crc-32-castagnoli", crc_id_32_iscsi)
  ; (Some "crc-32-cd-rom-edc", crc_id_32_cd_rom_edc)
  ; (Some "crc-32-cksum", crc_id_32_cksum)
  ; (Some "crc-32-dect-b", crc_id_32_bzip2)
  ; (Some "crc-32-interlaken", crc_id_32_iscsi)
  ; (Some "crc-32-iscsi", crc_id_32_iscsi)
  ; (Some "crc-32-iso-hdlc", crc_id_32_iso_hdlc)
  ; (Some "crc-32-jamcrc", crc_id_32_jamcrc)
  ; (Some "crc-32-mef", crc_id_32_mef)
  ; (Some "crc-32-mpeg-2", crc_id_32_mpeg_2)
  ; (Some "crc-32-nvme", crc_id_32_iscsi)
  ; (Some "crc-32-posix", crc_id_32_cksum)
  ; (Some "crc-32-v-42", crc_id_32_iso_hdlc)
  ; (Some "crc-32-xfer", crc_id_32_xfer)
  ; (Some "crc-32-xz", crc_id_32_iso_hdlc)
  ; (Some "crc-32c", crc_id_32_iscsi)
  ; (Some "crc-32d", crc_id_32_base91_d)
  ; (Some "crc-32q", crc_id_32_aixm)
  ; (Some "crc-4-g-704", crc_id_4_g_704)
  ; (Some "crc-4-interlaken", crc_id_4_interlaken)
  ; (Some "crc-4-itu", crc_id_4_g_704)
  ; (Some "crc-40-gsm", crc_id_40_gsm)
  ; (Some "crc-5-epc", crc_id_5_epc_c1g2)
  ; (Some "crc-5-epc-c1g2", crc_id_5_epc_c1g2)
  ; (Some "crc-5-g-704", crc_id_5_g_704)
  ; (Some "crc-5-itu", crc_id_5_g_704)
  ; (Some "crc-5-usb", crc_id_5_usb)
  ; (Some "crc-6-cdma2000-a", crc_id_6_cdma2000_a)
  ; (Some "crc-6-cdma2000-b", crc_id_6_cdma2000_b)
  ; (Some "crc-6-darc", crc_id_6_darc)
  ; (Some "crc-6-g-704", crc_id_6_g_704)
  ; (Some "crc-6-gsm", crc_id_6_gsm)
  ; (Some "crc-6-itu", crc_id_6_g_704)
  ; (Some "crc-64", crc_id_64_ecma_182)
  ; (Some "crc-64-ecma-182", crc_id_64_ecma_182)
  ; (Some "crc-64-go-ecma", crc_id_64_xz)
  ; (Some "crc-64-go-iso", crc_id_64_go_iso)
  ; (Some "crc-64-ms", crc_id_64_ms)
  ; (Some "crc-64-nvme", crc_id_64_nvme)
  ; (Some "crc-64-redis", crc_id_64_redis)
  ; (Some "crc-64-we", crc_id_64_we)
  ; (Some "crc-64-xz", crc_id_64_xz)
  ; (Some "crc-7", crc_id_7_mmc)
  ; (Some "crc-7-mmc", crc_id_7_mmc)
  ; (Some "crc-7-rohc", crc_id_7_rohc)
  ; (Some "crc-7-umts", crc_id_7_umts)
  ; (Some "crc-8", crc_id_8_smbus)
  ; (Some "crc-8-aes", crc_id_8_tech_3250)
  ; (Some "crc-8-autosar", crc_id_8_autosar)
  ; (Some "crc-8-bluetooth", crc_id_8_bluetooth)
  ; (Some "crc-8-cdma2000", crc_id_8_cdma2000)
  ; (Some "crc-8-darc", crc_id_8_darc)
  ; (Some "crc-8-dvb-s2", crc_id_8_dvb_s2)
  ; (Some "crc-8-ebu", crc_id_8_tech_3250)
  ; (Some "crc-8-gsm-a", crc_id_8_gsm_a)
  ; (Some "crc-8-gsm-b", crc_id_8_gsm_b)
  ; (Some "crc-8-hitag", crc_id_8_hitag)
  ; (Some "crc-8-i-432-1", crc_id_8_i_432_1)
  ; (Some "crc-8-i-code", crc_id_8_i_code)
  ; (Some "crc-8-itu", crc_id_8_i_432_1)
  ; (Some "crc-8-lte", crc_id_8_lte)
  ; (Some "crc-8-maxim", crc_id_8_maxim_dow)
  ; (Some "crc-8-maxim-dow", crc_id_8_maxim_dow)
  ; (Some "crc-8-mifare-mad", crc_id_8_mifare_mad)
  ; (Some "crc-8-nrsc-5", crc_id_8_nrsc_5)
  ; (Some "crc-8-opensafety", crc_id_8_opensafety)
  ; (Some "crc-8-rohc", crc_id_8_rohc)
  ; (Some "crc-8-sae-j1850", crc_id_8_sae_j1850)
  ; (Some "crc-8-smbus", crc_id_8_smbus)
  ; (Some "crc-8-tech-3250", crc_id_8_tech_3250)
  ; (Some "crc-8-wcdma", crc_id_8_wcdma)
  ; (Some "crc-a", crc_id_16_iso_iec_14443_3_a)
  ; (Some "crc-b", crc_id_16_ibm_sdlc)
  ; (Some "crc-ccitt", crc_id_16_kermit)
  ; (Some "crc-ibm", crc_id_16_arc)
  ; (Some "dow-crc", crc_id_8_maxim_dow)
  ; (Some "jamcrc", crc_id_32_jamcrc)
  ; (Some "kermit", crc_id_16_kermit)
  ; (Some "modbus", crc_id_16_modbus)
  ; (Some "pkzip", crc_id_32_iso_hdlc)
  ; (Some "r-crc-16", crc_id_16_dect_r)
  ; (Some "x-25", crc_id_16_ibm_sdlc)
  ; (Some "x-crc-12", crc_id_12_dect)
  ; (Some "x-crc-16", crc_id_16_dect_x)
  ; (Some "xfer", crc_id_32_xfer)
  ; (Some "xmodem", crc_id_16_xmodem)
  ; (Some "zmodem", crc_id_16_xmodem)
  ; (None, crc_id_count) ].

Definition crc_templates : list crc_config :=
  [ (* crc_3_gsm                *) mk_config 0x0000000000000003 0x0000000000000000 0x0000000000000007  3 false false
  ; (* crc_3_rohc               *) mk_config 0x0000000000000003 0x0000000000000007 0x0000000000000000  3 true  true
  ; (* crc_4_g_704              *) mk_config 0x0000000000000003 0x0000000000000000 0x0000000000000000  4 true  true
  ; (* crc_4_interlaken         *) mk_config 0x0000000000000003 0x000000000000000F 0x000000000000000F  4 false false
  ; (* crc_5_epc_c1g2           *) mk_config 0x0000000000000009 0x0000000000000009 0x0000000000000000  5 false false
  ; (* crc_5_g_704              *) mk_config 0x0000000000000015 0x0000000000000000 0x0000000000000000  5 true  true
  ; (* crc_5_usb                *) mk_config 0x0000000000000005 0x000000000000001F 0x000000000000001F  5 true  true
  ; (* crc_6_cdma2000_a         *) mk_config 0x0000000000000027 0x000000000000003F 0x0000000000000000  6 false false
  ; (* crc_6_cdma2000_b         *) mk_config 0x0000000000000007 0x000000000000003F 0x0000000000000000  6 false false
  ; (* crc_6_darc               *) mk_config 0x0000000000000019 0x0000000000000000 0x0000000000000000  6 true  true
  ; (* crc_6_g_704              *) mk_config 0x0000000000000003 0x0000000000000000 0x0000000000000000  6 true  true
  ; (* crc_6_gsm                *) mk_config 0x000000000000002F 0x0000000000000000 0x000000000000003F  6 false false
  ; (* crc_7_mmc                *) mk_config 0x0000000000000009 0x0000000000000000 0x0000000000000000  7 false false
  ; (* crc_7_rohc               *) mk_config 0x000000000000004F 0x000000000000007F 0x0000000000000000  7 true  true
  ; (* crc_7_umts               *) mk_config 0x0000000000000045 0x0000000000000000 0x0000000000000000  7 false false
  ; (* crc_8_autosar            *) mk_config 0x000000000000002F 0x00000000000000FF 0x00000000000000FF  8 false false
  ; (* crc_8_bluetooth          *) mk_config 0x00000000000000A7 0x0000000000000000 0x0000000000000000  8 true  true
  ; (* crc_8_cdma2000           *) mk_config 0x000000000000009B 0x00000000000000FF 0x0000000000000000  8 false false
  ; (* crc_8_darc               *) mk_config 0x0000000000000039 0x0000000000000000 0x0000000000000000  8 true  true
  ; (* crc_8_dvb_s2             *) mk_config 0x00000000000000D5 0x0000000000000000 0x0000000000000000  8 false false
  ; (* crc_8_gsm_a              *) mk_config 0x000000000000001D 0x0000000000000000 0x0000000000000000  8 false false
  ; (* crc_8_gsm_b              *) mk_config 0x0000000000000049 0x0000000000000000 0x00000000000000FF  8 false false
  ; (* crc_8_hitag              *) mk_config 0x000000000000001D 0x00000000000000FF 0x0000000000000000  8 false false
  ; (* crc_8_i_432_1            *) mk_config 0x0000000000000007 0x0000000000000000 0x0000000000000055  8 false false
  ; (* crc_8_i_code             *) mk_config 0x000000000000001D 0x00000000000000FD 0x0000000000000000  8 false false
  ; (* crc_8_lte                *) mk_config 0x000000000000009B 0x0000000000000000 0x0000000000000000  8 false false
  ; (* crc_8_maxim_dow          *) mk_config 0x0000000000000031 0x0000000000000000 0x0000000000000000  8 true  true
  ; (* crc_8_mifare_mad         *) mk_config 0x000000000000001D 0x00000000000000C7 0x0000000000000000  8 false false
  ; (* crc_8_nrsc_5             *) mk_config 0x0000000000000031 0x00000000000000FF 0x0000000000000000  8 false false
  ; (* crc_8_opensafety         *) mk_config 0x000000000000002F 0x0000000000000000 0x0000000000000000  8 false false
  ; (* crc_8_rohc               *) mk_config 0x0000000000000007 0x00000000000000FF 0x0000000000000000  8 true  true
  ; (* crc_8_sae_j1850          *) mk_config 0x000000000000001D 0x00000000000000FF 0x00000000000000FF  8 false false
  ; (* crc_8_smbus              *) mk_config 0x0000000000000007 0x0000000000000000 0x0000000000000000  8 false false
  ; (* crc_8_tech_3250          *) mk_config 0x000000000000001D 0x00000000000000FF 0x0000000000000000  8 true  true
  ; (* crc_8_wcdma              *) mk_config 0x000000000000009B 0x0000000000000000 0x0000000000000000  8 true  true
  ; (* crc_10_atm               *) mk_config 0x0000000000000233 0x0000000000000000 0x0000000000000000 10 false false
  ; (* crc_10_cdma2000          *) mk_config 0x00000000000003D9 0x00000000000003FF 0x0000000000000000 10 false false
  ; (* crc_10_gsm               *) mk_config 0x0000000000000175 0x0000000000000000 0x00000000000003FF 10 false false
  ; (* crc_11_flexray           *) mk_config 0x0000000000000385 0x000000000000001A 0x0000000000000000 11 false false
  ; (* crc_11_umts              *) mk_config 0x0000000000000307 0x0000000000000000 0x0000000000000000 11 false false
  ; (* crc_12_cdma2000          *) mk_config 0x0000000000000F13 0x0000000000000FFF 0x0000000000000000 12 false false
  ; (* crc_12_dect              *) mk_config 0x000000000000080F 0x0000000000000000 0x0000000000000000 12 false false
  ; (* crc_12_gsm               *) mk_config 0x0000000000000D31 0x0000000000000000 0x0000000000000FFF 12 false false
  ; (* crc_12_umts              *) mk_config 0x000000000000080F 0x0000000000000000 0x0000000000000000 12 false true
  ; (* crc_13_bbc               *) mk_config 0x0000000000001CF5 0x0000000000000000 0x0000000000000000 13 false false
  ; (* crc_14_darc              *) mk_config 0x0000000000000805 0x0000000000000000 0x0000000000000000 14 true  true
  ; (* crc_14_gsm               *) mk_config 0x000000000000202D 0x0000000000000000 0x0000000000003FFF 14 false false
  ; (* crc_15_can               *) mk_config 0x0000000000004599 0x0000000000000000 0x0000000000000000 15 false false
  ; (* crc_15_mpt1327           *) mk_config 0x0000000000006815 0x0000000000000000 0x0000000000000001 15 false false
  ; (* crc_16_arc               *) mk_config 0x0000000000008005 0x0000000000000000 0x0000000000000000 16 true  true
  ; (* crc_16_cdma2000          *) mk_config 0x000000000000C867 0x000000000000FFFF 0x0000000000000000 16 false false
  ; (* crc_16_cms               *) mk_config 0x0000000000008005 0x000000000000FFFF 0x0000000000000000 16 false false
  ; (* crc_16_dds_110           *) mk_config 0x0000000000008005 0x000000000000800D 0x0000000000000000 16 false false
  ; (* crc_16_dect_r            *) mk_config 0x0000000000000589 0x0000000000000000 0x0000000000000001 16 false false
  ; (* crc_16_dect_x            *) mk_config 0x0000000000000589 0x0000000000000000 0x0000000000000000 16 false false
  ; (* crc_16_dnp               *) mk_config 0x0000000000003D65 0x0000000000000000 0x000000000000FFFF 16 true  true
  ; (* crc_16_en_13757          *) mk_config 0x0000000000003D65 0x0000000000000000 0x000000000000FFFF 16 false false
  ; (* crc_16_genibus           *) mk_config 0x0000000000001021 0x000000000000FFFF 0x000000000000FFFF 16 false false
  ; (* crc_16_gsm               *) mk_config 0x0000000000001021 0x0000000000000000 0x000000000000FFFF 16 false false
  ; (* crc_16_ibm_3740          *) mk_config 0x0000000000001021 0x000000000000FFFF 0x0000000000000000 16 false false
  ; (* crc_16_ibm_sdlc          *) mk_config 0x0000000000001021 0x000000000000FFFF 0x000000000000FFFF 16 true  true
  ; (* crc_16_iso_iec_14443_3_a *) mk_config 0x0000000000001021 0x000000000000C6C6 0x0000000000000000 16 true  true
  ; (* crc_16_kermit            *) mk_config 0x0000000000001021 0x0000000000000000 0x0000000000000000 16 true  true
  ; (* crc_16_lj1200            *) mk_config 0x0000000000006F63 0x0000000000000000 0x0000000000000000 16 false false
  ; (* crc_16_m17               *) mk_config 0x0000000000005935 0x000000000000FFFF 0x0000000000000000 16 false false
  ; (* crc_16_maxim_dow         *) mk_config 0x0000000000008005 0x0000000000000000 0x000000000000FFFF 16 true  true
  ; (* crc_16_mcrf4xx           *) mk_config 0x0000000000001021 0x000000000000FFFF 0x0000000000000000 16 true  true
  ; (* crc_16_modbus            *) mk_config 0x0000000000008005 0x000000000000FFFF 0x0000000000000000 16 true  true
  ; (* crc_16_nrsc_5            *) mk_config 0x000000000000080B 0x000000000000FFFF 0x0000000000000000 16 true  true
  ; (* crc_16_opensafety_a      *) mk_config 0x0000000000005935 0x0000000000000000 0x0000000000000000 16 false false
  ; (* crc_16_opensafety_b      *) mk_config 0x000000000000755B 0x0000000000000000 0x0000000000000000 16 false false
  ; (* crc_16_profibus          *) mk_config 0x0000000000001DCF 0x000000000000FFFF 0x000000000000FFFF 16 false false
  ; (* crc_16_riello            *) mk_config 0x0000000000001021 0x000000000000B2AA 0x0000000000000000 16 true  true
  ; (* crc_16_spi_fujitsu       *) mk_config 0x0000000000001021 0x0000000000001D0F 0x0000000000000000 16 false false
  ; (* crc_16_t10_dif           *) mk_config 0x0000000000008BB7 0x0000000000000000 0x0000000000000000 16 false false
  ; (* crc_16_teledisk          *) mk_config 0x000000000000A097 0x0000000000000000 0x0000000000000000 16 false false
  ; (* crc_16_tms37157          *) mk_config 0x0000000000001021 0x00000000000089EC 0x0000000000000000 16 true  true
  ; (* crc_16_umts              *) mk_config 0x0000000000008005 0x0000000000000000 0x0000000000000000 16 false false
  ; (* crc_16_usb               *) mk_config 0x0000000000008005 0x000000000000FFFF 0x000000000000FFFF 16 true  true
  ; (* crc_16_xmodem            *) mk_config 0x0000000000001021 0x0000000000000000 0x0000000000000000 16 false false
  ; (* crc_17_can_fd            *) mk_config 0x000000000001685B 0x0000000000000000 0x0000000000000000 17 false false
  ; (* crc_21_can_fd            *) mk_config 0x0000000000102899 0x0000000000000000 0x0000000000000000 21 false false
  ; (* crc_24_ble               *) mk_config 0x000000000000065B 0x0000000000555555 0x0000000000000000 24 true  true
  ; (* crc_24_flexray_a         *) mk_config 0x00000000005D6DCB 0x0000000000FEDCBA 0x0000000000000000 24 false false
  ; (* crc_24_flexray_b         *) mk_config 0x00000000005D6DCB 0x0000000000ABCDEF 0x0000000000000000 24 false false
  ; (* crc_24_interlaken        *) mk_config 0x0000000000328B63 0x0000000000FFFFFF 0x0000000000FFFFFF 24 false false
  ; (* crc_24_lte_a             *) mk_config 0x0000000000864CFB 0x0000000000000000 0x0000000000000000 24 false false
  ; (* crc_24_lte_b             *) mk_config 0x0000000000800063 0x0000000000000000 0x0000000000000000 24 false false
  ; (* crc_24_openpgp           *) mk_config 0x0000000000864CFB 0x0000000000B704CE 0x0000000000000000 24 false false
  ; (* crc_24_os_9              *) mk_config 0x0000000000800063 0x0000000000FFFFFF 0x0000000000FFFFFF 24 false false
  ; (* crc_30_cdma              *) mk_config 0x000000002030B9C7 0x000000003FFFFFFF 0x000000003FFFFFFF 30 false false
  ; (* crc_31_philips           *) mk_config 0x0000000004C11DB7 0x000000007FFFFFFF 0x000000007FFFFFFF 31 false false
  ; (* crc_32_aixm              *) mk_config 0x00000000814141AB 0x0000000000000000 0x0000000000000000 32 false false
  ; (* crc_32_autosar           *) mk_config 0x00000000F4ACFB13 0x00000000FFFFFFFF 0x00000000FFFFFFFF 32 true  true
  ; (* crc_32_base91_d          *) mk_config 0x00000000A833982B 0x00000000FFFFFFFF 0x00000000FFFFFFFF 32 true  true
  ; (* crc_32_bzip2             *) mk_config 0x0000000004C11DB7 0x00000000FFFFFFFF 0x00000000FFFFFFFF 32 false false
  ; (* crc_32_cd_rom_edc        *) mk_config 0x000000008001801B 0x0000000000000000 0x0000000000000000 32 true  true
  ; (* crc_32_cksum             *) mk_config 0x0000000004C11DB7 0x0000000000000000 0x00000000FFFFFFFF 32 false false
  ; (* crc_32_iscsi             *) mk_config 0x000000001EDC6F41 0x00000000FFFFFFFF 0x00000000FFFFFFFF 32 true  true
  ; (* crc_32_iso_hdlc          *) mk_config 0x0000000004C11DB7 0x00000000FFFFFFFF 0x00000000FFFFFFFF 32 true  true
  ; (* crc_32_jamcrc            *) mk_config 0x0000000004C11DB7 0x00000000FFFFFFFF 0x0000000000000000 32 true  true
  ; (* crc_32_mef               *) mk_config 0x00000000741B8CD7 0x00000000FFFFFFFF 0x0000000000000000 32 true  true
  ; (* crc_32_mpeg_2            *) mk_config 0x0000000004C11DB7 0x00000000FFFFFFFF 0x0000000000000000 32 false false
  ; (* crc_32_xfer              *) mk_config 0x00000000000000AF 0x0000000000000000 0x0000000000000000 32 false false
  ; (* crc_40_gsm               *) mk_config 0x0000000004820009 0x0000000000000000 0x000000FFFFFFFFFF 40 false false
  ; (* crc_64_ecma_182          *) mk_config 0x42F0E1EBA9EA3693 0x0000000000000000 0x0000000000000000 64 false false
  ; (* crc_64_go_iso            *) mk_config 0x000000000000001B 0xFFFFFFFFFFFFFFFF 0xFFFFFFFFFFFFFFFF 64 true  true
  ; (* crc_64_ms                *) mk_config 0x259C84CBA6426349 0xFFFFFFFFFFFFFFFF 0x0000000000000000 64 true  true
  ; (* crc_64_nvme              *) mk_config 0xAD93D23594C93659 0xFFFFFFFFFFFFFFFF 0xFFFFFFFFFFFFFFFF 64 true  true
  ; (* crc_64_redis             *) mk_config 0xAD93D23594C935A9 0x0000000000000000 0x0000000000000000 64 true  true
  ; (* crc_64_we                *) mk_config 0x42F0E1EBA9EA3693 0xFFFFFFFFFFFFFFFF 0xFFFFFFFFFFFFFFFF 64 false false
  ; (* crc_64_xz                *) mk_config 0x42F0E1EBA9EA3693 0xFFFFFFFFFFFFFFFF 0xFFFFFFFFFFFFFFFF 64 true  true
  ].

Local Close Scope string_scope.

(** The bytes of a zero-terminated C string. *)
Definition c_string (s : string) : list N :=
  map (fun c => N_of_ascii c) (list_ascii_of_string s) ++ [0].

Fixpoint strlen (mem : list N) : N :=
  match mem with
  | [] => 0
  | b :: mem' => if b =? 0 then 0 else 1 + strlen mem'
  end.

(** [memcmp] over the first [n] bytes of two buffers. *)
Fixpoint memcmp (m1 m2 : list N) (n : nat) : comparison :=
  match n with
  | O => Eq
  | S n' =>
      match (hd 0 m1 ?= hd 0 m2) with
      | Eq => memcmp (tl m1) (tl m2) n'
      | c => c
      end
  end.

(** [a - b] on a [size_t]. *)
Definition size_sub (a b : N) : N := (a + (SIZE_MAX + 1) - b) mod (SIZE_MAX + 1).

(** [array[i]] for an index of type [size_t]; [None] is a read outside of
    the array. *)
Definition array_get {A : Type} (array : list A) (i : N) : option A :=
  if i <? N.of_nat (length array) then nth_error array (N.to_nat i) else None.

(** What a C function does: it returns a value, or it has undefined
    behaviour (here a read outside of an array or through a NULL pointer,
    the latter being an assertion failure in a debug build); [OutOfFuel] is
    the answer of a loop of the model that was not given enough turns. *)
Inductive outcome (A : Type) :=
| Returned (a : A)
| Undefined
| OutOfFuel.
Arguments Returned {A} a.
Arguments Undefined {A}.
Arguments OutOfFuel {A}.

(** The [while (left <= right)] loop of the binary search. *)
Fixpoint crc_find_id_loop (fuel : nat) (name : list N) (namelen left right : N)
  : outcome crc_id :=
  match fuel with
  | O => OutOfFuel
  | S fuel' =>
      if left <=? right then
        let middle := left + N.shiftr (size_sub right left) 1 in
        match array_get crc_name_ids middle with
        | None => Undefined
        | Some (None, _) => Undefined
        | Some (Some itemname_, id) =>
            let itemname := c_string itemname_ in
            let itemlen := strlen itemname in
            let minlen := if namelen <? itemlen then namelen else itemlen in
            let cmp := memcmp name itemname (N.to_nat (minlen + 1)) in
            match cmp with
            | Lt => crc_find_id_loop fuel' name namelen left (size_sub middle 1)
            | Gt => crc_find_id_loop fuel' name namelen (middle + 1) right
            | Eq => Returned id
            end
        end
      else Returned crc_id_count
  end.

(** Finds the template ID mapped by the given name. *)
Definition crc_find_id (name : string) : outcome crc_id :=
  let name := c_string name in
  let namelen := strlen name in
  let itemcount := N.of_nat (length crc_name_ids) in
  let right := itemcount - 1 in
  let left := 0 in
  crc_find_id_loop (length crc_name_ids + 1) name namelen left right.

(** Finds the template configuration mapped by the given name; [None] is
    the NULL pointer. *)
Definition crc_find_config (name : string) : outcome (option crc_config) :=
  match crc_find_id name with
  | Returned id =>
      if id <? crc_id_count
      then Returned (array_get crc_templates id)
      else Returned None
  | Undefined => Undefined
  | OutOfFuel => OutOfFuel
  end.

(** ** Renderings of the digest *)

(** [(crc_u8)(result & CRC_U8_MASK)]. *)
Definition crc_u8_of (x : N) : Byte.byte :=
  match Byte.of_N (N.land x CRC_U8_MASK) with
  | Some b => b
  | None => Byte.x00
  end.

(** The indices [n - 1, ..., 0] that a loop [for (i = n; i--; )] visits. *)
Definition countdown (n : nat) : list nat := rev (seq 0 n).

(** [buffer[i] = (crc_u8)(result & CRC_U8_MASK); result >>= CRC_U8_WIDTH;] *)
Definition digest_store (st : list Byte.byte * N) (i : nat) : list Byte.byte * N :=
  let '(buffer, result) := st in
  (<[i := crc_u8_of result]> buffer, N.shiftr result CRC_U8_WIDTH).

(** Returns the digest value as a bytes object: the last [size] bytes of
    an eight byte buffer. *)
Definition _crc_crcu64_digest_impl (self : crcu64object)
  : crcu64object * list Byte.byte :=
  let '(impl', result) := crcu64_impl_digest (impl self) in
  let width := impl_width impl' in
  let size := (width + (CRC_U8_WIDTH - 1)) / CRC_U8_WIDTH in
  let buffer := repeat Byte.x00 (N.to_nat CRC_MAX_SIZE) in
  let '(buffer, _) :=
    fold_left digest_store (countdown (N.to_nat CRC_MAX_SIZE)) (buffer, result) in
  let data := drop (N.to_nat (CRC_MAX_SIZE - size)) buffer in
  (set_impl self impl', take (N.to_nat size) data).

Definition CRC_U8_NIBBLE : N := (CRC_U8_WIDTH + (4 - 1)) / 4.
Definition CRC_MAX_NIBBLE : N := (CRC_MAX_WIDTH + (4 - 1)) / 4.

Definition hexchars : list ascii := list_ascii_of_string "0123456789abcdef".

(** [buffer[k] = hexchars[result & 0xF]; result >>= 4;] *)
Definition hexdigest_store (st : list ascii * N) (k : nat) : list ascii * N :=
  let '(buffer, result) := st in
  (<[k := nth (N.to_nat (N.land result 0xF)) hexchars Ascii.zero]> buffer,
   N.shiftr result 4).

(** The indices [i*CRC_U8_NIBBLE + j] in the order of the two nested
    countdown loops. *)
Definition hexdigest_indices : list nat :=
  flat_map (fun i => map (fun j => (i * N.to_nat CRC_U8_NIBBLE + j)%nat)
                         (countdown (N.to_nat CRC_U8_NIBBLE)))
           (countdown (N.to_nat CRC_MAX_SIZE)).

(** Returns the digest value as a string of hexadecimal digits. *)
Definition _crc_crcu64_hexdigest_impl (self : crcu64object)
  : crcu64object * string :=
  let '(impl', result) := crcu64_impl_digest (impl self) in
  let width := impl_width impl' in
  let size := (width + (4 - 1)) / 4 in
  let size := size + N.land size 1 in
  let buffer := repeat Ascii.zero (N.to_nat CRC_MAX_NIBBLE) in
  let '(buffer, _) := fold_left hexdigest_store hexdigest_indices (buffer, result) in
  let data := drop (N.to_nat (CRC_MAX_NIBBLE - size)) buffer in
  (set_impl self impl', string_of_list_ascii (take (N.to_nat size) data)).

(** ** Attributes of the object *)

Definition _crc_crcu64_get_digest_size (self : crcu64object) : N := CRC_MAX_SIZE.

Definition _crc_crcu64_get_block_size (self : crcu64object) : N := 1.

Definition _crc_crcu64_get_width (self : crcu64object) : N :=
  impl_width (impl self).

Definition _crc_crcu64_get_poly (self : crcu64object) : N :=
  crcu64_impl_externalize (impl self) (impl_poly (impl self)).

Definition _crc_crcu64_get_init (self : crcu64object) : N :=
  crcu64_impl_externalize (impl self) (impl_init (impl self)).

Definition _crc_crcu64_get_refin (self : crcu64object) : bool :=
  impl_refin (impl self).

Definition _crc_crcu64_get_refout (self : crcu64object) : bool :=
  impl_refout (impl self).

Definition _crc_crcu64_get_xorout (self : crcu64object) : N :=
  impl_xorout (impl self).

(** ** The dictionary of the templates *)

(** The tuple [(width, poly, init, refin, refout, xorout)] of a template. *)
Definition template_tuple : Type := N * N * N * bool * bool * N.

Definition tuple_of (config : crc_config) : template_tuple :=
  (cfg_width config, cfg_poly config, cfg_init config,
   cfg_refin config, cfg_refout config, cfg_xorout config).

(** The loop [for (couple = crc_name_ids; couple->name; ++couple)]; it
    reads [crc_templates[couple->id]] without a check of the index. *)
Fixpoint crc_templates_dict_loop (couples : list crc_name_id)
         (dict : gmap string template_tuple) : outcome (gmap string template_tuple) :=
  match couples with
  | [] => Undefined
  | (None, _) :: _ => Returned dict
  | (Some name, id) :: couples' =>
      match array_get crc_templates id with
      | None => Undefined
      | Some config =>
          crc_templates_dict_loop couples' (<[name := tuple_of config]> dict)
      end
  end.

(** Returns the dictionary with the summary of all the templates. *)
Definition crc_templates_dict : outcome (gmap string template_tuple) :=
  crc_templates_dict_loop crc_name_ids ∅.

(** ** The constructor and its arguments *)

(** An argument of the constructor: it is absent (a NULL pointer), the
    Python [None], or a value.  An integer argument is given by the value
    that [PyLong_AsUnsignedLongLong] converts it to, a reflection argument
    by its truth value, the name by the characters of the string. *)
Inductive py_arg (A : Type) :=
| Absent
| PyNone
| Given (a : A).
Arguments Absent {A}.
Arguments PyNone {A}.
Arguments Given {A} a.

Definition CRC_NAME_DEFAULT : string := "crc-32".

(** [PyUnicode_AsASCIIString] gives the bytes of a string of ASCII
    characters only; the bytes object it returns is used without a check. *)
Definition is_ascii_string (s : string) : bool :=
  forallb (fun c => N_of_ascii c <? 128) (list_ascii_of_string s).

(** Finds a named template and applies it. *)
Definition crc_apply_config_name (config : crc_config) (name : py_arg string)
  : outcome (py_result crc_config) :=
  match name with
  | Absent | PyNone => Returned (Return config)
  | Given name =>
      if is_ascii_string name then
        match crc_find_config name with
        | Returned (Some found) =>
            Returned (Return (mk_config (cfg_poly found) (cfg_init found)
                                        (cfg_xorout found) (cfg_width found)
                                        (cfg_refin found) (cfg_refout found)))
        | Returned None => Returned (Raise "KeyError" "unknown template name")
        | Undefined => Undefined
        | OutOfFuel => OutOfFuel
        end
      else Undefined
  end.

(** Applies the width argument to a configuration. *)
Definition crc_apply_config_width (config : crc_config) (width : py_arg N)
  : py_result crc_config :=
  let checked :=
    match width with
    | Given width_ =>
        if (width_ =? 0) || (CRC_MAX_WIDTH <? width_)
        then Raise "OverflowError" "width out of range"
        else Return (mk_config (cfg_poly config) (cfg_init config) (cfg_xorout config)
                               width_ (cfg_refin config) (cfg_refout config))
    | Absent | PyNone => Return config
    end in
  match checked with
  | Return config =>
      if cfg_width config =? 0
      then Raise "OverflowError" "width required"
      else Return config
  | Raise exc msg => Raise exc msg
  end.

(** Applies the poly argument to a configuration. *)
Definition crc_apply_config_poly (config : crc_config) (poly : py_arg N)
  : py_result crc_config :=
  let config :=
    match poly with
    | Given poly_ => mk_config poly_ (cfg_init config) (cfg_xorout config)
                               (cfg_width config) (cfg_refin config) (cfg_refout config)
    | Absent | PyNone => config
    end in
  if cfg_poly config =? 0
  then Raise "OverflowError" "poly required"
  else Return config.

(** Applies the init argument to a configuration. *)
Definition crc_apply_config_init (config : crc_config) (init : py_arg N) : crc_config :=
  match init with
  | Given init_ => mk_config (cfg_poly config) init_ (cfg_xorout config)
                             (cfg_width config) (cfg_refin config) (cfg_refout config)
  | Absent | PyNone => config
  end.

(** Applies a refin argument to a configuration. *)
Definition crc_apply_config_refin (config : crc_config) (refin : py_arg bool) : crc_config :=
  match refin with
  | Given truth => mk_config (cfg_poly config) (cfg_init config) (cfg_xorout config)
                             (cfg_width config) truth (cfg_refout config)
  | Absent | PyNone => config
  end.

(** Applies a refout argument to a configuration. *)
Definition crc_apply_config_refout (config : crc_config) (refout : py_arg bool) : crc_config :=
  match refout with
  | Given truth => mk_config (cfg_poly config) (cfg_init config) (cfg_xorout config)
                             (cfg_width config) (cfg_refin config) truth
  | Absent | PyNone => config
  end.

(** Applies the xorout argument to a configuration. *)
Definition crc_apply_config_xorout (config : crc_config) (xorout : py_arg N) : crc_config :=
  match xorout with
  | Given xorout_ => mk_config (cfg_poly config) (cfg_init config) xorout_
                               (cfg_width config) (cfg_refin config) (cfg_refout config)
  | Absent | PyNone => config
  end.

(** Returns a new CRC object, optionally initialized with a byte string.
    The default name replaces the name when all the seven arguments of the
    configuration are absent. *)
Definition _crc_crc_impl (h : host) (state : crcmodule_state)
           (data : option (N * list Byte.byte)) (name : py_arg string)
           (width poly init : py_arg N) (refin refout : py_arg bool)
           (xorout : py_arg N) (method : option string)
  : outcome (py_result (crcmodule_state * crcu64object)) :=
  let config := mk_config 0 0 0 0 false false in
  let name :=
    match name, width, poly, init, refin, refout, xorout with
    | Absent, Absent, Absent, Absent, Absent, Absent, Absent => Given CRC_NAME_DEFAULT
    | _, _, _, _, _, _, _ => name
    end in
  match crc_apply_config_name config name with
  | Returned (Return config) =>
      match crc_apply_config_width config width with
      | Return config =>
          match crc_apply_config_poly config poly with
          | Return config =>
              let config := crc_apply_config_init config init in
              let config := crc_apply_config_refin config refin in
              let config := crc_apply_config_refout config refout in
              let config := crc_apply_config_xorout config xorout in
              Returned (crc_new h state config method data)
          | Raise exc msg => Returned (Raise exc msg)
          end
      | Raise exc msg => Returned (Raise exc msg)
      end
  | Returned (Raise exc msg) => Returned (Raise exc msg)
  | Undefined => Undefined
  | OutOfFuel => OutOfFuel
  end.

(** * Notions of the statements *)

Definition xor_linear (f : N -> N) : Prop :=
  forall a b, f (N.lxor a b) = N.lxor (f a) (f b).

Definition bytewise_entry (refin : bool) (poly i : N) : N :=
  if refin
  then rounds (round_reflected poly) 8 i
  else rounds (round_normal poly) 8 (shl64 i 56).

Definition bytewise_table_ok (refin : bool) (poly : N) (table : option tabbuf) : Prop :=
  forall i, i < 256 -> table_get table i = bytewise_entry refin poly i.

(** The bit [i] of a stage, from the bits [f] of its input. *)
Definition stage_bit (s hi lo : N) (f : N -> bool) (i : N) : bool :=
  if N.testbit hi i && negb (i <? s)
  then (if N.testbit lo i then f (i - s) || f (i + s) else f (i - s))
  else (if N.testbit lo i then f (i + s) else false).

Definition byteswap_bits (f : N -> bool) : N -> bool :=
  stage_bit 8 0xFF00FF00FF00FF00 0x00FF00FF00FF00FF
    (stage_bit 16 0xFFFF0000FFFF0000 0x0000FFFF0000FFFF
       (stage_bit 32 0xFFFFFFFF00000000 0x00000000FFFFFFFF f)).

(** The bit a byte swap reads for the bit [i] of its result. *)
Definition byteswap_index (i : N) : N := i + 56 - 16 * (i / 8).

(** The byte [k] of a word, counted from the least significant one. *)
Definition byte_of (x k : N) : N := N.land (N.shiftr x (8 * k)) CRC_U8_MASK.

Definition bitswap_bits (f : N -> bool) : N -> bool :=
  stage_bit 1 0xAAAAAAAAAAAAAAAA 0x5555555555555555
    (stage_bit 2 0xCCCCCCCCCCCCCCCC 0x3333333333333333
       (stage_bit 4 0xF0F0F0F0F0F0F0F0 0x0F0F0F0F0F0F0F0F
          (byteswap_bits f))).

(** The evolution of an accumulator through one zero byte. *)
Definition byte_rounds (refin : bool) (poly : N) : N -> N :=
  if refin then rounds (round_reflected poly) 8 else rounds (round_normal poly) 8.

(** The step of the bitwise kernel, by [byte_rounds]. *)
Definition bitwise_byte (refin : bool) (poly accum : N) (b : Byte.byte) : N :=
  if refin then bitwise_byte_reflected poly accum b else bitwise_byte_normal poly accum b.

Definition bytewise_byte (refin : bool) (table : option tabbuf) (accum : N) (b : Byte.byte) : N :=
  if refin then bytewise_byte_reflected table accum b else bytewise_byte_normal table accum b.

(** The word a normal kernel consumes in [length bs] steps: the bytes from
    the most significant one down. *)
Fixpoint word_of_bytes_hi (bs : list Byte.byte) : N :=
  match bs with
  | [] => 0
  | b :: bs' => N.lxor (shl64 (byte_val b) 56) (N.shiftr (word_of_bytes_hi bs') 8)
  end.

Definition wordwise_entry (byteswap refin : bool) (poly : N) (s : nat) (i : N) : N :=
  let value := rounds (byte_rounds refin poly) s (bytewise_entry refin poly i) in
  if byteswap then crc_u64_byteswap value else value.

Definition wordwise_table_ok (byteswap refin : bool) (poly : N) (table : option tabbuf) : Prop :=
  forall (s : nat) (i : N), (s < 8)%nat -> i < 256 ->
    table_get table (N.of_nat s * CRC_U8_COUNT + i) = wordwise_entry byteswap refin poly s i.

Fixpoint reflected_sum (poly : N) (n : nat) (x k : N) : N :=
  match n with
  | O => 0
  | S n' =>
      N.lxor (rounds (byte_rounds true poly) n' (bytewise_entry true poly (byte_of x k)))
             (reflected_sum poly n' x (k + 1))
  end.

Fixpoint normal_sum (poly : N) (n : nat) (x k : N) : N :=
  match n with
  | O => 0
  | S n' =>
      N.lxor (rounds (byte_rounds false poly) n' (bytewise_entry false poly (byte_of x (7 - k))))
             (normal_sum poly n' x (k + 1))
  end.

(** The word made of a block of eight bytes, as an input of the rounds. *)
Definition block_word (refin : bool) (bs : list Byte.byte) : N :=
  if refin then word_of_bytes_le bs else word_of_bytes_hi bs.

Definition swap_if (byteswap : bool) (x : N) : N :=
  if byteswap then crc_u64_byteswap x else x.

Definition stage_of (le : bool) (table : option tabbuf) : N -> N :=
  if le then crcu64_wordwise_little table else crcu64_wordwise_big table.

(** The accumulator and the polynomial fit a [crc_u64]. *)
Definition accum_ok (impl : crcu64_impl) : Prop :=
  impl_accum impl < 2 ^ 64 /\ impl_poly impl < 2 ^ 64.

Definition bytewise_ok (impl : crcu64_impl) : Prop :=
  bytewise_table_ok (impl_refin impl) (impl_poly impl) (impl_bytewise impl).

Definition wordwise_ok (h : host) (impl : crcu64_impl) : Prop :=
  wordwise_table_ok (xorb (little_endian h) (impl_refin impl))
                    (impl_refin impl) (impl_poly impl) (impl_wordwise impl).

(** The implementation after a non empty update that leaves [accum]. *)
Definition advanced (impl : crcu64_impl) (data : list Byte.byte) (accum : N) : crcu64_impl :=
  match data with
  | [] => impl
  | _ => set_dirty (set_accum impl accum) true
  end.

(** The value the wordwise tabulation writes at the index [j]. *)
Definition tabulate_wordwise_value (h : host) (impl : crcu64_impl) (j : nat) : N :=
  swap_if (xorb (little_endian h) (impl_refin impl))
          (rounds (tabulate_zero_byte impl) (N.to_nat (N.of_nat j / 256))
                  (table_get (impl_bytewise impl) (N.of_nat j mod 256))).

(** The checks of [crcu64_impl_configure], in one boolean. *)
Definition config_valid (config : crc_config) : bool :=
  negb ((CRC_MAX_WIDTH <? cfg_width config) || (cfg_width config =? 0))
  && negb ((crc_u64_bitmask (cfg_width config) <? cfg_poly config) || (cfg_poly config =? 0))
  && negb (crc_u64_bitmask (cfg_width config) <? cfg_init config)
  && negb (crc_u64_bitmask (cfg_width config) <? cfg_xorout config).

(** The internalized form of a value under a configuration. *)
Definition internal (config : crc_config) (value : N) : N :=
  if cfg_refin config
  then crc_u64_bitswap value (cfg_width config)
  else shl64 value (CRC_U64_LEAST - cfg_width config).

(** The implementation a successful configuration writes. *)
Definition configured (impl : crcu64_impl) (config : crc_config) : crcu64_impl :=
  mk_impl (internal config (cfg_init config)) (internal config (cfg_poly config))
          (internal config (cfg_init config)) (cfg_xorout config) (cfg_init config)
          (Some update_bitwise) None None
          (cfg_width config) (cfg_refin config) (cfg_refout config) (impl_dirty impl).

(** An implementation whose update function and tables are forgotten:
    what is left is what [digest], [clear] and the accessors read. *)
Definition strip (impl : crcu64_impl) : crcu64_impl :=
  set_wordwise (set_bytewise (set_update impl None) None) None.

Definition engine_ok (h : host) (impl : crcu64_impl) : Prop :=
  accum_ok impl /\
  match impl_update impl with
  | Some update_bitwise => True
  | Some update_bytewise => bytewise_ok impl
  | Some update_wordwise => bytewise_ok impl /\ wordwise_ok h impl
  | None => False
  end.

(** Every cached table is the table of the configuration it is stored
    under. *)
Definition cache_ok (h : host) (state : crcmodule_state) : Prop :=
  (forall config buf,
      crcu64_bytewise_cache state !! tabkey_of config = Some buf ->
      bytewise_table_ok (cfg_refin config) (internal config (cfg_poly config)) (Some buf))
  /\ (forall config buf,
      crcu64_wordwise_cache state !! tabkey_of config = Some buf ->
      wordwise_table_ok (xorb (little_endian h) (cfg_refin config)) (cfg_refin config)
                        (internal config (cfg_poly config)) (Some buf)).

(** The implementation of an object that was configured with [config]. *)
Definition configured_for (config : crc_config) (impl : crcu64_impl) : Prop :=
  impl_refin impl = cfg_refin config
  /\ impl_poly impl = internal config (cfg_poly config)
  /\ impl_poly impl < 2 ^ 64.

Definition data_bytes (data : option (N * list Byte.byte)) : list Byte.byte :=
  match data with
  | Some (_, bytes) => bytes
  | None => []
  end.

(** [crc_value h state config method addr s]: the value of [digest()] on an
    engine that was built from [config] with [method] and has consumed, by
    one [update], the bytes [s] found at the address [addr]; [None] when
    the construction raises. *)
Definition crc_value (h : host) (state : crcmodule_state) (config : crc_config)
           (method : option string) (addr : N) (s : list Byte.byte) : option N :=
  match crc_new h state config method None with
  | Return (_, o) =>
      Some (snd (_crc_crcu64_type_index (_crc_crcu64_update_impl h o addr s)))
  | Raise _ _ => None
  end.

(** The digest of the bitwise kernel on a configured implementation. *)
Definition crc_reference (config : crc_config) (s : list Byte.byte) : N :=
  snd (crcu64_impl_digest
         (crcu64_impl_update_bitwise (configured crcu64_impl_ctor config) s)).

Definition crc_32_iso_hdlc : crc_config :=
  mk_config 0x04C11DB7 0xFFFFFFFF 0xFFFFFFFF 32 true true.

Definition check_string : list Byte.byte := list_byte_of_string "123456789".

(** The state and the engine a construction returns (the state it started
    from and an unconfigured object when it raises). *)
Definition built (h : host) (state : crcmodule_state) (config : crc_config)
           (method : option string) : crcmodule_state * crcu64object :=
  match crc_new h state config method None with
  | Return r => r
  | Raise _ _ => (state, _crc_crcu64_type_new)
  end.

(** The scenario table: templates and the digests of ["123456789"]. *)
Definition check_scenarios : list (string * N) :=
  [ ("crc-32-iso-hdlc", 0xCBF43926)
  ; ("crc-32-iscsi", 0xE3069283)
  ; ("crc-16-arc", 0xBB3D)
  ; ("crc-16-xmodem", 0x31C3)
  ; ("crc-64-xz", 0x995DC9BBDF1939FA)
  ; ("crc-8-smbus", 0xF4) ]%string.

Definition crc_8_smbus : crc_config := mk_config 0x07 0x00 0x00 8 false false.

(** The caches of [state'] hold every table of the caches of [state]. *)
Definition caches_extend (state state' : crcmodule_state) : Prop :=
  (forall key buf, crcu64_bytewise_cache state !! key = Some buf ->
                   crcu64_bytewise_cache state' !! key = Some buf)
  /\ (forall key buf, crcu64_wordwise_cache state !! key = Some buf ->
                      crcu64_wordwise_cache state' !! key = Some buf).

(** The states that constructions lead to from a state: the caches are
    written by the constructor only. *)
Inductive constructions (h : host) : crcmodule_state -> crcmodule_state -> Prop :=
| constructions_none state : constructions h state state
| constructions_more state state1 state2 config method data o :
    constructions h state state1 ->
    crc_new h state1 config method data = Return (state2, o) ->
    constructions h state state2.

(** Every cached table is an object of its own, allocated before the next
    one. *)
Definition caches_fresh (state : crcmodule_state) : Prop :=
  (forall key buf, crcu64_bytewise_cache state !! key = Some buf ->
                   (buf_id buf < next_object state)%nat)
  /\ (forall key buf, crcu64_wordwise_cache state !! key = Some buf ->
                      (buf_id buf < next_object state)%nat)
  /\ (forall key1 key2 buf1 buf2,
         crcu64_bytewise_cache state !! key1 = Some buf1 ->
         crcu64_bytewise_cache state !! key2 = Some buf2 ->
         buf_id buf1 = buf_id buf2 -> key1 = key2)
  /\ (forall key1 key2 buf1 buf2,
         crcu64_wordwise_cache state !! key1 = Some buf1 ->
         crcu64_wordwise_cache state !! key2 = Some buf2 ->
         buf_id buf1 = buf_id buf2 -> key1 = key2).

(** Two engines of the crc-32 template, the first with the default method
    and the second, constructed right after it, with the method
    "bytewise". *)
Definition sharing_first : crcmodule_state * crcu64object :=
  built (mk_host true 0) crcmodule_exec crc_32_iso_hdlc None.

Definition sharing_second : crcmodule_state * crcu64object :=
  built (mk_host true 0) (fst sharing_first) crc_32_iso_hdlc (Some "bytewise"%string).

Definition crc_32_jamcrc : crc_config :=
  mk_config 0x04C11DB7 0xFFFFFFFF 0x00000000 32 true true.

Definition zeros (n : nat) : list Byte.byte := repeat Byte.x00 n.

(** The meaningful bits of an internalized value: the low [width] bits
    when the input is reflected, the high [width] bits otherwise. *)
Definition aligned (width : N) (refin : bool) (a : N) : Prop :=
  if refin then a < 2 ^ width
  else a < 2 ^ 64 /\ forall i, i < 64 - width -> N.testbit a i = false.

Definition low_clear (m a : N) : Prop := forall i, i < m -> N.testbit a i = false.

(** What [digest] computes from the accumulator of a dirty engine. *)
Definition finalize (width : N) (refin refout : bool) (xorout accum : N) : N :=
  let accum := if negb refin then N.shiftr accum (CRC_U64_LEAST - width) else accum in
  let accum :=
    if Bool.eqb refin refout
    then N.land accum (crc_u64_bitmask width)
    else crc_u64_bitswap accum width in
  N.lxor accum xorout.

(** What [combine] does to a checksum before it internalizes it. *)
Definition unfinalize (width : N) (refout : bool) (xorout crc : N) : N :=
  let crc := N.lxor crc xorout in
  if refout then crc_u64_bitswap crc width else crc.

Definition internal_value (width : N) (refin : bool) (value : N) : N :=
  if refin then crc_u64_bitswap value width else shl64 value (CRC_U64_LEAST - width).

(** The implementation [combine] feeds the zero bytes to. *)
Definition combine_start (impl : crcu64_impl) (c1 : N) : crcu64_impl :=
  set_accum (crcu64_impl_clear_init impl c1)
            (N.lxor (impl_accum (crcu64_impl_clear_init impl c1))
                    (impl_init (crcu64_impl_clear_init impl c1))).

(** The end of [combine]: the second checksum is internalized and mixed
    in, and the digest of the result is taken. *)
Definition combine_finish (impl : crcu64_impl) (c2 : N) : N :=
  let accum1 := impl_accum impl in
  let impl := crcu64_impl_clear_init impl c2 in
  let accum2 := impl_accum impl in
  let impl := set_accum impl (N.lxor accum1 accum2) in
  let impl := set_dirty impl true in
  snd (crcu64_impl_digest impl).

(** A configuration with another initial value. *)
Definition with_init (config : crc_config) (start : N) : crc_config :=
  mk_config (cfg_poly config) start (cfg_xorout config)
            (cfg_width config) (cfg_refin config) (cfg_refout config).

(** The word that holds the bytes [bs] the way [update_word] consumes
    them: the first byte in the least significant place for a reflected
    input, in the most significant place otherwise. *)
Definition word_for (refin : bool) (bs : list Byte.byte) : N :=
  if refin then word_of_bytes_le bs else word_of_bytes_le (rev bs).

(** What the implementation of an engine of [config] looks like after it
    was started from the value [start] and has consumed the bytes [s]. *)
Definition tracks (h : host) (config : crc_config) (start : N) (s : list Byte.byte)
           (impl : crcu64_impl) : Prop :=
  config_valid config = true
  /\ start < 2 ^ cfg_width config
  /\ engine_ok h impl
  /\ impl_width impl = cfg_width config
  /\ impl_refin impl = cfg_refin config
  /\ impl_refout impl = cfg_refout config
  /\ impl_xorout impl = cfg_xorout config
  /\ impl_poly impl = internal config (cfg_poly config)
  /\ impl_init impl = internal config (cfg_init config)
  /\ impl_accum impl =
     fold_left (bitwise_byte (cfg_refin config) (internal config (cfg_poly config))) s
               (internal config start)
  /\ (impl_dirty impl = true -> s <> [])
  /\ (impl_dirty impl = false -> impl_result impl = crc_reference (with_init config start) s).

(** The engines that are fed whole bytes: one is constructed, and then
    used through the methods of the object.  [run h config start s o] is an
    engine [o] of [config] that was last started from [start] and has
    consumed the bytes [s] since.  The relation follows the bytes, so it
    has the calls that feed whole bytes ([update], [update_word] with a
    word of [8 * n] bits and no bit above them, [zero_bytes], [zero_bits]
    of a multiple of 8) and [clear] with a value that fits the width; the
    engines reached by any call with any argument are those of
    [obtained]. *)
Inductive run (h : host) (config : crc_config) : N -> list Byte.byte -> crcu64object -> Prop :=
| run_new state state' method data o :
    cache_ok h state ->
    crc_new h state config method data = Return (state', o) ->
    run h config (cfg_init config) (data_bytes data) o
| run_update start s o addr data :
    run h config start s o ->
    run h config start (s ++ data) (_crc_crcu64_update_impl h o addr data)
| run_update_word start s o bs :
    run h config start s o -> (length bs <= 8)%nat ->
    run h config start (s ++ bs)
        (fst (_crc_crcu64_update_word_impl o (word_for (cfg_refin config) bs)
                                           (8 * Z.of_nat (length bs))))
| run_zero_bytes start s o numbytes :
    run h config start s o ->
    run h config start (s ++ zeros (N.to_nat numbytes))
        (_crc_crcu64_zero_bytes_impl h o numbytes)
| run_zero_bits start s o numbytes :
    run h config start s o ->
    run h config start (s ++ zeros (N.to_nat numbytes))
        (_crc_crcu64_zero_bits_impl h o (8 * numbytes))
| run_index start s o :
    run h config start s o ->
    run h config start s (fst (_crc_crcu64_type_index o))
| run_digest start s o :
    run h config start s o ->
    run h config start s (fst (_crc_crcu64_digest_impl o))
| run_hexdigest start s o :
    run h config start s o ->
    run h config start s (fst (_crc_crcu64_hexdigest_impl o))
| run_combine start s o crc1 crc2 len2 :
    run h config start s o ->
    run h config start s (fst (_crc_crcu64_combine_impl h o crc1 crc2 len2))
| run_copy start s o :
    run h config start s o ->
    run h config start s (snd (_crc_crcu64_copy_impl o))
| run_clear start s o :
    run h config start s o ->
    run h config (cfg_init config) [] (_crc_crcu64_clear_impl o None)
| run_clear_init start s o init :
    run h config start s o -> init <= crc_u64_bitmask (cfg_width config) ->
    run h config init [] (_crc_crcu64_clear_impl o (Some init)).

(** The number a byte string denotes, most significant byte first. *)
Definition be_value (bs : list Byte.byte) : N :=
  fold_left (fun acc b => acc * 256 + byte_val b) bs 0.

(** The lowercase hexadecimal rendering of a byte string, two digits for
    each byte. *)
Definition hex_of_bytes (bs : list Byte.byte) : string :=
  string_of_list_ascii
    (flat_map (fun b => [nth (N.to_nat (byte_val b / 16)) hexchars Ascii.zero;
                         nth (N.to_nat (byte_val b mod 16)) hexchars Ascii.zero]) bs).

(** The byte [k] of a digest, as [digest] stores it. *)
Definition digest_byte (result : N) (k : nat) : Byte.byte :=
  crc_u8_of (N.shiftr result (8 * N.of_nat k)).

(** The hexadecimal digit [k] of a digest, as [hexdigest] stores it. *)
Definition digest_nibble (result : N) (k : nat) : ascii :=
  nth (N.to_nat (N.land (N.shiftr result (4 * N.of_nat k)) 0xF)) hexchars Ascii.zero.

(** The engines a caller can obtain, with no limit on the arguments of the
    methods: an engine is constructed, and then used through the methods
    of the object, each with any argument its C type holds ([word] and the
    value given to [clear] are [unsigned long long], [width] is an [int]
    that the method may refuse, the counts are [size_t]).  With [ranged]
    set, the values given to [clear] are at most the bit mask of the width;
    without it they are whatever the caller passes. *)
Inductive obtained (h : host) (config : crc_config) (ranged : bool) : crcu64object -> Prop :=
| obtained_new state state' method data o :
    cache_ok h state ->
    crc_new h state config method data = Return (state', o) ->
    obtained h config ranged o
| obtained_update o addr data :
    obtained h config ranged o ->
    obtained h config ranged (_crc_crcu64_update_impl h o addr data)
| obtained_update_word o word width :
    obtained h config ranged o -> word <= CRC_U64_MAX ->
    obtained h config ranged (fst (_crc_crcu64_update_word_impl o word width))
| obtained_zero_bytes o numbytes :
    obtained h config ranged o ->
    obtained h config ranged (_crc_crcu64_zero_bytes_impl h o numbytes)
| obtained_zero_bits o numbits :
    obtained h config ranged o ->
    obtained h config ranged (_crc_crcu64_zero_bits_impl h o numbits)
| obtained_index o :
    obtained h config ranged o ->
    obtained h config ranged (fst (_crc_crcu64_type_index o))
| obtained_digest o :
    obtained h config ranged o ->
    obtained h config ranged (fst (_crc_crcu64_digest_impl o))
| obtained_hexdigest o :
    obtained h config ranged o ->
    obtained h config ranged (fst (_crc_crcu64_hexdigest_impl o))
| obtained_combine o crc1 crc2 len2 :
    obtained h config ranged o ->
    obtained h config ranged (fst (_crc_crcu64_combine_impl h o crc1 crc2 len2))
| obtained_copy o :
    obtained h config ranged o ->
    obtained h config ranged (snd (_crc_crcu64_copy_impl o))
| obtained_clear o :
    obtained h config ranged o ->
    obtained h config ranged (_crc_crcu64_clear_impl o None)
| obtained_clear_init o init :
    obtained h config ranged o -> init <= CRC_U64_MAX ->
    (ranged = true -> init <= crc_u64_bitmask (cfg_width config)) ->
    obtained h config ranged (_crc_crcu64_clear_impl o (Some init)).

(** The engines that have consumed nothing since they were started from the
    value [start]: a construction without a byte of initial data starts
    from the initial value of the configuration, as [clear()] does on any
    engine; [clear(init)] starts from [init], in range or not; and then
    only what consumes nothing follows (empty updates, a word of no bit or
    one that [update_word] refuses, no zero byte, no zero bit, digests,
    combines, copies). *)
Inductive untouched (h : host) (config : crc_config) : N -> crcu64object -> Prop :=
| untouched_new state state' method data o :
    cache_ok h state ->
    crc_new h state config method data = Return (state', o) ->
    data_bytes data = [] ->
    untouched h config (cfg_init config) o
| untouched_clear ranged o :
    obtained h config ranged o ->
    untouched h config (cfg_init config) (_crc_crcu64_clear_impl o None)
| untouched_clear_init ranged o init :
    obtained h config ranged o -> init <= CRC_U64_MAX ->
    untouched h config init (_crc_crcu64_clear_impl o (Some init))
| untouched_update start o addr :
    untouched h config start o ->
    untouched h config start (_crc_crcu64_update_impl h o addr [])
| untouched_update_word start o word width :
    untouched h config start o -> (width <= 0 \/ Z.of_N CRC_MAX_WIDTH < width)%Z ->
    untouched h config start (fst (_crc_crcu64_update_word_impl o word width))
| untouched_zero_bytes start o :
    untouched h config start o ->
    untouched h config start (_crc_crcu64_zero_bytes_impl h o 0)
| untouched_zero_bits start o :
    untouched h config start o ->
    untouched h config start (_crc_crcu64_zero_bits_impl h o 0)
| untouched_index start o :
    untouched h config start o ->
    untouched h config start (fst (_crc_crcu64_type_index o))
| untouched_digest_bytes start o :
    untouched h config start o ->
    untouched h config start (fst (_crc_crcu64_digest_impl o))
| untouched_hexdigest start o :
    untouched h config start o ->
    untouched h config start (fst (_crc_crcu64_hexdigest_impl o))
| untouched_combine start o crc1 crc2 len2 :
    untouched h config start o ->
    untouched h config start (fst (_crc_crcu64_combine_impl h o crc1 crc2 len2))
| untouched_copy start o :
    untouched h config start o ->
    untouched h config start (snd (_crc_crcu64_copy_impl o)).

(** What every engine keeps: the parameters of its configuration, a sound
    register and sound tables; and a cached digest within the width when
    the values given to [clear] were. *)
Definition kept (h : host) (config : crc_config) (ranged : bool) (impl : crcu64_impl)
  : Prop :=
  config_valid config = true
  /\ engine_ok h impl
  /\ impl_width impl = cfg_width config
  /\ impl_refin impl = cfg_refin config
  /\ impl_refout impl = cfg_refout config
  /\ impl_xorout impl = cfg_xorout config
  /\ impl_poly impl = internal config (cfg_poly config)
  /\ impl_init impl = internal config (cfg_init config)
  /\ (ranged = true -> impl_dirty impl = false ->
      impl_result impl <= crc_u64_bitmask (cfg_width config)).

(** A sample engine: crc-32 on a little endian host, which consumed
    ["abc"] from an odd address, gave a digest, was extended by two zero
    bytes and by the two bytes of a word. *)
Definition sample_host : host := mk_host true 0.

Definition sample_engine : crcu64object :=
  fst (_crc_crcu64_update_word_impl
         (_crc_crcu64_zero_bytes_impl sample_host
            (fst (_crc_crcu64_type_index
                    (_crc_crcu64_update_impl sample_host
                       (snd (built sample_host crcmodule_exec crc_32_iso_hdlc None))
                       3 (list_byte_of_string "abc"))))
            2)
         (word_for true (list_byte_of_string "de")) (8 * Z.of_nat 2)).

Definition sample_bytes : list Byte.byte :=
  list_byte_of_string "abc" ++ zeros 2 ++ list_byte_of_string "de".

(** The sample engine, cleared to the value 5. *)
Definition sample_cleared : crcu64object :=
  _crc_crcu64_clear_impl sample_engine (Some 5).

(** The sample engine after [clear(0x1FFFFFFFF)], a value above its 32
    bits, and after it took one more bit of the word [2^64 - 1]. *)
Definition sample_wide : crcu64object :=
  _crc_crcu64_clear_impl sample_engine (Some 0x1FFFFFFFF).

Definition sample_odd : crcu64object :=
  fst (_crc_crcu64_update_word_impl sample_wide 0xFFFFFFFFFFFFFFFF 1).

(** An engine of 8 bits, crc-8-smbus, after [clear(0x1FF)]. *)
Definition sample_small : crcu64object :=
  _crc_crcu64_clear_impl
    (snd (built sample_host crcmodule_exec crc_8_smbus None)) (Some 0x1FF).

(** The bytes of a C string in memory that precede its terminator. *)
Fixpoint c_body (mem : list N) : list N :=
  match mem with
  | [] => []
  | b :: mem' => if b =? 0 then [] else b :: c_body mem'
  end.

(** The lexicographic order of byte strings. *)
Fixpoint lex (a b : list N) : comparison :=
  match a, b with
  | [], [] => Eq
  | [], _ :: _ => Lt
  | _ :: _, [] => Gt
  | x :: a', y :: b' =>
      match x ?= y with
      | Eq => lex a' b'
      | c => c
      end
  end.

(** The order of two names as C strings (the sign of [strcmp]). *)
Definition name_compare (a b : string) : comparison :=
  lex (c_body (c_string a)) (c_body (c_string b)).

(** The entries of a name table that precede its sentinel. *)
Fixpoint named (couples : list crc_name_id) : list (string * crc_id) :=
  match couples with
  | (Some name, id) :: couples' => (name, id) :: named couples'
  | _ => []
  end.

(** The first entry of the catalogue with the given name. *)
Definition lookup_name (name : string) : option (string * crc_id) :=
  find (fun e => match name_compare name (fst e) with Eq => true | _ => false end)
       (named crc_name_ids).

(** What [crc_find_id] does with a name. *)
Definition crc_find_id_outcome (name : string) : outcome crc_id :=
  match lookup_name name with
  | Some (_, id) => Returned id
  | None =>
      match name_compare name "arc", name_compare name "zmodem" with
      | Lt, _ => Undefined
      | _, Gt => Undefined
      | _, _ => Returned crc_id_count
      end
  end.

(** Each entry of a list of names is below the next one. *)
Fixpoint ascending (names : list string) : bool :=
  match names with
  | a :: (b :: _) as names' =>
      match name_compare a b with Lt => ascending names' | _ => false end
  | _ => true
  end.

(** The order of [name] and the entry [i]. *)
Definition entry_compare (name : string) (i : nat) : comparison :=
  match nth_error (named crc_name_ids) i with
  | Some e => name_compare name (fst e)
  | None => Lt
  end.

(** What holds of the bounds at the head of a turn. *)
Definition search_inv (name : string) (left right : N) : Prop :=
  left <= right + 1 /\ left <= 186 /\ (right = 186 \/ right <= 184)
  /\ (forall i, (N.of_nat i < left) -> entry_compare name i = Gt)
  /\ (forall i, (right < N.of_nat i) -> (i < 186)%nat -> entry_compare name i = Lt).

(** The dictionary that the loop builds from the entries [entries]. *)
Definition dict_of (entries : list (string * crc_id)) (dict : gmap string template_tuple)
  : gmap string template_tuple :=
  fold_left (fun d e =>
               match array_get crc_templates (snd e) with
               | Some config => <[fst e := tuple_of config]> d
               | None => d
               end) entries dict.

(** A configuration with another input reflection. *)
Definition with_refin (config : crc_config) (refin : bool) : crc_config :=
  mk_config (cfg_poly config) (cfg_init config) (cfg_xorout config)
            (cfg_width config) refin (cfg_refout config).

(** The byte with the bits of [b] in the opposite order. *)
Definition reflect8 (b : Byte.byte) : Byte.byte :=
  crc_u8_of (crc_u64_bitswap (byte_val b) 8).

(** The 64 bits of a word in the opposite order. *)
Definition rev64 (x : N) : N := crc_u64_bitswap x 64.

(** An argument that gives no value. *)
Definition no_value {A : Type} (a : py_arg A) : bool :=
  match a with
  | Given _ => false
  | _ => true
  end.

(** An argument that is absent. *)
Definition is_absent {A : Type} (a : py_arg A) : bool :=
  match a with
  | Absent => true
  | _ => false
  end.

(** The accumulator that the bitwise kernel of an implementation leaves
    when it consumes [bytes] from a zero accumulator. *)
Definition register_after (impl : crcu64_impl) (bytes : list Byte.byte) : N :=
  impl_accum (crcu64_impl_update_bitwise (set_accum impl 0) bytes).

(** The kernel that a method selects. *)
Definition kernel_of (method : option string) : crcu64_func_update :=
  match method with
  | Some m =>
      if String.eqb m "bitwise" then update_bitwise
      else if String.eqb m "bytewise" then update_bytewise
      else update_wordwise
  | None => update_wordwise
  end.

(** * Proofs *)

Ltac Zify.zify_post_hook ::= Z.to_euclidean_division_equations.

(** * Bit level facts *)

Lemma testbit_shiftl (a n j : N) :
  N.testbit (N.shiftl a n) j = if j <? n then false else N.testbit a (j - n).
Proof.
  destruct (N.ltb_spec j n).
  - now apply N.shiftl_spec_low.
  - now apply N.shiftl_spec_high'.
Qed.

Lemma testbit_ones (n i : N) : N.testbit (N.ones n) i = (i <? n).
Proof.
  destruct (N.ltb_spec i n).
  - now apply N.ones_spec_low.
  - now apply N.ones_spec_high.
Qed.

Lemma CRC_U64_MAX_ones : CRC_U64_MAX = N.ones 64.
Proof. reflexivity. Qed.

Lemma u64_spec (x i : N) : N.testbit (u64 x) i = N.testbit x i && (i <? 64).
Proof. unfold u64. now rewrite CRC_U64_MAX_ones, N.land_spec, testbit_ones. Qed.

Lemma u64_mod (x : N) : u64 x = x mod 2 ^ 64.
Proof. unfold u64. now rewrite CRC_U64_MAX_ones, N.land_ones. Qed.

Lemma u64_lt (x : N) : u64 x < 2 ^ 64.
Proof. rewrite u64_mod. now apply N.mod_lt. Qed.

Lemma u64_id (x : N) : x < 2 ^ 64 -> u64 x = x.
Proof. intros H. rewrite u64_mod. now apply N.mod_small. Qed.

(** A number is below [2^n] exactly when its bits from [n] on are clear. *)
Lemma lt_pow2_bits (x n : N) :
  x < 2 ^ n <-> (forall i, n <= i -> N.testbit x i = false).
Proof.
  split.
  - intros H i Hi. rewrite <- (N.mod_small x (2 ^ n)) by assumption.
    now apply N.mod_pow2_bits_high.
  - intros H. assert (E : x = x mod 2 ^ n).
    { apply N.bits_inj. intro i. destruct (N.ltb_spec i n).
      + now rewrite N.mod_pow2_bits_low.
      + now rewrite N.mod_pow2_bits_high, H. }
    rewrite E. apply N.mod_lt. now apply N.pow_nonzero.
Qed.

Lemma lxor_lt_pow2 (a b n : N) : a < 2 ^ n -> b < 2 ^ n -> N.lxor a b < 2 ^ n.
Proof.
  rewrite !lt_pow2_bits. intros Ha Hb i Hi.
  now rewrite N.lxor_spec, Ha, Hb.
Qed.

Lemma lor_lt_pow2 (a b n : N) : a < 2 ^ n -> b < 2 ^ n -> N.lor a b < 2 ^ n.
Proof.
  rewrite !lt_pow2_bits. intros Ha Hb i Hi.
  now rewrite N.lor_spec, Ha, Hb.
Qed.

Lemma land_lt_pow2_r (a b n : N) : b < 2 ^ n -> N.land a b < 2 ^ n.
Proof.
  rewrite !lt_pow2_bits. intros Hb i Hi.
  now rewrite N.land_spec, Hb, andb_false_r.
Qed.

Lemma shiftr_lt_pow2 (a n k : N) : a < 2 ^ (n + k) -> N.shiftr a k < 2 ^ n.
Proof.
  rewrite !lt_pow2_bits. intros Ha i Hi.
  rewrite N.shiftr_spec'. apply Ha. lia.
Qed.

Lemma byte_val_lt (b : Byte.byte) : byte_val b < 2 ^ 8.
Proof. unfold byte_val. pose proof (Byte.to_N_bounded b). simpl. lia. Qed.

(** ** XOR-linear functions *)

Lemma xor_linear_0 (f : N -> N) : xor_linear f -> f 0 = 0.
Proof.
  intros H. specialize (H 0 0). rewrite N.lxor_0_l in H.
  rewrite H at 1. apply N.lxor_nilpotent.
Qed.

Lemma rounds_linear (f : N -> N) (n : nat) :
  xor_linear f -> xor_linear (rounds f n).
Proof.
  intros H. induction n as [|n IH]; intros a b; simpl.
  - reflexivity.
  - now rewrite H, IH.
Qed.

Lemma rounds_add (f : N -> N) (n m : nat) (a : N) :
  rounds f (n + m) a = rounds f m (rounds f n a).
Proof. revert a. induction n as [|n IH]; intros a; simpl; [reflexivity | apply IH]. Qed.

Lemma rounds_S_r (f : N -> N) (n : nat) (a : N) :
  rounds f (S n) a = f (rounds f n a).
Proof. replace (S n) with (n + 1)%nat by lia. now rewrite rounds_add. Qed.

Lemma land_lxor_distr_l (a b c : N) :
  N.land (N.lxor a b) c = N.lxor (N.land a c) (N.land b c).
Proof.
  apply N.bits_inj. intro i. rewrite !N.lxor_spec, !N.land_spec, N.lxor_spec.
  now destruct (N.testbit a i), (N.testbit b i), (N.testbit c i).
Qed.

Lemma land_1_cases (a : N) : N.land a 1 = 0 \/ N.land a 1 = 1.
Proof.
  assert (E : N.land a 1 = a mod 2) by apply (N.land_ones a 1).
  rewrite E. pose proof (N.mod_lt a 2). lia.
Qed.

Lemma lxor_swap_mid (a b c d : N) :
  N.lxor (N.lxor a b) (N.lxor c d) = N.lxor (N.lxor a c) (N.lxor b d).
Proof.
  rewrite !N.lxor_assoc. f_equal. rewrite <- !N.lxor_assoc. f_equal. apply N.lxor_comm.
Qed.

Lemma round_reflected_linear (poly : N) : xor_linear (round_reflected poly).
Proof.
  intros a b. unfold round_reflected.
  rewrite land_lxor_distr_l, N.shiftr_lxor.
  destruct (land_1_cases a) as [Ha|Ha], (land_1_cases b) as [Hb|Hb];
    rewrite Ha, Hb; simpl.
  - reflexivity.
  - now rewrite N.lxor_assoc.
  - rewrite !N.lxor_assoc. f_equal. apply N.lxor_comm.
  - rewrite lxor_swap_mid, N.lxor_nilpotent. now rewrite N.lxor_0_r.
Qed.

Lemma land_top_cases (a : N) : N.land a CRC_U64_TOP = 0 \/ N.land a CRC_U64_TOP = CRC_U64_TOP.
Proof.
  destruct (N.testbit a 63) eqn:E; [right | left]; apply N.bits_inj; intro i;
    rewrite N.land_spec; change CRC_U64_TOP with (2 ^ 63); rewrite N.pow2_bits_eqb;
    destruct (N.eqb_spec 63 i); subst; rewrite ?E, ?andb_false_r, ?N.bits_0; reflexivity.
Qed.

Lemma shl64_lxor (a b n : N) : shl64 (N.lxor a b) n = N.lxor (shl64 a n) (shl64 b n).
Proof. unfold shl64, u64. now rewrite N.shiftl_lxor, land_lxor_distr_l. Qed.

Lemma round_normal_linear (poly : N) : xor_linear (round_normal poly).
Proof.
  intros a b. unfold round_normal.
  rewrite land_lxor_distr_l, shl64_lxor.
  destruct (land_top_cases a) as [Ha|Ha], (land_top_cases b) as [Hb|Hb];
    rewrite Ha, Hb; simpl.
  - reflexivity.
  - now rewrite N.lxor_assoc.
  - rewrite !N.lxor_assoc. f_equal. apply N.lxor_comm.
  - rewrite lxor_swap_mid, N.lxor_nilpotent. now rewrite N.lxor_0_r.
Qed.

(** Rewrites the bit of a compound term into bits of its parts. *)
Ltac bits :=
  repeat progress
    rewrite ?N.lxor_spec, ?N.land_spec, ?N.lor_spec, ?N.shiftr_spec',
            ?testbit_shiftl, ?u64_spec, ?testbit_ones, ?N.bits_0.

Ltac split_ltb :=
  repeat match goal with
         | |- context [N.ltb ?a ?b] => destruct (N.ltb_spec a b)
         end.

(** * The bytewise kernel against the bitwise kernel *)

Lemma split_low_high (a k : N) :
  a = N.lxor (N.shiftl (N.shiftr a k) k) (N.land a (N.ones k)).
Proof.
  apply N.bits_inj. intro i. bits. split_ltb; simpl.
  - now rewrite andb_true_r.
  - rewrite andb_false_r, xorb_false_r. f_equal. lia.
Qed.

Lemma shiftr_small (b k : N) : b < 2 ^ k -> N.shiftr b k = 0.
Proof.
  intros H. apply N.bits_inj. intro i. bits.
  apply (proj1 (lt_pow2_bits b k)); [assumption | lia].
Qed.

Lemma land_ones_small (b k : N) : b < 2 ^ k -> N.land b (N.ones k) = b.
Proof. intros H. rewrite N.land_ones. now apply N.mod_small. Qed.

(** *** Reflected rounds *)

Lemma round_reflected_shiftl (poly y k : N) :
  round_reflected poly (N.shiftl y (N.succ k)) = N.shiftl y k.
Proof.
  unfold round_reflected.
  assert (E : N.land (N.shiftl y (N.succ k)) 1 = 0).
  { apply N.bits_inj. intro i. change 1 with (N.ones 1). bits.
    split_ltb; simpl; rewrite ?andb_false_r; try reflexivity; lia. }
  rewrite E. simpl. rewrite N.shiftr_shiftl_l by lia. f_equal. lia.
Qed.

Lemma rounds_reflected_shiftl (poly y : N) (k : nat) :
  rounds (round_reflected poly) k (N.shiftl y (N.of_nat k)) = y.
Proof.
  induction k as [|k IH].
  - simpl. apply N.shiftl_0_r.
  - rewrite Nat2N.inj_succ. simpl. now rewrite round_reflected_shiftl.
Qed.

Lemma rounds_reflected_split (poly a : N) (k : nat) :
  rounds (round_reflected poly) k a =
  N.lxor (N.shiftr a (N.of_nat k))
         (rounds (round_reflected poly) k (N.land a (N.ones (N.of_nat k)))).
Proof.
  rewrite (split_low_high a (N.of_nat k)) at 1.
  rewrite (rounds_linear _ k (round_reflected_linear poly)).
  now rewrite rounds_reflected_shiftl.
Qed.

(** *** Normal rounds *)

Lemma round_normal_small (poly y : N) :
  y < 2 ^ 63 -> round_normal poly y = N.shiftl y 1.
Proof.
  intros H. unfold round_normal.
  assert (E : N.land y CRC_U64_TOP = 0).
  { apply N.bits_inj. intro i. change CRC_U64_TOP with (2 ^ 63).
    rewrite N.land_spec, N.pow2_bits_eqb, N.bits_0.
    destruct (N.eqb_spec 63 i); [subst|now rewrite andb_false_r].
    rewrite (proj1 (lt_pow2_bits y 63)); [reflexivity|assumption|lia]. }
  rewrite E. simpl. unfold shl64. apply u64_id.
  rewrite N.shiftl_mul_pow2. change (2 ^ 64) with (2 ^ 63 * 2 ^ 1).
  apply N.mul_lt_mono_pos_r; [reflexivity | assumption].
Qed.

Lemma rounds_normal_small (poly y : N) (k : nat) :
  (k <= 64)%nat -> y < 2 ^ (64 - N.of_nat k) ->
  rounds (round_normal poly) k y = N.shiftl y (N.of_nat k).
Proof.
  revert y. induction k as [|k IH]; intros y Hk Hy.
  - simpl. now rewrite N.shiftl_0_r.
  - simpl rounds. rewrite round_normal_small.
    + rewrite IH.
      * rewrite N.shiftl_shiftl. f_equal. lia.
      * lia.
      * rewrite N.shiftl_mul_pow2.
        replace (64 - N.of_nat k) with (N.succ (64 - N.of_nat (S k))) by lia.
        rewrite N.pow_succ_r'. change (2 ^ 1) with 2. lia.
    + eapply N.lt_le_trans; [exact Hy|]. apply N.pow_le_mono_r; lia.
Qed.

Lemma shl64_small (y k : N) : y < 2 ^ (64 - k) -> k <= 64 -> shl64 y k = N.shiftl y k.
Proof.
  intros H Hk. unfold shl64. apply u64_id. rewrite N.shiftl_mul_pow2.
  replace 64 with ((64 - k) + k) at 1 by lia. rewrite N.pow_add_r.
  apply N.mul_lt_mono_pos_r; [|assumption].
  apply N.neq_0_lt_0. now apply N.pow_nonzero.
Qed.

Lemma shl64_land_ones (x k : N) :
  k <= 64 -> N.shiftl (N.land x (N.ones (64 - k))) k = shl64 x k.
Proof.
  intros Hk. apply N.bits_inj. intro i. unfold shl64. bits. split_ltb; simpl;
    rewrite ?andb_true_r, ?andb_false_r; try reflexivity; lia.
Qed.

Lemma rounds_normal_split (poly a : N) (k : nat) :
  (k <= 64)%nat ->
  rounds (round_normal poly) k a =
  N.lxor (shl64 a (N.of_nat k))
         (rounds (round_normal poly) k
                 (N.shiftl (N.shiftr a (64 - N.of_nat k)) (64 - N.of_nat k))).
Proof.
  intros Hk.
  rewrite (split_low_high a (64 - N.of_nat k)) at 1.
  rewrite (rounds_linear _ k (round_normal_linear poly)).
  rewrite N.lxor_comm. f_equal.
  rewrite rounds_normal_small.
  - apply shl64_land_ones. lia.
  - assumption.
  - rewrite N.land_ones. apply N.mod_lt. now apply N.pow_nonzero.
Qed.

(** *** The entries of the bytewise table *)

Lemma bytewise_reflected_bitwise (poly : N) (table : option tabbuf) (a : N) (b : Byte.byte) :
  bytewise_table_ok true poly table ->
  bytewise_byte_reflected table a b = bitwise_byte_reflected poly a b.
Proof.
  intros Ht. unfold bytewise_byte_reflected, bitwise_byte_reflected.
  change (N.to_nat CRC_U8_WIDTH) with 8%nat.
  rewrite (rounds_reflected_split poly (N.lxor a (byte_val b)) 8).
  change (N.of_nat 8) with 8. change CRC_U8_WIDTH with 8.
  change CRC_U8_MASK with (N.ones 8).
  rewrite N.shiftr_lxor, (shiftr_small (byte_val b) 8 (byte_val_lt b)), N.lxor_0_r.
  rewrite N.lxor_comm. f_equal.
  rewrite Ht.
  - unfold bytewise_entry. f_equal. f_equal. apply N.lxor_comm.
  - apply (land_lt_pow2_r _ _ 8). reflexivity.
Qed.

Lemma bytewise_normal_bitwise (poly : N) (table : option tabbuf) (a : N) (b : Byte.byte) :
  a < 2 ^ 64 ->
  bytewise_table_ok false poly table ->
  bytewise_byte_normal table a b = bitwise_byte_normal poly a b.
Proof.
  intros Ha Ht. unfold bytewise_byte_normal, bitwise_byte_normal.
  change (N.to_nat CRC_U8_WIDTH) with 8%nat.
  change (CRC_U64_LEAST - CRC_U8_WIDTH) with 56. change CRC_U8_WIDTH with 8.
  change CRC_U8_MASK with (N.ones 8).
  pose proof (byte_val_lt b) as Hb.
  rewrite (rounds_normal_split poly _ 8) by lia.
  change (N.of_nat 8) with 8. change (64 - 8) with 56.
  assert (E1 : shl64 (N.lxor a (shl64 (byte_val b) 56)) 8 = shl64 a 8).
  { apply N.bits_inj. intro i. unfold shl64. bits. split_ltb; simpl;
      rewrite ?andb_false_r, ?andb_true_r, ?xorb_false_r; trivial; lia. }
  assert (E2 : N.shiftr (N.lxor a (shl64 (byte_val b) 56)) 56 =
               N.land (N.lxor (byte_val b) (N.shiftr a 56)) (N.ones 8)).
  { apply N.bits_inj. intro i. unfold shl64. bits. split_ltb; simpl;
      rewrite ?andb_false_r, ?andb_true_r, ?xorb_false_r, ?xorb_false_l; try lia.
    - replace (i + 56 - 56) with i by lia. apply xorb_comm.
    - rewrite (proj1 (lt_pow2_bits a 64) Ha) by lia. reflexivity. }
  rewrite E1, E2. f_equal.
  rewrite Ht.
  - unfold bytewise_entry. f_equal. apply shl64_small; [|lia].
    change (64 - 56) with 8. apply land_lt_pow2_r. reflexivity.
  - apply (land_lt_pow2_r _ _ 8). reflexivity.
Qed.

(** * The swap cascades *)

Lemma swap_stage_spec (s hi lo w i : N) :
  N.testbit (swap_stage s hi lo w) i = stage_bit s hi lo (N.testbit w) i.
Proof.
  unfold swap_stage, stage_bit.
  rewrite N.lor_spec, !N.land_spec, testbit_shiftl, N.shiftr_spec'.
  destruct (N.testbit hi i), (N.testbit lo i), (i <? s); simpl;
    rewrite ?andb_true_r, ?andb_false_r, ?orb_false_r; reflexivity.
Qed.

Lemma stage_bit_ext (s hi lo : N) (f g : N -> bool) (i : N) :
  (forall j, f j = g j) -> stage_bit s hi lo f i = stage_bit s hi lo g i.
Proof. intros H. unfold stage_bit. now rewrite !H. Qed.

(** Induction over the indices below a bound given as a [nat]. *)
Lemma forall_below (P : N -> Prop) (n : nat) :
  (forall k : nat, (k < n)%nat -> P (N.of_nat k)) ->
  forall i, i < N.of_nat n -> P i.
Proof.
  intros H i Hi. rewrite <- (N2Nat.id i). apply H. lia.
Qed.

Lemma byteswap_bits_spec (x i : N) :
  N.testbit (crc_u64_byteswap x) i = byteswap_bits (N.testbit x) i.
Proof.
  unfold crc_u64_byteswap, byteswap_bits.
  rewrite swap_stage_spec. apply stage_bit_ext. intro j.
  rewrite swap_stage_spec. apply stage_bit_ext. intro k.
  apply swap_stage_spec.
Qed.

Ltac below_cases n k Hk :=
  match n with
  | O => exfalso; lia
  | S ?n' => destruct k as [|k]; [ | below_cases n' k Hk ]
  end.

Lemma byteswap_bits_low (f : N -> bool) (i : N) :
  i < 64 -> byteswap_bits f i = f (byteswap_index i).
Proof.
  revert i. apply (forall_below _ 64). intros k Hk.
  do 64 (destruct k as [|k]; [reflexivity|]). exfalso. lia.
Qed.

Lemma byteswap_bits_high (f : N -> bool) (i : N) :
  64 <= i -> byteswap_bits f i = false.
Proof.
  intros Hi. unfold byteswap_bits, stage_bit at 1.
  assert (H1 : N.testbit 0xFF00FF00FF00FF00 i = false).
  { apply (proj1 (lt_pow2_bits _ 64)); [reflexivity | assumption]. }
  assert (H2 : N.testbit 0x00FF00FF00FF00FF i = false).
  { apply (proj1 (lt_pow2_bits _ 64)); [reflexivity | assumption]. }
  now rewrite H1, H2.
Qed.

Lemma byteswap_spec (x i : N) :
  N.testbit (crc_u64_byteswap x) i =
  if i <? 64 then N.testbit x (byteswap_index i) else false.
Proof.
  rewrite byteswap_bits_spec. destruct (N.ltb_spec i 64).
  - now apply byteswap_bits_low.
  - now apply byteswap_bits_high.
Qed.

Lemma byteswap_lxor (a b : N) :
  crc_u64_byteswap (N.lxor a b) = N.lxor (crc_u64_byteswap a) (crc_u64_byteswap b).
Proof.
  apply N.bits_inj. intro i. rewrite N.lxor_spec, !byteswap_spec, N.lxor_spec.
  now destruct (i <? 64).
Qed.

Lemma byteswap_lt (x : N) : crc_u64_byteswap x < 2 ^ 64.
Proof.
  apply lt_pow2_bits. intros i Hi. rewrite byteswap_spec.
  destruct (N.ltb_spec i 64); [lia | reflexivity].
Qed.

Lemma byteswap_involutive (x : N) :
  x < 2 ^ 64 -> crc_u64_byteswap (crc_u64_byteswap x) = x.
Proof.
  intros Hx. apply N.bits_inj. intro i. rewrite !byteswap_spec.
  unfold byteswap_index. destruct (N.ltb_spec i 64).
  - destruct (N.ltb_spec (i + 56 - 16 * (i / 8)) 64); [f_equal|]; lia.
  - symmetry. apply (proj1 (lt_pow2_bits x 64)); assumption.
Qed.

Lemma byte_of_lt (x k : N) : byte_of x k < 256.
Proof. apply (land_lt_pow2_r _ _ 8). reflexivity. Qed.

Lemma byte_of_byteswap (x k : N) :
  k < 8 -> byte_of (crc_u64_byteswap x) k = byte_of x (7 - k).
Proof.
  intros Hk. unfold byte_of. change CRC_U8_MASK with (N.ones 8).
  apply N.bits_inj. intro i. bits. rewrite byteswap_spec. unfold byteswap_index.
  destruct (N.ltb_spec i 8); rewrite ?andb_false_r; [|reflexivity].
  rewrite !andb_true_r. destruct (N.ltb_spec (i + 8 * k) 64); [f_equal|]; lia.
Qed.

(** ** Bit reversal *)

Lemma bitswap_bits_low (f : N -> bool) (i : N) :
  i < 64 -> bitswap_bits f i = f (63 - i).
Proof.
  revert i. apply (forall_below _ 64). intros k Hk.
  do 64 (destruct k as [|k]; [reflexivity|]). exfalso. lia.
Qed.

Lemma bitswap_bits_high (f : N -> bool) (i : N) :
  64 <= i -> bitswap_bits f i = false.
Proof.
  intros Hi. unfold bitswap_bits, stage_bit at 1.
  assert (H1 : N.testbit 0xAAAAAAAAAAAAAAAA i = false).
  { apply (proj1 (lt_pow2_bits _ 64)); [reflexivity | assumption]. }
  assert (H2 : N.testbit 0x5555555555555555 i = false).
  { apply (proj1 (lt_pow2_bits _ 64)); [reflexivity | assumption]. }
  now rewrite H1, H2.
Qed.

Lemma bitswap_spec (x width i : N) :
  width <= 64 ->
  N.testbit (crc_u64_bitswap x width) i =
  if i <? width then N.testbit x (width - 1 - i) else false.
Proof.
  intros Hw. unfold crc_u64_bitswap. rewrite N.shiftr_spec'.
  rewrite swap_stage_spec.
  erewrite stage_bit_ext; cycle 1.
  { intro j. rewrite swap_stage_spec.
    erewrite stage_bit_ext; cycle 1.
    { intro k. rewrite swap_stage_spec.
      erewrite stage_bit_ext; cycle 1.
      { intro l. apply (byteswap_bits_spec x l). }
      reflexivity. }
    reflexivity. }
  fold (bitswap_bits (N.testbit x) (i + (64 - width))).
  destruct (N.ltb_spec i width).
  - rewrite bitswap_bits_low by lia. f_equal. lia.
  - apply bitswap_bits_high. lia.
Qed.

Lemma bitswap_lt (x width : N) :
  width <= 64 -> crc_u64_bitswap x width < 2 ^ width.
Proof.
  intros Hw. apply lt_pow2_bits. intros i Hi. rewrite bitswap_spec by assumption.
  destruct (N.ltb_spec i width); [lia | reflexivity].
Qed.

Lemma bitswap_involutive (x width : N) :
  width <= 64 -> x < 2 ^ width ->
  crc_u64_bitswap (crc_u64_bitswap x width) width = x.
Proof.
  intros Hw Hx. apply N.bits_inj. intro i. rewrite !bitswap_spec by assumption.
  destruct (N.ltb_spec i width).
  - destruct (N.ltb_spec (width - 1 - i) width); [f_equal|]; lia.
  - symmetry. apply (proj1 (lt_pow2_bits x width)); assumption.
Qed.

Lemma bitmask_ones (width : N) : width <= 64 -> crc_u64_bitmask width = N.ones width.
Proof.
  intros Hw. unfold crc_u64_bitmask. change 0xFFFFFFFFFFFFFFFF with (N.ones 64).
  apply N.bits_inj. intro i. rewrite N.shiftr_spec', !testbit_ones.
  change CRC_MAX_WIDTH with 64.
  destruct (N.ltb_spec (i + (64 - width)) 64), (N.ltb_spec i width); trivial; lia.
Qed.

Lemma le_bitmask (x width : N) :
  width <= 64 -> x <= crc_u64_bitmask width <-> x < 2 ^ width.
Proof.
  intros Hw. rewrite bitmask_ones by assumption. rewrite N.ones_equiv.
  pose proof (N.pow_nonzero 2 width). lia.
Qed.

(** * The wordwise kernel against the bytewise kernel *)

Lemma byte_rounds_linear (refin : bool) (poly : N) : xor_linear (byte_rounds refin poly).
Proof.
  destruct refin; apply rounds_linear;
    [apply round_reflected_linear | apply round_normal_linear].
Qed.

Lemma round_reflected_lt (poly a : N) :
  poly < 2 ^ 64 -> a < 2 ^ 64 -> round_reflected poly a < 2 ^ 64.
Proof.
  intros Hp Ha. unfold round_reflected.
  assert (N.shiftr a 1 < 2 ^ 64).
  { apply lt_pow2_bits. intros i Hi. rewrite N.shiftr_spec'.
    apply (proj1 (lt_pow2_bits a 64)); [assumption|lia]. }
  destruct (negb _); [now apply lxor_lt_pow2 | assumption].
Qed.

Lemma round_normal_lt (poly a : N) :
  poly < 2 ^ 64 -> round_normal poly a < 2 ^ 64.
Proof.
  intros Hp. unfold round_normal.
  destruct (negb _); [apply lxor_lt_pow2; [apply u64_lt | assumption] | apply u64_lt].
Qed.

Lemma rounds_lt (f : N -> N) (n : nat) (a : N) :
  (forall x, x < 2 ^ 64 -> f x < 2 ^ 64) -> a < 2 ^ 64 -> rounds f n a < 2 ^ 64.
Proof.
  intros Hf. revert a. induction n as [|n IH]; intros a Ha; simpl; auto.
Qed.

Lemma byte_rounds_lt (refin : bool) (poly a : N) :
  poly < 2 ^ 64 -> a < 2 ^ 64 -> byte_rounds refin poly a < 2 ^ 64.
Proof.
  intros Hp Ha. destruct refin; apply rounds_lt; trivial; intros x Hx.
  - now apply round_reflected_lt.
  - now apply round_normal_lt.
Qed.

Lemma bitwise_byte_rounds (refin : bool) (poly a : N) (b : Byte.byte) :
  bitwise_byte refin poly a b =
  byte_rounds refin poly
    (N.lxor a (if refin then byte_val b else shl64 (byte_val b) 56)).
Proof. now destruct refin. Qed.

Lemma bitwise_byte_lt (refin : bool) (poly a : N) (b : Byte.byte) :
  poly < 2 ^ 64 -> a < 2 ^ 64 -> bitwise_byte refin poly a b < 2 ^ 64.
Proof.
  intros Hp Ha. pose proof (byte_val_lt b) as Hb. rewrite bitwise_byte_rounds.
  apply byte_rounds_lt; trivial. apply lxor_lt_pow2; trivial.
  destruct refin.
  - eapply N.lt_trans; [exact Hb | reflexivity].
  - apply u64_lt.
Qed.

Lemma fold_bitwise_lt (refin : bool) (poly : N) (bs : list Byte.byte) (a : N) :
  poly < 2 ^ 64 -> a < 2 ^ 64 -> fold_left (bitwise_byte refin poly) bs a < 2 ^ 64.
Proof.
  intros Hp. revert a. induction bs as [|b bs IH]; intros a Ha; simpl; [assumption|].
  apply IH. now apply bitwise_byte_lt.
Qed.

Lemma bytewise_byte_bitwise (refin : bool) (poly : N) (table : option tabbuf)
      (a : N) (b : Byte.byte) :
  a < 2 ^ 64 -> bytewise_table_ok refin poly table ->
  bytewise_byte refin table a b = bitwise_byte refin poly a b.
Proof.
  intros Ha Ht. destruct refin; simpl.
  - now apply bytewise_reflected_bitwise.
  - now apply bytewise_normal_bitwise.
Qed.

Lemma fold_bytewise_bitwise (refin : bool) (poly : N) (table : option tabbuf)
      (bs : list Byte.byte) (a : N) :
  poly < 2 ^ 64 -> a < 2 ^ 64 -> bytewise_table_ok refin poly table ->
  fold_left (bytewise_byte refin table) bs a = fold_left (bitwise_byte refin poly) bs a.
Proof.
  intros Hp Ha Ht. revert a Ha. induction bs as [|b bs IH]; intros a Ha; simpl; [reflexivity|].
  rewrite (bytewise_byte_bitwise refin poly) by assumption.
  apply IH. now apply bitwise_byte_lt.
Qed.

(** ** Words made of bytes *)

Lemma word_of_bytes_le_lt (bs : list Byte.byte) :
  word_of_bytes_le bs < 2 ^ (8 * N.of_nat (length bs)).
Proof.
  induction bs as [|b bs IH]; [reflexivity|].
  cbn [word_of_bytes_le length]. apply lor_lt_pow2.
  - eapply N.lt_le_trans; [apply byte_val_lt|]. apply N.pow_le_mono_r; lia.
  - apply lt_pow2_bits. intros i Hi. bits. destruct (N.ltb_spec i 8); [reflexivity|].
    apply (proj1 (lt_pow2_bits _ _) IH). lia.
Qed.

Lemma lor_lxor_disjoint (a b k : N) :
  a < 2 ^ k -> N.lor a (N.shiftl b k) = N.lxor a (N.shiftl b k).
Proof.
  intros Ha. symmetry. apply N.lxor_lor. apply N.bits_inj. intro i. bits.
  destruct (N.ltb_spec i k); [now rewrite andb_false_r|].
  now rewrite (proj1 (lt_pow2_bits _ _) Ha).
Qed.

Lemma word_of_bytes_le_app (l : list Byte.byte) (b : Byte.byte) :
  word_of_bytes_le (l ++ [b]) =
  N.lor (word_of_bytes_le l) (N.shiftl (byte_val b) (8 * N.of_nat (length l))).
Proof.
  induction l as [|c l IH].
  - simpl. now rewrite N.shiftl_0_l, N.lor_0_r, N.shiftl_0_r, N.lor_0_l.
  - cbn [app word_of_bytes_le length]. rewrite IH, N.shiftl_lor, N.shiftl_shiftl.
    rewrite N.lor_assoc. do 2 f_equal. lia.
Qed.

(** Eight bytewise steps of the reflected kernel consume the
    little-endian word of the bytes. *)
Lemma fold_bitwise_reflected_word (poly : N) (bs : list Byte.byte) (a : N) :
  fold_left (bitwise_byte true poly) bs a =
  rounds (byte_rounds true poly) (length bs) (N.lxor a (word_of_bytes_le bs)).
Proof.
  revert a. induction bs as [|b bs IH]; intros a.
  - simpl. now rewrite N.lxor_0_r.
  - cbn [fold_left length rounds word_of_bytes_le]. rewrite IH. f_equal.
    rewrite bitwise_byte_rounds.
    rewrite (lor_lxor_disjoint _ _ 8) by apply byte_val_lt.
    rewrite <- N.lxor_assoc.
    rewrite (byte_rounds_linear true poly (N.lxor a (byte_val b))).
    f_equal. symmetry. apply (rounds_reflected_shiftl poly _ 8).
Qed.

Lemma word_of_bytes_hi_rev (bs : list Byte.byte) :
  (length bs <= 8)%nat ->
  word_of_bytes_hi bs =
  N.shiftl (word_of_bytes_le (rev bs)) (64 - 8 * N.of_nat (length bs)).
Proof.
  induction bs as [|b bs IH]; intros Hl.
  - reflexivity.
  - cbn [word_of_bytes_hi rev length] in *. rewrite IH by lia.
    rewrite word_of_bytes_le_app, length_rev.
    rewrite N.shiftr_shiftl_l by lia.
    rewrite N.shiftl_lor, N.shiftl_shiftl.
    rewrite shl64_small; [| eapply N.lt_le_trans; [apply byte_val_lt|reflexivity] | lia].
    replace (8 * N.of_nat (length bs) + (64 - 8 * N.of_nat (S (length bs)))) with 56 by lia.
    replace (64 - 8 * N.of_nat (length bs) - 8) with (64 - 8 * N.of_nat (S (length bs))) by lia.
    rewrite N.lxor_comm. symmetry.
    apply (lor_lxor_disjoint _ _ 56).
    pose proof (word_of_bytes_le_lt (rev bs)) as H. rewrite length_rev in H.
    apply lt_pow2_bits. intros i Hi. rewrite testbit_shiftl.
    destruct (N.ltb_spec i (64 - 8 * N.of_nat (S (length bs)))); [reflexivity|].
    apply (proj1 (lt_pow2_bits _ _) H). lia.
Qed.

Lemma word_of_bytes_hi_low (bs : list Byte.byte) (i : N) :
  (length bs <= 8)%nat -> i < 64 - 8 * N.of_nat (length bs) ->
  N.testbit (word_of_bytes_hi bs) i = false.
Proof.
  intros Hl Hi. rewrite word_of_bytes_hi_rev by assumption.
  rewrite testbit_shiftl. destruct (N.ltb_spec i (64 - 8 * N.of_nat (length bs))); [reflexivity|lia].
Qed.

Lemma word_of_bytes_hi_lt (bs : list Byte.byte) :
  (length bs <= 8)%nat -> word_of_bytes_hi bs < 2 ^ 64.
Proof.
  intros Hl. rewrite word_of_bytes_hi_rev by assumption.
  apply lt_pow2_bits. intros i Hi. rewrite testbit_shiftl.
  destruct (N.ltb_spec i (64 - 8 * N.of_nat (length bs))); [reflexivity|].
  pose proof (word_of_bytes_le_lt (rev bs)) as Hw. rewrite length_rev in Hw.
  apply (proj1 (lt_pow2_bits _ _) Hw). lia.
Qed.

Lemma fold_bitwise_normal_word (poly : N) (bs : list Byte.byte) (a : N) :
  (length bs <= 8)%nat ->
  fold_left (bitwise_byte false poly) bs a =
  rounds (byte_rounds false poly) (length bs) (N.lxor a (word_of_bytes_hi bs)).
Proof.
  revert a. induction bs as [|b bs IH]; intros a Hl.
  - simpl. now rewrite N.lxor_0_r.
  - cbn [fold_left length rounds word_of_bytes_hi] in *. rewrite IH by lia. f_equal.
    rewrite bitwise_byte_rounds.
    rewrite <- N.lxor_assoc.
    rewrite (byte_rounds_linear false poly (N.lxor a (shl64 (byte_val b) 56))).
    f_equal. symmetry. unfold byte_rounds.
    rewrite rounds_normal_small; [|lia|].
    + apply N.bits_inj. intro i. bits. change (N.of_nat 8) with 8.
      destruct (N.ltb_spec i 8).
      * symmetry. apply word_of_bytes_hi_low; lia.
      * f_equal. lia.
    + apply shiftr_lt_pow2. change (64 - N.of_nat 8 + 8) with 64.
      apply word_of_bytes_hi_lt. lia.
Qed.

(** ** The entries of the wordwise table *)

Lemma wordwise_table_byte (byteswap refin : bool) (poly : N) (table : option tabbuf)
      (s : nat) (x k : N) :
  wordwise_table_ok byteswap refin poly table -> (s < 8)%nat ->
  table_get table (N.of_nat s * CRC_U8_COUNT + byte_of x k) =
  wordwise_entry byteswap refin poly s (byte_of x k).
Proof. intros Ht Hs. apply Ht; [assumption | apply byte_of_lt]. Qed.

(** *** Eight zero bytes, byte by byte *)

Lemma rounds_reflected_sum (poly : N) (n : nat) (x k : N) :
  rounds (byte_rounds true poly) n (N.shiftr x (8 * k)) =
  N.lxor (N.shiftr x (8 * (k + N.of_nat n))) (reflected_sum poly n x k).
Proof.
  revert k. induction n as [|n IH]; intros k.
  - simpl. rewrite N.lxor_0_r. f_equal. lia.
  - cbn [rounds reflected_sum].
    assert (E : byte_rounds true poly (N.shiftr x (8 * k)) =
                N.lxor (N.shiftr x (8 * (k + 1))) (bytewise_entry true poly (byte_of x k))).
    { unfold byte_rounds at 1. rewrite (rounds_reflected_split poly _ 8).
      change (N.of_nat 8) with 8. rewrite N.shiftr_shiftr. f_equal. f_equal. lia. }
    rewrite E, (rounds_linear _ n (byte_rounds_linear true poly)), IH.
    rewrite N.lxor_assoc. f_equal.
    + f_equal. lia.
    + apply N.lxor_comm.
Qed.

Lemma shl64_shl64 (x a b : N) : shl64 (shl64 x a) b = shl64 x (a + b).
Proof.
  apply N.bits_inj. intro i. unfold shl64. bits.
  destruct (N.ltb_spec i 64); rewrite ?andb_false_r; [|reflexivity].
  rewrite !andb_true_r.
  destruct (N.ltb_spec i b), (N.ltb_spec i (a + b)); try reflexivity; try lia.
  - destruct (N.ltb_spec (i - b) a); [reflexivity|lia].
  - destruct (N.ltb_spec (i - b) 64); [|lia]. rewrite andb_true_r.
    destruct (N.ltb_spec (i - b) a); [lia|]. f_equal. lia.
Qed.

Lemma rounds_normal_sum (poly : N) (n : nat) (x k : N) :
  k + N.of_nat n <= 8 ->
  rounds (byte_rounds false poly) n (shl64 x (8 * k)) =
  N.lxor (shl64 x (8 * (k + N.of_nat n))) (normal_sum poly n x k).
Proof.
  revert k. induction n as [|n IH]; intros k Hk.
  - simpl. rewrite N.lxor_0_r. f_equal. lia.
  - cbn [rounds normal_sum].
    assert (E : byte_rounds false poly (shl64 x (8 * k)) =
                N.lxor (shl64 x (8 * (k + 1))) (bytewise_entry false poly (byte_of x (7 - k)))).
    { unfold byte_rounds at 1. rewrite (rounds_normal_split poly _ 8) by lia.
      change (N.of_nat 8) with 8. change (64 - 8) with 56.
      rewrite shl64_shl64. f_equal; [f_equal; lia|].
      unfold bytewise_entry. f_equal.
      assert (Eb : N.shiftr (shl64 x (8 * k)) 56 = byte_of x (7 - k)).
      { apply N.bits_inj. intro i. unfold byte_of, shl64.
        change CRC_U8_MASK with (N.ones 8). bits.
        destruct (N.ltb_spec (i + 56) (8 * k)); [lia|].
        destruct (N.ltb_spec (i + 56) 64), (N.ltb_spec i 8); try lia;
          rewrite ?andb_true_r, ?andb_false_r; try reflexivity. f_equal. lia. }
      rewrite Eb. symmetry. apply shl64_small; [apply byte_of_lt | lia]. }
    rewrite E, (rounds_linear _ n (byte_rounds_linear false poly)), IH by lia.
    rewrite N.lxor_assoc. f_equal.
    + f_equal. lia.
    + apply N.lxor_comm.
Qed.

Lemma shiftr_64 (x : N) : x < 2 ^ 64 -> N.shiftr x 64 = 0.
Proof. apply shiftr_small. Qed.

Lemma shl64_64 (x : N) : shl64 x 64 = 0.
Proof.
  apply N.bits_inj. intro i. unfold shl64. bits.
  destruct (N.ltb_spec i 64); [reflexivity | now rewrite andb_false_r].
Qed.

Lemma shl64_0 (x : N) : x < 2 ^ 64 -> shl64 x 0 = x.
Proof. intros H. unfold shl64. rewrite N.shiftl_0_r. now apply u64_id. Qed.

Lemma rounds8_reflected (poly x : N) :
  x < 2 ^ 64 ->
  rounds (byte_rounds true poly) 8 x = reflected_sum poly 8 x 0.
Proof.
  intros Hx. pose proof (rounds_reflected_sum poly 8 x 0) as H.
  change (8 * 0) with 0 in H. rewrite N.shiftr_0_r in H. rewrite H.
  change (8 * (0 + N.of_nat 8)) with 64. now rewrite shiftr_64, N.lxor_0_l.
Qed.

Lemma rounds8_normal (poly x : N) :
  x < 2 ^ 64 ->
  rounds (byte_rounds false poly) 8 x = normal_sum poly 8 x 0.
Proof.
  intros Hx. pose proof (rounds_normal_sum poly 8 x 0) as H.
  change (8 * 0) with 0 in H. rewrite shl64_0 in H by assumption. rewrite H by (simpl; lia).
  change (8 * (0 + N.of_nat 8)) with 64. now rewrite shl64_64, N.lxor_0_l.
Qed.

(** *** The two stages *)

Lemma xor8_assoc (a b c d e f g h : N) :
  N.lxor (N.lxor (N.lxor (N.lxor (N.lxor (N.lxor (N.lxor a b) c) d) e) f) g) h =
  N.lxor a (N.lxor b (N.lxor c (N.lxor d (N.lxor e (N.lxor f (N.lxor g (N.lxor h 0))))))).
Proof. now rewrite N.lxor_0_r, !N.lxor_assoc. Qed.

Lemma xor8_rev (a b c d e f g h : N) :
  N.lxor (N.lxor (N.lxor (N.lxor (N.lxor (N.lxor (N.lxor a b) c) d) e) f) g) h =
  N.lxor h (N.lxor g (N.lxor f (N.lxor e (N.lxor d (N.lxor c (N.lxor b (N.lxor a 0))))))).
Proof.
  rewrite N.lxor_0_r. rewrite (N.lxor_comm _ h). f_equal.
  rewrite (N.lxor_comm _ g). f_equal. rewrite (N.lxor_comm _ f). f_equal.
  rewrite (N.lxor_comm _ e). f_equal. rewrite (N.lxor_comm _ d). f_equal.
  rewrite (N.lxor_comm _ c). f_equal. apply N.lxor_comm.
Qed.

Lemma wordwise_little_bytes (table : option tabbuf) (x : N) :
  crcu64_wordwise_little table x =
  N.lxor (N.lxor (N.lxor (N.lxor (N.lxor (N.lxor (N.lxor
    (table_get table (N.of_nat 7 * CRC_U8_COUNT + byte_of x 0))
    (table_get table (N.of_nat 6 * CRC_U8_COUNT + byte_of x 1)))
    (table_get table (N.of_nat 5 * CRC_U8_COUNT + byte_of x 2)))
    (table_get table (N.of_nat 4 * CRC_U8_COUNT + byte_of x 3)))
    (table_get table (N.of_nat 3 * CRC_U8_COUNT + byte_of x 4)))
    (table_get table (N.of_nat 2 * CRC_U8_COUNT + byte_of x 5)))
    (table_get table (N.of_nat 1 * CRC_U8_COUNT + byte_of x 6)))
    (table_get table (N.of_nat 0 * CRC_U8_COUNT + byte_of x 7)).
Proof. reflexivity. Qed.

Lemma wordwise_big_bytes (table : option tabbuf) (x : N) :
  crcu64_wordwise_big table x =
  N.lxor (N.lxor (N.lxor (N.lxor (N.lxor (N.lxor (N.lxor
    (table_get table (N.of_nat 0 * CRC_U8_COUNT + byte_of x 0))
    (table_get table (N.of_nat 1 * CRC_U8_COUNT + byte_of x 1)))
    (table_get table (N.of_nat 2 * CRC_U8_COUNT + byte_of x 2)))
    (table_get table (N.of_nat 3 * CRC_U8_COUNT + byte_of x 3)))
    (table_get table (N.of_nat 4 * CRC_U8_COUNT + byte_of x 4)))
    (table_get table (N.of_nat 5 * CRC_U8_COUNT + byte_of x 5)))
    (table_get table (N.of_nat 6 * CRC_U8_COUNT + byte_of x 6)))
    (table_get table (N.of_nat 7 * CRC_U8_COUNT + byte_of x 7)).
Proof. reflexivity. Qed.

Lemma byteswap_0 : crc_u64_byteswap 0 = 0.
Proof. reflexivity. Qed.

(** Normalises the byte indices of the unfolded sums. *)
Ltac norm_index := cbn [N.add N.sub Pos.add Pos.succ Pos.sub_mask Pos.double_mask
                        Pos.succ_double_mask Pos.double_pred_mask Pos.pred_double].

(** Little-endian host, reflected input: the table is not swapped. *)
Lemma wordwise_little_reflected (poly : N) (table : option tabbuf) (x : N) :
  wordwise_table_ok false true poly table -> x < 2 ^ 64 ->
  crcu64_wordwise_little table x = rounds (byte_rounds true poly) 8 x.
Proof.
  intros Ht Hx. rewrite wordwise_little_bytes, rounds8_reflected by assumption.
  rewrite !(wordwise_table_byte false true poly) by (assumption || lia).
  rewrite xor8_assoc. unfold wordwise_entry. cbn [reflected_sum]. norm_index.
  reflexivity.
Qed.

(** Big-endian host, normal input: the table is not swapped. *)
Lemma wordwise_big_normal (poly : N) (table : option tabbuf) (x : N) :
  wordwise_table_ok false false poly table -> x < 2 ^ 64 ->
  crcu64_wordwise_big table x = rounds (byte_rounds false poly) 8 x.
Proof.
  intros Ht Hx. rewrite wordwise_big_bytes, rounds8_normal by assumption.
  rewrite !(wordwise_table_byte false false poly) by (assumption || lia).
  rewrite xor8_rev. unfold wordwise_entry. cbn [normal_sum]. norm_index.
  reflexivity.
Qed.

(** Little-endian host, normal input: table and accumulator are swapped. *)
Lemma wordwise_little_normal (poly : N) (table : option tabbuf) (x : N) :
  wordwise_table_ok true false poly table -> x < 2 ^ 64 ->
  crcu64_wordwise_little table (crc_u64_byteswap x) =
  crc_u64_byteswap (rounds (byte_rounds false poly) 8 x).
Proof.
  intros Ht Hx. rewrite wordwise_little_bytes, rounds8_normal by assumption.
  rewrite !(wordwise_table_byte true false poly) by (assumption || lia).
  rewrite !byte_of_byteswap by lia.
  rewrite xor8_assoc. unfold wordwise_entry. cbn [normal_sum].
  rewrite !byteswap_lxor, byteswap_0. norm_index.
  reflexivity.
Qed.

(** Big-endian host, reflected input: table and accumulator are swapped. *)
Lemma wordwise_big_reflected (poly : N) (table : option tabbuf) (x : N) :
  wordwise_table_ok true true poly table -> x < 2 ^ 64 ->
  crcu64_wordwise_big table (crc_u64_byteswap x) =
  crc_u64_byteswap (rounds (byte_rounds true poly) 8 x).
Proof.
  intros Ht Hx. rewrite wordwise_big_bytes, rounds8_reflected by assumption.
  rewrite !(wordwise_table_byte true true poly) by (assumption || lia).
  rewrite !byte_of_byteswap by lia.
  rewrite xor8_rev. unfold wordwise_entry. cbn [reflected_sum].
  rewrite !byteswap_lxor, byteswap_0. norm_index.
  reflexivity.
Qed.

(** * The three update functions *)

(** ** Bytes of words and byte swaps *)

Lemma word_of_bytes_le_spec (bs : list Byte.byte) (i : N) :
  N.testbit (word_of_bytes_le bs) i =
  N.testbit (byte_val (nth (N.to_nat (i / 8)) bs Byte.x00)) (i mod 8).
Proof.
  revert i. induction bs as [|b bs IH]; intros i.
  - cbn [word_of_bytes_le]. destruct (N.to_nat (i / 8)); simpl; rewrite ?N.bits_0; reflexivity.
  - cbn [word_of_bytes_le]. bits. destruct (N.ltb_spec i 8).
    + rewrite orb_false_r. replace (i / 8) with 0 by lia.
      replace (i mod 8) with i by lia. reflexivity.
    + rewrite (proj1 (lt_pow2_bits _ _) (byte_val_lt b)) by assumption.
      rewrite orb_false_l, IH.
      replace (N.to_nat (i / 8)) with (S (N.to_nat ((i - 8) / 8))) by lia.
      cbn [nth]. f_equal. lia.
Qed.

Lemma byteswap_word (bs : list Byte.byte) :
  length bs = 8%nat ->
  crc_u64_byteswap (word_of_bytes_le bs) = word_of_bytes_le (rev bs).
Proof.
  intros Hl. apply N.bits_inj. intro i. rewrite byteswap_spec.
  destruct (N.ltb_spec i 64).
  - rewrite !word_of_bytes_le_spec. unfold byteswap_index.
    rewrite rev_nth by lia. rewrite Hl. f_equal; [| lia].
    do 2 f_equal. lia.
  - symmetry. pose proof (word_of_bytes_le_lt (rev bs)) as H0.
    rewrite length_rev, Hl in H0. apply (proj1 (lt_pow2_bits _ _) H0). assumption.
Qed.

Lemma swap_if_lxor (sw : bool) (a b : N) :
  swap_if sw (N.lxor a b) = N.lxor (swap_if sw a) (swap_if sw b).
Proof. destruct sw; [apply byteswap_lxor | reflexivity]. Qed.

Lemma swap_if_involutive (sw : bool) (a : N) :
  a < 2 ^ 64 -> swap_if sw (swap_if sw a) = a.
Proof. intros H. destruct sw; [now apply byteswap_involutive | reflexivity]. Qed.

Lemma swap_if_lt (sw : bool) (a : N) : a < 2 ^ 64 -> swap_if sw a < 2 ^ 64.
Proof. intros H. destruct sw; [apply byteswap_lt | assumption]. Qed.

Lemma block_word_lt (refin : bool) (bs : list Byte.byte) :
  length bs = 8%nat -> block_word refin bs < 2 ^ 64.
Proof.
  intros Hl. destruct refin; simpl.
  - pose proof (word_of_bytes_le_lt bs) as H. now rewrite Hl in H.
  - apply word_of_bytes_hi_lt. lia.
Qed.

Lemma load_u64_block (le refin : bool) (bs : list Byte.byte) :
  length bs = 8%nat ->
  load_u64 le bs = swap_if (xorb le refin) (block_word refin bs).
Proof.
  intros Hl. unfold load_u64, block_word, swap_if.
  assert (Eh : word_of_bytes_hi bs = word_of_bytes_le (rev bs)).
  { rewrite word_of_bytes_hi_rev by lia. rewrite Hl. apply N.shiftl_0_r. }
  destruct le, refin; simpl.
  - reflexivity.
  - rewrite Eh, byteswap_word by (now rewrite length_rev).
    now rewrite rev_involutive.
  - now rewrite byteswap_word.
  - now symmetry.
Qed.

Lemma fold_bitwise_block (refin : bool) (poly : N) (bs : list Byte.byte) (a : N) :
  length bs = 8%nat ->
  fold_left (bitwise_byte refin poly) bs a =
  rounds (byte_rounds refin poly) 8 (N.lxor a (block_word refin bs)).
Proof.
  intros Hl. destruct refin; simpl.
  - now rewrite fold_bitwise_reflected_word, Hl.
  - rewrite fold_bitwise_normal_word by lia. now rewrite Hl.
Qed.

(** ** One stage of the block loop *)

Lemma stage_of_rounds (le refin : bool) (poly : N) (table : option tabbuf) (x : N) :
  wordwise_table_ok (xorb le refin) refin poly table -> x < 2 ^ 64 ->
  stage_of le table (swap_if (xorb le refin) x) =
  swap_if (xorb le refin) (rounds (byte_rounds refin poly) 8 x).
Proof.
  intros Ht Hx. destruct le, refin; cbn [xorb stage_of swap_if] in *.
  - now apply wordwise_little_reflected.
  - now apply wordwise_little_normal.
  - now apply wordwise_big_reflected.
  - now apply wordwise_big_normal.
Qed.

(** The block loop consumes a prefix of the data the way the bitwise
    kernel does, up to the byte swap of the accumulator. *)
Lemma wordwise_loop_bitwise (le refin : bool) (poly : N) (table : option tabbuf) :
  poly < 2 ^ 64 ->
  wordwise_table_ok (xorb le refin) refin poly table ->
  forall (n : nat) (data : list Byte.byte) (a : N),
    (length data <= n)%nat -> a < 2 ^ 64 ->
    exists pre,
      data = pre ++ snd (wordwise_loop (stage_of le table) le (swap_if (xorb le refin) a) data)
      /\ fst (wordwise_loop (stage_of le table) le (swap_if (xorb le refin) a) data)
         = swap_if (xorb le refin) (fold_left (bitwise_byte refin poly) pre a)
      /\ ((8 <= length data)%nat -> pre <> [])
      /\ (length (snd (wordwise_loop (stage_of le table) le
                                     (swap_if (xorb le refin) a) data)) < 8)%nat.
Proof.
  intros Hp Ht. induction n as [|n IH]; intros data a Hl Ha.
  - destruct data; [|simpl in Hl; lia]. exists []. simpl. repeat split; trivial; lia.
  - destruct data as [|b0 [|b1 [|b2 [|b3 [|b4 [|b5 [|b6 [|b7 data']]]]]]]];
      try (exists []; cbn [wordwise_loop fst snd app fold_left length];
           repeat split; trivial; lia).
    cbn [wordwise_loop].
    set (bs := [b0; b1; b2; b3; b4; b5; b6; b7]).
    assert (Hbs : length bs = 8%nat) by reflexivity.
    rewrite (load_u64_block le refin bs Hbs), <- swap_if_lxor.
    rewrite (stage_of_rounds le refin poly) by
        first [ assumption
              | apply lxor_lt_pow2; [assumption | now apply block_word_lt] ].
    rewrite <- (fold_bitwise_block refin poly bs a Hbs).
    destruct (IH data' (fold_left (bitwise_byte refin poly) bs a))
      as (pre & Hd & Hf & _ & Hr).
    { cbn [length] in Hl. lia. }
    { now apply fold_bitwise_lt. }
    exists (bs ++ pre). repeat split.
    + rewrite <- app_assoc, <- Hd. reflexivity.
    + now rewrite fold_left_app.
    + intros _. discriminate.
    + assumption.
Qed.

(** ** The update functions on implementations *)

Lemma update_bitwise_fold (impl : crcu64_impl) (data : list Byte.byte) :
  crcu64_impl_update_bitwise impl data =
  advanced impl data
    (fold_left (bitwise_byte (impl_refin impl) (impl_poly impl)) data (impl_accum impl)).
Proof. unfold crcu64_impl_update_bitwise, advanced, bitwise_byte. now destruct data, (impl_refin impl). Qed.

Lemma update_bytewise_fold (impl : crcu64_impl) (data : list Byte.byte) :
  crcu64_impl_update_bytewise impl data =
  advanced impl data
    (fold_left (bytewise_byte (impl_refin impl) (impl_bytewise impl)) data (impl_accum impl)).
Proof. unfold crcu64_impl_update_bytewise, advanced, bytewise_byte. now destruct data, (impl_refin impl). Qed.

Lemma advanced_app (impl : crcu64_impl) (s1 s2 : list Byte.byte) (a1 a2 : N) :
  advanced (advanced impl s1 a1) s2 a2 =
  advanced impl (s1 ++ s2) (match s2 with [] => a1 | _ => a2 end).
Proof. now destruct s1, s2. Qed.

Lemma advanced_fields (impl : crcu64_impl) (data : list Byte.byte) (a : N) :
  impl_refin (advanced impl data a) = impl_refin impl
  /\ impl_poly (advanced impl data a) = impl_poly impl
  /\ impl_bytewise (advanced impl data a) = impl_bytewise impl
  /\ impl_wordwise (advanced impl data a) = impl_wordwise impl
  /\ impl_accum (advanced impl data a) = match data with [] => impl_accum impl | _ => a end.
Proof. now destruct data. Qed.

(** Chunk independence of the bitwise and of the bytewise kernel. *)
Lemma update_bitwise_app (impl : crcu64_impl) (s1 s2 : list Byte.byte) :
  crcu64_impl_update_bitwise (crcu64_impl_update_bitwise impl s1) s2 =
  crcu64_impl_update_bitwise impl (s1 ++ s2).
Proof.
  rewrite !update_bitwise_fold, advanced_app.
  destruct (advanced_fields impl s1
              (fold_left (bitwise_byte (impl_refin impl) (impl_poly impl)) s1 (impl_accum impl)))
    as (-> & -> & _ & _ & ->).
  rewrite fold_left_app. destruct s1, s2; reflexivity.
Qed.

Lemma update_bytewise_app (impl : crcu64_impl) (s1 s2 : list Byte.byte) :
  crcu64_impl_update_bytewise (crcu64_impl_update_bytewise impl s1) s2 =
  crcu64_impl_update_bytewise impl (s1 ++ s2).
Proof.
  rewrite !update_bytewise_fold, advanced_app.
  destruct (advanced_fields impl s1
              (fold_left (bytewise_byte (impl_refin impl) (impl_bytewise impl)) s1 (impl_accum impl)))
    as (-> & _ & -> & _ & ->).
  rewrite fold_left_app. destruct s1, s2; reflexivity.
Qed.

(** The bytewise kernel computes what the bitwise kernel computes. *)
Lemma update_bytewise_bitwise (impl : crcu64_impl) (data : list Byte.byte) :
  accum_ok impl -> bytewise_ok impl ->
  crcu64_impl_update_bytewise impl data = crcu64_impl_update_bitwise impl data.
Proof.
  intros [Ha Hp] Ht. rewrite update_bytewise_fold, update_bitwise_fold.
  now rewrite (fold_bytewise_bitwise _ (impl_poly impl)).
Qed.

Lemma update_bitwise_accum_ok (impl : crcu64_impl) (data : list Byte.byte) :
  accum_ok impl -> accum_ok (crcu64_impl_update_bitwise impl data).
Proof.
  intros [Ha Hp]. rewrite update_bitwise_fold. unfold accum_ok.
  destruct (advanced_fields impl data
              (fold_left (bitwise_byte (impl_refin impl) (impl_poly impl)) data (impl_accum impl)))
    as (_ & -> & _ & _ & ->).
  split; [|assumption]. destruct data; [assumption|]. now apply fold_bitwise_lt.
Qed.

Lemma update_bitwise_fields (impl : crcu64_impl) (data : list Byte.byte) :
  impl_refin (crcu64_impl_update_bitwise impl data) = impl_refin impl
  /\ impl_poly (crcu64_impl_update_bitwise impl data) = impl_poly impl
  /\ impl_bytewise (crcu64_impl_update_bitwise impl data) = impl_bytewise impl
  /\ impl_wordwise (crcu64_impl_update_bitwise impl data) = impl_wordwise impl.
Proof.
  rewrite update_bitwise_fold.
  destruct (advanced_fields impl data
              (fold_left (bitwise_byte (impl_refin impl) (impl_poly impl)) data (impl_accum impl)))
    as (-> & -> & -> & -> & _).
  repeat split.
Qed.

(** The block loop of the wordwise kernel is the bitwise kernel on a
    prefix of the data. *)
Lemma wordwise_blocks_bitwise (h : host) (impl : crcu64_impl) (data : list Byte.byte) :
  accum_ok impl -> wordwise_ok h impl ->
  exists pre,
    data = pre ++ snd (wordwise_blocks h impl data)
    /\ fst (wordwise_blocks h impl data) = crcu64_impl_update_bitwise impl pre.
Proof.
  intros [Ha Hp] Ht. unfold wordwise_blocks.
  destruct (N.leb_spec CRC_MAX_SIZE (size_of data)) as [Hs|Hs].
  - destruct (wordwise_loop_bitwise (little_endian h) (impl_refin impl) (impl_poly impl)
                (impl_wordwise impl) Hp Ht (length data) data (impl_accum impl)
                (Nat.le_refl _) Ha) as (pre & Hd & Hf & Hne & _).
    assert (Hpre : pre <> []).
    { apply Hne. unfold size_of in Hs. change CRC_MAX_SIZE with 8 in Hs. lia. }
    exists pre. unfold stage_of, swap_if in Hd, Hf.
    assert (Hlt : fold_left (bitwise_byte (impl_refin impl) (impl_poly impl)) pre
                            (impl_accum impl) < 2 ^ 64) by now apply fold_bitwise_lt.
    rewrite update_bitwise_fold. unfold advanced.
    destruct (little_endian h), (impl_refin impl); cbn [xorb negb] in *;
      match goal with
      | |- context [wordwise_loop ?f ?l ?a ?d] =>
          destruct (wordwise_loop f l a d) as [acc rest] eqn:E
      end; cbn [fst snd] in *; subst acc;
      rewrite ?byteswap_involutive by assumption;
      (split; [assumption|]); destruct pre; congruence.
  - exists []. split; reflexivity.
Qed.

(** The wordwise kernel computes what the bytewise kernel computes,
    whatever the alignment of the data and the endianness of the host. *)
Lemma update_wordwise_bitwise (h : host) (impl : crcu64_impl)
      (addr : N) (data : list Byte.byte) :
  accum_ok impl -> bytewise_ok impl -> wordwise_ok h impl ->
  crcu64_impl_update_wordwise h impl addr data = crcu64_impl_update_bitwise impl data.
Proof.
  intros Ha Hb Hw. unfold crcu64_impl_update_wordwise.
  destruct (N.eqb_spec (size_of data) 0) as [Hz|Hz].
  { destruct data; [reflexivity | discriminate]. }
  assert (Hpro : exists k,
             wordwise_prologue impl addr data =
             (crcu64_impl_update_bitwise impl (firstn k data), skipn k data)).
  { unfold wordwise_prologue. destruct (negb _).
    - eexists. rewrite update_bytewise_bitwise by assumption. reflexivity.
    - exists 0%nat. reflexivity. }
  destruct Hpro as [k ->].
  set (impl1 := crcu64_impl_update_bitwise impl (firstn k data)).
  destruct (update_bitwise_fields impl (firstn k data)) as (Hr & Hp & Htb & Htw).
  fold impl1 in Hr, Hp, Htb, Htw.
  assert (Ha1 : accum_ok impl1) by now apply update_bitwise_accum_ok.
  assert (Hb1 : bytewise_ok impl1).
  { unfold bytewise_ok. now rewrite Hr, Hp, Htb. }
  assert (Hw1 : wordwise_ok h impl1).
  { unfold wordwise_ok. now rewrite Hr, Hp, Htw. }
  destruct (wordwise_blocks_bitwise h impl1 (skipn k data) Ha1 Hw1) as (pre & Hd & Hf).
  destruct (wordwise_blocks h impl1 (skipn k data)) as [impl2 rest].
  cbn [fst snd] in Hd, Hf. subst impl2.
  set (impl2 := crcu64_impl_update_bitwise impl1 pre).
  destruct (update_bitwise_fields impl1 pre) as (Hr2 & Hp2 & Htb2 & _).
  fold impl2 in Hr2, Hp2, Htb2.
  assert (Ha2 : accum_ok impl2) by now apply update_bitwise_accum_ok.
  assert (Hb2 : bytewise_ok impl2).
  { unfold bytewise_ok. rewrite Hr2, Hp2, Htb2. exact Hb1. }
  assert (E : (if negb (size_of rest =? 0)
               then crcu64_impl_update_bytewise impl2 rest else impl2)
              = crcu64_impl_update_bitwise impl2 rest).
  { destruct rest; [reflexivity|]. cbn [size_of negb]. 
    replace (N.of_nat (length (b :: rest)) =? 0) with false
      by (symmetry; apply N.eqb_neq; cbn [length]; lia).
    now apply update_bytewise_bitwise. }
  rewrite E. unfold impl2, impl1. rewrite !update_bitwise_app.
  f_equal. rewrite <- Hd. apply firstn_skipn.
Qed.

(** * Tabulation *)

Lemma nth_insert (l : list N) (i j : nat) (x : N) :
  nth j (<[i:=x]> l) 0 =
  if decide (i = j /\ (i < length l)%nat) then x else nth j l 0.
Proof.
  rewrite !nth_lookup, list_lookup_insert. now destruct (decide _).
Qed.

(** A loop that writes the entries of a table key by key: every entry is
    written by the turn of its key and left alone by the other turns. *)
Section TableLoop.
Variable step : list N -> N -> list N.
Variable good : N -> Prop.
Variable touches : N -> nat -> bool.
Variable value : nat -> N.
Variable key_of : nat -> N.
Variable size : nat.

Hypothesis step_length : forall t k, length (step t k) = length t.
Hypothesis step_nth : forall t k j,
      good k -> length t = size -> (j < size)%nat ->
      nth j (step t k) 0 = if touches k j then value j else nth j t 0.
Hypothesis touches_key : forall k j, touches k j = true -> k = key_of j.

Lemma table_loop_length (keys : list N) (t : list N) :
    length (fold_left step keys t) = length t.
Proof using step_length.
    revert t. induction keys as [|k keys IH]; intros t; simpl; [reflexivity|].
    now rewrite IH, step_length.
Qed.

Lemma table_loop_other (keys : list N) (t : list N) (j : nat) :
    Forall good keys -> length t = size -> (j < size)%nat ->
    ~ In (key_of j) keys ->
    nth j (fold_left step keys t) 0 = nth j t 0.
Proof using step_length step_nth touches_key.
    revert t. induction keys as [|k keys IH]; intros t Hg Hl Hj Hn; simpl; [reflexivity|].
    pose proof (Forall_inv Hg) as Hk. pose proof (Forall_inv_tail Hg) as Hks.
    rewrite IH; trivial.
    - rewrite step_nth by assumption.
      destruct (touches k j) eqn:E; [|reflexivity].
      apply touches_key in E. subst k. exfalso. apply Hn. now left.
    - now rewrite step_length.
    - intros H. apply Hn. now right.
Qed.

Lemma table_loop_nth (keys : list N) (t : list N) (j : nat) :
    Forall good keys -> length t = size -> (j < size)%nat ->
    In (key_of j) keys -> touches (key_of j) j = true ->
    nth j (fold_left step keys t) 0 = value j.
Proof using step_length step_nth touches_key.
    revert t. induction keys as [|k keys IH]; intros t Hg Hl Hj Hin Ht; simpl; [easy|].
    pose proof (Forall_inv Hg) as Hgk. pose proof (Forall_inv_tail Hg) as Hgks.
    destruct (in_dec N.eq_dec (key_of j) keys) as [Hk|Hk].
    - apply IH; trivial. now rewrite step_length.
    - destruct Hin as [->|Hin]; [|contradiction].
      rewrite table_loop_other; trivial.
      + rewrite step_nth by assumption. now rewrite Ht.
      + now rewrite step_length.
Qed.
End TableLoop.

Lemma byte_range_In (i : N) : i < 256 -> In i byte_range.
Proof.
  intros H. unfold byte_range. apply in_map_iff. exists (N.to_nat i). split; [lia|].
  apply in_seq. change (N.to_nat CRC_U8_COUNT) with 256%nat. lia.
Qed.

Lemma byte_range_lt : Forall (fun k => k < 256) byte_range.
Proof.
  apply List.Forall_forall. intros k Hk. unfold byte_range in Hk.
  apply in_map_iff in Hk as (n & <- & Hn). apply in_seq in Hn.
  change (N.to_nat CRC_U8_COUNT) with 256%nat in Hn. lia.
Qed.

(** ** The bytewise table *)

Lemma tabulate_bytewise_value (impl : crcu64_impl) (byte : N) :
  impl_accum (crcu64_impl_update_word (set_accum impl 0) byte CRC_U8_WIDTH) =
  bytewise_entry (impl_refin impl) (impl_poly impl) byte.
Proof.
  unfold crcu64_impl_update_word, bytewise_entry. cbn [N.eqb CRC_U8_WIDTH].
  cbn [set_accum set_dirty impl_accum impl_refin impl_poly].
  now destruct (impl_refin impl).
Qed.

Lemma tabulate_bytewise_table (impl : crcu64_impl) (buf : tabbuf) :
  impl_bytewise impl = Some buf -> length (buf_data buf) = 256%nat ->
  bytewise_ok (crcu64_impl_tabulate_bytewise impl).
Proof.
  intros Hb Hl. unfold crcu64_impl_tabulate_bytewise, bytewise_ok. rewrite Hb.
  cbn [set_bytewise impl_refin impl_poly impl_bytewise].
  intros i Hi. cbn [table_get buf_data].
  rewrite (table_loop_nth (tabulate_bytewise_entry impl) (fun k => k < 256)
             (fun k j => Nat.eqb (N.to_nat k) j)
             (fun j => bytewise_entry (impl_refin impl) (impl_poly impl) (N.of_nat j))
             (fun j => N.of_nat j) 256).
  - now rewrite N2Nat.id.
  - intros t k. apply length_insert.
  - intros t k j Hk Ht Hj. unfold tabulate_bytewise_entry.
    rewrite nth_insert, tabulate_bytewise_value.
    destruct (Nat.eqb_spec (N.to_nat k) j) as [E|E].
    + rewrite decide_True by (split; lia). subst j. now rewrite N2Nat.id.
    + now rewrite decide_False by tauto.
  - intros k j E. apply Nat.eqb_eq in E. lia.
  - apply byte_range_lt.
  - assumption.
  - lia.
  - apply byte_range_In. lia.
  - apply Nat.eqb_eq. lia.
Qed.

(** ** The wordwise table *)

Lemma tabulate_zero_byte_rounds (impl : crcu64_impl) (a : N) :
  impl_poly impl < 2 ^ 64 -> a < 2 ^ 64 -> bytewise_ok impl ->
  tabulate_zero_byte impl a = byte_rounds (impl_refin impl) (impl_poly impl) a.
Proof.
  intros Hp Ha Hb.
  assert (E : tabulate_zero_byte impl a =
              bytewise_byte (impl_refin impl) (impl_bytewise impl) a Byte.x00).
  { unfold tabulate_zero_byte, bytewise_byte. now destruct (impl_refin impl). }
  rewrite E, (bytewise_byte_bitwise _ (impl_poly impl)) by assumption.
  rewrite bitwise_byte_rounds. f_equal.
  destruct (impl_refin impl); apply N.lxor_0_r.
Qed.

Lemma rounds_zero_byte (impl : crcu64_impl) (s : nat) (a : N) :
  impl_poly impl < 2 ^ 64 -> a < 2 ^ 64 -> bytewise_ok impl ->
  rounds (tabulate_zero_byte impl) s a =
  rounds (byte_rounds (impl_refin impl) (impl_poly impl)) s a.
Proof.
  intros Hp Ha Hb. revert a Ha. induction s as [|s IH]; intros a Ha; simpl; [reflexivity|].
  rewrite tabulate_zero_byte_rounds by assumption.
  apply IH. now apply byte_rounds_lt.
Qed.

Lemma bytewise_entry_lt (refin : bool) (poly i : N) :
  poly < 2 ^ 64 -> i < 256 -> bytewise_entry refin poly i < 2 ^ 64.
Proof.
  intros Hp Hi. unfold bytewise_entry.
  destruct refin.
  - apply (byte_rounds_lt true); trivial. eapply N.lt_trans; [exact Hi|reflexivity].
  - apply (byte_rounds_lt false); trivial. apply u64_lt.
Qed.

Lemma slice_range_eq : slice_range = [1; 2; 3; 4; 5; 6; 7].
Proof. reflexivity. Qed.

Lemma tabulate_wordwise_entry_length (h : host) (impl : crcu64_impl)
      (t : list N) (byte : N) :
  length (tabulate_wordwise_entry h impl t byte) = length t.
Proof.
  unfold tabulate_wordwise_entry. rewrite slice_range_eq.
  cbn [fold_left tabulate_wordwise_slice snd]. now rewrite !length_insert.
Qed.

Ltac walk_inserts :=
  rewrite nth_insert, ?length_insert;
  match goal with
  | |- context [decide ?P] =>
      destruct (decide P) as [?|?];
      [ first [ exfalso; lia | reflexivity ]
      | first [ exfalso; lia | walk_inserts | reflexivity ] ]
  end.

Lemma tabulate_wordwise_entry_nth (h : host) (impl : crcu64_impl)
      (t : list N) (byte : N) (j : nat) :
  byte < 256 -> length t = 2048%nat -> (j < 2048)%nat ->
  nth j (tabulate_wordwise_entry h impl t byte) 0 =
  if N.of_nat j mod 256 =? byte
  then tabulate_wordwise_value h impl j else nth j t 0.
Proof.
  intros Hb Hl Hj. unfold tabulate_wordwise_entry, tabulate_wordwise_value.
  rewrite slice_range_eq. cbn [fold_left tabulate_wordwise_slice snd].
  change CRC_U8_COUNT with 256. fold (swap_if (xorb (little_endian h) (impl_refin impl))).
  destruct (N.eqb_spec (N.of_nat j mod 256) byte) as [E|E].
  - rewrite E.
    assert (Hs : (N.to_nat (N.of_nat j / 256) < 8)%nat) by lia.
    remember (N.to_nat (N.of_nat j / 256)) as s eqn:Es.
    unfold swap_if.
    do 8 (destruct s as [|s]; [cbn [rounds]; walk_inserts|]).
    exfalso. lia.
  - unfold swap_if. walk_inserts.
Qed.

Lemma tabulate_wordwise_table (h : host) (impl : crcu64_impl) (buf : tabbuf) :
  impl_poly impl < 2 ^ 64 -> bytewise_ok impl ->
  impl_wordwise impl = Some buf -> length (buf_data buf) = 2048%nat ->
  wordwise_ok h (crcu64_impl_tabulate_wordwise h impl).
Proof.
  intros Hp Hb Hw Hl. unfold crcu64_impl_tabulate_wordwise, wordwise_ok. rewrite Hw.
  cbn [set_wordwise impl_refin impl_poly impl_wordwise].
  intros s i Hs Hi. cbn [table_get buf_data].
  rewrite (table_loop_nth (tabulate_wordwise_entry h impl) (fun k => k < 256)
             (fun k j => N.of_nat j mod 256 =? k)
             (tabulate_wordwise_value h impl)
             (fun j => N.of_nat j mod 256) 2048).
  - unfold tabulate_wordwise_value, wordwise_entry, swap_if.
    change CRC_U8_COUNT with 256.
    replace (N.to_nat (N.of_nat (N.to_nat (N.of_nat s * 256 + i)) / 256)) with s by lia.
    replace (N.of_nat (N.to_nat (N.of_nat s * 256 + i)) mod 256) with i by lia.
    rewrite (Hb i Hi).
    rewrite rounds_zero_byte; trivial. now apply bytewise_entry_lt.
  - intros t k. apply tabulate_wordwise_entry_length.
  - intros t k j Hk Ht Hj. now apply tabulate_wordwise_entry_nth.
  - intros k j E. apply N.eqb_eq in E. lia.
  - apply byte_range_lt.
  - assumption.
  - change CRC_U8_COUNT with 256. lia.
  - apply byte_range_In. lia.
  - apply N.eqb_eq. lia.
Qed.

(** * Engines *)

(** ** Configuration *)

Lemma configure_valid (impl : crcu64_impl) (config : crc_config) :
  config_valid config = true ->
  crcu64_impl_configure impl config = inr (configured impl config).
Proof.
  unfold config_valid, crcu64_impl_configure. intros H.
  apply andb_prop in H as [H Hx]. apply andb_prop in H as [H Hi].
  apply andb_prop in H as [Hw Hp].
  apply negb_true_iff in Hw, Hp, Hi, Hx. now rewrite Hw, Hp, Hi, Hx.
Qed.

Lemma configure_invalid (impl : crcu64_impl) (config : crc_config) :
  config_valid config = false ->
  exists errstr, crcu64_impl_configure impl config = inl errstr.
Proof.
  unfold config_valid, crcu64_impl_configure. intros H.
  destruct (_ || _); [eauto|]. destruct (_ || _); [eauto|].
  destruct (_ <? cfg_init config); [eauto|].
  destruct (_ <? cfg_xorout config); [eauto|]. discriminate.
Qed.

Lemma configure_inr (impl impl' : crcu64_impl) (config : crc_config) :
  crcu64_impl_configure impl config = inr impl' ->
  config_valid config = true /\ impl' = configured impl config.
Proof.
  intros H. destruct (config_valid config) eqn:E.
  - rewrite configure_valid in H by assumption. split; congruence.
  - destruct (configure_invalid impl config E) as [e He]. congruence.
Qed.

Lemma config_valid_bounds (config : crc_config) :
  config_valid config = true <->
  (1 <= cfg_width config <= 64)
  /\ (1 <= cfg_poly config <= crc_u64_bitmask (cfg_width config))
  /\ cfg_init config <= crc_u64_bitmask (cfg_width config)
  /\ cfg_xorout config <= crc_u64_bitmask (cfg_width config).
Proof.
  unfold config_valid. change CRC_MAX_WIDTH with 64.
  rewrite !andb_true_iff, !negb_true_iff, !orb_false_iff, !N.ltb_ge, !N.eqb_neq.
  lia.
Qed.

Lemma internal_lt (config : crc_config) (v : N) :
  cfg_width config <= 64 -> internal config v < 2 ^ 64.
Proof.
  intros Hw. unfold internal. destruct (cfg_refin config).
  - eapply N.lt_le_trans; [now apply bitswap_lt|]. now apply N.pow_le_mono_r.
  - apply u64_lt.
Qed.

Lemma configured_accum_ok (impl : crcu64_impl) (config : crc_config) :
  config_valid config = true -> accum_ok (configured impl config).
Proof.
  intros H. apply config_valid_bounds in H as ((_ & Hw) & _).
  split; cbn [configured impl_accum impl_poly]; now apply internal_lt.
Qed.

(** ** The implementation without its tables *)

Lemma strip_update_bitwise (impl : crcu64_impl) (data : list Byte.byte) :
  strip (crcu64_impl_update_bitwise impl data) =
  crcu64_impl_update_bitwise (strip impl) data.
Proof. unfold crcu64_impl_update_bitwise. now destruct data, (impl_refin impl) eqn:E; cbn; rewrite ?E. Qed.

Lemma strip_digest (impl : crcu64_impl) :
  crcu64_impl_digest (strip impl) =
  (strip (fst (crcu64_impl_digest impl)), snd (crcu64_impl_digest impl)).
Proof. unfold crcu64_impl_digest. cbn. now destruct (impl_dirty impl). Qed.

Lemma digest_strip_eq (i1 i2 : crcu64_impl) :
  strip i1 = strip i2 -> snd (crcu64_impl_digest i1) = snd (crcu64_impl_digest i2).
Proof.
  intros H. pose proof (strip_digest i1) as H1. pose proof (strip_digest i2) as H2.
  rewrite H in H1. rewrite H1 in H2. now inversion H2.
Qed.

(** ** The invariant of an engine *)

(** Whatever its method, an engine updates its accumulator the way the
    bitwise kernel does. *)
Lemma update_bitwise_equiv (h : host) (impl : crcu64_impl) (addr : N) (data : list Byte.byte) :
  engine_ok h impl ->
  crcu64_impl_update h impl addr data = crcu64_impl_update_bitwise impl data.
Proof.
  intros [Ha Hk]. unfold crcu64_impl_update.
  destruct (impl_update impl) as [[| |]|]; try easy.
  - now apply update_bytewise_bitwise.
  - destruct Hk. now apply update_wordwise_bitwise.
Qed.

Lemma update_bitwise_update (impl : crcu64_impl) (data : list Byte.byte) :
  impl_update (crcu64_impl_update_bitwise impl data) = impl_update impl.
Proof. rewrite update_bitwise_fold. now destruct data. Qed.

Lemma update_bitwise_engine_ok (h : host) (impl : crcu64_impl) (data : list Byte.byte) :
  engine_ok h impl -> engine_ok h (crcu64_impl_update_bitwise impl data).
Proof.
  intros [Ha Hk]. split; [now apply update_bitwise_accum_ok|].
  rewrite update_bitwise_update.
  destruct (update_bitwise_fields impl data) as (Hr & Hp & Hb & Hw).
  unfold bytewise_ok, wordwise_ok in *. now rewrite Hr, Hp, Hb, Hw.
Qed.

Lemma update_engine_ok (h : host) (impl : crcu64_impl) (addr : N) (data : list Byte.byte) :
  engine_ok h impl -> engine_ok h (crcu64_impl_update h impl addr data).
Proof.
  intros H. rewrite update_bitwise_equiv by assumption. now apply update_bitwise_engine_ok.
Qed.

(** ** The table caches *)

Lemma cache_ok_exec (h : host) : cache_ok h crcmodule_exec.
Proof. split; intros config buf H; cbn in H; now rewrite lookup_empty in H. Qed.

Lemma tabkey_of_inj (c1 c2 : crc_config) : tabkey_of c1 = tabkey_of c2 -> c1 = c2.
Proof. destruct c1, c2. unfold tabkey_of. cbn. intros H. now inversion H. Qed.

Lemma apply_method_bytewise (h : host) (self : crcu64object) (config : crc_config)
      (state : crcmodule_state) :
  configured_for config (impl self) -> cache_ok h state ->
  cache_ok h (snd (crcu64_apply_method h self CRC_METHOD_BYTEWISE config state))
  /\ bytewise_ok (impl (fst (crcu64_apply_method h self CRC_METHOD_BYTEWISE config state)))
  /\ impl (fst (crcu64_apply_method h self CRC_METHOD_BYTEWISE config state)) =
     set_bytewise (set_update (impl self) (Some update_bytewise))
       (impl_bytewise (impl (fst (crcu64_apply_method h self CRC_METHOD_BYTEWISE config state)))).
Proof.
  intros (Hr & Hp & Hlt) [Hcb Hcw]. unfold crcu64_apply_method.
  change (CRC_METHOD_BYTEWISE =? CRC_METHOD_WORDWISE) with false. cbv iota.
  destruct (crcu64_bytewise_cache state !! tabkey_of config) as [buf|] eqn:E.
  - cbn [fst snd impl]. repeat split; trivial.
    unfold bytewise_ok. cbn [set_bytewise set_update impl_refin impl_poly impl_bytewise].
    rewrite Hr, Hp. now apply Hcb.
  - set (buf := mk_tabbuf (next_object state) (repeat 0 (N.to_nat (1 * CRC_U8_COUNT)))).
    set (impl0 := set_bytewise (set_update (impl self) (Some update_bytewise)) (Some buf)).
    assert (Hok : bytewise_ok (crcu64_impl_tabulate_bytewise impl0)).
    { apply (tabulate_bytewise_table impl0 buf); [reflexivity|]. apply repeat_length. }
    assert (Heq : crcu64_impl_tabulate_bytewise impl0 =
                  set_bytewise (set_update (impl self) (Some update_bytewise))
                               (impl_bytewise (crcu64_impl_tabulate_bytewise impl0))).
    { reflexivity. }
    cbn [fst snd impl]. repeat split; trivial.
    + cbn [crcu64_bytewise_cache]. intros config' buf' H.
      destruct (impl_bytewise (crcu64_impl_tabulate_bytewise impl0)) as [t|] eqn:Et;
        [|now apply Hcb].
      destruct (decide (tabkey_of config = tabkey_of config')) as [Hk|Hk].
      * rewrite <- Hk, lookup_insert_eq in H. inversion H; subst buf'.
        apply tabkey_of_inj in Hk. subst config'.
        unfold bytewise_ok in Hok. rewrite Et in Hok.
        change (impl_refin (crcu64_impl_tabulate_bytewise impl0)) with (impl_refin (impl self)) in Hok.
        change (impl_poly (crcu64_impl_tabulate_bytewise impl0)) with (impl_poly (impl self)) in Hok.
        now rewrite Hr, Hp in Hok.
      * rewrite lookup_insert_ne in H by assumption. now apply Hcb.
Qed.

Lemma apply_method_wordwise (h : host) (self : crcu64object) (config : crc_config)
      (state : crcmodule_state) :
  configured_for config (impl self) -> bytewise_ok (impl self) -> cache_ok h state ->
  cache_ok h (snd (crcu64_apply_method h self CRC_METHOD_WORDWISE config state))
  /\ wordwise_ok h (impl (fst (crcu64_apply_method h self CRC_METHOD_WORDWISE config state)))
  /\ impl (fst (crcu64_apply_method h self CRC_METHOD_WORDWISE config state)) =
     set_wordwise (set_update (impl self) (Some update_wordwise))
       (impl_wordwise (impl (fst (crcu64_apply_method h self CRC_METHOD_WORDWISE config state)))).
Proof.
  intros (Hr & Hp & Hlt) Hb [Hcb Hcw]. unfold crcu64_apply_method.
  change (CRC_METHOD_WORDWISE =? CRC_METHOD_WORDWISE) with true. cbv iota.
  destruct (crcu64_wordwise_cache state !! tabkey_of config) as [buf|] eqn:E.
  - cbn [fst snd impl]. repeat split; trivial.
    unfold wordwise_ok. cbn [set_wordwise set_update impl_refin impl_poly impl_wordwise].
    rewrite Hr, Hp. now apply Hcw.
  - set (buf := mk_tabbuf (next_object state) (repeat 0 (N.to_nat (8 * CRC_U8_COUNT)))).
    set (impl0 := set_wordwise (set_update (impl self) (Some update_wordwise)) (Some buf)).
    assert (Hok : wordwise_ok h (crcu64_impl_tabulate_wordwise h impl0)).
    { apply (tabulate_wordwise_table h impl0 buf); trivial; apply repeat_length. }
    assert (Heq : crcu64_impl_tabulate_wordwise h impl0 =
                  set_wordwise (set_update (impl self) (Some update_wordwise))
                               (impl_wordwise (crcu64_impl_tabulate_wordwise h impl0))).
    { reflexivity. }
    cbn [fst snd impl]. repeat split; trivial.
    + cbn [crcu64_wordwise_cache]. intros config' buf' H.
      destruct (impl_wordwise (crcu64_impl_tabulate_wordwise h impl0)) as [t|] eqn:Et;
        [|now apply Hcw].
      destruct (decide (tabkey_of config = tabkey_of config')) as [Hk|Hk].
      * rewrite <- Hk, lookup_insert_eq in H. inversion H; subst buf'.
        apply tabkey_of_inj in Hk. subst config'.
        unfold wordwise_ok in Hok. rewrite Et in Hok.
        change (impl_refin (crcu64_impl_tabulate_wordwise h impl0)) with (impl_refin (impl self)) in Hok.
        change (impl_poly (crcu64_impl_tabulate_wordwise h impl0)) with (impl_poly (impl self)) in Hok.
        now rewrite Hr, Hp in Hok.
      * rewrite lookup_insert_ne in H by assumption. now apply Hcw.
Qed.

(** ** Construction *)

Lemma parse_method_cases (method : option string) (m : N) :
  crc_parse_method method = Return m -> m = 0 \/ m = 1 \/ m = 3.
Proof.
  unfold crc_parse_method. destruct method as [s|]; [|intros H; inversion H; auto].
  destruct (String.eqb s "bitwise"); [intros H; inversion H; auto|].
  destruct (String.eqb s "bytewise"); [intros H; inversion H; auto|].
  destruct (String.eqb s "wordwise"); [intros H; inversion H; auto|].
  discriminate.
Qed.

Lemma strip_set_update (impl : crcu64_impl) u : strip (set_update impl u) = strip impl.
Proof. reflexivity. Qed.

Lemma strip_set_bytewise (impl : crcu64_impl) b : strip (set_bytewise impl b) = strip impl.
Proof. reflexivity. Qed.

Lemma strip_set_wordwise (impl : crcu64_impl) w : strip (set_wordwise impl w) = strip impl.
Proof. reflexivity. Qed.

Lemma configured_for_configured (impl : crcu64_impl) (config : crc_config) :
  config_valid config = true -> configured_for config (configured impl config).
Proof.
  intros H. repeat split. cbn [configured impl_poly].
  apply config_valid_bounds in H as ((_ & Hw) & _). now apply internal_lt.
Qed.

(** A constructed engine satisfies the invariant, leaves the caches
    consistent, and is, apart from its tables, the bitwise engine that
    consumed the initial data. *)
Lemma crc_new_ok (h : host) (state state' : crcmodule_state) (config : crc_config)
      (method : option string) (data : option (N * list Byte.byte)) (o : crcu64object) :
  cache_ok h state ->
  crc_new h state config method data = Return (state', o) ->
  config_valid config = true
  /\ cache_ok h state'
  /\ engine_ok h (impl o)
  /\ strip (impl o) =
     strip (crcu64_impl_update_bitwise (configured crcu64_impl_ctor config) (data_bytes data)).
Proof.
  intros Hc H. unfold crc_new in H.
  destruct (crcu64_impl_configure (impl _crc_crcu64_type_new) config) as [e|impl'] eqn:Ec;
    [discriminate|].
  apply configure_inr in Ec as [Hv ->]. split; [assumption|].
  destruct (crc_parse_method method) as [m|] eqn:Em; [|discriminate].
  pose proof (configured_for_configured (impl _crc_crcu64_type_new) config Hv) as Hcf.
  pose proof (configured_accum_ok (impl _crc_crcu64_type_new) config Hv) as Hao.
  set (o0 := set_impl _crc_crcu64_type_new (configured (impl _crc_crcu64_type_new) config)) in *.
  assert (Hfinal : forall (o1 : crcu64object) (st1 : crcmodule_state),
             cache_ok h st1 -> engine_ok h (impl o1) ->
             strip (impl o1) = strip (configured crcu64_impl_ctor config) ->
             Return (st1,
                     match data with
                     | Some (addr, bytes) =>
                         set_impl o1 (crcu64_impl_update h (impl o1) addr bytes)
                     | None => o1
                     end) = Return (state', o) ->
             cache_ok h state' /\ engine_ok h (impl o) /\
             strip (impl o) =
             strip (crcu64_impl_update_bitwise (configured crcu64_impl_ctor config)
                                               (data_bytes data))).
  { intros o1 st1 Hc1 He1 Hs1 Hret. inversion Hret; subst. split; [assumption|].
    destruct data as [[addr bytes]|]; cbn [data_bytes set_impl impl].
    - rewrite update_bitwise_equiv by assumption. split.
      + now apply update_bitwise_engine_ok.
      + now rewrite !strip_update_bitwise, Hs1.
    - split; [assumption|]. now rewrite Hs1. }
  destruct (apply_method_bytewise h o0 config state Hcf Hc) as (Hc1 & Hb1 & He1).
  destruct (parse_method_cases _ _ Em) as [-> | [-> | ->]].
  - (* bitwise *)
    cbn [N.land negb N.eqb] in H. cbv iota in H.
    apply (Hfinal o0 state); trivial. split; [assumption|exact I].
  - (* bytewise *)
    change (negb (N.land 1 CRC_METHOD_BYTEWISE =? 0)) with true in H.
    change (negb (N.land 1 CRC_METHOD_WORDWISE =? 0)) with false in H. cbv iota in H.
    destruct (crcu64_apply_method h o0 CRC_METHOD_BYTEWISE config state) as [o1 st1].
    cbn [fst snd] in *.
    apply (Hfinal o1 st1); trivial.
    + rewrite He1. split; [exact Hao|]. cbn [impl_update set_bytewise set_update].
      now rewrite He1 in Hb1.
    + rewrite He1. now rewrite strip_set_bytewise, strip_set_update.
  - (* wordwise *)
    change (negb (N.land 3 CRC_METHOD_BYTEWISE =? 0)) with true in H.
    change (negb (N.land 3 CRC_METHOD_WORDWISE =? 0)) with true in H. cbv iota in H.
    destruct (crcu64_apply_method h o0 CRC_METHOD_BYTEWISE config state) as [o1 st1].
    cbn [fst snd] in *.
    assert (Hcf1 : configured_for config (impl o1)).
    { rewrite He1. exact Hcf. }
    destruct (apply_method_wordwise h o1 config st1 Hcf1 Hb1 Hc1) as (Hc2 & Hw2 & He2).
    destruct (crcu64_apply_method h o1 CRC_METHOD_WORDWISE config st1) as [o2 st2].
    cbn [fst snd] in *.
    apply (Hfinal o2 st2); trivial.
    + rewrite He2, He1. split; [exact Hao|].
      cbn [impl_update set_wordwise set_bytewise set_update].
      rewrite He2 in Hw2. rewrite He1 in Hb1. rewrite He1 in Hw2. split.
      * exact Hb1.
      * exact Hw2.
    + rewrite He2, He1.
      now rewrite strip_set_wordwise, strip_set_update, strip_set_bytewise, strip_set_update.
Qed.

(** Construction succeeds for a valid configuration and a known method. *)
Lemma crc_new_returns (h : host) (state : crcmodule_state) (config : crc_config)
      (method : option string) (m : N) (data : option (N * list Byte.byte)) :
  config_valid config = true -> crc_parse_method method = Return m ->
  exists state' o, crc_new h state config method data = Return (state', o).
Proof.
  intros Hv Hm. unfold crc_new. rewrite configure_valid, Hm by assumption.
  repeat match goal with
         | |- context [let '(_, _) := ?x in _] => destruct x
         end.
  eauto.
Qed.

(** * Digests of byte strings *)

Lemma index_digest (o : crcu64object) :
  snd (_crc_crcu64_type_index o) = snd (crcu64_impl_digest (impl o)).
Proof. unfold _crc_crcu64_type_index. now destruct (crcu64_impl_digest (impl o)). Qed.

Lemma crc_value_reference (h : host) (state : crcmodule_state) (config : crc_config)
      (method : option string) (m : N) (addr : N) (s : list Byte.byte) :
  cache_ok h state -> crc_parse_method method = Return m ->
  config_valid config = true ->
  crc_value h state config method addr s = Some (crc_reference config s).
Proof.
  intros Hc Hm Hv. unfold crc_value.
  destruct (crc_new_returns h state config method m None Hv Hm) as (state' & o & E).
  rewrite E. f_equal.
  destruct (crc_new_ok h state state' config method None o Hc E) as (_ & _ & He & Hs).
  rewrite index_digest. unfold _crc_crcu64_update_impl. cbn [impl set_impl].
  rewrite update_bitwise_equiv by assumption.
  apply digest_strip_eq. rewrite !strip_update_bitwise. now rewrite Hs.
Qed.

Lemma templates_valid : forallb config_valid crc_templates = true.
Proof. vm_compute. reflexivity. Qed.

Lemma template_valid (config : crc_config) :
  In config crc_templates -> config_valid config = true.
Proof. intros H. now apply (proj1 (forallb_forall _ _) templates_valid). Qed.

(** * The claims *)

(** C1. For every configuration of the template catalogue and every byte
    string [s], an engine with the bitwise kernel, one with the bytewise
    kernel and one with the wordwise kernel give the same digest after
    they have consumed [s], whatever the endianness of the host, the
    alignment of the buffers and the tables already cached. *)
Theorem algorithm_equivalence (h : host) (st1 st2 st3 : crcmodule_state)
        (config : crc_config) (s : list Byte.byte) (a1 a2 a3 : N) :
  In config crc_templates ->
  cache_ok h st1 -> cache_ok h st2 -> cache_ok h st3 ->
  exists d,
    crc_value h st1 config (Some "bitwise"%string) a1 s = Some d
    /\ crc_value h st2 config (Some "bytewise"%string) a2 s = Some d
    /\ crc_value h st3 config (Some "wordwise"%string) a3 s = Some d.
Proof.
  intros Hin H1 H2 H3. apply template_valid in Hin.
  exists (crc_reference config s). repeat split.
  - now apply (crc_value_reference h st1 config _ 0).
  - now apply (crc_value_reference h st2 config _ 1).
  - now apply (crc_value_reference h st3 config _ 3).
Qed.

Lemma algorithm_equivalence_witness :
  exists d,
    crc_value (mk_host true 0) crcmodule_exec crc_32_iso_hdlc
              (Some "bitwise"%string) 0 check_string = Some d
    /\ crc_value (mk_host true 0) crcmodule_exec crc_32_iso_hdlc
                 (Some "bytewise"%string) 1 check_string = Some d
    /\ crc_value (mk_host true 0) crcmodule_exec crc_32_iso_hdlc
                 (Some "wordwise"%string) 2 check_string = Some d.
Proof.
  apply algorithm_equivalence.
  - apply (nth_error_In _ 99). reflexivity.
  - apply cache_ok_exec.
  - apply cache_ok_exec.
  - apply cache_ok_exec.
Defined.

(** C8. [update(s1); update(s2); digest()] gives the value of
    [update(s1 ++ s2); digest()], on an engine of any configuration built
    with any of the three methods, wherever the three buffers lie. *)
Theorem chunk_independence (h : host) (state state' : crcmodule_state)
        (config : crc_config) (method : option string)
        (data : option (N * list Byte.byte)) (o : crcu64object)
        (s1 s2 : list Byte.byte) (a a1 a2 : N) :
  cache_ok h state ->
  crc_new h state config method data = Return (state', o) ->
  snd (_crc_crcu64_type_index
         (_crc_crcu64_update_impl h (_crc_crcu64_update_impl h o a1 s1) a2 s2)) =
  snd (_crc_crcu64_type_index (_crc_crcu64_update_impl h o a (s1 ++ s2))).
Proof.
  intros Hc E.
  destruct (crc_new_ok h state state' config method data o Hc E) as (_ & _ & He & _).
  unfold _crc_crcu64_update_impl. cbn [impl set_impl]. rewrite !index_digest.
  cbn [impl].
  rewrite (update_bitwise_equiv h (impl o) a1 s1) by assumption.
  rewrite (update_bitwise_equiv h _ a2 s2) by now apply update_bitwise_engine_ok.
  rewrite (update_bitwise_equiv h (impl o) a) by assumption.
  now rewrite update_bitwise_app.
Qed.

Lemma built_returned (h : host) (state : crcmodule_state) (config : crc_config)
      (method : option string) (m : N) :
  config_valid config = true -> crc_parse_method method = Return m ->
  crc_new h state config method None = Return (built h state config method).
Proof.
  intros Hv Hm. unfold built.
  destruct (crc_new_returns h state config method m None Hv Hm) as (st & o & E).
  now rewrite E.
Qed.

Lemma chunk_independence_witness :
  snd (_crc_crcu64_type_index
         (_crc_crcu64_update_impl (mk_host true 0)
            (_crc_crcu64_update_impl (mk_host true 0)
               (snd (built (mk_host true 0) crcmodule_exec crc_32_iso_hdlc None))
               3 (list_byte_of_string "1234"))
            5 (list_byte_of_string "56789"))) =
  snd (_crc_crcu64_type_index
         (_crc_crcu64_update_impl (mk_host true 0)
            (snd (built (mk_host true 0) crcmodule_exec crc_32_iso_hdlc None))
            0 (list_byte_of_string "1234" ++ list_byte_of_string "56789"))).
Proof.
  apply (chunk_independence (mk_host true 0) crcmodule_exec
           (fst (built (mk_host true 0) crcmodule_exec crc_32_iso_hdlc None))
           crc_32_iso_hdlc None None).
  - apply cache_ok_exec.
  - rewrite <- surjective_pairing. apply (built_returned _ _ _ _ 3); reflexivity.
Defined.

(** C3. The engines built from the templates of the scenario table give
    the listed digests of the nine bytes ["123456789"]: 0xCBF43926 for
    crc-32 (iso-hdlc), 0x995DC9BBDF1939FA for crc-64-xz, and so on, with
    each of the methods. *)
Theorem check_values (h : host) (state : crcmodule_state) (method : option string)
        (m : N) (addr : N) (name : string) (expected : N) :
  cache_ok h state -> crc_parse_method method = Return m ->
  In (name, expected) check_scenarios ->
  exists config,
    crc_find_config name = Returned (Some config)
    /\ crc_value h state config method addr check_string = Some expected.
Proof.
  intros Hc Hm Hin.
  assert (Hall : forall config value,
             config_valid config = true -> crc_reference config check_string = value ->
             crc_value h state config method addr check_string = Some value).
  { intros config value Hv <-. now apply (crc_value_reference h state config method m). }
  unfold check_scenarios in Hin. cbn [In] in Hin.
  repeat (destruct Hin as [Hin|Hin];
          [ inversion Hin; subst; eexists; split;
            [ vm_compute; reflexivity | apply Hall; vm_compute; reflexivity ] | ]).
  contradiction.
Qed.

Lemma check_values_witness :
  exists config,
    crc_find_config "crc-64-xz" = Returned (Some config)
    /\ crc_value (mk_host false 0) crcmodule_exec config (Some "wordwise"%string)
                 1 check_string = Some 0x995DC9BBDF1939FA.
Proof.
  apply (check_values (mk_host false 0) crcmodule_exec (Some "wordwise"%string) 3).
  - apply cache_ok_exec.
  - reflexivity.
  - right. right. right. right. left. reflexivity.
Defined.

(** C5 (the code departs from it).  The binary search starts with [right]
    on the sentinel and decrements [middle] below zero: a name after the
    last entry reads the NULL name of the sentinel, a name before the first
    entry wraps [right] around and reads far outside of the array.  Neither
    returns the invalid id. *)
Theorem crc_find_id_outside :
  crc_find_id "zzz" = Undefined /\ crc_find_id "a" = Undefined.
Proof. split; vm_compute; reflexivity. Qed.

(** C6. [combine] works on a copy: whatever its arguments, the object is
    left as it was (accumulator, dirty flag, cached digest, configuration
    and tables). *)
Theorem combine_leaves_engine (h : host) (self : crcu64object) (crc1 crc2 len2 : N) :
  fst (_crc_crcu64_combine_impl h self crc1 crc2 len2) = self.
Proof.
  unfold _crc_crcu64_combine_impl.
  destruct (_ <? crc1); [reflexivity|]. destruct (_ <? crc2); [reflexivity|].
  now destruct (crcu64_combine _ _ _ _ _).
Qed.

Lemma configure_cases (impl : crcu64_impl) (config : crc_config) :
  crcu64_impl_configure impl config =
  if (CRC_MAX_WIDTH <? cfg_width config) || (cfg_width config =? 0)
  then inl "width out of range"%string
  else if (crc_u64_bitmask (cfg_width config) <? cfg_poly config) || (cfg_poly config =? 0)
  then inl "poly out of range"%string
  else if crc_u64_bitmask (cfg_width config) <? cfg_init config
  then inl "init out of range"%string
  else if crc_u64_bitmask (cfg_width config) <? cfg_xorout config
  then inl "xorout out of range"%string
  else inr (configured impl config).
Proof. reflexivity. Qed.

Ltac configure_case :=
  repeat apply conj;
  lazymatch goal with
  | |- forall impl', _ = inr impl' -> _ =>
      intros impl' Himpl;
      first [ discriminate Himpl | inversion Himpl; repeat split; reflexivity ]
  | |- _ =>
      intros Hcase;
      first [ reflexivity | discriminate Hcase | lia | exfalso; lia
            | eexists; reflexivity
            | destruct Hcase as [impl' Himpl]; discriminate Himpl ]
  end.

(** C7. The configuration is accepted exactly when the width is in
    [1, 64], the polynomial in [1, bitmask(width)], and the initial value
    and the output mask at most bitmask(width); otherwise the first
    violated bound, in that order, names the error; an accepted
    configuration starts the accumulator on the internalized initial
    value: the implementation takes the width, the reflections and the
    output mask of the configuration, its polynomial and its initial value
    are the internalized ones (reflected over the width for a reflected
    input, moved to the top of the 64 bits otherwise), the accumulator is
    the internalized initial value, the cached digest is the initial value
    as it is, and the bitwise kernel is selected, without tables. *)
Theorem configure_checks (impl : crcu64_impl) (config : crc_config) :
  let width := cfg_width config in
  let mask := crc_u64_bitmask width in
  let width_ok := 1 <= width <= 64 in
  let poly_ok := 1 <= cfg_poly config <= mask in
  let init_ok := cfg_init config <= mask in
  let xorout_ok := cfg_xorout config <= mask in
  ((exists impl', crcu64_impl_configure impl config = inr impl')
   <-> width_ok /\ poly_ok /\ init_ok /\ xorout_ok)
  /\ (crcu64_impl_configure impl config = inl "width out of range"%string
      <-> ~ width_ok)
  /\ (crcu64_impl_configure impl config = inl "poly out of range"%string
      <-> width_ok /\ ~ poly_ok)
  /\ (crcu64_impl_configure impl config = inl "init out of range"%string
      <-> width_ok /\ poly_ok /\ ~ init_ok)
  /\ (crcu64_impl_configure impl config = inl "xorout out of range"%string
      <-> width_ok /\ poly_ok /\ init_ok /\ ~ xorout_ok)
  /\ (forall impl', crcu64_impl_configure impl config = inr impl' ->
        impl_accum impl' = crcu64_impl_internalize impl' (cfg_init config)
        /\ impl_init impl' = crcu64_impl_internalize impl' (cfg_init config)
        /\ impl_width impl' = width
        /\ impl_refin impl' = cfg_refin config
        /\ impl_refout impl' = cfg_refout config
        /\ impl_xorout impl' = cfg_xorout config
        /\ impl_accum impl'
           = (if cfg_refin config
              then crc_u64_bitswap (cfg_init config) width
              else shl64 (cfg_init config) (CRC_U64_LEAST - width))
        /\ impl_init impl' = impl_accum impl'
        /\ impl_poly impl'
           = (if cfg_refin config
              then crc_u64_bitswap (cfg_poly config) width
              else shl64 (cfg_poly config) (CRC_U64_LEAST - width))
        /\ impl_result impl' = cfg_init config
        /\ impl_update impl' = Some update_bitwise
        /\ impl_bytewise impl' = None
        /\ impl_wordwise impl' = None
        /\ impl_dirty impl' = impl_dirty impl).
Proof.
  cbv zeta. rewrite configure_cases. change CRC_MAX_WIDTH with 64.
  destruct (N.ltb_spec 64 (cfg_width config)), (N.eqb_spec (cfg_width config) 0);
    cbn [orb]; try configure_case.
  destruct (N.ltb_spec (crc_u64_bitmask (cfg_width config)) (cfg_poly config)),
           (N.eqb_spec (cfg_poly config) 0);
    cbn [orb]; try configure_case.
  destruct (N.ltb_spec (crc_u64_bitmask (cfg_width config)) (cfg_init config));
    try configure_case.
  destruct (N.ltb_spec (crc_u64_bitmask (cfg_width config)) (cfg_xorout config));
    configure_case.
Qed.

(** C10. With a zero length, [combine] returns its first argument as it
    is: nothing is un-finalized, no byte is fed, the implementation is not
    touched and the second checksum is not read. *)
Theorem combine_zero_length (h : host) (self : crcu64object) (crc1 crc2 : N) :
  crc1 <= crc_u64_bitmask (impl_width (impl self)) ->
  crc2 <= crc_u64_bitmask (impl_width (impl self)) ->
  _crc_crcu64_combine_impl h self crc1 crc2 0 = (self, Return crc1)
  /\ crcu64_combine h (impl self) crc1 crc2 0 = (impl self, crc1).
Proof.
  intros H1 H2. split; [|reflexivity].
  unfold _crc_crcu64_combine_impl. cbn [crcu64_impl_copy impl_width].
  apply N.ltb_ge in H1, H2. now rewrite H1, H2.
Qed.

Lemma combine_zero_length_witness :
  _crc_crcu64_combine_impl (mk_host true 0)
    (snd (built (mk_host true 0) crcmodule_exec crc_32_iso_hdlc (Some "bitwise"%string)))
    0xCBF43926 0x12345678 0
  = (snd (built (mk_host true 0) crcmodule_exec crc_32_iso_hdlc (Some "bitwise"%string)),
     Return 0xCBF43926)
  /\ crcu64_combine (mk_host true 0)
       (impl (snd (built (mk_host true 0) crcmodule_exec crc_32_iso_hdlc
                         (Some "bitwise"%string))))
       0xCBF43926 0x12345678 0
     = (impl (snd (built (mk_host true 0) crcmodule_exec crc_32_iso_hdlc
                         (Some "bitwise"%string))), 0xCBF43926).
Proof.
  apply combine_zero_length; vm_compute; discriminate.
Defined.

(** C4 (the code departs from it).  [clear] hands the initial value of its
    caller to [crcu64_impl_clear_init] without the range check the
    assertion of that function asks for: the value becomes the cached
    digest, and [digest()] on an 8 bit engine returns 0x1FF. *)
Theorem clear_init_unchecked :
  let o := snd (built (mk_host true 0) crcmodule_exec crc_8_smbus None) in
  snd (_crc_crcu64_type_index (_crc_crcu64_clear_impl o (Some 0x1FF))) = 0x1FF
  /\ crc_u64_bitmask (impl_width (impl o)) = 0xFF
  /\ ~ clear_init_assert (impl o) 0x1FF.
Proof.
  cbv zeta. repeat split; try (vm_compute; reflexivity).
  unfold clear_init_assert. vm_compute. intros H. now apply H.
Qed.

(** * Sharing of the tables *)

(** Once a method is applied, the table of the object is the one cached
    under the key of the configuration. *)
Lemma apply_method_bytewise_cached (h : host) (self : crcu64object) (config : crc_config)
      (state : crcmodule_state) :
  let r := crcu64_apply_method h self CRC_METHOD_BYTEWISE config state in
  impl_bytewise (impl (fst r)) = crcu64_bytewise_cache (snd r) !! tabkey_of config
  /\ is_Some (impl_bytewise (impl (fst r)))
  /\ impl_wordwise (impl (fst r)) = impl_wordwise (impl self)
  /\ crcu64_wordwise_cache (snd r) = crcu64_wordwise_cache state.
Proof.
  cbv zeta. unfold crcu64_apply_method.
  change (CRC_METHOD_BYTEWISE =? CRC_METHOD_WORDWISE) with false. cbv iota.
  destruct (crcu64_bytewise_cache state !! tabkey_of config) as [buf|] eqn:E.
  - cbn [fst snd impl set_bytewise impl_bytewise impl_wordwise set_update]. now rewrite E.
  - cbn [fst snd impl]. unfold crcu64_impl_tabulate_bytewise.
    cbn [set_bytewise set_update impl_bytewise impl_wordwise crcu64_bytewise_cache
         crcu64_wordwise_cache buf_id].
    now rewrite lookup_insert_eq.
Qed.

Lemma apply_method_wordwise_cached (h : host) (self : crcu64object) (config : crc_config)
      (state : crcmodule_state) :
  let r := crcu64_apply_method h self CRC_METHOD_WORDWISE config state in
  impl_wordwise (impl (fst r)) = crcu64_wordwise_cache (snd r) !! tabkey_of config
  /\ is_Some (impl_wordwise (impl (fst r)))
  /\ impl_bytewise (impl (fst r)) = impl_bytewise (impl self)
  /\ crcu64_bytewise_cache (snd r) = crcu64_bytewise_cache state.
Proof.
  cbv zeta. unfold crcu64_apply_method.
  change (CRC_METHOD_WORDWISE =? CRC_METHOD_WORDWISE) with true. cbv iota.
  destruct (crcu64_wordwise_cache state !! tabkey_of config) as [buf|] eqn:E.
  - cbn [fst snd impl set_wordwise impl_bytewise impl_wordwise set_update]. now rewrite E.
  - cbn [fst snd impl]. unfold crcu64_impl_tabulate_wordwise.
    cbn [set_wordwise set_update impl_bytewise impl_wordwise crcu64_bytewise_cache
         crcu64_wordwise_cache buf_id].
    now rewrite lookup_insert_eq.
Qed.

(** The tables of a constructed engine, read in the caches it leaves. *)
Lemma crc_new_tables (h : host) (state state' : crcmodule_state) (config : crc_config)
      (method : option string) (o : crcu64object) :
  crc_new h state config method None = Return (state', o) ->
  exists m,
    crc_parse_method method = Return m
    /\ impl_bytewise (impl o) =
       (if N.land m CRC_METHOD_BYTEWISE =? 0 then None
        else crcu64_bytewise_cache state' !! tabkey_of config)
    /\ impl_wordwise (impl o) =
       (if N.land m CRC_METHOD_WORDWISE =? 0 then None
        else crcu64_wordwise_cache state' !! tabkey_of config)
    /\ ((N.land m CRC_METHOD_BYTEWISE =? 0) = false ->
        is_Some (crcu64_bytewise_cache state' !! tabkey_of config))
    /\ ((N.land m CRC_METHOD_WORDWISE =? 0) = false ->
        is_Some (crcu64_wordwise_cache state' !! tabkey_of config)).
Proof.
  intros H. unfold crc_new in H.
  destruct (crcu64_impl_configure (impl _crc_crcu64_type_new) config) as [e|impl'] eqn:Ec;
    [discriminate|].
  apply configure_inr in Ec as [Hv ->].
  destruct (crc_parse_method method) as [m|] eqn:Em; [|discriminate].
  exists m. split; [reflexivity|].
  set (o0 := set_impl _crc_crcu64_type_new (configured (impl _crc_crcu64_type_new) config)) in *.
  pose proof (apply_method_bytewise_cached h o0 config state) as Hb. cbv zeta in Hb.
  destruct (parse_method_cases _ _ Em) as [-> | [-> | ->]].
  - cbn [N.land negb N.eqb] in H. cbv iota in H. inversion H; subst.
    cbn. repeat split; discriminate.
  - change (negb (N.land 1 CRC_METHOD_BYTEWISE =? 0)) with true in H.
    change (negb (N.land 1 CRC_METHOD_WORDWISE =? 0)) with false in H. cbv iota in H.
    destruct (crcu64_apply_method h o0 CRC_METHOD_BYTEWISE config state) as [o1 st1].
    cbn [fst snd] in *. inversion H; subst.
    destruct Hb as (Hb1 & Hb2 & Hb3 & Hb4).
    change (N.land 1 CRC_METHOD_BYTEWISE =? 0) with false.
    change (N.land 1 CRC_METHOD_WORDWISE =? 0) with true. cbv iota.
    repeat split; trivial; try discriminate. intros _. now rewrite <- Hb1.
  - change (negb (N.land 3 CRC_METHOD_BYTEWISE =? 0)) with true in H.
    change (negb (N.land 3 CRC_METHOD_WORDWISE =? 0)) with true in H. cbv iota in H.
    destruct (crcu64_apply_method h o0 CRC_METHOD_BYTEWISE config state) as [o1 st1].
    pose proof (apply_method_wordwise_cached h o1 config st1) as Hw. cbv zeta in Hw.
    destruct (crcu64_apply_method h o1 CRC_METHOD_WORDWISE config st1) as [o2 st2].
    cbn [fst snd] in *. inversion H; subst.
    destruct Hb as (Hb1 & Hb2 & Hb3 & Hb4). destruct Hw as (Hw1 & Hw2 & Hw3 & Hw4).
    change (N.land 3 CRC_METHOD_BYTEWISE =? 0) with false.
    change (N.land 3 CRC_METHOD_WORDWISE =? 0) with false. cbv iota.
    rewrite Hw3, Hw4. repeat split; trivial; intros _.
    + now rewrite <- Hb1.
    + now rewrite <- Hw1.
Qed.

(** A construction does not replace a table that is cached. *)
Lemma apply_method_keeps (h : host) (self : crcu64object) (method : N)
      (config : crc_config) (state : crcmodule_state) :
  let r := crcu64_apply_method h self method config state in
  (is_Some (crcu64_bytewise_cache state !! tabkey_of config) ->
   crcu64_bytewise_cache (snd r) !! tabkey_of config
   = crcu64_bytewise_cache state !! tabkey_of config)
  /\ (is_Some (crcu64_wordwise_cache state !! tabkey_of config) ->
      crcu64_wordwise_cache (snd r) !! tabkey_of config
      = crcu64_wordwise_cache state !! tabkey_of config).
Proof.
  cbv zeta. unfold crcu64_apply_method.
  destruct (method =? CRC_METHOD_WORDWISE).
  - destruct (crcu64_wordwise_cache state !! tabkey_of config) eqn:E;
      (split; intros Hs; cbn [snd crcu64_bytewise_cache crcu64_wordwise_cache];
       rewrite ?E; try reflexivity; destruct Hs; discriminate).
  - destruct (crcu64_bytewise_cache state !! tabkey_of config) eqn:E;
      (split; intros Hs; cbn [snd crcu64_bytewise_cache crcu64_wordwise_cache];
       rewrite ?E; try reflexivity; destruct Hs; discriminate).
Qed.

Lemma crc_new_keeps (h : host) (state state' : crcmodule_state) (config : crc_config)
      (method : option string) (o : crcu64object) :
  crc_new h state config method None = Return (state', o) ->
  (is_Some (crcu64_bytewise_cache state !! tabkey_of config) ->
   crcu64_bytewise_cache state' !! tabkey_of config
   = crcu64_bytewise_cache state !! tabkey_of config)
  /\ (is_Some (crcu64_wordwise_cache state !! tabkey_of config) ->
      crcu64_wordwise_cache state' !! tabkey_of config
      = crcu64_wordwise_cache state !! tabkey_of config).
Proof.
  intros H. unfold crc_new in H.
  destruct (crcu64_impl_configure (impl _crc_crcu64_type_new) config) as [e|impl'] eqn:Ec;
    [discriminate|].
  destruct (crc_parse_method method) as [m|] eqn:Em; [|discriminate].
  set (o0 := set_impl _crc_crcu64_type_new impl') in *.
  destruct (negb (N.land m CRC_METHOD_BYTEWISE =? 0)).
  - pose proof (apply_method_keeps h o0 CRC_METHOD_BYTEWISE config state) as K1.
    cbv zeta in K1.
    destruct (crcu64_apply_method h o0 CRC_METHOD_BYTEWISE config state) as [o1 st1].
    cbn [snd] in K1. destruct K1 as [K1b K1w].
    destruct (negb (N.land m CRC_METHOD_WORDWISE =? 0)).
    + pose proof (apply_method_keeps h o1 CRC_METHOD_WORDWISE config st1) as K2.
      cbv zeta in K2.
      destruct (crcu64_apply_method h o1 CRC_METHOD_WORDWISE config st1) as [o2 st2].
      cbn [snd] in K2. destruct K2 as [K2b K2w]. inversion H; subst. split; intros Hs.
      * rewrite K2b; [now apply K1b|]. now rewrite K1b.
      * rewrite K2w; [now apply K1w|]. now rewrite K1w.
    + inversion H; subst. now split.
  - destruct (negb (N.land m CRC_METHOD_WORDWISE =? 0)).
    + pose proof (apply_method_keeps h o0 CRC_METHOD_WORDWISE config state) as K2.
      cbv zeta in K2.
      destruct (crcu64_apply_method h o0 CRC_METHOD_WORDWISE config state) as [o2 st2].
      cbn [snd] in K2. inversion H; subst. exact K2.
    + inversion H; subst. now split.
Qed.

(** The initial data of the constructor is consumed by one update. *)
Lemma crc_new_data (h : host) (state : crcmodule_state) (config : crc_config)
      (method : option string) (addr : N) (bytes : list Byte.byte) :
  crc_new h state config method (Some (addr, bytes))
  = match crc_new h state config method None with
    | Return (state', o) =>
        Return (state', set_impl o (crcu64_impl_update h (impl o) addr bytes))
    | Raise exc msg => Raise exc msg
    end.
Proof.
  unfold crc_new.
  destruct (crcu64_impl_configure (impl _crc_crcu64_type_new) config); [reflexivity|].
  destruct (crc_parse_method method); [|reflexivity].
  repeat match goal with
         | |- context [let '(_, _) := ?x in _] => destruct x
         end.
  reflexivity.
Qed.

Lemma caches_extend_refl (state : crcmodule_state) : caches_extend state state.
Proof. now split. Qed.

Lemma caches_extend_trans (s1 s2 s3 : crcmodule_state) :
  caches_extend s1 s2 -> caches_extend s2 s3 -> caches_extend s1 s3.
Proof. intros [B1 W1] [B2 W2]. split; intros key buf H; [apply B2, B1|apply W2, W1]; exact H. Qed.

Lemma insert_extends (cache : gmap tabkey tabbuf) (key0 : tabkey) (t : option tabbuf)
      (key : tabkey) (buf : tabbuf) :
  cache !! key0 = None -> cache !! key = Some buf ->
  match t with
  | Some t' => <[key0 := t']> cache
  | None => cache
  end !! key = Some buf.
Proof.
  intros H0 H. destruct t as [t'|]; [|assumption].
  rewrite lookup_insert_ne; [assumption|]. intros ->. congruence.
Qed.

Lemma apply_method_extends (h : host) (self : crcu64object) (method : N)
      (config : crc_config) (state : crcmodule_state) :
  caches_extend state (snd (crcu64_apply_method h self method config state)).
Proof.
  unfold crcu64_apply_method. cbv zeta.
  destruct (method =? CRC_METHOD_WORDWISE); cbv iota beta.
  - destruct (crcu64_wordwise_cache state !! tabkey_of config) eqn:E;
      [apply caches_extend_refl|].
    split; intros key buf H; cbn [snd crcu64_bytewise_cache crcu64_wordwise_cache];
      [assumption|now apply insert_extends].
  - destruct (crcu64_bytewise_cache state !! tabkey_of config) eqn:E;
      [apply caches_extend_refl|].
    split; intros key buf H; cbn [snd crcu64_bytewise_cache crcu64_wordwise_cache];
      [now apply insert_extends|assumption].
Qed.

Lemma crc_new_extends (h : host) (state state' : crcmodule_state) (config : crc_config)
      (method : option string) (data : option (N * list Byte.byte)) (o : crcu64object) :
  crc_new h state config method data = Return (state', o) -> caches_extend state state'.
Proof.
  unfold crc_new.
  destruct (crcu64_impl_configure (impl _crc_crcu64_type_new) config) as [e|impl'];
    [discriminate|].
  destruct (crc_parse_method method) as [m|]; [|discriminate].
  set (o0 := set_impl _crc_crcu64_type_new impl').
  destruct (negb (N.land m CRC_METHOD_BYTEWISE =? 0)).
  - pose proof (apply_method_extends h o0 CRC_METHOD_BYTEWISE config state) as K1.
    destruct (crcu64_apply_method h o0 CRC_METHOD_BYTEWISE config state) as [o1 st1].
    cbn [snd] in K1.
    destruct (negb (N.land m CRC_METHOD_WORDWISE =? 0)).
    + pose proof (apply_method_extends h o1 CRC_METHOD_WORDWISE config st1) as K2.
      destruct (crcu64_apply_method h o1 CRC_METHOD_WORDWISE config st1) as [o2 st2].
      cbn [snd] in K2. intros H. inversion H; subst.
      now apply (caches_extend_trans state st1 state').
    + intros H. inversion H; subst. exact K1.
  - destruct (negb (N.land m CRC_METHOD_WORDWISE =? 0)).
    + pose proof (apply_method_extends h o0 CRC_METHOD_WORDWISE config state) as K2.
      destruct (crcu64_apply_method h o0 CRC_METHOD_WORDWISE config state) as [o2 st2].
      cbn [snd] in K2. intros H. inversion H; subst. exact K2.
    + intros H. inversion H; subst. apply caches_extend_refl.
Qed.

(** An update leaves the tables of an engine where they are. *)
Lemma update_keeps_tables (h : host) (impl : crcu64_impl) (addr : N) (data : list Byte.byte) :
  engine_ok h impl ->
  impl_bytewise (crcu64_impl_update h impl addr data) = impl_bytewise impl
  /\ impl_wordwise (crcu64_impl_update h impl addr data) = impl_wordwise impl.
Proof.
  intros He. rewrite update_bitwise_equiv by assumption.
  now destruct (update_bitwise_fields impl data) as (_ & _ & Hb & Hw).
Qed.

(** The tables of an engine constructed with initial data. *)
Lemma crc_new_tables_data (h : host) (state state' : crcmodule_state) (config : crc_config)
      (method : option string) (data : option (N * list Byte.byte)) (o : crcu64object) :
  cache_ok h state ->
  crc_new h state config method data = Return (state', o) ->
  exists m,
    crc_parse_method method = Return m
    /\ impl_bytewise (impl o) =
       (if N.land m CRC_METHOD_BYTEWISE =? 0 then None
        else crcu64_bytewise_cache state' !! tabkey_of config)
    /\ impl_wordwise (impl o) =
       (if N.land m CRC_METHOD_WORDWISE =? 0 then None
        else crcu64_wordwise_cache state' !! tabkey_of config)
    /\ ((N.land m CRC_METHOD_BYTEWISE =? 0) = false ->
        is_Some (crcu64_bytewise_cache state' !! tabkey_of config))
    /\ ((N.land m CRC_METHOD_WORDWISE =? 0) = false ->
        is_Some (crcu64_wordwise_cache state' !! tabkey_of config)).
Proof.
  intros Hc H. destruct data as [[addr bytes]|]; [|now apply (crc_new_tables h state)].
  rewrite crc_new_data in H.
  destruct (crc_new h state config method None) as [[st1 o1]|] eqn:E; [|discriminate].
  inversion H; subst. cbn [impl set_impl].
  destruct (crc_new_ok h state state' config method None o1 Hc E) as (_ & _ & He & _).
  destruct (update_keeps_tables h (impl o1) addr bytes He) as [-> ->].
  now apply (crc_new_tables h state).
Qed.

(** The methods that use the byte table, and the ones that use the word
    table. *)
Lemma parse_method_tables (method : option string) (m : N) :
  crc_parse_method method = Return m ->
  ((N.land m CRC_METHOD_BYTEWISE =? 0) = false <-> method <> Some "bitwise"%string)
  /\ ((N.land m CRC_METHOD_WORDWISE =? 0) = false
      <-> method <> Some "bitwise"%string /\ method <> Some "bytewise"%string).
Proof.
  unfold crc_parse_method. destruct method as [s|].
  - destruct (String.eqb_spec s "bitwise") as [->|H1].
    + intros H. inversion H. split; split; try discriminate; intros; tauto.
    + destruct (String.eqb_spec s "bytewise") as [->|H2].
      * intros H. inversion H. split; split; try discriminate; try reflexivity.
        intros [_ H']. now contradiction H'.
      * destruct (String.eqb s "wordwise"); [|discriminate].
        intros H. inversion H. split; split; try reflexivity; intros _;
          repeat split; congruence.
  - intros H. inversion H. split; split; try reflexivity; intros _;
      repeat split; discriminate.
Qed.

(** ** The states of the module *)

Lemma caches_fresh_exec : caches_fresh crcmodule_exec.
Proof.
  unfold caches_fresh, crcmodule_exec. cbn [crcu64_bytewise_cache crcu64_wordwise_cache].
  repeat split; intros *; rewrite lookup_empty; discriminate.
Qed.

(** A cache that receives a new object under a key it does not hold. *)
Lemma insert_fresh (cache : gmap tabkey tabbuf) (key0 : tabkey) (n : nat) (table : list N) :
  cache !! key0 = None ->
  (forall key buf, cache !! key = Some buf -> (buf_id buf < n)%nat) ->
  (forall key1 key2 buf1 buf2,
      cache !! key1 = Some buf1 -> cache !! key2 = Some buf2 ->
      buf_id buf1 = buf_id buf2 -> key1 = key2) ->
  (forall key buf, <[key0 := mk_tabbuf n table]> cache !! key = Some buf ->
                   (buf_id buf < S n)%nat)
  /\ (forall key1 key2 buf1 buf2,
         <[key0 := mk_tabbuf n table]> cache !! key1 = Some buf1 ->
         <[key0 := mk_tabbuf n table]> cache !! key2 = Some buf2 ->
         buf_id buf1 = buf_id buf2 -> key1 = key2).
Proof.
  intros H0 Hlt Hinj. split.
  - intros key buf H. destruct (decide (key0 = key)) as [->|Hne].
    + rewrite lookup_insert_eq in H. inversion H. cbn. lia.
    + rewrite lookup_insert_ne in H by assumption. specialize (Hlt _ _ H). lia.
  - intros key1 key2 buf1 buf2 H1 H2 E.
    destruct (decide (key0 = key1)) as [<-|Hne1], (decide (key0 = key2)) as [<-|Hne2];
      trivial.
    + rewrite lookup_insert_eq in H1. rewrite lookup_insert_ne in H2 by assumption.
      inversion H1; subst buf1. cbn in E. specialize (Hlt _ _ H2). lia.
    + rewrite lookup_insert_eq in H2. rewrite lookup_insert_ne in H1 by assumption.
      inversion H2; subst buf2. cbn in E. specialize (Hlt _ _ H1). lia.
    + rewrite lookup_insert_ne in H1, H2 by assumption. now apply (Hinj _ _ buf1 buf2).
Qed.

Lemma apply_method_fresh (h : host) (self : crcu64object) (method : N)
      (config : crc_config) (state : crcmodule_state) :
  caches_fresh state ->
  caches_fresh (snd (crcu64_apply_method h self method config state)).
Proof.
  intros (Hb & Hw & Ib & Iw). unfold crcu64_apply_method. cbv zeta.
  destruct (method =? CRC_METHOD_WORDWISE); cbv iota beta.
  - destruct (crcu64_wordwise_cache state !! tabkey_of config) eqn:E;
      [repeat split; assumption|].
    unfold crcu64_impl_tabulate_wordwise.
    cbn [snd set_wordwise set_update impl_wordwise buf_id buf_data].
    destruct (insert_fresh _ _ (next_object state)
                (fold_left
                   (tabulate_wordwise_entry h
                      (set_wordwise (set_update (impl self) (Some update_wordwise))
                         (Some (mk_tabbuf (next_object state)
                                          (repeat 0 (N.to_nat (8 * CRC_U8_COUNT)))))))
                   byte_range (repeat 0 (N.to_nat (8 * CRC_U8_COUNT))))
                E Hw Iw) as [Hw' Iw'].
    unfold caches_fresh. cbn [next_object crcu64_bytewise_cache crcu64_wordwise_cache].
    repeat split; try assumption.
    intros key buf H. specialize (Hb _ _ H). lia.
  - destruct (crcu64_bytewise_cache state !! tabkey_of config) eqn:E;
      [repeat split; assumption|].
    unfold crcu64_impl_tabulate_bytewise.
    cbn [snd set_bytewise set_update impl_bytewise buf_id buf_data].
    destruct (insert_fresh _ _ (next_object state)
                (fold_left
                   (tabulate_bytewise_entry
                      (set_bytewise (set_update (impl self) (Some update_bytewise))
                         (Some (mk_tabbuf (next_object state)
                                          (repeat 0 (N.to_nat (1 * CRC_U8_COUNT)))))))
                   byte_range (repeat 0 (N.to_nat (1 * CRC_U8_COUNT))))
                E Hb Ib) as [Hb' Ib'].
    unfold caches_fresh. cbn [next_object crcu64_bytewise_cache crcu64_wordwise_cache].
    repeat split; try assumption.
    intros key buf H. specialize (Hw _ _ H). lia.
Qed.

Lemma crc_new_fresh (h : host) (state state' : crcmodule_state) (config : crc_config)
      (method : option string) (data : option (N * list Byte.byte)) (o : crcu64object) :
  caches_fresh state ->
  crc_new h state config method data = Return (state', o) -> caches_fresh state'.
Proof.
  intros Hf. unfold crc_new.
  destruct (crcu64_impl_configure (impl _crc_crcu64_type_new) config) as [e|impl'];
    [discriminate|].
  destruct (crc_parse_method method) as [m|]; [|discriminate].
  set (o0 := set_impl _crc_crcu64_type_new impl').
  destruct (negb (N.land m CRC_METHOD_BYTEWISE =? 0)).
  - pose proof (apply_method_fresh h o0 CRC_METHOD_BYTEWISE config state Hf) as K1.
    destruct (crcu64_apply_method h o0 CRC_METHOD_BYTEWISE config state) as [o1 st1].
    cbn [snd] in K1.
    destruct (negb (N.land m CRC_METHOD_WORDWISE =? 0)).
    + pose proof (apply_method_fresh h o1 CRC_METHOD_WORDWISE config st1 K1) as K2.
      destruct (crcu64_apply_method h o1 CRC_METHOD_WORDWISE config st1) as [o2 st2].
      cbn [snd] in K2. intros H. inversion H; subst. exact K2.
    + intros H. inversion H; subst. exact K1.
  - destruct (negb (N.land m CRC_METHOD_WORDWISE =? 0)).
    + pose proof (apply_method_fresh h o0 CRC_METHOD_WORDWISE config state Hf) as K2.
      destruct (crcu64_apply_method h o0 CRC_METHOD_WORDWISE config state) as [o2 st2].
      cbn [snd] in K2. intros H. inversion H; subst. exact K2.
    + intros H. inversion H; subst. exact Hf.
Qed.

(** What constructions keep. *)
Lemma constructions_keep (h : host) (state state' : crcmodule_state) :
  constructions h state state' ->
  caches_extend state state'
  /\ (cache_ok h state -> caches_fresh state -> cache_ok h state' /\ caches_fresh state').
Proof.
  induction 1 as [state|state state1 state2 config method data o _ [IHe IHk] Hnew].
  - split; [apply caches_extend_refl|tauto].
  - split.
    + eapply caches_extend_trans; [exact IHe|].
      now apply (crc_new_extends h state1 state2 config method data o).
    + intros Hc Hf. destruct (IHk Hc Hf) as [Hc1 Hf1]. split.
      * now destruct (crc_new_ok h state1 state2 config method data o Hc1 Hnew)
          as (_ & Hc2 & _).
      * now apply (crc_new_fresh h state1 state2 config method data o).
Qed.

(** C9, as the code has it.  The key of the table caches is the bytes of
    the whole configuration.  Two engines of one module, the second
    constructed after the first with any constructions in between, whatever
    their methods and their initial data: each holds a byte table exactly
    when its method is not "bitwise", and a word table exactly when its
    method is neither "bitwise" nor "bytewise"; with the same configuration
    (same width, poly, init, refin, refout and xorout) the tables that both
    hold are the same objects; with configurations that differ in any
    field, also only in refout or xorout, their tables are separate
    objects. *)
Theorem table_sharing (h : host) (state0 state1 state2 state3 : crcmodule_state)
        (config1 config2 : crc_config) (method1 method2 : option string)
        (data1 data2 : option (N * list Byte.byte)) (o1 o2 : crcu64object) :
  constructions h crcmodule_exec state0 ->
  crc_new h state0 config1 method1 data1 = Return (state1, o1) ->
  constructions h state1 state2 ->
  crc_new h state2 config2 method2 data2 = Return (state3, o2) ->
  (is_Some (impl_bytewise (impl o1)) <-> method1 <> Some "bitwise"%string)
  /\ (is_Some (impl_wordwise (impl o1))
      <-> method1 <> Some "bitwise"%string /\ method1 <> Some "bytewise"%string)
  /\ (is_Some (impl_bytewise (impl o2)) <-> method2 <> Some "bitwise"%string)
  /\ (is_Some (impl_wordwise (impl o2))
      <-> method2 <> Some "bitwise"%string /\ method2 <> Some "bytewise"%string)
  /\ (config1 = config2 ->
      (is_Some (impl_bytewise (impl o1)) -> is_Some (impl_bytewise (impl o2)) ->
       impl_bytewise (impl o1) = impl_bytewise (impl o2))
      /\ (is_Some (impl_wordwise (impl o1)) -> is_Some (impl_wordwise (impl o2)) ->
          impl_wordwise (impl o1) = impl_wordwise (impl o2)))
  /\ (config1 <> config2 ->
      (forall buf1 buf2,
          impl_bytewise (impl o1) = Some buf1 -> impl_bytewise (impl o2) = Some buf2 ->
          buf_id buf1 <> buf_id buf2)
      /\ (forall buf1 buf2,
             impl_wordwise (impl o1) = Some buf1 -> impl_wordwise (impl o2) = Some buf2 ->
             buf_id buf1 <> buf_id buf2)).
Proof.
  intros R0 H1 R1 H2.
  destruct (constructions_keep h _ _ R0) as [_ K0].
  destruct (K0 (cache_ok_exec h) caches_fresh_exec) as [Hc0 Hf0].
  destruct (crc_new_ok h state0 state1 config1 method1 data1 o1 Hc0 H1) as (_ & Hc1 & _).
  pose proof (crc_new_fresh h state0 state1 config1 method1 data1 o1 Hf0 H1) as Hf1.
  destruct (constructions_keep h _ _ R1) as [E12 K1].
  destruct (K1 Hc1 Hf1) as [Hc2 Hf2].
  pose proof (crc_new_fresh h state2 state3 config2 method2 data2 o2 Hf2 H2) as Hf3.
  pose proof (crc_new_extends h state2 state3 config2 method2 data2 o2 H2) as E23.
  destruct (caches_extend_trans _ _ _ E12 E23) as [Eb Ew].
  destruct (crc_new_tables_data h _ _ _ _ _ _ Hc0 H1) as (m1 & Hm1 & Hb1 & Hw1 & Sb1 & Sw1).
  destruct (crc_new_tables_data h _ _ _ _ _ _ Hc2 H2) as (m2 & Hm2 & Hb2 & Hw2 & Sb2 & Sw2).
  destruct (parse_method_tables _ _ Hm1) as [Pb1 Pw1].
  destruct (parse_method_tables _ _ Hm2) as [Pb2 Pw2].
  assert (Tb1 : is_Some (impl_bytewise (impl o1)) <-> method1 <> Some "bitwise"%string).
  { rewrite <- Pb1, Hb1. destruct (N.land m1 CRC_METHOD_BYTEWISE =? 0).
    - split; [intros [x Hx]; discriminate|discriminate].
    - split; [reflexivity|intros _; now apply Sb1]. }
  assert (Tw1 : is_Some (impl_wordwise (impl o1))
                <-> method1 <> Some "bitwise"%string /\ method1 <> Some "bytewise"%string).
  { rewrite <- Pw1, Hw1. destruct (N.land m1 CRC_METHOD_WORDWISE =? 0).
    - split; [intros [x Hx]; discriminate|discriminate].
    - split; [reflexivity|intros _; now apply Sw1]. }
  assert (Tb2 : is_Some (impl_bytewise (impl o2)) <-> method2 <> Some "bitwise"%string).
  { rewrite <- Pb2, Hb2. destruct (N.land m2 CRC_METHOD_BYTEWISE =? 0).
    - split; [intros [x Hx]; discriminate|discriminate].
    - split; [reflexivity|intros _; now apply Sb2]. }
  assert (Tw2 : is_Some (impl_wordwise (impl o2))
                <-> method2 <> Some "bitwise"%string /\ method2 <> Some "bytewise"%string).
  { rewrite <- Pw2, Hw2. destruct (N.land m2 CRC_METHOD_WORDWISE =? 0).
    - split; [intros [x Hx]; discriminate|discriminate].
    - split; [reflexivity|intros _; now apply Sw2]. }
  (* the table of the first engine is still cached when the second is built *)
  assert (Lb : forall buf, impl_bytewise (impl o1) = Some buf ->
                           crcu64_bytewise_cache state3 !! tabkey_of config1 = Some buf).
  { intros buf Hbuf. apply Eb. rewrite Hb1 in Hbuf.
    destruct (N.land m1 CRC_METHOD_BYTEWISE =? 0); [discriminate|assumption]. }
  assert (Lw : forall buf, impl_wordwise (impl o1) = Some buf ->
                           crcu64_wordwise_cache state3 !! tabkey_of config1 = Some buf).
  { intros buf Hbuf. apply Ew. rewrite Hw1 in Hbuf.
    destruct (N.land m1 CRC_METHOD_WORDWISE =? 0); [discriminate|assumption]. }
  assert (Cb : forall buf, impl_bytewise (impl o2) = Some buf ->
                           crcu64_bytewise_cache state3 !! tabkey_of config2 = Some buf).
  { intros buf Hbuf. rewrite Hb2 in Hbuf.
    destruct (N.land m2 CRC_METHOD_BYTEWISE =? 0); [discriminate|assumption]. }
  assert (Cw : forall buf, impl_wordwise (impl o2) = Some buf ->
                           crcu64_wordwise_cache state3 !! tabkey_of config2 = Some buf).
  { intros buf Hbuf. rewrite Hw2 in Hbuf.
    destruct (N.land m2 CRC_METHOD_WORDWISE =? 0); [discriminate|assumption]. }
  split; [exact Tb1|]. split; [exact Tw1|]. split; [exact Tb2|]. split; [exact Tw2|].
  split.
  - intros <-. split.
    + intros [b1 E1] [b2 E2]. rewrite E1, E2.
      pose proof (Lb _ E1) as L. pose proof (Cb _ E2) as C. congruence.
    + intros [b1 E1] [b2 E2]. rewrite E1, E2.
      pose proof (Lw _ E1) as L. pose proof (Cw _ E2) as C. congruence.
  - intros Hne. destruct Hf3 as (_ & _ & Ib & Iw). split.
    + intros b1 b2 E1 E2 Eid. apply Hne, tabkey_of_inj.
      exact (Ib _ _ _ _ (Lb _ E1) (Cb _ E2) Eid).
    + intros b1 b2 E1 E2 Eid. apply Hne, tabkey_of_inj.
      exact (Iw _ _ _ _ (Lw _ E1) (Cw _ E2) Eid).
Qed.

Lemma table_sharing_witness :
  (is_Some (impl_bytewise (impl (snd sharing_first)))
   <-> @None string <> Some "bitwise"%string)
  /\ (is_Some (impl_wordwise (impl (snd sharing_first)))
      <-> @None string <> Some "bitwise"%string /\ @None string <> Some "bytewise"%string)
  /\ (is_Some (impl_bytewise (impl (snd sharing_second)))
      <-> Some "bytewise"%string <> Some "bitwise"%string)
  /\ (is_Some (impl_wordwise (impl (snd sharing_second)))
      <-> Some "bytewise"%string <> Some "bitwise"%string
          /\ Some "bytewise"%string <> Some "bytewise"%string)
  /\ (crc_32_iso_hdlc = crc_32_iso_hdlc ->
      (is_Some (impl_bytewise (impl (snd sharing_first))) ->
       is_Some (impl_bytewise (impl (snd sharing_second))) ->
       impl_bytewise (impl (snd sharing_first)) = impl_bytewise (impl (snd sharing_second)))
      /\ (is_Some (impl_wordwise (impl (snd sharing_first))) ->
          is_Some (impl_wordwise (impl (snd sharing_second))) ->
          impl_wordwise (impl (snd sharing_first))
          = impl_wordwise (impl (snd sharing_second))))
  /\ (crc_32_iso_hdlc <> crc_32_iso_hdlc ->
      (forall buf1 buf2,
          impl_bytewise (impl (snd sharing_first)) = Some buf1 ->
          impl_bytewise (impl (snd sharing_second)) = Some buf2 ->
          buf_id buf1 <> buf_id buf2)
      /\ (forall buf1 buf2,
             impl_wordwise (impl (snd sharing_first)) = Some buf1 ->
             impl_wordwise (impl (snd sharing_second)) = Some buf2 ->
             buf_id buf1 <> buf_id buf2)).
Proof.
  apply (table_sharing (mk_host true 0) crcmodule_exec (fst sharing_first)
           (fst sharing_first) (fst sharing_second)
           crc_32_iso_hdlc crc_32_iso_hdlc None (Some "bytewise"%string) None None).
  - apply constructions_none.
  - unfold sharing_first. rewrite <- surjective_pairing.
    apply (built_returned _ _ _ _ 3); reflexivity.
  - apply constructions_none.
  - unfold sharing_second. rewrite <- surjective_pairing.
    apply (built_returned _ _ _ _ 1); reflexivity.
Defined.

(** C9 as it is claimed fails: the iso-hdlc and the jamcrc templates have
    the same width, polynomial and input reflection and differ by their
    output mask only; their cache keys differ, and an engine of the second
    built after an engine of the first gets table objects of its own. *)
Lemma table_sharing_counterexample :
  let h := mk_host true 0 in
  let r1 := built h crcmodule_exec crc_32_iso_hdlc None in
  let r2 := built h (fst r1) crc_32_jamcrc None in
  (cfg_width crc_32_iso_hdlc, cfg_poly crc_32_iso_hdlc, cfg_refin crc_32_iso_hdlc)
  = (cfg_width crc_32_jamcrc, cfg_poly crc_32_jamcrc, cfg_refin crc_32_jamcrc)
  /\ tabkey_of crc_32_iso_hdlc <> tabkey_of crc_32_jamcrc
  /\ option_map buf_id (impl_bytewise (impl (snd r1))) = Some 0%nat
  /\ option_map buf_id (impl_bytewise (impl (snd r2))) = Some 2%nat
  /\ option_map buf_id (impl_wordwise (impl (snd r1))) = Some 1%nat
  /\ option_map buf_id (impl_wordwise (impl (snd r2))) = Some 3%nat.
Proof.
  cbv zeta. repeat split; try (vm_compute; reflexivity).
  intros H. discriminate H.
Qed.

(** * Zero extension and combine *)

(** ** Zero bytes *)

Lemma zerobuf_zeros : zerobuf = zeros 256.
Proof. reflexivity. Qed.

Lemma firstn_zeros (k n : nat) : (k <= n)%nat -> firstn k (zeros n) = zeros k.
Proof.
  revert n. induction k as [|k IH]; intros n H; [reflexivity|].
  destruct n; [lia|]. cbn. f_equal. apply IH. lia.
Qed.

Lemma zeros_app (a b : nat) : zeros a ++ zeros b = zeros (a + b).
Proof. unfold zeros. now rewrite repeat_app. Qed.

(** The loop leaves less than 256 bytes, and has fed the others. *)
Lemma zero_bytes_loop_bitwise (h : host) (fuel : nat) :
  forall (impl : crcu64_impl) (numbytes : N),
    engine_ok h impl -> (N.to_nat (numbytes / 256) <= fuel)%nat ->
    zero_bytes_loop fuel h impl numbytes =
    (crcu64_impl_update_bitwise impl (zeros (N.to_nat (256 * (numbytes / 256)))),
     numbytes mod 256).
Proof.
  induction fuel as [|fuel IH]; intros impl numbytes He Hf.
  - cbn [zero_bytes_loop]. replace (numbytes / 256) with 0 by lia.
    cbn. f_equal. lia.
  - cbn [zero_bytes_loop]. change CRC_U8_COUNT with 256.
    destruct (N.leb_spec 256 numbytes) as [Hn|Hn].
    + rewrite update_bitwise_equiv by assumption.
      rewrite IH; [| now apply update_bitwise_engine_ok | lia].
      rewrite update_bitwise_app, zerobuf_zeros, zeros_app. f_equal; [|lia].
      do 2 f_equal. lia.
    + replace (numbytes / 256) with 0 by lia. cbn. f_equal. lia.
Qed.

(** Whatever the method, [n] zero bytes are fed the way the bitwise
    kernel would consume them in one buffer. *)
Lemma zero_bytes_bitwise (h : host) (impl : crcu64_impl) (numbytes : N) :
  engine_ok h impl ->
  crcu64_impl_zero_bytes h impl numbytes =
  crcu64_impl_update_bitwise impl (zeros (N.to_nat numbytes)).
Proof.
  intros He. unfold crcu64_impl_zero_bytes.
  destruct (N.eqb_spec numbytes 0) as [->|Hn]; [reflexivity|].
  rewrite zero_bytes_loop_bitwise by (assumption || lia).
  set (impl1 := crcu64_impl_update_bitwise impl _).
  assert (He1 : engine_ok h impl1) by now apply update_bitwise_engine_ok.
  assert (E : (if negb (numbytes mod 256 =? 0)
               then crcu64_impl_update h impl1 (zerobuf_addr h)
                      (firstn (N.to_nat (numbytes mod 256)) zerobuf)
               else impl1)
              = crcu64_impl_update_bitwise impl1 (zeros (N.to_nat (numbytes mod 256)))).
  { destruct (N.eqb_spec (numbytes mod 256) 0) as [E0|E0]; cbn [negb].
    - now rewrite E0.
    - rewrite update_bitwise_equiv by assumption.
      rewrite zerobuf_zeros, firstn_zeros by lia. reflexivity. }
  rewrite E. unfold impl1. rewrite update_bitwise_app, zeros_app. do 2 f_equal. lia.
Qed.

(** ** Linearity of the kernel *)

Lemma bitwise_byte_zero (refin : bool) (poly a : N) :
  bitwise_byte refin poly a Byte.x00 = byte_rounds refin poly a.
Proof. rewrite bitwise_byte_rounds. f_equal. destruct refin; apply N.lxor_0_r. Qed.

Lemma fold_bitwise_lxor (refin : bool) (poly : N) (bs : list Byte.byte) (x y : N) :
  fold_left (bitwise_byte refin poly) bs (N.lxor x y) =
  N.lxor (fold_left (bitwise_byte refin poly) (zeros (length bs)) x)
         (fold_left (bitwise_byte refin poly) bs y).
Proof.
  revert x y. induction bs as [|b bs IH]; intros x y; [reflexivity|].
  cbn [fold_left length zeros repeat]. rewrite <- IH. f_equal.
  rewrite bitwise_byte_zero, !bitwise_byte_rounds.
  rewrite N.lxor_assoc. apply byte_rounds_linear.
Qed.

(** ** The shape of the accumulator *)

Lemma round_reflected_bound (poly a w m : N) :
  poly < 2 ^ w -> a < 2 ^ N.max w (N.succ m) -> round_reflected poly a < 2 ^ N.max w m.
Proof.
  intros Hp Ha. unfold round_reflected.
  assert (Hs : N.shiftr a 1 < 2 ^ N.max w m).
  { apply lt_pow2_bits. intros i Hi. rewrite N.shiftr_spec'.
    apply (proj1 (lt_pow2_bits _ _) Ha). lia. }
  assert (Hp' : poly < 2 ^ N.max w m).
  { eapply N.lt_le_trans; [exact Hp|]. apply N.pow_le_mono_r; lia. }
  destruct (negb _); [now apply lxor_lt_pow2 | assumption].
Qed.

Lemma rounds_reflected_bound (poly w : N) (k : nat) (a : N) :
  poly < 2 ^ w -> a < 2 ^ N.max w (N.of_nat k) ->
  rounds (round_reflected poly) k a < 2 ^ w.
Proof.
  intros Hp. revert a. induction k as [|k IH]; intros a Ha.
  - cbn. now replace (N.max w (N.of_nat 0)) with w in Ha by lia.
  - cbn [rounds]. apply IH. apply round_reflected_bound; trivial.
    now replace (N.succ (N.of_nat k)) with (N.of_nat (S k)) by lia.
Qed.

Lemma round_normal_low (poly a z m : N) :
  low_clear z poly -> low_clear (N.min z m) a ->
  low_clear (N.min z (N.succ m)) (round_normal poly a).
Proof.
  intros Hp Ha i Hi. unfold round_normal.
  assert (Hs : N.testbit (shl64 a 1) i = false).
  { unfold shl64. bits. destruct (N.ltb_spec i 1); [reflexivity|].
    rewrite Ha by lia. reflexivity. }
  destruct (negb _); [|assumption].
  rewrite N.lxor_spec, Hs, Hp by lia. reflexivity.
Qed.

Lemma rounds_normal_low (poly z : N) (k : nat) (a m : N) :
  low_clear z poly -> low_clear (N.min z m) a ->
  low_clear (N.min z (m + N.of_nat k)) (rounds (round_normal poly) k a).
Proof.
  intros Hp. revert a m. induction k as [|k IH]; intros a m Ha.
  - cbn. now replace (m + N.of_nat 0) with m by lia.
  - cbn [rounds]. replace (m + N.of_nat (S k)) with (N.succ m + N.of_nat k) by lia.
    apply IH. now apply round_normal_low.
Qed.

Lemma bitwise_byte_aligned (w : N) (refin : bool) (poly a : N) (b : Byte.byte) :
  w <= 64 -> aligned w refin poly -> aligned w refin a ->
  aligned w refin (bitwise_byte refin poly a b).
Proof.
  intros Hw Hp Ha. pose proof (byte_val_lt b) as Hb. destruct refin; cbn [aligned] in *.
  - unfold bitwise_byte, bitwise_byte_reflected.
    apply rounds_reflected_bound; trivial.
    change (N.of_nat (N.to_nat CRC_U8_WIDTH)) with 8.
    apply lxor_lt_pow2.
    + eapply N.lt_le_trans; [exact Ha|]. apply N.pow_le_mono_r; lia.
    + eapply N.lt_le_trans; [exact Hb|]. apply N.pow_le_mono_r; lia.
  - destruct Hp as [Hp Hpl], Ha as [Ha Hal]. split.
    + now apply (bitwise_byte_lt false).
    + unfold bitwise_byte, bitwise_byte_normal.
      change (N.to_nat CRC_U8_WIDTH) with 8%nat.
      change (CRC_U64_LEAST - CRC_U8_WIDTH) with 56.
      pose proof (rounds_normal_low poly (64 - w) 8
                    (N.lxor a (shl64 (byte_val b) 56)) 56 Hpl) as H.
      intros i Hi. apply H; [|lia].
      intros j Hj. rewrite N.lxor_spec, Hal by lia.
      unfold shl64. bits. destruct (N.ltb_spec j 56); [reflexivity|lia].
Qed.

Lemma fold_bitwise_aligned (w : N) (refin : bool) (poly : N) (bs : list Byte.byte) (a : N) :
  w <= 64 -> aligned w refin poly -> aligned w refin a ->
  aligned w refin (fold_left (bitwise_byte refin poly) bs a).
Proof.
  intros Hw Hp. revert a. induction bs as [|b bs IH]; intros a Ha; [assumption|].
  cbn [fold_left]. apply IH. now apply bitwise_byte_aligned.
Qed.

Lemma internal_aligned (config : crc_config) (v : N) :
  cfg_width config <= 64 ->
  aligned (cfg_width config) (cfg_refin config) (internal config v).
Proof.
  intros Hw. unfold internal, aligned. destruct (cfg_refin config).
  - now apply bitswap_lt.
  - split; [apply u64_lt|]. intros i Hi. unfold shl64. bits.
    change CRC_U64_LEAST with 64.
    destruct (N.ltb_spec i (64 - cfg_width config)); [reflexivity|lia].
Qed.

(** ** Finalization and its inverse *)

Lemma digest_dirty (impl : crcu64_impl) :
  impl_dirty impl = true ->
  snd (crcu64_impl_digest impl) =
  finalize (impl_width impl) (impl_refin impl) (impl_refout impl)
           (impl_xorout impl) (impl_accum impl).
Proof. intros H. unfold crcu64_impl_digest. rewrite H. reflexivity. Qed.

Lemma digest_clean (impl : crcu64_impl) :
  impl_dirty impl = false -> snd (crcu64_impl_digest impl) = impl_result impl.
Proof. intros H. unfold crcu64_impl_digest. rewrite H. reflexivity. Qed.

Lemma lxor_cancel_r (a b : N) : N.lxor (N.lxor a b) b = a.
Proof. now rewrite N.lxor_assoc, N.lxor_nilpotent, N.lxor_0_r. Qed.

Lemma aligned_lt (w : N) (refin : bool) (a : N) :
  w <= 64 -> aligned w refin a -> a < 2 ^ 64.
Proof.
  intros Hw Ha. destruct refin; cbn [aligned] in Ha.
  - eapply N.lt_le_trans; [exact Ha|]. now apply N.pow_le_mono_r.
  - apply Ha.
Qed.

Lemma finalize_lt (w : N) (refin refout : bool) (xorout a : N) :
  w <= 64 -> xorout < 2 ^ w -> a < 2 ^ 64 ->
  finalize w refin refout xorout a < 2 ^ w.
Proof.
  intros Hw Hx Ha. unfold finalize. apply lxor_lt_pow2; [|assumption].
  destruct (Bool.eqb refin refout).
  - apply land_lt_pow2_r. rewrite bitmask_ones by assumption.
    apply lt_pow2_bits. intros i Hi. rewrite testbit_ones.
    destruct (N.ltb_spec i w); [lia|reflexivity].
  - now apply bitswap_lt.
Qed.

(** Internalizing an un-finalized digest gives the accumulator back. *)
Lemma internal_unfinalize_finalize (w : N) (refin refout : bool) (xorout a : N) :
  w <= 64 -> aligned w refin a ->
  internal_value w refin (unfinalize w refout xorout (finalize w refin refout xorout a)) = a.
Proof.
  intros Hw Ha. unfold unfinalize, finalize. rewrite lxor_cancel_r.
  change CRC_U64_LEAST with 64.
  assert (Hrt : forall v, v < 2 ^ w ->
            (if refout then crc_u64_bitswap
                              (if Bool.eqb refin refout
                               then N.land v (crc_u64_bitmask w)
                               else crc_u64_bitswap v w) w
             else (if Bool.eqb refin refout
                   then N.land v (crc_u64_bitmask w)
                   else crc_u64_bitswap v w))
            = if refin then crc_u64_bitswap v w else v).
  { intros v Hv. rewrite bitmask_ones by assumption.
    destruct refin, refout; cbn [Bool.eqb];
      rewrite ?land_ones_small by assumption;
      rewrite ?bitswap_involutive by assumption; reflexivity. }
  unfold internal_value. change CRC_U64_LEAST with 64.
  destruct refin; cbn [negb aligned] in *.
  - rewrite Hrt by assumption. now apply bitswap_involutive.
  - destruct Ha as [Ha Hl].
    rewrite Hrt by (apply shiftr_lt_pow2; now replace (w + (64 - w)) with 64 by lia).
    apply N.bits_inj. intro i. unfold shl64. bits.
    destruct (N.ltb_spec i 64).
    + rewrite andb_true_r. destruct (N.ltb_spec i (64 - w)).
      * symmetry. now apply Hl.
      * f_equal. lia.
    + rewrite andb_false_r. symmetry. now apply (proj1 (lt_pow2_bits a 64)).
Qed.

Lemma internal_value_lt (w : N) (refin : bool) (v : N) :
  w <= 64 -> internal_value w refin v < 2 ^ 64.
Proof.
  intros Hw. unfold internal_value. destruct refin.
  - eapply N.lt_le_trans; [now apply bitswap_lt|]. now apply N.pow_le_mono_r.
  - apply u64_lt.
Qed.

(** ** Combine on an implementation *)

Lemma engine_ok_same (h : host) (i i' : crcu64_impl) :
  engine_ok h i ->
  impl_poly i' = impl_poly i -> impl_refin i' = impl_refin i ->
  impl_update i' = impl_update i -> impl_bytewise i' = impl_bytewise i ->
  impl_wordwise i' = impl_wordwise i -> impl_accum i' < 2 ^ 64 ->
  engine_ok h i'.
Proof.
  intros [[Ha Hp] Hk] Ep Er Eu Eb Ew Hacc. unfold engine_ok, accum_ok, bytewise_ok, wordwise_ok in *.
  rewrite Ep, Er, Eu, Eb, Ew. repeat split; assumption.
Qed.

Lemma combine_start_eq (impl : crcu64_impl) (c1 : N) :
  combine_start impl c1 =
  mk_impl (impl_init impl) (impl_poly impl)
          (N.lxor (internal_value (impl_width impl) (impl_refin impl) c1) (impl_init impl))
          (impl_xorout impl) c1 (impl_update impl) (impl_bytewise impl)
          (impl_wordwise impl) (impl_width impl) (impl_refin impl)
          (impl_refout impl) false.
Proof. reflexivity. Qed.

Lemma combine_finish_eq (impl : crcu64_impl) (c2 : N) :
  combine_finish impl c2 =
  finalize (impl_width impl) (impl_refin impl) (impl_refout impl) (impl_xorout impl)
           (N.lxor (impl_accum impl) (internal_value (impl_width impl) (impl_refin impl) c2)).
Proof. unfold combine_finish. cbv zeta. rewrite digest_dirty; reflexivity. Qed.

Lemma combine_steps (h : host) (impl : crcu64_impl) (crc1 crc2 len2 : N) :
  len2 <> 0 ->
  snd (crcu64_combine h impl crc1 crc2 len2) =
  combine_finish
    (crcu64_impl_zero_bytes h
       (combine_start impl
          (unfinalize (impl_width impl) (impl_refout impl) (impl_xorout impl) crc1))
       len2)
    (unfinalize (impl_width impl) (impl_refout impl) (impl_xorout impl) crc2).
Proof.
  intros Hn. unfold crcu64_combine.
  destruct (N.eqb_spec len2 0) as [E|_]; [contradiction|].
  unfold unfinalize.
  destruct (impl_refout impl);
    cbv beta iota zeta delta [combine_finish combine_start];
    match goal with
    | |- snd (let '(_, _) := crcu64_impl_digest ?x in _) = _ =>
        destruct (crcu64_impl_digest x)
    end; reflexivity.
Qed.

Lemma combine_value (h : host) (impl : crcu64_impl) (crc1 crc2 len2 : N) :
  len2 <> 0 -> engine_ok h impl -> impl_width impl <= 64 -> impl_init impl < 2 ^ 64 ->
  snd (crcu64_combine h impl crc1 crc2 len2) =
  finalize (impl_width impl) (impl_refin impl) (impl_refout impl) (impl_xorout impl)
    (N.lxor
       (fold_left (bitwise_byte (impl_refin impl) (impl_poly impl))
          (zeros (N.to_nat len2))
          (N.lxor (internal_value (impl_width impl) (impl_refin impl)
                     (unfinalize (impl_width impl) (impl_refout impl)
                                 (impl_xorout impl) crc1))
                  (impl_init impl)))
       (internal_value (impl_width impl) (impl_refin impl)
          (unfinalize (impl_width impl) (impl_refout impl) (impl_xorout impl) crc2))).
Proof.
  intros Hn He Hw Hi. rewrite combine_steps by assumption.
  set (c1 := unfinalize (impl_width impl) (impl_refout impl) (impl_xorout impl) crc1).
  set (c2 := unfinalize (impl_width impl) (impl_refout impl) (impl_xorout impl) crc2).
  assert (He1 : engine_ok h (combine_start impl c1)).
  { apply (engine_ok_same h impl); trivial; rewrite combine_start_eq; try reflexivity.
    cbn [impl_accum]. apply lxor_lt_pow2; [|assumption]. now apply internal_value_lt. }
  rewrite zero_bytes_bitwise by assumption.
  rewrite combine_finish_eq, update_bitwise_fold, combine_start_eq.
  destruct (N.to_nat len2) as [|n] eqn:En; [lia|].
  reflexivity.
Qed.

(** ** Combine against the digest of the concatenation *)

Lemma strip_fields (i j : crcu64_impl) :
  strip i = strip j ->
  impl_init i = impl_init j /\ impl_poly i = impl_poly j
  /\ impl_accum i = impl_accum j /\ impl_xorout i = impl_xorout j
  /\ impl_result i = impl_result j /\ impl_width i = impl_width j
  /\ impl_refin i = impl_refin j /\ impl_refout i = impl_refout j
  /\ impl_dirty i = impl_dirty j.
Proof. destruct i, j. unfold strip. cbn. intros H. inversion H. repeat split. Qed.

Lemma copy_eq (dst src : crcu64_impl) : crcu64_impl_copy dst src = src.
Proof. now destruct src. Qed.

(** The digest of the bitwise engine, from its accumulator. *)
Lemma crc_reference_nil (config : crc_config) :
  crc_reference config [] = cfg_init config.
Proof. reflexivity. Qed.

Lemma crc_reference_fold (config : crc_config) (s : list Byte.byte) :
  s <> [] ->
  crc_reference config s =
  finalize (cfg_width config) (cfg_refin config) (cfg_refout config) (cfg_xorout config)
    (fold_left (bitwise_byte (cfg_refin config) (internal config (cfg_poly config))) s
               (internal config (cfg_init config))).
Proof.
  intros Hs. unfold crc_reference. rewrite update_bitwise_fold.
  destruct s as [|b s]; [contradiction|]. cbn [advanced].
  now rewrite digest_dirty.
Qed.

Lemma config_valid_lt (config : crc_config) :
  config_valid config = true ->
  cfg_width config <= 64
  /\ cfg_init config < 2 ^ cfg_width config
  /\ cfg_xorout config < 2 ^ cfg_width config.
Proof.
  intros H. apply config_valid_bounds in H as ((_ & Hw) & _ & Hi & Hx).
  apply le_bitmask in Hi, Hx; tauto.
Qed.

Lemma state_aligned (config : crc_config) (s : list Byte.byte) :
  cfg_width config <= 64 ->
  aligned (cfg_width config) (cfg_refin config)
    (fold_left (bitwise_byte (cfg_refin config) (internal config (cfg_poly config))) s
               (internal config (cfg_init config))).
Proof. intros Hw. apply fold_bitwise_aligned; trivial; now apply internal_aligned. Qed.

(** Every digest is at most the bit mask of the width. *)
Lemma crc_reference_le (config : crc_config) (s : list Byte.byte) :
  config_valid config = true ->
  crc_reference config s <= crc_u64_bitmask (cfg_width config).
Proof.
  intros Hv. destruct (config_valid_lt config Hv) as (Hw & Hi & Hx).
  apply le_bitmask; [assumption|].
  destruct s as [|b s].
  - now rewrite crc_reference_nil.
  - rewrite crc_reference_fold by discriminate. apply finalize_lt; trivial.
    eapply aligned_lt; [exact Hw|]. now apply state_aligned.
Qed.

Lemma combine_reference (h : host) (impl : crcu64_impl) (config : crc_config)
      (A B : list Byte.byte) :
  config_valid config = true -> engine_ok h impl ->
  strip impl = strip (configured crcu64_impl_ctor config) ->
  A <> [] \/ B = [] ->
  snd (crcu64_combine h impl (crc_reference config A) (crc_reference config B)
                      (N.of_nat (length B)))
  = crc_reference config (A ++ B).
Proof.
  intros Hv He Hs HAB. destruct (config_valid_lt config Hv) as (Hw & Hi & Hx).
  destruct (strip_fields _ _ Hs) as (Ei & Ep & _ & Ex & _ & Ew & Eri & Ero & _).
  cbn [configured impl_init impl_poly impl_xorout impl_width impl_refin impl_refout]
    in Ei, Ep, Ex, Ew, Eri, Ero.
  destruct B as [|b B].
  - now rewrite app_nil_r.
  - destruct HAB as [HA|HB]; [|discriminate].
    rewrite combine_value; [| cbn [length]; lia | assumption | now rewrite Ew
                             | rewrite Ei; now apply internal_lt ].
    rewrite Ei, Ep, Ex, Ew, Eri, Ero.
    rewrite (crc_reference_fold config A HA).
    rewrite (crc_reference_fold config (b :: B)) by discriminate.
    rewrite (crc_reference_fold config (A ++ b :: B))
      by (intros E; apply app_eq_nil in E as [_ E]; discriminate).
    rewrite !internal_unfinalize_finalize by (trivial; now apply state_aligned).
    rewrite Nat2N.id.
    fold (internal config (cfg_init config)).
    rewrite <- fold_bitwise_lxor, lxor_cancel_r, fold_left_app. reflexivity.
Qed.

(** The digest of an engine after one update is the reference digest. *)
Lemma engine_digest_reference (h : host) (o : crcu64object) (config : crc_config)
      (addr : N) (s : list Byte.byte) :
  engine_ok h (impl o) ->
  strip (impl o) = strip (configured crcu64_impl_ctor config) ->
  snd (_crc_crcu64_type_index (_crc_crcu64_update_impl h o addr s)) =
  crc_reference config s.
Proof.
  intros He Hs. rewrite index_digest. unfold _crc_crcu64_update_impl.
  cbn [impl set_impl]. rewrite update_bitwise_equiv by assumption.
  apply digest_strip_eq. rewrite !strip_update_bitwise. now rewrite Hs.
Qed.

(** X1. [combine(crc(A), crc(B), len(B))] is [crc(A ++ B)] for an engine of any
    valid configuration and method, as soon as [A] is not empty (or [B]
    is): the digests are taken on engines that consumed their bytes in one
    update each, wherever the buffers lie. *)
Theorem combine_concatenation (h : host) (state state' : crcmodule_state)
        (config : crc_config) (method : option string) (o : crcu64object)
        (A B : list Byte.byte) (a1 a2 a3 : N) :
  cache_ok h state ->
  crc_new h state config method None = Return (state', o) ->
  A <> [] \/ B = [] ->
  snd (_crc_crcu64_combine_impl h o
         (snd (_crc_crcu64_type_index (_crc_crcu64_update_impl h o a1 A)))
         (snd (_crc_crcu64_type_index (_crc_crcu64_update_impl h o a2 B)))
         (N.of_nat (length B)))
  = Return (snd (_crc_crcu64_type_index (_crc_crcu64_update_impl h o a3 (A ++ B)))).
Proof.
  intros Hc Hnew HAB.
  destruct (crc_new_ok h state state' config method None o Hc Hnew) as (Hv & _ & He & Hs).
  cbn [data_bytes crcu64_impl_update_bitwise] in Hs.
  rewrite !(engine_digest_reference h o config) by assumption.
  destruct (strip_fields _ _ Hs) as (_ & _ & _ & _ & _ & Ew & _).
  cbn [configured impl_width] in Ew.
  unfold _crc_crcu64_combine_impl. rewrite copy_eq, Ew.
  pose proof (crc_reference_le config A Hv) as HA.
  pose proof (crc_reference_le config B Hv) as HB.
  apply N.ltb_ge in HA, HB. rewrite HA, HB.
  pose proof (combine_reference h (impl o) config A B Hv He Hs HAB) as Hcomb.
  destruct (crcu64_combine h (impl o) _ _ _) as [local crc].
  cbn [snd] in *. now rewrite Hcomb.
Qed.

Lemma combine_concatenation_witness :
  snd (_crc_crcu64_combine_impl (mk_host true 0)
         (snd (built (mk_host true 0) crcmodule_exec crc_32_iso_hdlc None))
         (snd (_crc_crcu64_type_index
                 (_crc_crcu64_update_impl (mk_host true 0)
                    (snd (built (mk_host true 0) crcmodule_exec crc_32_iso_hdlc None))
                    0 (list_byte_of_string "abc"))))
         (snd (_crc_crcu64_type_index
                 (_crc_crcu64_update_impl (mk_host true 0)
                    (snd (built (mk_host true 0) crcmodule_exec crc_32_iso_hdlc None))
                    0 (list_byte_of_string "def"))))
         (N.of_nat (length (list_byte_of_string "def"))))
  = Return (snd (_crc_crcu64_type_index
                   (_crc_crcu64_update_impl (mk_host true 0)
                      (snd (built (mk_host true 0) crcmodule_exec crc_32_iso_hdlc None))
                      0 (list_byte_of_string "abc" ++ list_byte_of_string "def")))).
Proof.
  apply (combine_concatenation (mk_host true 0) crcmodule_exec
           (fst (built (mk_host true 0) crcmodule_exec crc_32_iso_hdlc None))
           crc_32_iso_hdlc None).
  - apply cache_ok_exec.
  - rewrite <- surjective_pairing. apply (built_returned _ _ _ _ 3); reflexivity.
  - left. discriminate.
Defined.

(** C2 (the code departs from it).  An engine that has consumed no byte is
    not dirty, and its [digest()] is the cached result the configuration
    set, the raw initial value: 0xFFFFFFFF for crc-32, where the finalized
    register is 0.  With that as the checksum of an empty first part,
    [combine] does not give the checksum of the second part. *)
Theorem combine_empty_first_part :
  let h := mk_host true 0 in
  let o := snd (built h crcmodule_exec crc_32_iso_hdlc None) in
  let crc := fun s => snd (_crc_crcu64_type_index (_crc_crcu64_update_impl h o 0 s)) in
  let B := list_byte_of_string "def" in
  crc [] = 0xFFFFFFFF
  /\ crc B = 0x0CC4E161
  /\ snd (_crc_crcu64_combine_impl h o (crc []) (crc B) (N.of_nat (length B)))
     = Return 0x0C7AC78C
  /\ snd (_crc_crcu64_combine_impl h o (crc []) (crc B) (N.of_nat (length B)))
     <> Return (crc ([] ++ B)).
Proof.
  cbv zeta. repeat split; try (vm_compute; reflexivity).
  vm_compute. discriminate.
Qed.

(** * The life of an engine *)

(** ** Helpers *)

Lemma fold_left_cons {A B : Type} (f : A -> B -> A) (b : B) (s : list B) (a : A) :
  fold_left f (b :: s) a = fold_left f s (f a b).
Proof. reflexivity. Qed.

Lemma rounds_mul (f : N -> N) (n m : nat) (a : N) :
  rounds (rounds f n) m a = rounds f (m * n) a.
Proof.
  revert a. induction m as [|m IH]; intros a; [reflexivity|].
  cbn [rounds Nat.mul]. rewrite rounds_add. apply IH.
Qed.

(** [update_word] with a whole number of bytes is [update] with the bytes. *)
Lemma update_word_bytes (impl : crcu64_impl) (bs : list Byte.byte) :
  (length bs <= 8)%nat ->
  crcu64_impl_update_word impl (word_for (impl_refin impl) bs) (8 * N.of_nat (length bs))
  = crcu64_impl_update_bitwise impl bs.
Proof.
  intros Hl. rewrite update_bitwise_fold. unfold crcu64_impl_update_word, word_for.
  destruct bs as [|b bs]; [reflexivity|].
  remember (b :: bs) as l eqn:El.
  assert (Hn : (8 * N.of_nat (length l) =? 0) = false)
    by (apply N.eqb_neq; subst l; cbn [length]; lia).
  assert (Hadv : forall a, advanced impl l a = set_dirty (set_accum impl a) true)
    by (subst l; reflexivity).
  rewrite Hn, Hadv. clear El Hn Hadv.
  replace (N.to_nat (8 * N.of_nat (length l))) with (length l * 8)%nat by lia.
  destruct (impl_refin impl).
  - rewrite fold_bitwise_reflected_word. unfold byte_rounds. now rewrite rounds_mul.
  - rewrite fold_bitwise_normal_word by assumption. unfold byte_rounds.
    rewrite rounds_mul. rewrite word_of_bytes_hi_rev by assumption.
    change CRC_U64_LEAST with 64.
    rewrite shl64_small; [reflexivity| |lia].
    pose proof (word_of_bytes_le_lt (rev l)) as H. rewrite length_rev in H.
    replace (64 - (64 - 8 * N.of_nat (length l))) with (8 * N.of_nat (length l)) by lia.
    exact H.
Qed.

(** [zero_bits] with a whole number of bytes is [zero_bytes]. *)
Lemma zero_bits_bytes (h : host) (impl : crcu64_impl) (numbytes : N) :
  crcu64_impl_zero_bits h impl (8 * numbytes) = crcu64_impl_zero_bytes h impl numbytes.
Proof.
  unfold crcu64_impl_zero_bits. change CRC_U8_WIDTH with 8.
  replace (8 * numbytes / 8) with numbytes by lia.
  replace (8 * numbytes - numbytes * 8) with 0 by lia.
  reflexivity.
Qed.

Lemma externalize_internal (impl : crcu64_impl) (config : crc_config) (v : N) :
  impl_width impl = cfg_width config -> impl_refin impl = cfg_refin config ->
  cfg_width config <= 64 -> v < 2 ^ cfg_width config ->
  crcu64_impl_externalize impl (internal config v) = v.
Proof.
  intros Ew Er Hw Hv. unfold crcu64_impl_externalize, internal. rewrite Ew, Er.
  destruct (cfg_refin config).
  - now apply bitswap_involutive.
  - change CRC_U64_LEAST with 64.
    rewrite shl64_small; [|replace (64 - (64 - cfg_width config)) with (cfg_width config) by lia; assumption|lia].
    rewrite N.shiftr_shiftl_l by lia. now rewrite N.sub_diag, N.shiftl_0_r.
Qed.

Lemma engine_ok_transfer (h : host) (i j : crcu64_impl) :
  engine_ok h i ->
  impl_poly j = impl_poly i -> impl_refin j = impl_refin i ->
  impl_update j = impl_update i -> impl_bytewise j = impl_bytewise i ->
  impl_wordwise j = impl_wordwise i -> impl_accum j < 2 ^ 64 ->
  engine_ok h j.
Proof.
  intros [[_ Hp] Hk] Ep Er Eu Eb Ew Ha. split.
  - split; [assumption|now rewrite Ep].
  - unfold bytewise_ok, wordwise_ok in *. now rewrite Eu, Ep, Er, Eb, Ew.
Qed.

Lemma internal_with_init (config : crc_config) (start v : N) :
  internal (with_init config start) v = internal config v.
Proof. reflexivity. Qed.

Lemma with_init_valid (config : crc_config) (start : N) :
  config_valid config = true -> start < 2 ^ cfg_width config ->
  config_valid (with_init config start) = true.
Proof.
  intros Hv Hs. apply config_valid_bounds in Hv as (Hw & Hp & Hi & Hx).
  apply config_valid_bounds. cbn [with_init cfg_width cfg_poly cfg_init cfg_xorout].
  repeat split; try tauto. apply le_bitmask; [lia|assumption].
Qed.

Lemma tracks_make (h : host) (config : crc_config) (start : N) (s : list Byte.byte)
      (impl : crcu64_impl) :
  config_valid config = true ->
  start < 2 ^ cfg_width config ->
  engine_ok h impl ->
  impl_width impl = cfg_width config ->
  impl_refin impl = cfg_refin config ->
  impl_refout impl = cfg_refout config ->
  impl_xorout impl = cfg_xorout config ->
  impl_poly impl = internal config (cfg_poly config) ->
  impl_init impl = internal config (cfg_init config) ->
  impl_accum impl =
    fold_left (bitwise_byte (cfg_refin config) (internal config (cfg_poly config))) s
              (internal config start) ->
  (impl_dirty impl = true -> s <> []) ->
  (impl_dirty impl = false -> impl_result impl = crc_reference (with_init config start) s) ->
  tracks h config start s impl.
Proof. unfold tracks. tauto. Qed.

Ltac tracks_fields H :=
  destruct H as (Hv & Hst & He & Ew & Eri & Ero & Ex & Ep & Ei & Ea & Hd & Hr).

(** ** The invariant through the operations *)

Lemma tracks_update_bitwise (h : host) (config : crc_config) (start : N)
      (s data : list Byte.byte) (impl : crcu64_impl) :
  tracks h config start s impl ->
  tracks h config start (s ++ data) (crcu64_impl_update_bitwise impl data).
Proof.
  intros H. destruct data as [|b data].
  - now rewrite app_nil_r.
  - tracks_fields H. rewrite update_bitwise_fold. cbn [advanced].
    apply tracks_make;
      cbn [set_dirty set_accum impl_width impl_refin impl_refout impl_xorout impl_poly
           impl_init impl_accum impl_dirty impl_result]; try assumption.
    + eapply engine_ok_transfer; [exact He|reflexivity..|].
      cbn [set_dirty set_accum impl_accum].
      destruct He as [[Ha' Hp'] _]. now apply fold_bitwise_lt.
    + rewrite fold_left_app, <- Ea, Eri, Ep. reflexivity.
    + intros _ E. apply app_eq_nil in E as [_ E]. discriminate.
    + discriminate.
Qed.

Lemma tracks_update (h : host) (config : crc_config) (start : N)
      (s data : list Byte.byte) (impl : crcu64_impl) (addr : N) :
  tracks h config start s impl ->
  tracks h config start (s ++ data) (crcu64_impl_update h impl addr data).
Proof.
  intros H. rewrite update_bitwise_equiv by apply H. now apply tracks_update_bitwise.
Qed.

Lemma tracks_digest_value (h : host) (config : crc_config) (start : N)
      (s : list Byte.byte) (impl : crcu64_impl) :
  tracks h config start s impl ->
  snd (crcu64_impl_digest impl) = crc_reference (with_init config start) s.
Proof.
  intros H. tracks_fields H. destruct (impl_dirty impl) eqn:Ed.
  - rewrite digest_dirty by assumption.
    rewrite crc_reference_fold by now apply Hd.
    rewrite Ew, Eri, Ero, Ex, Ea. reflexivity.
  - rewrite digest_clean by assumption. now apply Hr.
Qed.

Lemma tracks_digest (h : host) (config : crc_config) (start : N)
      (s : list Byte.byte) (impl : crcu64_impl) :
  tracks h config start s impl ->
  tracks h config start s (fst (crcu64_impl_digest impl)).
Proof.
  intros H. pose proof (tracks_digest_value _ _ _ _ _ H) as Hval.
  tracks_fields H. unfold crcu64_impl_digest in *.
  destruct (impl_dirty impl) eqn:Ed; cbn [fst snd] in *.
  - cbn [set_dirty set_result impl_result] in Hval.
    apply tracks_make;
      cbn [set_dirty set_result impl_width impl_refin impl_refout impl_xorout impl_poly
           impl_init impl_accum impl_dirty impl_result]; try assumption.
    + discriminate.
    + intros _. exact Hval.
  - apply tracks_make; rewrite ?Ed; assumption.
Qed.

Lemma tracks_clear_init (h : host) (config : crc_config) (start init : N)
      (s : list Byte.byte) (impl : crcu64_impl) :
  tracks h config start s impl -> init < 2 ^ cfg_width config ->
  tracks h config init [] (crcu64_impl_clear_init impl init).
Proof.
  intros H Hi. tracks_fields H.
  pose proof (config_valid_lt config Hv) as (Hw & _ & _).
  assert (Eint : crcu64_impl_internalize (set_result (set_dirty impl false) init) init
                 = internal config init).
  { unfold crcu64_impl_internalize, internal.
    cbn [set_result set_dirty impl_refin impl_width]. now rewrite Eri, Ew. }
  unfold crcu64_impl_clear_init. cbv zeta. rewrite Eint.
  apply tracks_make;
    cbn [set_dirty set_result set_accum impl_width impl_refin impl_refout impl_xorout
         impl_poly impl_init impl_accum impl_dirty impl_result fold_left];
    try assumption; try reflexivity; try discriminate;
    try (intros _; now rewrite crc_reference_nil).
  eapply engine_ok_transfer; [exact He|reflexivity..|].
  cbn [set_accum set_result set_dirty impl_accum]. now apply internal_lt.
Qed.

Lemma tracks_clear_default (h : host) (config : crc_config) (start : N)
      (s : list Byte.byte) (impl : crcu64_impl) :
  tracks h config start s impl ->
  tracks h config (cfg_init config) [] (crcu64_impl_clear_default impl).
Proof.
  intros H. tracks_fields H.
  pose proof (config_valid_lt config Hv) as (Hw & Hi & _).
  unfold crcu64_impl_clear_default. cbv zeta.
  cbn [set_dirty set_accum impl_init].
  rewrite Ei.
  rewrite (externalize_internal _ config) by (cbn; assumption).
  apply tracks_make;
    cbn [set_dirty set_result set_accum impl_width impl_refin impl_refout impl_xorout
         impl_poly impl_init impl_accum impl_dirty impl_result fold_left];
    try assumption; try reflexivity; try discriminate;
    try (intros _; now rewrite crc_reference_nil).
  eapply engine_ok_transfer; [exact He|reflexivity..|].
  cbn [set_accum set_result set_dirty impl_accum]. now apply internal_lt.
Qed.

Lemma tracks_new (h : host) (state state' : crcmodule_state) (config : crc_config)
      (method : option string) (data : option (N * list Byte.byte)) (o : crcu64object) :
  cache_ok h state ->
  crc_new h state config method data = Return (state', o) ->
  tracks h config (cfg_init config) (data_bytes data) (impl o).
Proof.
  intros Hc Hnew.
  destruct (crc_new_ok h state state' config method data o Hc Hnew) as (Hv & _ & Heo & Hs).
  pose proof (config_valid_lt config Hv) as (Hw & Hi & _).
  assert (H0 : tracks h config (cfg_init config) [] (configured crcu64_impl_ctor config)).
  { apply tracks_make;
      cbn [configured crcu64_impl_ctor impl_width impl_refin impl_refout impl_xorout
           impl_poly impl_init impl_accum impl_dirty impl_result fold_left];
      try assumption; try reflexivity; try discriminate;
      try (intros _; now rewrite crc_reference_nil).
    split; [now apply configured_accum_ok|exact I]. }
  apply (tracks_update_bitwise _ _ _ _ (data_bytes data)) in H0.
  cbn [app] in H0. clear Hv Hi. tracks_fields H0.
  destruct (strip_fields _ _ Hs) as (Fi & Fp & Fa & Fx & Fr & Fw & Fri & Fro & Fd).
  apply tracks_make; rewrite ?Fi, ?Fp, ?Fa, ?Fx, ?Fr, ?Fw, ?Fri, ?Fro, ?Fd; assumption.
Qed.

(** Every engine a caller can obtain satisfies the invariant. *)
Lemma run_tracks (h : host) (config : crc_config) (start : N) (s : list Byte.byte)
      (o : crcu64object) :
  run h config start s o -> tracks h config start s (impl o).
Proof.
  induction 1 as [state state' method data o Hc Hnew
                 | start s o addr data _ IH
                 | start s o bs _ IH Hl
                 | start s o n _ IH
                 | start s o n _ IH
                 | start s o _ IH
                 | start s o _ IH
                 | start s o _ IH
                 | start s o crc1 crc2 len2 _ IH
                 | start s o _ IH
                 | start s o _ IH
                 | start s o init _ IH Hi].
  - eapply tracks_new; eassumption.
  - now apply tracks_update.
  - unfold _crc_crcu64_update_word_impl.
    replace ((8 * Z.of_nat (length bs) <? 0)%Z
             || (Z.of_N CRC_MAX_WIDTH <? 8 * Z.of_nat (length bs))%Z) with false
      by (symmetry; apply orb_false_iff; split; apply Z.ltb_ge;
          change (Z.of_N CRC_MAX_WIDTH) with 64%Z; lia).
    cbn [fst impl set_impl].
    replace (Z.to_N (8 * Z.of_nat (length bs))) with (8 * N.of_nat (length bs)) by lia.
    assert (Er : cfg_refin config = impl_refin (impl o)) by (symmetry; apply IH).
    rewrite Er, update_word_bytes by assumption.
    now apply tracks_update_bitwise.
  - unfold _crc_crcu64_zero_bytes_impl. cbn [impl set_impl].
    rewrite zero_bytes_bitwise by apply IH. now apply tracks_update_bitwise.
  - unfold _crc_crcu64_zero_bits_impl. cbn [impl set_impl].
    rewrite zero_bits_bytes, zero_bytes_bitwise by apply IH.
    now apply tracks_update_bitwise.
  - unfold _crc_crcu64_type_index.
    pose proof (tracks_digest _ _ _ _ _ IH) as H.
    destruct (crcu64_impl_digest (impl o)). exact H.
  - unfold _crc_crcu64_digest_impl.
    pose proof (tracks_digest _ _ _ _ _ IH) as H.
    destruct (crcu64_impl_digest (impl o)).
    destruct (fold_left digest_store _ _). exact H.
  - unfold _crc_crcu64_hexdigest_impl.
    pose proof (tracks_digest _ _ _ _ _ IH) as H.
    destruct (crcu64_impl_digest (impl o)).
    destruct (fold_left hexdigest_store _ _). exact H.
  - unfold _crc_crcu64_combine_impl.
    repeat match goal with
           | |- context [if ?c then _ else _] => destruct c
           | |- context [let '(_, _) := ?x in _] => destruct x
           end; exact IH.
  - unfold _crc_crcu64_copy_impl. cbn [snd impl]. now rewrite copy_eq.
  - now apply (tracks_clear_default h config start s).
  - apply (tracks_clear_init h config start init s); [assumption|].
    apply le_bitmask; [|assumption].
    destruct IH as (Hv & _). now apply config_valid_lt in Hv as (Hw & _).
Qed.

(** * The renderings of the digest *)

Lemma byte_val_crc_u8_of (x : N) : byte_val (crc_u8_of x) = N.land x 255.
Proof.
  unfold crc_u8_of, byte_val. change CRC_U8_MASK with 255.
  destruct (Byte.of_N (N.land x 255)) as [b|] eqn:E.
  - now apply Byte.to_of_N.
  - apply Byte.of_N_None_iff in E.
    pose proof (land_lt_pow2_r x 255 8 eq_refl) as H. change (2 ^ 8) with 256 in H. lia.
Qed.

Lemma countdown_S (n : nat) : countdown (S n) = n :: countdown n.
Proof. unfold countdown. now rewrite seq_S, rev_app_distr. Qed.

Lemma length_countdown (n : nat) : length (countdown n) = n.
Proof. unfold countdown. now rewrite length_rev, length_seq. Qed.

(** The buffer [digest] fills. *)
Lemma digest_buffer (result : N) :
  fst (fold_left digest_store (countdown (N.to_nat CRC_MAX_SIZE))
                 (repeat Byte.x00 (N.to_nat CRC_MAX_SIZE), result))
  = map (digest_byte result) (countdown 8).
Proof.
  change (countdown (N.to_nat CRC_MAX_SIZE)) with [7; 6; 5; 4; 3; 2; 1; 0]%nat.
  change (repeat Byte.x00 (N.to_nat CRC_MAX_SIZE))
    with [Byte.x00; Byte.x00; Byte.x00; Byte.x00; Byte.x00; Byte.x00; Byte.x00; Byte.x00].
  change (countdown 8) with [7; 6; 5; 4; 3; 2; 1; 0]%nat.
  cbn [fold_left digest_store fst map]. change CRC_U8_WIDTH with 8.
  unfold digest_byte. rewrite !N.shiftr_shiftr. reflexivity.
Qed.

(** The last [n] slots of a buffer that holds [f (m - 1), ..., f 0]. *)
Lemma countdown_window {A : Type} (f : nat -> A) (m n : nat) :
  (n <= m)%nat ->
  take n (drop (m - n) (map f (countdown m))) = map f (countdown n).
Proof.
  intros H. induction m as [|m IH].
  - replace n with 0%nat by lia. reflexivity.
  - destruct (Nat.eq_dec n (S m)) as [->|Hn].
    + rewrite Nat.sub_diag, drop_0. apply firstn_all2. now rewrite length_map, length_countdown.
    + replace (S m - n)%nat with (S (m - n)) by lia.
      rewrite countdown_S. cbn [map drop skipn]. apply IH. lia.
Qed.

Lemma be_value_from (bs : list Byte.byte) (a : N) :
  fold_left (fun acc b => acc * 256 + byte_val b) bs a
  = a * 256 ^ N.of_nat (length bs) + be_value bs.
Proof.
  unfold be_value. revert a. induction bs as [|c bs IH]; intros a.
  - cbn [fold_left length]. change (256 ^ N.of_nat 0) with 1. lia.
  - cbn [fold_left]. rewrite (IH (a * 256 + byte_val c)), (IH (0 * 256 + byte_val c)).
    replace (N.of_nat (length (c :: bs))) with (N.succ (N.of_nat (length bs)))
      by (cbn [length]; lia).
    rewrite N.pow_succ_r'. ring.
Qed.

Lemma be_value_cons (b : Byte.byte) (bs : list Byte.byte) :
  be_value (b :: bs) = byte_val b * 256 ^ N.of_nat (length bs) + be_value bs.
Proof.
  unfold be_value at 1. cbn [fold_left]. rewrite be_value_from. ring.
Qed.

(** The bytes [n - 1, ..., 0] of a number denote it modulo [256 ^ n]. *)
Lemma be_value_digest_bytes (result : N) (n : nat) :
  be_value (map (digest_byte result) (countdown n)) = result mod 2 ^ (8 * N.of_nat n).
Proof.
  induction n as [|n IH].
  - change (2 ^ (8 * N.of_nat 0)) with 1. now rewrite N.mod_1_r.
  - rewrite countdown_S. cbn [map]. rewrite be_value_cons, IH.
    rewrite length_map, length_countdown.
    unfold digest_byte. rewrite byte_val_crc_u8_of.
    change 255 with (N.ones 8). rewrite N.land_ones, N.shiftr_div_pow2.
    replace (8 * N.of_nat (S n)) with (8 * N.of_nat n + 8) by lia.
    rewrite N.pow_add_r, N.Div0.mod_mul_r.
    replace (256 ^ N.of_nat n) with (2 ^ (8 * N.of_nat n))
      by (rewrite N.pow_mul_r; reflexivity).
    ring.
Qed.

(** The buffer [hexdigest] fills. *)
Lemma hexdigest_buffer (result : N) :
  fst (fold_left hexdigest_store hexdigest_indices
                 (repeat Ascii.zero (N.to_nat CRC_MAX_NIBBLE), result))
  = map (digest_nibble result) (countdown 16).
Proof.
  change hexdigest_indices
    with [15; 14; 13; 12; 11; 10; 9; 8; 7; 6; 5; 4; 3; 2; 1; 0]%nat.
  change (repeat Ascii.zero (N.to_nat CRC_MAX_NIBBLE))
    with [Ascii.zero; Ascii.zero; Ascii.zero; Ascii.zero; Ascii.zero; Ascii.zero;
          Ascii.zero; Ascii.zero; Ascii.zero; Ascii.zero; Ascii.zero; Ascii.zero;
          Ascii.zero; Ascii.zero; Ascii.zero; Ascii.zero].
  change (countdown 16)
    with [15; 14; 13; 12; 11; 10; 9; 8; 7; 6; 5; 4; 3; 2; 1; 0]%nat.
  cbn [fold_left hexdigest_store fst map].
  unfold digest_nibble. rewrite !N.shiftr_shiftr. reflexivity.
Qed.

Lemma nibble_high (x : N) : N.land x 255 / 16 = N.land (N.shiftr x 4) 0xF.
Proof.
  change 16 with (2 ^ 4). rewrite <- N.shiftr_div_pow2.
  apply N.bits_inj. intro i. rewrite N.shiftr_spec', !N.land_spec, N.shiftr_spec'.
  change 255 with (N.ones 8). change 0xF with (N.ones 4). rewrite !testbit_ones.
  destruct (N.ltb_spec i 4), (N.ltb_spec (i + 4) 8); try lia; reflexivity.
Qed.

Lemma nibble_low (x : N) : N.land x 255 mod 16 = N.land x 0xF.
Proof.
  change 16 with (2 ^ 4). rewrite <- N.land_ones.
  apply N.bits_inj. intro i. rewrite !N.land_spec.
  change 255 with (N.ones 8). change 0xF with (N.ones 4). rewrite !testbit_ones.
  destruct (N.ltb_spec i 4), (N.ltb_spec i 8); try lia;
    rewrite ?andb_true_r, ?andb_false_r; reflexivity.
Qed.

(** The digits [2n - 1, ..., 0] are the hexadecimal rendering of the bytes
    [n - 1, ..., 0]. *)
Lemma hex_of_digest_bytes (result : N) (n : nat) :
  hex_of_bytes (map (digest_byte result) (countdown n))
  = string_of_list_ascii (map (digest_nibble result) (countdown (2 * n))).
Proof.
  unfold hex_of_bytes. f_equal. induction n as [|n IH]; [reflexivity|].
  replace (2 * S n)%nat with (S (S (2 * n))) by lia.
  rewrite !countdown_S. cbn [map flat_map app]. rewrite IH.
  unfold digest_byte, digest_nibble. rewrite byte_val_crc_u8_of, nibble_high, nibble_low.
  rewrite N.shiftr_shiftr.
  replace (8 * N.of_nat n + 4) with (4 * N.of_nat (S (2 * n))) by lia.
  replace (8 * N.of_nat n) with (4 * N.of_nat (2 * n)) by lia.
  reflexivity.
Qed.

Lemma digest_size_le (width : N) :
  width <= 64 -> (width + (CRC_U8_WIDTH - 1)) / CRC_U8_WIDTH <= CRC_MAX_SIZE.
Proof. change CRC_U8_WIDTH with 8. change CRC_MAX_SIZE with 8. cbn [N.sub]. lia. Qed.

Lemma hexdigest_size (width : N) :
  (width + (4 - 1)) / 4 + N.land ((width + (4 - 1)) / 4) 1
  = 2 * ((width + (CRC_U8_WIDTH - 1)) / CRC_U8_WIDTH).
Proof.
  change CRC_U8_WIDTH with 8. change (4 - 1) with 3. change (8 - 1) with 7.
  rewrite (N.land_ones ((width + 3) / 4) 1 : N.land _ 1 = _).
  change (2 ^ 1) with 2. lia.
Qed.

(** What [digest] returns. *)
Lemma digest_impl_bytes (o : crcu64object) :
  impl_width (impl o) <= 64 ->
  snd (_crc_crcu64_digest_impl o)
  = map (digest_byte (snd (crcu64_impl_digest (impl o))))
        (countdown (N.to_nat ((impl_width (impl o) + (CRC_U8_WIDTH - 1)) / CRC_U8_WIDTH))).
Proof.
  intros Hw. unfold _crc_crcu64_digest_impl.
  assert (Ew : impl_width (fst (crcu64_impl_digest (impl o))) = impl_width (impl o))
    by (unfold crcu64_impl_digest; now destruct (impl_dirty (impl o))).
  destruct (crcu64_impl_digest (impl o)) as [impl' result]. cbn [fst snd] in *.
  pose proof (digest_buffer result) as Hb.
  destruct (fold_left digest_store _ _) as [buffer r']. cbn [fst snd] in *.
  rewrite Hb, Ew. pose proof (digest_size_le _ Hw) as Hs.
  set (size := (impl_width (impl o) + (CRC_U8_WIDTH - 1)) / CRC_U8_WIDTH) in *.
  change CRC_MAX_SIZE with 8 in *.
  replace (N.to_nat (8 - size)) with (8 - N.to_nat size)%nat by lia.
  apply countdown_window. lia.
Qed.

(** What [hexdigest] returns. *)
Lemma hexdigest_impl_digits (o : crcu64object) :
  impl_width (impl o) <= 64 ->
  snd (_crc_crcu64_hexdigest_impl o)
  = string_of_list_ascii
      (map (digest_nibble (snd (crcu64_impl_digest (impl o))))
           (countdown (2 * N.to_nat ((impl_width (impl o) + (CRC_U8_WIDTH - 1))
                                     / CRC_U8_WIDTH)))).
Proof.
  intros Hw. unfold _crc_crcu64_hexdigest_impl.
  assert (Ew : impl_width (fst (crcu64_impl_digest (impl o))) = impl_width (impl o))
    by (unfold crcu64_impl_digest; now destruct (impl_dirty (impl o))).
  destruct (crcu64_impl_digest (impl o)) as [impl' result]. cbn [fst snd] in *.
  pose proof (hexdigest_buffer result) as Hb.
  destruct (fold_left hexdigest_store _ _) as [buffer r']. cbn [fst snd] in *.
  rewrite Hb, Ew, hexdigest_size. pose proof (digest_size_le _ Hw) as Hs.
  set (size := (impl_width (impl o) + (CRC_U8_WIDTH - 1)) / CRC_U8_WIDTH) in *.
  change CRC_MAX_SIZE with 8 in *. change CRC_MAX_NIBBLE with 16.
  replace (N.to_nat (16 - 2 * size)) with (16 - 2 * N.to_nat size)%nat by lia.
  replace (N.to_nat (2 * size)) with (2 * N.to_nat size)%nat by lia.
  f_equal. apply countdown_window. lia.
Qed.

(** * Every engine of the facade *)

Lemma kept_make (h : host) (config : crc_config) (ranged : bool) (impl : crcu64_impl) :
  config_valid config = true ->
  engine_ok h impl ->
  impl_width impl = cfg_width config ->
  impl_refin impl = cfg_refin config ->
  impl_refout impl = cfg_refout config ->
  impl_xorout impl = cfg_xorout config ->
  impl_poly impl = internal config (cfg_poly config) ->
  impl_init impl = internal config (cfg_init config) ->
  (ranged = true -> impl_dirty impl = false ->
   impl_result impl <= crc_u64_bitmask (cfg_width config)) ->
  kept h config ranged impl.
Proof. unfold kept. tauto. Qed.

Ltac kept_fields H :=
  destruct H as (Hv & He & Ew & Eri & Ero & Ex & Ep & Ei & Hr).

(** An implementation that differs in the register, the dirty flag and
    the cached digest only. *)
Lemma kept_change (h : host) (config : crc_config) (ranged : bool)
      (impl : crcu64_impl) (accum result : N) (dirty : bool) :
  kept h config ranged impl ->
  accum < 2 ^ 64 ->
  (ranged = true -> dirty = false -> result <= crc_u64_bitmask (cfg_width config)) ->
  kept h config ranged (set_result (set_dirty (set_accum impl accum) dirty) result).
Proof.
  intros H Ha Hres. kept_fields H.
  apply kept_make; try assumption.
  eapply engine_ok_transfer; [exact He|reflexivity..|exact Ha].
Qed.

Lemma kept_same (h : host) (config : crc_config) (ranged : bool) (impl : crcu64_impl) :
  kept h config ranged impl ->
  set_result (set_dirty (set_accum impl (impl_accum impl)) (impl_dirty impl))
             (impl_result impl) = impl.
Proof. now destruct impl. Qed.

Lemma kept_dirty (h : host) (config : crc_config) (ranged : bool)
      (impl : crcu64_impl) (accum : N) :
  kept h config ranged impl -> accum < 2 ^ 64 ->
  kept h config ranged (set_dirty (set_accum impl accum) true).
Proof.
  intros H Ha.
  replace (set_dirty (set_accum impl accum) true)
    with (set_result (set_dirty (set_accum impl accum) true) (impl_result impl))
    by now destruct impl.
  apply kept_change; trivial. discriminate.
Qed.

Lemma tracks_kept (h : host) (config : crc_config) (ranged : bool) (start : N)
      (s : list Byte.byte) (impl : crcu64_impl) :
  tracks h config start s impl -> kept h config ranged impl.
Proof.
  intros H. tracks_fields H. apply kept_make; try assumption.
  intros _ Hd'. rewrite (Hr Hd').
  pose proof (crc_reference_le _ s (with_init_valid config start Hv Hst)) as Hle.
  exact Hle.
Qed.

Lemma kept_update_bitwise (h : host) (config : crc_config) (ranged : bool)
      (impl : crcu64_impl) (data : list Byte.byte) :
  kept h config ranged impl ->
  kept h config ranged (crcu64_impl_update_bitwise impl data).
Proof.
  intros H. rewrite update_bitwise_fold. destruct data as [|b data]; [exact H|].
  cbn [advanced]. apply kept_dirty; [assumption|].
  destruct H as (_ & [[Ha Hp] _] & _). now apply fold_bitwise_lt.
Qed.

Lemma kept_update (h : host) (config : crc_config) (ranged : bool)
      (impl : crcu64_impl) (addr : N) (data : list Byte.byte) :
  kept h config ranged impl ->
  kept h config ranged (crcu64_impl_update h impl addr data).
Proof.
  intros H. rewrite update_bitwise_equiv by apply H. now apply kept_update_bitwise.
Qed.

Lemma kept_update_word (h : host) (config : crc_config) (ranged : bool)
      (impl : crcu64_impl) (word width : N) :
  kept h config ranged impl -> word < 2 ^ 64 ->
  kept h config ranged (crcu64_impl_update_word impl word width).
Proof.
  intros H Hword. unfold crcu64_impl_update_word.
  destruct (width =? 0); [exact H|].
  apply kept_dirty; [assumption|].
  destruct H as (_ & [[Ha Hp] _] & _).
  destruct (impl_refin impl).
  - apply rounds_lt; [intros x Hx; now apply round_reflected_lt|].
    now apply lxor_lt_pow2.
  - apply rounds_lt; [intros x Hx; now apply round_normal_lt|].
    apply lxor_lt_pow2; [assumption|apply u64_lt].
Qed.

Lemma kept_zero_bytes (h : host) (config : crc_config) (ranged : bool)
      (impl : crcu64_impl) (numbytes : N) :
  kept h config ranged impl ->
  kept h config ranged (crcu64_impl_zero_bytes h impl numbytes).
Proof.
  intros H. rewrite zero_bytes_bitwise by apply H. now apply kept_update_bitwise.
Qed.

Lemma kept_zero_bits (h : host) (config : crc_config) (ranged : bool)
      (impl : crcu64_impl) (numbits : N) :
  kept h config ranged impl ->
  kept h config ranged (crcu64_impl_zero_bits h impl numbits).
Proof.
  intros H. unfold crcu64_impl_zero_bits. cbv zeta.
  apply kept_update_word; [now apply kept_zero_bytes|reflexivity].
Qed.

Lemma kept_digest_le (h : host) (config : crc_config) (ranged : bool) (impl : crcu64_impl) :
  kept h config ranged impl -> impl_dirty impl = true ->
  snd (crcu64_impl_digest impl) <= crc_u64_bitmask (cfg_width config).
Proof.
  intros H Hd. kept_fields H.
  pose proof (config_valid_lt config Hv) as (Hw & _ & Hx).
  rewrite digest_dirty by assumption. apply le_bitmask; [assumption|].
  rewrite Ew, Ex. apply finalize_lt; trivial. apply He.
Qed.

Lemma kept_digest (h : host) (config : crc_config) (ranged : bool) (impl : crcu64_impl) :
  kept h config ranged impl ->
  kept h config ranged (fst (crcu64_impl_digest impl)).
Proof.
  intros H. destruct (impl_dirty impl) eqn:Ed.
  - pose proof (kept_digest_le _ _ _ _ H Ed) as Hle.
    unfold crcu64_impl_digest in *. rewrite Ed in *. cbn [fst snd] in *.
    cbn [set_dirty set_result impl_result] in Hle.
    kept_fields H. apply kept_make; try assumption. intros _ _. exact Hle.
  - unfold crcu64_impl_digest. rewrite Ed. exact H.
Qed.

Lemma kept_clear_init (h : host) (config : crc_config) (ranged : bool)
      (impl : crcu64_impl) (init : N) :
  kept h config ranged impl ->
  (ranged = true -> init <= crc_u64_bitmask (cfg_width config)) ->
  kept h config ranged (crcu64_impl_clear_init impl init).
Proof.
  intros H Hi. pose proof H as H'. kept_fields H'.
  pose proof (config_valid_lt config Hv) as (Hw & _).
  assert (Eint : crcu64_impl_internalize (set_result (set_dirty impl false) init) init
                 = internal config init).
  { unfold crcu64_impl_internalize, internal.
    cbn [set_result set_dirty impl_refin impl_width]. now rewrite Eri, Ew. }
  unfold crcu64_impl_clear_init. cbv zeta. rewrite Eint.
  replace (set_accum (set_result (set_dirty impl false) init) (internal config init))
    with (set_result (set_dirty (set_accum impl (internal config init)) false) init)
    by reflexivity.
  apply kept_change; trivial.
  - now apply internal_lt.
  - intros Hrg _. now apply Hi.
Qed.

Lemma kept_clear_default (h : host) (config : crc_config) (ranged : bool)
      (impl : crcu64_impl) :
  kept h config ranged impl ->
  kept h config ranged (crcu64_impl_clear_default impl).
Proof.
  intros H. pose proof H as H'. kept_fields H'.
  pose proof (config_valid_lt config Hv) as (Hw & Hi & _).
  unfold crcu64_impl_clear_default. cbv zeta.
  cbn [set_dirty set_accum impl_init]. rewrite Ei.
  rewrite (externalize_internal _ config) by (cbn; assumption).
  replace (set_result (set_accum (set_dirty impl false) (internal config (cfg_init config)))
                      (cfg_init config))
    with (set_result (set_dirty (set_accum impl (internal config (cfg_init config))) false)
                     (cfg_init config))
    by reflexivity.
  apply kept_change; trivial.
  - now apply internal_lt.
  - intros _ _. apply le_bitmask; assumption.
Qed.

(** Every engine keeps the invariant. *)
Lemma obtained_kept (h : host) (config : crc_config) (ranged : bool) (o : crcu64object) :
  obtained h config ranged o -> kept h config ranged (impl o).
Proof.
  induction 1 as [state state' method data o Hc Hnew
                 | o addr data _ IH
                 | o word width _ IH Hword
                 | o n _ IH
                 | o n _ IH
                 | o _ IH
                 | o _ IH
                 | o _ IH
                 | o crc1 crc2 len2 _ IH
                 | o _ IH
                 | o _ IH
                 | o init _ IH _ Hi].
  - eapply tracks_kept, tracks_new; eassumption.
  - now apply kept_update.
  - unfold _crc_crcu64_update_word_impl.
    destruct ((width <? 0)%Z || (Z.of_N CRC_MAX_WIDTH <? width)%Z); [exact IH|].
    cbn [fst impl set_impl]. apply kept_update_word; [assumption|].
    change CRC_U64_MAX with (2 ^ 64 - 1) in Hword. change (2 ^ 64) with 18446744073709551616 in *.
    lia.
  - now apply kept_zero_bytes.
  - now apply kept_zero_bits.
  - unfold _crc_crcu64_type_index.
    pose proof (kept_digest _ _ _ _ IH) as H.
    destruct (crcu64_impl_digest (impl o)). exact H.
  - unfold _crc_crcu64_digest_impl.
    pose proof (kept_digest _ _ _ _ IH) as H.
    destruct (crcu64_impl_digest (impl o)).
    destruct (fold_left digest_store _ _). exact H.
  - unfold _crc_crcu64_hexdigest_impl.
    pose proof (kept_digest _ _ _ _ IH) as H.
    destruct (crcu64_impl_digest (impl o)).
    destruct (fold_left hexdigest_store _ _). exact H.
  - unfold _crc_crcu64_combine_impl.
    repeat match goal with
           | |- context [if ?c then _ else _] => destruct c
           | |- context [let '(_, _) := ?x in _] => destruct x
           end; exact IH.
  - unfold _crc_crcu64_copy_impl. cbn [snd impl]. now rewrite copy_eq.
  - now apply kept_clear_default.
  - now apply kept_clear_init.
Qed.

(** The engines fed by whole bytes and cleared in range are among them. *)
Lemma bitmask_le_max (width : N) : crc_u64_bitmask width <= CRC_U64_MAX.
Proof.
  unfold crc_u64_bitmask. rewrite N.shiftr_div_pow2.
  change CRC_U64_MAX with 0xFFFFFFFFFFFFFFFF.
  apply N.Div0.div_le_upper_bound.
  assert (0 < 2 ^ (CRC_MAX_WIDTH - width)) by (apply N.neq_0_lt_0, N.pow_nonzero; discriminate).
  nia.
Qed.

Lemma run_obtained (h : host) (config : crc_config) (ranged : bool) (start : N)
      (s : list Byte.byte) (o : crcu64object) :
  run h config start s o -> obtained h config ranged o.
Proof.
  induction 1 as [state state' method data o Hc Hnew
                 | start s o addr data _ IH
                 | start s o bs _ IH Hl
                 | start s o n _ IH
                 | start s o n _ IH
                 | start s o _ IH
                 | start s o _ IH
                 | start s o _ IH
                 | start s o crc1 crc2 len2 _ IH
                 | start s o _ IH
                 | start s o _ IH
                 | start s o init _ IH Hi].
  - eapply obtained_new; eassumption.
  - now apply obtained_update.
  - apply obtained_update_word; [assumption|].
    unfold word_for.
    assert (Hb : forall l : list Byte.byte, (length l <= 8)%nat -> word_of_bytes_le l <= CRC_U64_MAX).
    { intros l Hl'. pose proof (word_of_bytes_le_lt l) as Hlt.
      assert (2 ^ (8 * N.of_nat (length l)) <= 2 ^ 64) by (apply N.pow_le_mono_r; lia).
      change CRC_U64_MAX with (2 ^ 64 - 1). change (2 ^ 64) with 18446744073709551616 in *.
      lia. }
    destruct (cfg_refin config); apply Hb; [assumption|now rewrite length_rev].
  - now apply obtained_zero_bytes.
  - now apply obtained_zero_bits.
  - now apply obtained_index.
  - now apply obtained_digest.
  - now apply obtained_hexdigest.
  - now apply obtained_combine.
  - now apply obtained_copy.
  - now apply obtained_clear.
  - apply obtained_clear_init; [assumption| |intros _; exact Hi].
    eapply N.le_trans; [exact Hi|]. apply bitmask_le_max.
Qed.

(** An engine that has consumed nothing is not dirty, and its cached digest
    is the value it was started from. *)
Lemma untouched_result (h : host) (config : crc_config) (start : N) (o : crcu64object) :
  untouched h config start o ->
  impl_dirty (impl o) = false /\ impl_result (impl o) = start.
Proof.
  induction 1 as [state state' method data o Hc Hnew Hnil
                 | ranged o Ho
                 | ranged o init Ho _
                 | start o addr _ IH
                 | start o word width _ IH Hw
                 | start o _ IH
                 | start o _ IH
                 | start o _ IH
                 | start o _ IH
                 | start o _ IH
                 | start o crc1 crc2 len2 _ IH
                 | start o _ IH].
  - pose proof (tracks_new h state state' config method data o Hc Hnew) as Ht.
    rewrite Hnil in Ht. tracks_fields Ht.
    destruct (impl_dirty (impl o)) eqn:Edirty; [now contradiction (Hd eq_refl)|].
    split; [reflexivity|]. rewrite (Hr eq_refl), crc_reference_nil. reflexivity.
  - apply obtained_kept in Ho. kept_fields Ho.
    pose proof (config_valid_lt config Hv) as (Hw & Hi & _).
    unfold _crc_crcu64_clear_impl, crcu64_impl_clear_default. cbv zeta.
    cbn [impl set_impl set_dirty set_accum set_result impl_dirty impl_result impl_init].
    split; [reflexivity|]. rewrite Ei.
    apply (externalize_internal _ config); cbn; assumption.
  - split; reflexivity.
  - unfold _crc_crcu64_update_impl, crcu64_impl_update. cbn [impl set_impl].
    destruct (impl_update (impl o)) as [[| |]|]; exact IH.
  - unfold _crc_crcu64_update_word_impl.
    destruct ((width <? 0)%Z || (Z.of_N CRC_MAX_WIDTH <? width)%Z) eqn:E; [exact IH|].
    apply orb_false_iff in E as [E1 E2]. apply Z.ltb_ge in E1, E2.
    assert (width = 0%Z) as -> by lia. exact IH.
  - exact IH.
  - exact IH.
  - unfold _crc_crcu64_type_index, crcu64_impl_digest.
    destruct IH as [Ed Er]. rewrite Ed. cbn [fst impl set_impl]. now rewrite Ed.
  - unfold _crc_crcu64_digest_impl, crcu64_impl_digest.
    destruct IH as [Ed Er]. rewrite Ed.
    destruct (fold_left digest_store _ _). cbn [fst impl set_impl]. now rewrite Ed.
  - unfold _crc_crcu64_hexdigest_impl, crcu64_impl_digest.
    destruct IH as [Ed Er]. rewrite Ed.
    destruct (fold_left hexdigest_store _ _). cbn [fst impl set_impl]. now rewrite Ed.
  - unfold _crc_crcu64_combine_impl.
    repeat match goal with
           | |- context [if ?c then _ else _] => destruct c
           | |- context [let '(_, _) := ?x in _] => destruct x
           end; exact IH.
  - unfold _crc_crcu64_copy_impl. cbn [snd impl]. now rewrite copy_eq.
Qed.

(** * Properties of every engine *)

Lemma sample_run :
  run sample_host crc_32_iso_hdlc (cfg_init crc_32_iso_hdlc) sample_bytes sample_engine.
Proof.
  unfold sample_engine, sample_bytes.
  change (list_byte_of_string "abc" ++ zeros 2 ++ list_byte_of_string "de")
    with (((data_bytes None ++ list_byte_of_string "abc") ++ zeros (N.to_nat 2))
            ++ list_byte_of_string "de").
  apply (run_update_word sample_host crc_32_iso_hdlc _ _ _ (list_byte_of_string "de"));
    [|cbn; lia].
  apply run_zero_bytes, run_index, run_update.
  apply (run_new sample_host crc_32_iso_hdlc crcmodule_exec
                 (fst (built sample_host crcmodule_exec crc_32_iso_hdlc None)) None None).
  - apply cache_ok_exec.
  - rewrite <- surjective_pairing. apply (built_returned _ _ _ _ 3); reflexivity.
Qed.

Lemma sample_cleared_run : run sample_host crc_32_iso_hdlc 5 [] sample_cleared.
Proof.
  apply (run_clear_init sample_host crc_32_iso_hdlc _ _ _ 5 sample_run). vm_compute.
  discriminate.
Qed.

(** X2. The digest of an engine is a function of its configuration, of the
    value it was last started from and of the bytes it has consumed since:
    it is the digest of a bitwise engine that is configured with that
    initial value and consumes these bytes in one update.  This holds for
    every engine a caller can obtain (any valid configuration, method, host
    endianness and state of the caches), however the bytes were fed
    ([update] in any chunks and at any address, [update_word] and
    [zero_bits] for whole bytes, [zero_bytes]), and whatever digests,
    copies and combines were taken in between. *)
Theorem digest_of_run (h : host) (config : crc_config) (start : N)
        (s : list Byte.byte) (o : crcu64object) :
  run h config start s o ->
  snd (_crc_crcu64_type_index o) = crc_reference (with_init config start) s.
Proof.
  intros H. rewrite index_digest.
  eapply tracks_digest_value, run_tracks, H.
Qed.

Lemma digest_of_run_witness :
  snd (_crc_crcu64_type_index sample_engine)
  = crc_reference (with_init crc_32_iso_hdlc (cfg_init crc_32_iso_hdlc)) sample_bytes.
Proof. exact (digest_of_run _ _ _ _ _ sample_run). Defined.

Lemma sample_obtained (ranged : bool) :
  obtained sample_host crc_32_iso_hdlc ranged sample_engine.
Proof. exact (run_obtained _ _ ranged _ _ _ sample_run). Qed.

Lemma sample_odd_obtained : obtained sample_host crc_32_iso_hdlc false sample_odd.
Proof.
  apply obtained_update_word; [|vm_compute; discriminate].
  apply obtained_clear_init; [apply sample_obtained|vm_compute|]; discriminate.
Qed.

Lemma sample_small_obtained : obtained sample_host crc_8_smbus false sample_small.
Proof.
  apply obtained_clear_init; [|vm_compute; discriminate|discriminate].
  apply (obtained_new sample_host crc_8_smbus false crcmodule_exec
           (fst (built sample_host crcmodule_exec crc_8_smbus None)) None None).
  - apply cache_ok_exec.
  - rewrite <- surjective_pairing. apply (built_returned _ _ _ _ 3); reflexivity.
Qed.

Lemma sample_wide_untouched :
  untouched sample_host crc_32_iso_hdlc 0x1FFFFFFFF sample_wide.
Proof.
  apply (untouched_clear_init _ _ false); [apply sample_obtained|vm_compute; discriminate].
Qed.

(** The digest of an engine whose [clear] values were in range. *)
Lemma digest_in_range_bound (h : host) (config : crc_config) (o : crcu64object) :
  obtained h config true o ->
  snd (_crc_crcu64_type_index o) <= crc_u64_bitmask (cfg_width config).
Proof.
  intros H. apply obtained_kept in H. rewrite index_digest.
  destruct (impl_dirty (impl o)) eqn:Ed.
  - now apply (kept_digest_le h config true).
  - rewrite digest_clean by assumption.
    destruct H as (_ & _ & _ & _ & _ & _ & _ & _ & Hr). now apply Hr.
Qed.

(** X3. An engine that has consumed nothing since it was constructed or
    cleared returns, as its digest, the value it was started from as it
    is: the initial value of the configuration after a construction
    without data and after [clear()], the argument after [clear(init)]
    (any [unsigned long long]) whether it fits the width or not.  Neither the output reflection nor
    [xorout] is applied to it, and no range is imposed on it. *)
Theorem untouched_digest (h : host) (config : crc_config) (start : N) (o : crcu64object) :
  untouched h config start o -> snd (_crc_crcu64_type_index o) = start.
Proof.
  intros H. apply untouched_result in H as [Hd Hr].
  rewrite index_digest. now rewrite digest_clean.
Qed.

Lemma untouched_digest_witness : snd (_crc_crcu64_type_index sample_wide) = 0x1FFFFFFFF.
Proof. exact (untouched_digest _ _ _ _ sample_wide_untouched). Defined.

(** X4. The attributes of an engine are the parameters it was constructed
    with, whatever it has been through: any sequence of the methods of the
    object with any arguments, words with bits above their width, bits off
    a byte boundary and values of [clear] out of range included. *)
Theorem attributes_kept (h : host) (config : crc_config) (ranged : bool)
        (o : crcu64object) :
  obtained h config ranged o ->
  _crc_crcu64_get_width o = cfg_width config
  /\ _crc_crcu64_get_poly o = cfg_poly config
  /\ _crc_crcu64_get_init o = cfg_init config
  /\ _crc_crcu64_get_refin o = cfg_refin config
  /\ _crc_crcu64_get_refout o = cfg_refout config
  /\ _crc_crcu64_get_xorout o = cfg_xorout config.
Proof.
  intros H. apply obtained_kept in H.
  destruct H as (Hv & He & Ew & Eri & Ero & Ex & Ep & Ei & _).
  pose proof (config_valid_lt config Hv) as (Hw & Hi & _).
  apply config_valid_bounds in Hv as (_ & Hp & _).
  unfold _crc_crcu64_get_width, _crc_crcu64_get_poly, _crc_crcu64_get_init,
    _crc_crcu64_get_refin, _crc_crcu64_get_refout, _crc_crcu64_get_xorout.
  rewrite Ep, Ei. repeat split; try assumption.
  - apply externalize_internal; try assumption. apply le_bitmask; [assumption|lia].
  - now apply externalize_internal.
Qed.

Lemma attributes_kept_witness :
  _crc_crcu64_get_width sample_odd = 32
  /\ _crc_crcu64_get_poly sample_odd = 0x04C11DB7
  /\ _crc_crcu64_get_init sample_odd = 0xFFFFFFFF
  /\ _crc_crcu64_get_refin sample_odd = true
  /\ _crc_crcu64_get_refout sample_odd = true
  /\ _crc_crcu64_get_xorout sample_odd = 0xFFFFFFFF.
Proof. exact (attributes_kept _ _ _ _ sample_odd_obtained). Defined.

(** X5. The digest of an engine is at most the bit mask of its width, for
    every engine that any sequence of the methods of the object leads to,
    with any arguments but the values given to [clear], which are at most
    the bit mask. *)
Theorem digest_in_range (h : host) (config : crc_config) (o : crcu64object) :
  obtained h config true o ->
  snd (_crc_crcu64_type_index o) <= crc_u64_bitmask (cfg_width config).
Proof. apply digest_in_range_bound. Qed.

Lemma digest_in_range_witness :
  snd (_crc_crcu64_type_index
         (fst (_crc_crcu64_update_word_impl sample_engine 0xFFFFFFFFFFFFFFFF 1)))
  <= crc_u64_bitmask (cfg_width crc_32_iso_hdlc).
Proof.
  apply (digest_in_range sample_host crc_32_iso_hdlc).
  apply obtained_update_word; [apply sample_obtained|vm_compute; discriminate].
Defined.

(** X6. [digest()] returns [ceil(width / 8)] bytes: the low bits of the
    digest value that these bytes hold, the most significant byte first.
    They are the whole digest value as long as the values given to [clear]
    were at most the bit mask of the width; a wider value is cut. *)
Theorem digest_bytes_value (h : host) (config : crc_config) (ranged : bool)
        (o : crcu64object) :
  obtained h config ranged o ->
  length (snd (_crc_crcu64_digest_impl o)) = N.to_nat ((cfg_width config + 7) / 8)
  /\ be_value (snd (_crc_crcu64_digest_impl o))
     = snd (_crc_crcu64_type_index o) mod 2 ^ (8 * ((cfg_width config + 7) / 8))
  /\ (ranged = true ->
      be_value (snd (_crc_crcu64_digest_impl o)) = snd (_crc_crcu64_type_index o)).
Proof.
  intros H. pose proof (obtained_kept _ _ _ _ H) as Hk.
  destruct Hk as (Hv & _ & Ew & _).
  pose proof (config_valid_lt config Hv) as (Hw & _).
  rewrite digest_impl_bytes by now rewrite Ew.
  rewrite Ew. change (CRC_U8_WIDTH - 1) with 7. change CRC_U8_WIDTH with 8.
  rewrite be_value_digest_bytes, N2Nat.id, <- index_digest.
  split; [now rewrite length_map, length_countdown|]. split; [reflexivity|].
  intros ->. apply N.mod_small.
  pose proof (digest_in_range_bound h config o H) as Hle.
  apply le_bitmask in Hle; [|assumption].
  eapply N.lt_le_trans; [exact Hle|]. apply N.pow_le_mono_r; lia.
Qed.

Lemma digest_bytes_value_witness :
  length (snd (_crc_crcu64_digest_impl sample_small))
  = N.to_nat ((cfg_width crc_8_smbus + 7) / 8)
  /\ be_value (snd (_crc_crcu64_digest_impl sample_small))
     = snd (_crc_crcu64_type_index sample_small) mod 2 ^ (8 * ((cfg_width crc_8_smbus + 7) / 8))
  /\ (false = true ->
      be_value (snd (_crc_crcu64_digest_impl sample_small))
      = snd (_crc_crcu64_type_index sample_small)).
Proof. exact (digest_bytes_value _ _ _ _ sample_small_obtained). Defined.

(** X7. [hexdigest()] is the lowercase hexadecimal rendering of the bytes
    of [digest()], two digits for each byte, for every engine that any
    sequence of the methods of the object leads to. *)
Theorem hexdigest_of_digest (h : host) (config : crc_config) (ranged : bool)
        (o : crcu64object) :
  obtained h config ranged o ->
  snd (_crc_crcu64_hexdigest_impl o) = hex_of_bytes (snd (_crc_crcu64_digest_impl o)).
Proof.
  intros H. pose proof (obtained_kept _ _ _ _ H) as Hk.
  destruct Hk as (Hv & _ & Ew & _).
  pose proof (config_valid_lt config Hv) as (Hw & _).
  rewrite digest_impl_bytes, hexdigest_impl_digits by now rewrite Ew.
  symmetry. apply hex_of_digest_bytes.
Qed.

Lemma hexdigest_of_digest_witness :
  snd (_crc_crcu64_hexdigest_impl sample_small)
  = hex_of_bytes (snd (_crc_crcu64_digest_impl sample_small)).
Proof. exact (hexdigest_of_digest _ _ _ _ sample_small_obtained). Defined.

(** X8. [combine] depends on the configuration of the engine it is called
    on and on nothing else: two engines of one configuration return the
    same result (a value or an error) for the same arguments, whatever
    their methods and their hosts and whatever they have been through (any
    sequence of the methods of the object with any arguments). *)
Theorem combine_ignores_state (h h' : host) (config : crc_config) (ranged ranged' : bool)
        (o o' : crcu64object) (crc1 crc2 len2 : N) :
  obtained h config ranged o -> obtained h' config ranged' o' ->
  snd (_crc_crcu64_combine_impl h o crc1 crc2 len2)
  = snd (_crc_crcu64_combine_impl h' o' crc1 crc2 len2).
Proof.
  intros H H'. apply obtained_kept in H, H'.
  destruct H as (Hv & He & Ew & Eri & Ero & Ex & Ep & Ei & _).
  destruct H' as (_ & He' & Ew' & Eri' & Ero' & Ex' & Ep' & Ei' & _).
  pose proof (config_valid_lt config Hv) as (Hw & _).
  unfold _crc_crcu64_combine_impl. rewrite !copy_eq, Ew, Ew'.
  destruct (crc_u64_bitmask (cfg_width config) <? crc1); [reflexivity|].
  destruct (crc_u64_bitmask (cfg_width config) <? crc2); [reflexivity|].
  assert (Hc : snd (crcu64_combine h (impl o) crc1 crc2 len2)
               = snd (crcu64_combine h' (impl o') crc1 crc2 len2)).
  { destruct (N.eq_dec len2 0) as [->|Hn].
    - unfold crcu64_combine. reflexivity.
    - rewrite !combine_value; trivial.
      + now rewrite Ew, Ew', Eri, Eri', Ero, Ero', Ex, Ex', Ep, Ep', Ei, Ei'.
      + now rewrite Ew'.
      + rewrite Ei'. now apply internal_lt.
      + now rewrite Ew.
      + rewrite Ei. now apply internal_lt. }
  destruct (crcu64_combine h (impl o) crc1 crc2 len2),
    (crcu64_combine h' (impl o') crc1 crc2 len2).
  cbn [snd] in *. now rewrite Hc.
Qed.

Lemma combine_ignores_state_witness :
  snd (_crc_crcu64_combine_impl sample_host sample_engine 1 2 3)
  = snd (_crc_crcu64_combine_impl sample_host sample_odd 1 2 3).
Proof.
  exact (combine_ignores_state _ _ _ _ _ _ _ 1 2 3 (sample_obtained true) sample_odd_obtained).
Defined.

(** X19. The attribute [digest_size] is the constant 8, not the length of
    [digest()]: for every engine that any sequence of the methods of the
    object leads to, the bytes that [digest()] returns are never more than
    [digest_size], and they are as many only for a width above 56. *)
Theorem digest_size_attribute (h : host) (config : crc_config) (ranged : bool)
        (o : crcu64object) :
  obtained h config ranged o ->
  (length (snd (_crc_crcu64_digest_impl o)) <= N.to_nat (_crc_crcu64_get_digest_size o))%nat
  /\ (length (snd (_crc_crcu64_digest_impl o)) = N.to_nat (_crc_crcu64_get_digest_size o)
      <-> 56 < cfg_width config).
Proof.
  intros H. pose proof (obtained_kept _ _ _ _ H) as Hk.
  destruct Hk as (Hv & _ & Ew & _).
  pose proof (config_valid_lt config Hv) as (Hw & _).
  rewrite digest_impl_bytes by now rewrite Ew.
  rewrite length_map, length_countdown, Ew.
  unfold _crc_crcu64_get_digest_size.
  change (CRC_U8_WIDTH - 1) with 7. change CRC_U8_WIDTH with 8. change CRC_MAX_SIZE with 8.
  split; [lia|]. split; intros; lia.
Qed.

Lemma digest_size_attribute_witness :
  (length (snd (_crc_crcu64_digest_impl sample_odd))
   <= N.to_nat (_crc_crcu64_get_digest_size sample_odd))%nat
  /\ (length (snd (_crc_crcu64_digest_impl sample_odd))
      = N.to_nat (_crc_crcu64_get_digest_size sample_odd)
      <-> 56 < cfg_width crc_32_iso_hdlc).
Proof. exact (digest_size_attribute _ _ _ _ sample_odd_obtained). Defined.

(** * The lookup of a template name *)

(** ** The order of C strings *)

Lemma strlen_body (mem : list N) : strlen mem = N.of_nat (length (c_body mem)).
Proof.
  induction mem as [|b mem IH]; [reflexivity|].
  cbn [strlen c_body]. destruct (b =? 0); [reflexivity|].
  cbn [length]. rewrite IH. lia.
Qed.

Lemma memcmp_lex (m1 m2 : list N) :
  In 0 m1 -> In 0 m2 ->
  memcmp m1 m2 (S (Nat.min (length (c_body m1)) (length (c_body m2))))
  = lex (c_body m1) (c_body m2).
Proof.
  revert m2. induction m1 as [|x m1 IH]; intros m2 H1 H2; [destruct H1|].
  destruct m2 as [|y m2]; [destruct H2|].
  cbn [c_body]. destruct (N.eqb_spec x 0) as [->|Hx], (N.eqb_spec y 0) as [->|Hy].
  - reflexivity.
  - cbn [length Nat.min memcmp hd lex].
    destruct (N.compare_spec 0 y); try lia; reflexivity.
  - cbn [length Nat.min memcmp hd lex].
    destruct (N.compare_spec x 0); try lia; reflexivity.
  - cbn [length Nat.min]. cbn [memcmp hd tl lex].
    destruct (x ?= y); try reflexivity.
    apply IH.
    + destruct H1 as [H1|H1]; [congruence|assumption].
    + destruct H2 as [H2|H2]; [congruence|assumption].
Qed.

Lemma c_string_zero (s : string) : In 0 (c_string s).
Proof. unfold c_string. apply in_or_app. right. now left. Qed.

(** The comparison of [crc_find_id] is the order of the names. *)
Lemma find_id_compare (name item : string) :
  memcmp (c_string name) (c_string item)
         (N.to_nat ((if strlen (c_string name) <? strlen (c_string item)
                     then strlen (c_string name) else strlen (c_string item)) + 1))
  = name_compare name item.
Proof.
  unfold name_compare. rewrite <- memcmp_lex by apply c_string_zero.
  f_equal. rewrite !strlen_body.
  destruct (N.ltb_spec (N.of_nat (length (c_body (c_string name))))
                       (N.of_nat (length (c_body (c_string item))))); lia.
Qed.

Lemma lex_eq (a b : list N) : lex a b = Eq -> a = b.
Proof.
  revert b. induction a as [|x a IH]; intros [|y b]; cbn [lex]; try discriminate;
    [reflexivity|].
  destruct (N.compare_spec x y) as [Exy|Exy|Exy]; try discriminate.
  intros H. subst. f_equal. now apply IH.
Qed.

Lemma lex_refl (a : list N) : lex a a = Eq.
Proof. induction a as [|x a IH]; [reflexivity|]. cbn [lex]. now rewrite N.compare_refl. Qed.

Lemma lex_antisym (a b : list N) : lex b a = CompOpp (lex a b).
Proof.
  revert b. induction a as [|x a IH]; intros [|y b]; cbn [lex]; try reflexivity.
  rewrite (N.compare_antisym x y). destruct (x ?= y); cbn [CompOpp]; auto.
Qed.

Lemma lex_trans (a b c : list N) : lex a b = Lt -> lex b c = Lt -> lex a c = Lt.
Proof.
  revert b c. induction a as [|x a IH]; intros [|y b] [|z c]; cbn [lex];
    try discriminate; try reflexivity.
  destruct (N.compare_spec x y), (N.compare_spec y z); try discriminate; subst.
  - rewrite N.compare_refl. apply IH.
  - intros _ _. now rewrite (proj2 (N.compare_lt_iff _ _)).
  - intros _ _. now rewrite (proj2 (N.compare_lt_iff _ _)).
  - intros _ _. rewrite (proj2 (N.compare_lt_iff x z)); [reflexivity|lia].
Qed.

Lemma lex_gt_lt (a b : list N) : lex a b = Gt <-> lex b a = Lt.
Proof. rewrite (lex_antisym a b). destruct (lex a b); cbn; split; congruence. Qed.

(** ** The table *)

Lemma name_ids_split :
  crc_name_ids
  = map (fun e : string * crc_id => (Some (fst e), snd e)) (named crc_name_ids)
    ++ [(None, crc_id_count)].
Proof. vm_compute. reflexivity. Qed.

Lemma named_length : length (named crc_name_ids) = 186%nat.
Proof. vm_compute. reflexivity. Qed.

Lemma name_ids_length : length crc_name_ids = 187%nat.
Proof. vm_compute. reflexivity. Qed.

Lemma named_ascending : ascending (map fst (named crc_name_ids)) = true.
Proof. vm_compute. reflexivity. Qed.

Lemma named_first : nth_error (named crc_name_ids) 0 = Some ("arc"%string, crc_id_16_arc).
Proof. vm_compute. reflexivity. Qed.

Lemma named_last : exists id, nth_error (named crc_name_ids) 185 = Some ("zmodem"%string, id).
Proof. eexists. vm_compute. reflexivity. Qed.

Lemma name_ids_get (i : nat) (e : string * crc_id) :
  nth_error (named crc_name_ids) i = Some e ->
  array_get crc_name_ids (N.of_nat i) = Some (Some (fst e), snd e).
Proof.
  intros H. unfold array_get. rewrite name_ids_length.
  assert (Hi : (i < 186)%nat).
  { rewrite <- named_length. apply nth_error_Some. congruence. }
  destruct (N.ltb_spec (N.of_nat i) (N.of_nat 187)); [|lia].
  rewrite Nat2N.id, name_ids_split, nth_error_app1 by (rewrite length_map, named_length; lia).
  rewrite nth_error_map, H. reflexivity.
Qed.

Lemma name_ids_sentinel : array_get crc_name_ids 186 = Some (None, crc_id_count).
Proof. vm_compute. reflexivity. Qed.

Lemma ascending_lt (names : list string) (i j : nat) (a b : string) :
  ascending names = true -> (i < j)%nat ->
  nth_error names i = Some a -> nth_error names j = Some b ->
  name_compare a b = Lt.
Proof.
  revert i j a. induction names as [|x names IH]; intros i j a Hs Hij Ha Hb.
  - destruct i; discriminate.
  - destruct names as [|y names]; [destruct j as [|[|j]]; try lia; discriminate|].
    cbn [ascending] in Hs. destruct (name_compare x y) eqn:Exy; try discriminate.
    destruct j as [|j]; [lia|]. cbn [nth_error] in Hb.
    destruct i as [|i].
    + cbn [nth_error] in Ha. inversion Ha; subst x.
      destruct j as [|j].
      * cbn [nth_error] in Hb. inversion Hb; subst y. exact Exy.
      * unfold name_compare in *. eapply lex_trans; [exact Exy|].
        apply (IH 0%nat (S j) y); [assumption|lia|reflexivity|assumption].
    + cbn [nth_error] in Ha. apply (IH i j a); [assumption|lia|assumption|assumption].
Qed.

(** The names of the catalogue are in strictly ascending order. *)
Lemma named_sorted (i j : nat) (a b : string * crc_id) :
  (i < j)%nat ->
  nth_error (named crc_name_ids) i = Some a -> nth_error (named crc_name_ids) j = Some b ->
  name_compare (fst a) (fst b) = Lt.
Proof.
  intros Hij Ha Hb.
  apply (ascending_lt (map fst (named crc_name_ids)) i j); [apply named_ascending|assumption| |];
    rewrite nth_error_map; [now rewrite Ha|now rewrite Hb].
Qed.

Lemma named_get (i : nat) :
  (i < 186)%nat -> exists e, nth_error (named crc_name_ids) i = Some e.
Proof.
  intros H. destruct (nth_error (named crc_name_ids) i) eqn:E; [eauto|].
  apply nth_error_None in E. rewrite named_length in E. lia.
Qed.

(** ** The search *)

Lemma compare_below (name : string) (m i : nat) :
  (m < 186)%nat -> entry_compare name m = Gt -> (i <= m)%nat -> entry_compare name i = Gt.
Proof.
  intros Hm H Hi. destruct (Nat.eq_dec i m) as [->|Hne]; [assumption|].
  unfold entry_compare in *.
  destruct (named_get m Hm) as [e Em], (named_get i) as [d Ed]; [lia|].
  rewrite Em in H. rewrite Ed.
  pose proof (named_sorted i m d e ltac:(lia) Ed Em) as Hs.
  unfold name_compare in *. apply lex_gt_lt. apply lex_gt_lt in H.
  eapply lex_trans; eassumption.
Qed.

Lemma compare_above (name : string) (m i : nat) :
  (i < 186)%nat -> entry_compare name m = Lt -> (m <= i)%nat -> entry_compare name i = Lt.
Proof.
  intros Hi H Hm. destruct (Nat.eq_dec i m) as [->|Hne]; [assumption|].
  unfold entry_compare in *.
  destruct (named_get i Hi) as [d Ed], (named_get m) as [e Em]; [lia|].
  rewrite Em in H. rewrite Ed.
  pose proof (named_sorted m i e d ltac:(lia) Em Ed) as Hs.
  unfold name_compare in *. eapply lex_trans; eassumption.
Qed.

Lemma compare_equal (name : string) (m i : nat) :
  (m < 186)%nat -> (i < 186)%nat -> entry_compare name m = Eq ->
  entry_compare name i = if (i <? m)%nat then Gt else if (m <? i)%nat then Lt else Eq.
Proof.
  intros Hm Hi H. unfold entry_compare in *.
  destruct (named_get m Hm) as [e Em], (named_get i Hi) as [d Ed].
  rewrite Em in H. rewrite Ed. unfold name_compare in *. apply lex_eq in H.
  rewrite H.
  destruct (Nat.ltb_spec i m); [|destruct (Nat.ltb_spec m i)].
  - apply lex_gt_lt. exact (named_sorted i m d e ltac:(lia) Ed Em).
  - exact (named_sorted m i e d ltac:(lia) Em Ed).
  - assert (i = m) by lia. subst i. rewrite Ed in Em. inversion Em. apply lex_refl.
Qed.

Lemma find_first {A : Type} (f : A -> bool) (l : list A) (m : nat) (x : A) :
  nth_error l m = Some x -> f x = true ->
  (forall i y, (i < m)%nat -> nth_error l i = Some y -> f y = false) ->
  find f l = Some x.
Proof.
  revert m. induction l as [|a l IH]; intros m Hm Hx Hlow; [destruct m; discriminate|].
  destruct m as [|m].
  - cbn in Hm. inversion Hm; subst a. cbn [find]. now rewrite Hx.
  - cbn [find]. rewrite (Hlow 0%nat a) by (try lia; reflexivity).
    apply (IH m); [assumption|assumption|].
    intros i y Hi Hy. apply (Hlow (S i) y); [lia|assumption].
Qed.

Lemma find_none {A : Type} (f : A -> bool) (l : list A) :
  (forall i y, nth_error l i = Some y -> f y = false) -> find f l = None.
Proof.
  induction l as [|a l IH]; intros H; [reflexivity|].
  cbn [find]. rewrite (H 0%nat a eq_refl). apply IH.
  intros i y Hy. now apply (H (S i) y).
Qed.

(** The answer when the entry [m] has the name. *)
Lemma outcome_found (name : string) (m : nat) (e : string * crc_id) :
  nth_error (named crc_name_ids) m = Some e -> name_compare name (fst e) = Eq ->
  crc_find_id_outcome name = Returned (snd e).
Proof.
  intros Em H. unfold crc_find_id_outcome, lookup_name.
  assert (Hm : (m < 186)%nat).
  { rewrite <- named_length. apply nth_error_Some. congruence. }
  rewrite (find_first _ _ m e Em).
  - now destruct e.
  - now rewrite H.
  - intros i y Hi Ey.
    assert (Hc : entry_compare name i = Gt).
    { rewrite (compare_equal name m i Hm ltac:(lia)).
      - destruct (Nat.ltb_spec i m); [reflexivity|lia].
      - unfold entry_compare. now rewrite Em. }
    unfold entry_compare in Hc. rewrite Ey in Hc. now rewrite Hc.
Qed.

(** The answer when no entry has the name. *)
Lemma outcome_missing (name : string) :
  (forall i, (i < 186)%nat -> entry_compare name i <> Eq) ->
  crc_find_id_outcome name =
  match entry_compare name 0, entry_compare name 185 with
  | Lt, _ => Undefined
  | _, Gt => Undefined
  | _, _ => Returned crc_id_count
  end.
Proof.
  intros H. unfold crc_find_id_outcome, lookup_name.
  rewrite find_none.
  - unfold entry_compare. rewrite named_first.
    destruct named_last as [id ->]. reflexivity.
  - intros i y Ey.
    assert (Hi : (i < 186)%nat).
    { rewrite <- named_length. apply nth_error_Some. congruence. }
    specialize (H i Hi). unfold entry_compare in H. rewrite Ey in H.
    now destruct (name_compare name (fst y)).
Qed.

(** One turn of the loop that reads the entry [m]. *)
Lemma loop_step (name : string) (fuel : nat) (left right : N) (m : nat) (e : string * crc_id) :
  left <= right -> right <= 186 ->
  m = N.to_nat (left + (right - left) / 2) ->
  nth_error (named crc_name_ids) m = Some e ->
  crc_find_id_loop (S fuel) (c_string name) (strlen (c_string name)) left right =
  match name_compare name (fst e) with
  | Lt => crc_find_id_loop fuel (c_string name) (strlen (c_string name))
                           left (size_sub (N.of_nat m) 1)
  | Gt => crc_find_id_loop fuel (c_string name) (strlen (c_string name))
                           (N.of_nat m + 1) right
  | Eq => Returned (snd e)
  end.
Proof.
  intros Hlr Hr Hm Em. cbn [crc_find_id_loop].
  rewrite (proj2 (N.leb_le _ _) Hlr).
  assert (Es : size_sub right left = right - left).
  { unfold size_sub. change (SIZE_MAX + 1) with (2 ^ 64).
    replace (right + 2 ^ 64 - left) with ((right - left) + 1 * 2 ^ 64) by lia.
    rewrite N.Div0.mod_add. apply N.mod_small.
    apply N.le_lt_trans with 186; [lia|reflexivity]. }
  rewrite Es, N.shiftr_div_pow2. change (2 ^ 1) with 2.
  replace (left + (right - left) / 2) with (N.of_nat m) by lia.
  rewrite (name_ids_get m e Em). cbv zeta. rewrite find_id_compare.
  reflexivity.
Qed.

Lemma loop_outcome (name : string) (fuel : nat) (left right : N) :
  search_inv name left right ->
  (N.to_nat (right + 1 - left) + 2 <= fuel)%nat
  \/ (left = 0 /\ right = 186 /\ fuel = 188%nat) ->
  crc_find_id_loop fuel (c_string name) (strlen (c_string name)) left right
  = crc_find_id_outcome name.
Proof.
  revert left right. induction fuel as [|fuel IH]; intros left right Hinv Hfuel; [lia|].
  destruct Hinv as (Hlr & Hl & Hr & HL & HR).
  destruct (N.leb_spec left right) as [Hle|Hgt].
  - (* a turn *)
    set (m := N.to_nat (left + (right - left) / 2)).
    destruct (Nat.eq_dec m 186%nat) as [Hm|Hm].
    + (* the sentinel *)
      assert (left = 186 /\ right = 186) as [-> ->] by lia.
      cbn [crc_find_id_loop]. change (186 <=? 186) with true. cbv iota.
      change (186 + N.shiftr (size_sub 186 186) 1) with 186.
      rewrite name_ids_sentinel.
      rewrite (outcome_missing name).
      * rewrite (HL 185%nat) by lia.
        destruct (entry_compare name 0); reflexivity.
      * intros i Hi. rewrite (HL i) by lia. discriminate.
    + assert (Hm' : (m < 186)%nat) by lia.
      destruct (named_get m Hm') as [e Em].
      rewrite (loop_step name fuel left right m e) by (trivial; lia).
      assert (Ec : entry_compare name m = name_compare name (fst e))
        by (unfold entry_compare; now rewrite Em).
      destruct (name_compare name (fst e)) eqn:Ecmp.
      * symmetry. now apply (outcome_found name m e).
      * (* the name is below the entry *)
        destruct (Nat.eq_dec m 0%nat) as [Hm0|Hm0].
        -- (* the bound wraps around *)
           rewrite Hm0. change (size_sub (N.of_nat 0) 1) with SIZE_MAX.
           assert (left = 0) as -> by lia.
           destruct fuel as [|fuel]; [lia|].
           cbn [crc_find_id_loop]. change (0 <=? SIZE_MAX) with true. cbv iota.
           change (array_get crc_name_ids (0 + N.shiftr (size_sub SIZE_MAX 0) 1))
             with (@None crc_name_id).
           rewrite (outcome_missing name).
           ++ rewrite <- Hm0, Ec. reflexivity.
           ++ intros i Hi. rewrite (compare_above name m i) by (trivial; lia). discriminate.
        -- replace (size_sub (N.of_nat m) 1) with (N.of_nat m - 1).
           2:{ unfold size_sub. change (SIZE_MAX + 1) with (2 ^ 64).
               replace (N.of_nat m + 2 ^ 64 - 1) with ((N.of_nat m - 1) + 1 * 2 ^ 64) by lia.
               rewrite N.Div0.mod_add. symmetry. apply N.mod_small.
               apply N.le_lt_trans with 186; [lia|reflexivity]. }
           apply IH.
           ++ repeat split; try lia.
              ** exact HL.
              ** intros i Hi Hi'. apply (compare_above name m i); trivial; lia.
           ++ left. lia.
      * (* the name is above the entry *)
        apply IH.
        -- repeat split; try lia.
           ++ intros i Hi. apply (compare_below name m i); trivial; lia.
           ++ exact HR.
        -- left. lia.
  - (* the loop ends *)
    cbn [crc_find_id_loop]. rewrite (proj2 (N.leb_gt _ _) Hgt).
    assert (Hright : right <= 184) by lia.
    rewrite (outcome_missing name).
    + rewrite (HL 0%nat) by lia. rewrite (HR 185%nat) by lia. reflexivity.
    + intros i Hi. destruct (N.lt_ge_cases (N.of_nat i) left) as [Hil|Hil].
      * rewrite (HL i) by assumption. discriminate.
      * rewrite (HR i) by (trivial; lia). discriminate.
Qed.

(** X9. [crc_find_id] returns the id of the entry that has the name; for a
    name that no entry has it returns the invalid id when the name sorts
    between the first entry (["arc"]) and the last one (["zmodem"]), and
    leaves the array (undefined behaviour) when the name sorts before the
    first entry or after the last one.  It always ends within its 188
    turns. *)
Theorem crc_find_id_characterised (name : string) :
  crc_find_id name = crc_find_id_outcome name.
Proof.
  unfold crc_find_id. rewrite name_ids_length.
  change (N.of_nat 187 - 1) with 186. change (187 + 1)%nat with 188%nat.
  apply loop_outcome.
  - repeat split; try lia.
  - right. repeat split.
Qed.

(** * The catalogue of the templates *)

(** Every id of the name table is the index of a template. *)
Lemma named_ids :
  forallb (fun e : string * crc_id => snd e <? crc_id_count) (named crc_name_ids) = true.
Proof. vm_compute. reflexivity. Qed.

Lemma templates_length : length crc_templates = 112%nat.
Proof. vm_compute. reflexivity. Qed.

Lemma named_template (name : string) (id : crc_id) :
  In (name, id) (named crc_name_ids) ->
  id < crc_id_count /\ exists config, array_get crc_templates id = Some config.
Proof.
  intros H. pose proof named_ids as Hall. rewrite forallb_forall in Hall.
  specialize (Hall _ H). cbn [snd] in Hall. apply N.ltb_lt in Hall. split; [assumption|].
  unfold array_get. rewrite templates_length.
  change crc_id_count with 112 in Hall.
  destruct (N.ltb_spec id (N.of_nat 112)); [|lia].
  destruct (nth_error crc_templates (N.to_nat id)) eqn:E; [eauto|].
  apply nth_error_None in E. rewrite templates_length in E. lia.
Qed.

(** A name of the catalogue is found, with its id. *)
Lemma find_named (name : string) (id : crc_id) :
  In (name, id) (named crc_name_ids) -> crc_find_id name = Returned id.
Proof.
  intros H. apply In_nth_error in H as [m Hm].
  unfold crc_find_id. rewrite name_ids_length.
  change (N.of_nat 187 - 1) with 186. change (187 + 1)%nat with 188%nat.
  rewrite loop_outcome.
  - apply (outcome_found name m (name, id) Hm). apply lex_refl.
  - repeat split; try lia.
  - right. repeat split.
Qed.

Lemma templates_dict_loop_named (entries : list (string * crc_id))
      (dict : gmap string template_tuple) :
  (forall name id, In (name, id) entries ->
                   exists config, array_get crc_templates id = Some config) ->
  crc_templates_dict_loop
    (map (fun e : string * crc_id => (Some (fst e), snd e)) entries ++ [(None, crc_id_count)])
    dict
  = Returned (dict_of entries dict).
Proof.
  revert dict. induction entries as [|[name id] entries IH]; intros dict H; [reflexivity|].
  cbn [map app crc_templates_dict_loop fst snd dict_of fold_left].
  destruct (H name id) as [config Ec]; [now left|]. rewrite Ec.
  apply IH. intros n i Hi. apply (H n i). now right.
Qed.

Lemma dict_of_lookup (entries : list (string * crc_id)) (dict : gmap string template_tuple)
      (name : string) (tuple : template_tuple) :
  dict_of entries dict !! name = Some tuple ->
  dict !! name = Some tuple
  \/ exists id config, In (name, id) entries /\ array_get crc_templates id = Some config
                       /\ tuple = tuple_of config.
Proof.
  revert dict. induction entries as [|[n id] entries IH]; intros dict H; [now left|].
  cbn [dict_of fold_left fst snd] in H. apply IH in H as [H|(i & c & Hin & Hc & Ht)].
  - destruct (array_get crc_templates id) as [config|] eqn:Ec; [|now left].
    destruct (decide (n = name)) as [->|Hne].
    + rewrite lookup_insert_eq in H. inversion H. right. exists id, config.
      split; [now left|]. now split.
    + rewrite lookup_insert_ne in H by assumption. now left.
  - right. exists i, c. split; [now right|]. now split.
Qed.

Lemma in_name_dec (entries : list (string * crc_id)) (name : string) :
  (exists j, In (name, j) entries) \/ (forall j, ~ In (name, j) entries).
Proof.
  induction entries as [|[n i] entries [[j Hj]|IH]].
  - right. intros j [].
  - left. exists j. now right.
  - destruct (string_dec n name) as [->|Hne].
    + left. exists i. now left.
    + right. intros j [E|Hj]; [inversion E; contradiction|exact (IH j Hj)].
Qed.

Lemma dict_of_named (entries : list (string * crc_id)) (dict : gmap string template_tuple)
      (name : string) (id : crc_id) :
  In (name, id) entries ->
  (forall n i, In (n, i) entries -> exists config, array_get crc_templates i = Some config) ->
  exists tuple, dict_of entries dict !! name = Some tuple.
Proof.
  revert id dict. induction entries as [|[n i] entries IH]; intros id dict Hin Hall;
    [destruct Hin|].
  cbn [dict_of fold_left fst snd].
  destruct (in_name_dec entries name) as [[j Hj]|Hnot].
  - apply (IH j _ Hj). intros n' i' H'. apply (Hall n' i'). now right.
  - destruct Hin as [E|Hin]; [|exfalso; exact (Hnot id Hin)].
    inversion E; subst n i.
    destruct (Hall name id) as [config Ec]; [now left|]. rewrite Ec.
    exists (tuple_of config).
    assert (Hkeep : forall es d, (forall j, ~ In (name, j) es) ->
                                 dict_of es d !! name = d !! name).
    { induction es as [|[n' i'] es IHes]; intros d Hn; [reflexivity|].
      cbn [dict_of fold_left fst snd]. fold (dict_of es).
      rewrite IHes by (intros j Hj; apply (Hn j); now right).
      destruct (array_get crc_templates i'); [|reflexivity].
      apply lookup_insert_ne. intros ->. apply (Hn i'). now left. }
    fold (dict_of entries). rewrite Hkeep.
    + apply lookup_insert_eq.
    + exact Hnot.
Qed.

(** X10. [crc_templates_dict] returns a dictionary (it never reads outside
    of the template array); every name of the name table is a key of it,
    and every key is a name that the lookup of the constructor accepts,
    mapped to the six parameters of the template that the lookup finds. *)
Theorem templates_dict_lookup :
  exists dict,
    crc_templates_dict = Returned dict
    /\ (forall name id, In (Some name, id) crc_name_ids -> is_Some (dict !! name))
    /\ (forall name tuple,
           dict !! name = Some tuple ->
           exists config, crc_find_config name = Returned (Some config)
                          /\ tuple = tuple_of config).
Proof.
  exists (dict_of (named crc_name_ids) ∅).
  assert (Hall : forall n i, In (n, i) (named crc_name_ids) ->
                             exists config, array_get crc_templates i = Some config).
  { intros n i H. now apply (named_template n i). }
  split; [|split].
  - unfold crc_templates_dict. rewrite name_ids_split at 1.
    now apply templates_dict_loop_named.
  - intros name id H.
    assert (Hin : In (name, id) (named crc_name_ids)).
    { rewrite name_ids_split in H. apply in_app_or in H as [H|[H|[]]]; [|discriminate].
      apply in_map_iff in H as ([n i] & E & Hin). cbn in E. now inversion E; subst. }
    destruct (dict_of_named _ ∅ name id Hin Hall) as [t Ht]. now exists t.
  - intros name tuple H.
    apply dict_of_lookup in H as [H|(id & config & Hin & Hc & Ht)].
    + rewrite lookup_empty in H. discriminate.
    + exists config. split; [|assumption].
      unfold crc_find_config. rewrite (find_named name id Hin).
      destruct (named_template name id Hin) as [Hid _].
      rewrite (proj2 (N.ltb_lt _ _) Hid). now rewrite Hc.
Qed.

(** * The reflected register and the normal register *)

Lemma rev64_spec (x i : N) :
  N.testbit (rev64 x) i = if i <? 64 then N.testbit x (63 - i) else false.
Proof. unfold rev64. rewrite bitswap_spec by lia. reflexivity. Qed.

Lemma rev64_lxor (x y : N) : rev64 (N.lxor x y) = N.lxor (rev64 x) (rev64 y).
Proof.
  apply N.bits_inj. intro i. rewrite N.lxor_spec, !rev64_spec, N.lxor_spec.
  now destruct (i <? 64).
Qed.

Lemma rev64_shl64 (a : N) : rev64 (shl64 a 1) = N.shiftr (rev64 a) 1.
Proof.
  apply N.bits_inj. intro i. rewrite rev64_spec, N.shiftr_spec', rev64_spec.
  unfold shl64. bits.
  destruct (N.ltb_spec i 64), (N.ltb_spec (i + 1) 64), (N.ltb_spec (63 - i) 1),
    (N.ltb_spec (63 - i) 64); try lia; rewrite ?andb_true_r, ?andb_false_r; try reflexivity.
  f_equal. lia.
Qed.

Lemma rev64_top (a : N) :
  (N.land (rev64 a) 1 =? 0) = (N.land a CRC_U64_TOP =? 0).
Proof.
  assert (H1 : (N.land (rev64 a) 1 =? 0) = negb (N.testbit a 63)).
  { change 1 with (N.ones 1). rewrite N.land_ones. change (2 ^ 1) with 2.
    rewrite <- N.bit0_mod, rev64_spec. cbn [N.ltb N.compare]. change (63 - 0) with 63.
    destruct (N.testbit a 63); reflexivity. }
  assert (H2 : (N.land a CRC_U64_TOP =? 0) = negb (N.testbit a 63)).
  { destruct (N.testbit a 63) eqn:E.
    - apply N.eqb_neq. intros H.
      assert (Hb : N.testbit (N.land a CRC_U64_TOP) 63 = false) by (rewrite H; apply N.bits_0).
      rewrite N.land_spec, E in Hb. discriminate.
    - apply N.eqb_eq. apply N.bits_inj. intro i. rewrite N.land_spec, N.bits_0.
      change CRC_U64_TOP with (2 ^ 63). rewrite N.pow2_bits_eqb.
      destruct (N.eqb_spec 63 i); subst; rewrite ?E, ?andb_false_r; reflexivity. }
  now rewrite H1, H2.
Qed.

(** One round of the normal register is one round of the reflected
    register on the reversed words. *)
Lemma rev64_round (poly a : N) :
  rev64 (round_normal poly a) = round_reflected (rev64 poly) (rev64 a).
Proof.
  unfold round_normal, round_reflected. rewrite rev64_top.
  destruct (N.land a CRC_U64_TOP =? 0); cbn [negb].
  - apply rev64_shl64.
  - now rewrite rev64_lxor, rev64_shl64.
Qed.

Lemma rev64_rounds (poly : N) (n : nat) (a : N) :
  rev64 (rounds (round_normal poly) n a)
  = rounds (round_reflected (rev64 poly)) n (rev64 a).
Proof.
  revert a. induction n as [|n IH]; intros a; [reflexivity|].
  cbn [rounds]. now rewrite IH, rev64_round.
Qed.

Lemma byte_val_reflect8 (b : Byte.byte) :
  byte_val (reflect8 b) = crc_u64_bitswap (byte_val b) 8.
Proof.
  unfold reflect8. rewrite byte_val_crc_u8_of. change 255 with (N.ones 8).
  rewrite N.land_ones. apply N.mod_small. apply bitswap_lt. lia.
Qed.

Lemma rev64_byte (b : Byte.byte) :
  rev64 (shl64 (byte_val (reflect8 b)) 56) = byte_val b.
Proof.
  rewrite byte_val_reflect8. apply N.bits_inj. intro i.
  rewrite rev64_spec. unfold shl64. bits. rewrite bitswap_spec by lia.
  pose proof (byte_val_lt b) as Hb.
  destruct (N.ltb_spec i 64).
  - destruct (N.ltb_spec (63 - i) 56), (N.ltb_spec (63 - i) 64); try lia.
    + symmetry. apply (proj1 (lt_pow2_bits _ _) Hb). lia.
    + destruct (N.ltb_spec (63 - i - 56) 8); [|lia].
      rewrite andb_true_r. f_equal. lia.
  - symmetry. apply (proj1 (lt_pow2_bits _ _) Hb). lia.
Qed.

Lemma rev64_bitwise_byte (poly a : N) (b : Byte.byte) :
  rev64 (bitwise_byte false poly a (reflect8 b))
  = bitwise_byte true (rev64 poly) (rev64 a) b.
Proof.
  rewrite (bitwise_byte_rounds false), (bitwise_byte_rounds true).
  unfold byte_rounds. rewrite rev64_rounds, rev64_lxor, rev64_byte. reflexivity.
Qed.

(** The normal register that consumes the reflected bytes is the reverse
    of the reflected register that consumes the bytes. *)
Lemma rev64_fold (poly : N) (s : list Byte.byte) (a : N) :
  rev64 (fold_left (bitwise_byte false poly) (map reflect8 s) a)
  = fold_left (bitwise_byte true (rev64 poly)) s (rev64 a).
Proof.
  revert a. induction s as [|b s IH]; intros a; [reflexivity|].
  rewrite map_cons, !fold_left_cons, IH, rev64_bitwise_byte. reflexivity.
Qed.

Lemma rev64_internal (config : crc_config) (v : N) :
  cfg_width config <= 64 ->
  rev64 (internal (with_refin config false) v) = internal (with_refin config true) v.
Proof.
  intros Hw. unfold internal. cbn [with_refin cfg_refin cfg_width].
  change CRC_U64_LEAST with 64.
  apply N.bits_inj. intro i. rewrite rev64_spec, bitswap_spec by assumption.
  unfold shl64. bits.
  destruct (N.ltb_spec i 64), (N.ltb_spec i (cfg_width config)); try lia;
    try destruct (N.ltb_spec (63 - i) (64 - cfg_width config));
    try destruct (N.ltb_spec (63 - i) 64); try lia;
    rewrite ?andb_true_r, ?andb_false_r; try reflexivity.
  f_equal. lia.
Qed.

(** The two registers give the same digest. *)
Lemma rev64_finalize (w : N) (refout : bool) (xorout a : N) :
  w <= 64 ->
  finalize w true refout xorout (rev64 a) = finalize w false refout xorout a.
Proof.
  intros Hw. unfold finalize. cbn [negb]. change CRC_U64_LEAST with 64. f_equal.
  rewrite bitmask_ones by assumption.
  destruct refout; cbn [Bool.eqb]; apply N.bits_inj; intro i;
    rewrite ?bitswap_spec by assumption; bits; rewrite ?rev64_spec, ?N.shiftr_spec'.
  - destruct (N.ltb_spec i w), (N.ltb_spec i 64); try lia;
      rewrite ?andb_true_r, ?andb_false_r; try reflexivity.
    f_equal. lia.
  - destruct (N.ltb_spec i w); rewrite ?andb_true_r, ?andb_false_r; try reflexivity.
    destruct (N.ltb_spec (w - 1 - i) 64); [|lia]. f_equal. lia.
Qed.

(** X11. The input reflection only reverses the bits of each input byte:
    the engine with [refin] set gives, for the bytes [s], the digest that
    the engine of the same configuration without [refin] gives for the
    bytes of [s] with their bits reversed.  The reflected register of the
    code (which shifts to the right from the low [width] bits) and its
    normal register (which shifts to the left at the top of 64 bits) are
    one computation. *)
Theorem refin_reflects_input (config : crc_config) (s : list Byte.byte) :
  config_valid config = true ->
  crc_reference (with_refin config true) s
  = crc_reference (with_refin config false) (map reflect8 s).
Proof.
  intros Hv. pose proof (config_valid_lt config Hv) as (Hw & _).
  destruct s as [|b s]; [now rewrite !crc_reference_nil|].
  rewrite crc_reference_fold by discriminate.
  rewrite (crc_reference_fold _ (map reflect8 (b :: s))) by discriminate.
  cbn [with_refin cfg_width cfg_refin cfg_refout cfg_xorout cfg_poly cfg_init].
  rewrite <- !(rev64_internal config) by assumption.
  rewrite <- rev64_fold.
  cbn [with_refin cfg_width cfg_refin cfg_refout cfg_xorout cfg_poly cfg_init].
  now apply rev64_finalize.
Qed.

Lemma refin_reflects_input_witness :
  crc_reference (with_refin crc_32_iso_hdlc true) check_string
  = crc_reference (with_refin crc_32_iso_hdlc false) (map reflect8 check_string).
Proof. apply (refin_reflects_input crc_32_iso_hdlc check_string). reflexivity. Defined.

(** * The arguments of the constructor *)

Lemma named_ascii :
  forallb (fun e : string * crc_id => is_ascii_string (fst e)) (named crc_name_ids) = true.
Proof. vm_compute. reflexivity. Qed.

Lemma named_in (name : string) (id : crc_id) :
  In (Some name, id) crc_name_ids -> In (name, id) (named crc_name_ids).
Proof.
  intros H. rewrite name_ids_split in H. apply in_app_or in H as [H|[H|[]]]; [|discriminate].
  apply in_map_iff in H as ([n i] & E & Hin). cbn in E. now inversion E; subst.
Qed.

Lemma config_eta (c : crc_config) :
  mk_config (cfg_poly c) (cfg_init c) (cfg_xorout c) (cfg_width c) (cfg_refin c) (cfg_refout c)
  = c.
Proof. now destruct c. Qed.

Lemma apply_name_found (config : crc_config) (name : string) (id : crc_id)
      (template : crc_config) :
  In (Some name, id) crc_name_ids -> array_get crc_templates id = Some template ->
  crc_apply_config_name config (Given name) = Returned (Return template).
Proof.
  intros Hin Ht. apply named_in in Hin. unfold crc_apply_config_name.
  pose proof named_ascii as Ha. rewrite forallb_forall in Ha.
  pose proof (Ha _ Hin) as Hascii. cbn [fst] in Hascii.
  rewrite Hascii. unfold crc_find_config. rewrite (find_named name id Hin).
  destruct (named_template name id Hin) as [Hid _].
  rewrite (proj2 (N.ltb_lt _ _) Hid), Ht. now rewrite config_eta.
Qed.

Lemma template_in (id : crc_id) (template : crc_config) :
  array_get crc_templates id = Some template -> In template crc_templates.
Proof.
  unfold array_get. destruct (id <? N.of_nat (length crc_templates)); [|discriminate].
  apply nth_error_In.
Qed.

(** The constructor called with a name of the catalogue, and no other
    value for the configuration, is the construction from the template of
    this name. *)
Lemma construct_named (h : host) (state : crcmodule_state)
      (data : option (N * list Byte.byte)) (name : string) (id : crc_id)
      (template : crc_config) (method : option string)
      (width poly init xorout : py_arg N) (refin refout : py_arg bool) :
  In (Some name, id) crc_name_ids ->
  array_get crc_templates id = Some template ->
  no_value width && no_value poly && no_value init
    && no_value refin && no_value refout && no_value xorout = true ->
  _crc_crc_impl h state data (Given name) width poly init refin refout xorout method
  = Returned (crc_new h state template method data).
Proof.
  intros Hin Ht Hno.
  pose proof (template_valid template (template_in id template Ht)) as Hv.
  apply config_valid_bounds in Hv as (Hw & Hp & _).
  unfold _crc_crc_impl. cbv zeta.
  rewrite (apply_name_found _ name id template Hin Ht).
  assert (Ew : (cfg_width template =? 0) = false) by (apply N.eqb_neq; lia).
  assert (Ep : (cfg_poly template =? 0) = false) by (apply N.eqb_neq; lia).
  destruct width, poly, init, refin, refout, xorout; try discriminate Hno;
    unfold crc_apply_config_width, crc_apply_config_poly; cbv zeta; rewrite Ew, Ep;
    reflexivity.
Qed.

(** X12. Every entry of the name table constructs an engine.  Whatever the
    name of the table and the known method, the constructor called with
    this name, and no other value for the configuration, finds the name,
    raises nothing and reads nothing outside of the arrays: it returns what
    the construction from the template of the name returns, an engine of
    this template that has consumed the initial data. *)
Theorem catalogue_constructs (h : host) (state : crcmodule_state)
        (data : option (N * list Byte.byte)) (name : string) (id : crc_id)
        (method : option string) (m : N)
        (width poly init xorout : py_arg N) (refin refout : py_arg bool) :
  cache_ok h state ->
  In (Some name, id) crc_name_ids ->
  crc_parse_method method = Return m ->
  no_value width && no_value poly && no_value init
    && no_value refin && no_value refout && no_value xorout = true ->
  exists template state' o,
    array_get crc_templates id = Some template
    /\ _crc_crc_impl h state data (Given name) width poly init refin refout xorout method
       = Returned (Return (state', o))
    /\ crc_new h state template method data = Return (state', o)
    /\ run h template (cfg_init template) (data_bytes data) o.
Proof.
  intros Hc Hin Hm Hno.
  destruct (named_template name id (named_in name id Hin)) as [_ [template Ht]].
  pose proof (template_valid template (template_in id template Ht)) as Hv.
  destruct (crc_new_returns h state template method m data Hv Hm) as (state' & o & Hnew).
  exists template, state', o. split; [assumption|]. split; [|split].
  - rewrite (construct_named h state data name id template method) by trivial.
    now rewrite Hnew.
  - assumption.
  - now apply (run_new h template state state' method data o).
Qed.

Lemma catalogue_constructs_witness :
  exists template state' o,
    array_get crc_templates crc_id_16_modbus = Some template
    /\ _crc_crc_impl sample_host crcmodule_exec None (Given "crc-16-modbus"%string)
                     Absent PyNone Absent Absent PyNone Absent (Some "bytewise"%string)
       = Returned (Return (state', o))
    /\ crc_new sample_host crcmodule_exec template (Some "bytewise"%string) None
       = Return (state', o)
    /\ run sample_host template (cfg_init template) (data_bytes None) o.
Proof.
  apply (catalogue_constructs sample_host crcmodule_exec None "crc-16-modbus"
                              crc_id_16_modbus (Some "bytewise"%string) 1).
  - apply cache_ok_exec.
  - vm_compute. tauto.
  - reflexivity.
  - reflexivity.
Defined.

(** X13. Without a name and without a width the constructor builds the
    crc-32 (iso-hdlc) engine when all the seven arguments of the
    configuration are absent, and raises [OverflowError("width required")]
    otherwise, also when one of them is passed as [None]. *)
Theorem construct_without_name (h : host) (state : crcmodule_state)
        (data : option (N * list Byte.byte)) (name : py_arg string)
        (width poly init xorout : py_arg N) (refin refout : py_arg bool)
        (method : option string) :
  no_value name && no_value width = true ->
  _crc_crc_impl h state data name width poly init refin refout xorout method
  = if is_absent name && is_absent width && is_absent poly && is_absent init
       && is_absent refin && is_absent refout && is_absent xorout
    then Returned (crc_new h state crc_32_iso_hdlc method data)
    else Returned (Raise "OverflowError" "width required").
Proof.
  intros Hno.
  assert (Hd : crc_apply_config_name (mk_config 0 0 0 0 false false) (Given CRC_NAME_DEFAULT)
               = Returned (Return crc_32_iso_hdlc)).
  { apply (apply_name_found _ "crc-32" crc_id_32_iso_hdlc).
    - vm_compute. tauto.
    - reflexivity. }
  unfold _crc_crc_impl. cbv zeta.
  destruct name as [| |name], width as [| |width]; try discriminate Hno;
    destruct poly, init, refin, refout, xorout;
    cbn [is_absent andb]; rewrite ?Hd; reflexivity.
Qed.

Lemma construct_without_name_witness :
  _crc_crc_impl sample_host crcmodule_exec None PyNone Absent Absent Absent Absent Absent
                Absent None
  = Returned (Raise "OverflowError" "width required").
Proof.
  apply (construct_without_name sample_host crcmodule_exec None PyNone Absent Absent
                                Absent Absent Absent Absent None).
  reflexivity.
Defined.

(** * The lookup tables and the bit utilities *)

Lemma fold_bitwise_zeros (refin : bool) (poly : N) (k : nat) (a : N) :
  fold_left (bitwise_byte refin poly) (zeros k) a = rounds (byte_rounds refin poly) k a.
Proof.
  revert a. induction k as [|k IH]; intros a; [reflexivity|].
  unfold zeros. cbn [repeat]. fold (zeros k).
  rewrite fold_left_cons, IH, bitwise_byte_zero. reflexivity.
Qed.

Lemma bytewise_entry_byte (refin : bool) (poly : N) (b : Byte.byte) :
  bytewise_entry refin poly (byte_val b) = bitwise_byte refin poly 0 b.
Proof.
  rewrite bitwise_byte_rounds, N.lxor_0_l. unfold bytewise_entry, byte_rounds.
  now destruct refin.
Qed.

Lemma register_after_fold (impl : crcu64_impl) (b : Byte.byte) (k : nat) :
  register_after impl (b :: zeros k)
  = rounds (byte_rounds (impl_refin impl) (impl_poly impl)) k
           (bytewise_entry (impl_refin impl) (impl_poly impl) (byte_val b)).
Proof.
  unfold register_after. rewrite update_bitwise_fold.
  cbn [advanced set_accum set_dirty impl_accum impl_refin impl_poly].
  now rewrite fold_left_cons, fold_bitwise_zeros, bytewise_entry_byte.
Qed.

Lemma update_keeps_kernel (h : host) (impl : crcu64_impl) (addr : N) (data : list Byte.byte) :
  engine_ok h impl ->
  impl_update (crcu64_impl_update h impl addr data) = impl_update impl.
Proof. intros He. now rewrite update_bitwise_equiv, update_bitwise_update. Qed.

Lemma apply_method_kernel (h : host) (self : crcu64object) (method : N)
      (config : crc_config) (state : crcmodule_state) :
  impl_update (impl (fst (crcu64_apply_method h self method config state)))
  = Some (if method =? CRC_METHOD_WORDWISE then update_wordwise else update_bytewise).
Proof.
  unfold crcu64_apply_method. cbv zeta.
  destruct (method =? CRC_METHOD_WORDWISE); cbv iota beta;
    match goal with
    | |- context [match ?c !! ?k with _ => _ end] => destruct (c !! k)
    end; reflexivity.
Qed.

Lemma crc_new_kernel_none (h : host) (state state' : crcmodule_state) (config : crc_config)
      (method : option string) (o : crcu64object) :
  crc_new h state config method None = Return (state', o) ->
  impl_update (impl o) = Some (kernel_of method).
Proof.
  unfold crc_new.
  destruct (crcu64_impl_configure (impl _crc_crcu64_type_new) config) as [e|impl'] eqn:Ec;
    [discriminate|].
  apply configure_inr in Ec as [Hv ->].
  unfold crc_parse_method, kernel_of.
  destruct method as [m|].
  - destruct (String.eqb m "bitwise").
    + cbn [N.land negb N.eqb CRC_METHOD_BITWISE CRC_METHOD_BYTEWISE CRC_METHOD_WORDWISE].
      change (N.land CRC_METHOD_BITWISE CRC_METHOD_BYTEWISE =? 0) with true.
      change (N.land CRC_METHOD_BITWISE CRC_METHOD_WORDWISE =? 0) with true.
      cbv iota beta. cbn [negb]. cbv iota. intros H. inversion H. reflexivity.
    + destruct (String.eqb m "bytewise").
      * change (N.land CRC_METHOD_BYTEWISE CRC_METHOD_BYTEWISE =? 0) with false.
        change (N.land CRC_METHOD_BYTEWISE CRC_METHOD_WORDWISE =? 0) with true.
        cbn [negb]. cbv iota.
        pose proof (apply_method_kernel h
                      (set_impl _crc_crcu64_type_new
                                (configured (impl _crc_crcu64_type_new) config))
                      CRC_METHOD_BYTEWISE config state) as Hk.
        destruct (crcu64_apply_method h _ CRC_METHOD_BYTEWISE config state) as [o1 st1].
        intros H. inversion H; subst. exact Hk.
      * destruct (String.eqb m "wordwise"); [|discriminate].
        change (N.land (N.lor CRC_METHOD_BYTEWISE CRC_METHOD_WORDWISE) CRC_METHOD_BYTEWISE =? 0)
          with false.
        change (N.land (N.lor CRC_METHOD_BYTEWISE CRC_METHOD_WORDWISE) CRC_METHOD_WORDWISE =? 0)
          with false.
        cbn [negb]. cbv iota.
        destruct (crcu64_apply_method h _ CRC_METHOD_BYTEWISE config state) as [o1 st1].
        pose proof (apply_method_kernel h o1 CRC_METHOD_WORDWISE config st1) as Hk.
        destruct (crcu64_apply_method h o1 CRC_METHOD_WORDWISE config st1) as [o2 st2].
        intros H. inversion H; subst. exact Hk.
  - change (N.land (N.lor CRC_METHOD_BYTEWISE CRC_METHOD_WORDWISE) CRC_METHOD_BYTEWISE =? 0)
      with false.
    change (N.land (N.lor CRC_METHOD_BYTEWISE CRC_METHOD_WORDWISE) CRC_METHOD_WORDWISE =? 0)
      with false.
    cbn [negb]. cbv iota.
    destruct (crcu64_apply_method h _ CRC_METHOD_BYTEWISE config state) as [o1 st1].
    pose proof (apply_method_kernel h o1 CRC_METHOD_WORDWISE config st1) as Hk.
    destruct (crcu64_apply_method h o1 CRC_METHOD_WORDWISE config st1) as [o2 st2].
    intros H. inversion H; subst. exact Hk.
Qed.

(** The method of the constructor selects the kernel of the engine. *)
Lemma crc_new_kernel (h : host) (state state' : crcmodule_state) (config : crc_config)
      (method : option string) (data : option (N * list Byte.byte)) (o : crcu64object) :
  cache_ok h state ->
  crc_new h state config method data = Return (state', o) ->
  impl_update (impl o) = Some (kernel_of method).
Proof.
  intros Hc H. destruct data as [[addr bytes]|]; [|now apply (crc_new_kernel_none h state state' config)].
  rewrite crc_new_data in H.
  destruct (crc_new h state config method None) as [[st1 o1]|] eqn:E; [|discriminate].
  inversion H; subst. cbn [impl set_impl].
  rewrite update_keeps_kernel.
  - now apply (crc_new_kernel_none h state state' config).
  - now destruct (crc_new_ok h state state' config method None o1 Hc E) as (_ & _ & He & _).
Qed.

(** X14. The tables of a constructed engine hold what the bitwise kernel
    computes.  With the method "bytewise" or "wordwise" (the default) the
    entry [b] of the byte table is the accumulator after the single byte
    [b] from a zero accumulator; with the method "wordwise" the entry [b]
    of the slice [k] of the word table is the accumulator after the byte
    [b] and [k] zero bytes, with its bytes swapped when the endianness of
    the host differs from the reflection of the input. *)
Theorem tables_of_engine (h : host) (state state' : crcmodule_state)
        (config : crc_config) (method : option string)
        (data : option (N * list Byte.byte)) (o : crcu64object) :
  cache_ok h state ->
  crc_new h state config method data = Return (state', o) ->
  (method <> Some "bitwise"%string ->
   forall b, table_get (impl_bytewise (impl o)) (byte_val b) = register_after (impl o) [b])
  /\ (method <> Some "bitwise"%string -> method <> Some "bytewise"%string ->
      forall (k : nat) b,
        (k < 8)%nat ->
        table_get (impl_wordwise (impl o)) (N.of_nat k * CRC_U8_COUNT + byte_val b)
        = if xorb (little_endian h) (cfg_refin config)
          then crc_u64_byteswap (register_after (impl o) (b :: zeros k))
          else register_after (impl o) (b :: zeros k)).
Proof.
  intros Hc Hnew.
  pose proof (crc_new_kernel h state state' config method data o Hc Hnew) as Hkern.
  pose proof (tracks_new h state state' config method data o Hc Hnew) as Ht.
  destruct Ht as (_ & _ & He & _ & Eri & _).
  destruct He as [_ Hk]. rewrite Hkern in Hk.
  assert (Hb : bytewise_ok (impl o) ->
               forall b, table_get (impl_bytewise (impl o)) (byte_val b)
                         = register_after (impl o) [b]).
  { intros Hok b. change [b] with (b :: zeros 0).
    rewrite (register_after_fold (impl o) b 0). cbn [rounds].
    apply Hok. pose proof (byte_val_lt b). change (2 ^ 8) with 256 in *. lia. }
  unfold kernel_of in Hk. split.
  - intros Hm. apply Hb. destruct method as [m|]; [|apply Hk].
    destruct (String.eqb_spec m "bitwise"); [congruence|].
    destruct (String.eqb m "bytewise"); [exact Hk|apply Hk].
  - intros Hm1 Hm2 k b Hlt.
    assert (Hw : wordwise_ok h (impl o)).
    { destruct method as [m|]; [|apply Hk].
      destruct (String.eqb_spec m "bitwise"); [congruence|].
      destruct (String.eqb_spec m "bytewise"); [congruence|apply Hk]. }
    rewrite register_after_fold, <- Eri.
    unfold wordwise_ok in Hw. rewrite (Hw k (byte_val b) Hlt).
    + reflexivity.
    + pose proof (byte_val_lt b). change (2 ^ 8) with 256 in *. lia.
Qed.

Lemma tables_of_engine_witness :
  (@None string <> Some "bitwise"%string ->
   forall b, table_get (impl_bytewise
                          (impl (snd (built sample_host crcmodule_exec crc_32_iso_hdlc None))))
                       (byte_val b)
             = register_after
                 (impl (snd (built sample_host crcmodule_exec crc_32_iso_hdlc None))) [b])
  /\ (@None string <> Some "bitwise"%string -> @None string <> Some "bytewise"%string ->
      forall (k : nat) b,
        (k < 8)%nat ->
        table_get (impl_wordwise
                     (impl (snd (built sample_host crcmodule_exec crc_32_iso_hdlc None))))
                  (N.of_nat k * CRC_U8_COUNT + byte_val b)
        = if xorb (little_endian sample_host) (cfg_refin crc_32_iso_hdlc)
          then crc_u64_byteswap
                 (register_after
                    (impl (snd (built sample_host crcmodule_exec crc_32_iso_hdlc None)))
                    (b :: zeros k))
          else register_after
                 (impl (snd (built sample_host crcmodule_exec crc_32_iso_hdlc None)))
                 (b :: zeros k)).
Proof.
  apply (tables_of_engine sample_host crcmodule_exec
           (fst (built sample_host crcmodule_exec crc_32_iso_hdlc None))
           crc_32_iso_hdlc None None).
  - apply cache_ok_exec.
  - rewrite <- surjective_pairing. apply (built_returned _ _ _ _ 3); reflexivity.
Defined.

(** ** The bit utilities *)

(** X15. [crc_u64_bitswap] reverses the order of the low [width] bits of a
    word and clears the bits above them, for every width from 1 to 64; on
    a value of [width] bits it is its own inverse. *)
Theorem bitswap_reverses (x width : N) :
  1 <= width <= CRC_MAX_WIDTH ->
  (forall i, N.testbit (crc_u64_bitswap x width) i
             = if i <? width then N.testbit x (width - 1 - i) else false)
  /\ (x < 2 ^ width -> crc_u64_bitswap (crc_u64_bitswap x width) width = x).
Proof.
  intros [_ Hw]. change CRC_MAX_WIDTH with 64 in Hw. split.
  - intros i. now apply bitswap_spec.
  - intros Hx. now apply bitswap_involutive.
Qed.

Lemma bitswap_reverses_witness :
  (forall i, N.testbit (crc_u64_bitswap 0x1D 5) i
             = if i <? 5 then N.testbit 0x1D (5 - 1 - i) else false)
  /\ (0x1D < 2 ^ 5 -> crc_u64_bitswap (crc_u64_bitswap 0x1D 5) 5 = 0x1D).
Proof. apply (bitswap_reverses 0x1D 5). split; vm_compute; discriminate. Defined.

(** X16. [crc_u64_byteswap] reverses the order of the eight bytes of a
    word: the byte [k] of the result is the byte [7 - k] of the word, and
    nothing is left above the 64 bits. *)
Theorem byteswap_reverses (x k : N) :
  k < CRC_MAX_SIZE ->
  byte_of (crc_u64_byteswap x) k = byte_of x (CRC_MAX_SIZE - 1 - k)
  /\ crc_u64_byteswap x < 2 ^ 64.
Proof.
  intros Hk. change CRC_MAX_SIZE with 8 in *. split.
  - change (8 - 1) with 7. now apply byte_of_byteswap.
  - apply byteswap_lt.
Qed.

Lemma byteswap_reverses_witness :
  byte_of (crc_u64_byteswap 0x0102030405060708) 2
  = byte_of 0x0102030405060708 (CRC_MAX_SIZE - 1 - 2)
  /\ crc_u64_byteswap 0x0102030405060708 < 2 ^ 64.
Proof. apply (byteswap_reverses 0x0102030405060708 2). reflexivity. Defined.

(** X17. [crc_u64_bitmask] of a width from 1 to 64 is the word with
    exactly the low [width] bits set. *)
Theorem bitmask_value (width : N) :
  1 <= width <= CRC_MAX_WIDTH -> crc_u64_bitmask width = 2 ^ width - 1.
Proof.
  intros [_ Hw]. change CRC_MAX_WIDTH with 64 in Hw.
  rewrite bitmask_ones by assumption. rewrite N.ones_equiv. lia.
Qed.

Lemma bitmask_value_witness : crc_u64_bitmask 12 = 2 ^ 12 - 1.
Proof. apply (bitmask_value 12). split; vm_compute; discriminate. Defined.

(** ** The bits of a word above its width *)

(** X18. What [update_word] does with the bits of [word] above [width]
    (for a width from 1 to 64).  An engine without input reflection ignores
    them: the shift to the top of the register drops them.  An engine with
    input reflection does not: they stay in the accumulator, where they are
    found, moved down by [width] places, on top of what the low [width]
    bits of the word give. *)
Theorem update_word_high_bits (impl : crcu64_impl) (word width : N) :
  1 <= width <= CRC_MAX_WIDTH ->
  crcu64_impl_update_word impl word width
  = if impl_refin impl
    then set_accum (crcu64_impl_update_word impl (N.land word (N.ones width)) width)
                   (N.lxor (impl_accum (crcu64_impl_update_word
                                          impl (N.land word (N.ones width)) width))
                           (N.shiftr word width))
    else crcu64_impl_update_word impl (N.land word (N.ones width)) width.
Proof.
  intros Hw. change CRC_MAX_WIDTH with 64 in Hw. unfold crcu64_impl_update_word.
  assert (E : (width =? 0) = false) by (apply N.eqb_neq; lia). rewrite E.
  destruct (impl_refin impl).
  - assert (Hr : rounds (round_reflected (impl_poly impl)) (N.to_nat width)
                        (N.lxor (impl_accum impl) word)
                 = N.lxor (rounds (round_reflected (impl_poly impl)) (N.to_nat width)
                                  (N.lxor (impl_accum impl) (N.land word (N.ones width))))
                          (N.shiftr word width)).
    { replace (N.lxor (impl_accum impl) word)
        with (N.lxor (N.lxor (impl_accum impl) (N.land word (N.ones width)))
                     (N.shiftl (N.shiftr word width) width))
        by (rewrite N.lxor_assoc, (N.lxor_comm (N.land word (N.ones width))),
            <- split_low_high; reflexivity).
      rewrite (rounds_linear _ (N.to_nat width) (round_reflected_linear (impl_poly impl))).
      f_equal.
      replace (N.shiftl (N.shiftr word width) width)
        with (N.shiftl (N.shiftr word width) (N.of_nat (N.to_nat width)))
        by now rewrite N2Nat.id.
      apply rounds_reflected_shiftl. }
    rewrite Hr. reflexivity.
  - f_equal. f_equal. f_equal. f_equal.
    change CRC_U64_LEAST with 64. unfold shl64. apply N.bits_inj. intro i. bits.
    destruct (N.ltb_spec i (64 - width)); [reflexivity|].
    destruct (N.ltb_spec (i - (64 - width)) width); [|destruct (N.ltb_spec i 64); [lia|]].
    + now rewrite andb_true_r.
    + now rewrite !andb_false_r.
Qed.

Lemma update_word_high_bits_witness :
  crcu64_impl_update_word (configured crcu64_impl_ctor crc_32_iso_hdlc) 0x1FF 8
  = if impl_refin (configured crcu64_impl_ctor crc_32_iso_hdlc)
    then set_accum (crcu64_impl_update_word (configured crcu64_impl_ctor crc_32_iso_hdlc)
                                            (N.land 0x1FF (N.ones 8)) 8)
                   (N.lxor (impl_accum (crcu64_impl_update_word
                                          (configured crcu64_impl_ctor crc_32_iso_hdlc)
                                          (N.land 0x1FF (N.ones 8)) 8))
                           (N.shiftr 0x1FF 8))
    else crcu64_impl_update_word (configured crcu64_impl_ctor crc_32_iso_hdlc)
                                 (N.land 0x1FF (N.ones 8)) 8.
Proof.
  apply (update_word_high_bits (configured crcu64_impl_ctor crc_32_iso_hdlc) 0x1FF 8).
  vm_compute. split; discriminate.
Defined.

(** ** The table caches *)

(** X20. The table caches only grow, and stay right: a construction
    leaves every cached table where it was, under its key, and every table
    of the caches it leaves is the table of the configuration it is stored
    under (the byte table and the eight slices of the word table of that
    configuration, for the endianness of the host). *)
Theorem caches_only_grow (h : host) (state state' : crcmodule_state)
        (config : crc_config) (method : option string)
        (data : option (N * list Byte.byte)) (o : crcu64object) :
  cache_ok h state ->
  crc_new h state config method data = Return (state', o) ->
  caches_extend state state' /\ cache_ok h state'.
Proof.
  intros Hc Hnew. split.
  - now apply (crc_new_extends h state state' config method data o).
  - now destruct (crc_new_ok h state state' config method data o Hc Hnew) as (_ & Hc' & _).
Qed.

Lemma caches_only_grow_witness :
  caches_extend crcmodule_exec
                (fst (built sample_host crcmodule_exec crc_32_iso_hdlc None))
  /\ cache_ok sample_host (fst (built sample_host crcmodule_exec crc_32_iso_hdlc None)).
Proof.
  apply (caches_only_grow sample_host crcmodule_exec
           (fst (built sample_host crcmodule_exec crc_32_iso_hdlc None))
           crc_32_iso_hdlc None None
           (snd (built sample_host crcmodule_exec crc_32_iso_hdlc None))).
  - apply cache_ok_exec.
  - rewrite <- surjective_pairing. apply (built_returned _ _ _ _ 3); reflexivity.
Defined.
